(* ===== verification/_CoqProject ===== *)
-Q . S2P
Prelude.v
GoFloat.v
GoText.v
GoBytes.v
Etree.v
Json.v
JsonMethods.v
Msgbus.v
ModbusRegister.v
ModbusSettings.v
ModbusServer.v
ModbusServerConfig.v
ModbusClient.v
ModbusLink.v
SunSpecRegister.v
Schema.v
SunSpecServer.v
SunSpecClient.v
SunSpecLink.v
SunSpecModels.v
Logic.v
Cpu.v
CpuApi.v
CpuConfig.v
Sockets.v
CpuMonitors.v
CpuServer.v
CpuWeb.v
CpuLogs.v
Telnet.v
TelnetCpu.v
Mqtt.v
Bus.v
BusPrograms.v
BusNet.v
OtSim.v
Daemon.v
NodeRedTemplate.v
NodeRed.v
Tailscale.v
Settings.v
Runs.v
Programs.v
MessageBus.v
