(* ===== verification/Prelude.v ===== *)
(** * OT-sim: a verification of the Go modules

    OT-sim runs simulated control-system devices as programs that talk over a
    message bus (ZeroMQ).  The Go part, under [src/src/go], has eight programs
    ([cmd/ot-sim-*-module]); each reads an XML document, makes the modules whose
    tags it knows, configures them and runs them ([ot-sim.go]).  Modules publish
    the values of tags as statuses and ask for changes with updates; the CPU module
    starts the other programs and supervises them.  This library models that code
    and proves what makes it correct; where the code does something else than it
    means to, a theorem states what it does.

    ** The files and the code

    Every file opens with what it holds.  In the order of [_CoqProject]:

    - [Prelude]: the monad [go S R] of a function body (state, early return,
      panic, exhausted fuel), errors, [util/exit.go] and [util/context.go], the
      automation ([go_unfold], the hint databases [go] and [go_len]) and lemmas on
      lists and strings; [GoFloat], [GoText], [GoBytes]: what the code uses of
      floating point, [strconv], [strings], [time], [encoding/binary] and of slices;
      [Etree]: the XML library, an interface; [Json]: [encoding/json] on the
      message types, strings as UTF-8 included, [JsonMethods] on types with a method
      [UnmarshalJSON].
    - [Msgbus] ([msgbus/]): envelopes, the pusher, metrics, the subscriber.
    - [ModbusRegister] ([modbus/util]), [ModbusSettings], [ModbusServer] (the eight
      function handlers, the status handler), [ModbusServerConfig],
      [ModbusClient]; [ModbusLink]: a client and a server wired together.
    - [SunSpecRegister], [Schema] (the model files, [common/types.go]),
      [SunSpecServer], [SunSpecClient] ([sunspec/common], [server], [client]);
      [SunSpecLink]: the discovery of a server by a client; [SunSpecModels]: both on
      model files.  The server and the client are modelled against the interface
      [Schemas], of which [Schema] is an instance.
    - [Logic] ([logic/logic.go]): programs over tags, the tick and its lock.
    - [Cpu] ([cpu/execute.go], [internal.go], the module handlers of [api.go]): the
      goroutines of [StartModule] as state machines; [CpuApi] (tags and metrics);
      [CpuConfig] ([cpu.go], [monitor.go]); [CpuMonitors] (the goroutines at the end
      of [CPU.Run]); [CpuServer] (the routes and the start of the API server);
      [CpuWeb] (its web sockets); [CpuLogs] (shipping of the output).
    - [Sockets]: the constructors of pushers and subscribers that panic.
    - [Telnet] ([telnet/]); [TelnetCpu]: its commands answered by the CPU module.
    - [Mqtt] ([mqtt/]).
    - [OtSim] ([ot-sim.go], the [main] functions): the registry, against the
      interfaces [Modules] (what a module can do) and [ConfiguredModules] (what it
      promises about its configuration).
    - [Daemon]: the goroutine that [nodered] and [tailscale] share;
      [NodeRedTemplate] (the settings file, [settings.js.tmpl]), [NodeRed],
      [Tailscale].
    - [Settings]: what the elements of a document mean for every kind of module, and
      that [Configure] makes it of them.
    - [Bus]: the environment of any number of programs on one message bus, against the interface
      [Peer] (what a program pushes, does and receives) with the laws [PeerLaws] and
      [Listener], which sums of programs inherit; [BusPrograms]: the eight modules
      that subscribe to the bus as instances, and the interface [Learner] (what a
      module makes of a value written to a tag); [BusNet]: systems of all of them.
    - [Runs]: the methods [Run] of all modules; [Programs]: the factories, the sum
      of all modules as an instance of [Modules], the proof that every component
      keeps the promise, and the eight programs.
    - [MessageBus]: the program of the bus itself, in C
      ([src/src/c/cmd/ot-sim-message-bus/main.c]), next to what the Go programs make
      of the same document.

    A component is a record of the fields of its Go struct, with one definition per
    method, named as in the code; a method is a value of [go], so its state after
    an error or a panic is part of the model.  Names of fields and setters repeat
    between files, which are qualified where they meet.

    ** What the theorems show

    - Composition: a Modbus client mirrors the server it reads and its updates
      reach the server's tags ([ModbusLink]); a value written over HTTP or by telnet
      reaches every module on the bus and the devices behind its clients ([BusNet]);
      the program of the bus runs on the endpoints the modules are given
      ([MessageBus]); a SunSpec client finds out the layout of any plain server
      ([SunSpecLink]); telnet commands start and stop modules ([TelnetCpu]); every
      module that a program makes from any document has the settings of its element
      ([Settings], [Programs]), and exit codes decide whether the CPU module starts a
      program again ([OtSim], [Programs]).
    - Safety and invariants: handlers of a configured server do not panic on
      complete requests, but for a multiple write that ends inside a register and
      whose buffer ends there too; channels of the supervisor belong to one module
      under every interleaving; configurations stay what they were while a client, an
      MQTT module or a logic module runs.
    - Round trips and codecs: envelopes, registers, writes followed by reads; which
      model files are taken and what is read of them ([Schema]).
    - Bounds: lengths of Modbus answers and where the length byte wraps; log lines
      posted in batches of ten; the minute that a web socket lasts.
    - Termination: discovery and failover end, a goroutine that terminates its
      program ends; some loops do not, and that is proved as well (the write
      handler of the SunSpec server, [Run] of the telnet module).
    - Faults: a NaN that leaves the lock of the logic module taken, a module that
      exits without restart, two goroutines for one module, a late confirmation
      that blocks a subscriber, a control message that ends module control, counters
      that are added up again with every report, an answer without a byte that brings
      a Modbus client down, a negative period that does so with an MQTT client, an
      empty setting or a missing endpoint that brings the bus or the modules down.

    Theorems that are not claims of their own are lemmas of their files; every
    claim with a hypothesis has a witness at a concrete input.

    ** Fuel and bounds

    Only [for] loops without a structural measure take fuel.  The read loops of the
    servers start with one unit more than the number of words asked for, and every
    register takes at least one word; the write loops, the discovery, the wait of
    the Tailscale module and the loop over the MQTT endpoints take the fuel as a
    parameter, and their theorems say how much is enough or that none is.  Loops
    over text use the length of the text.  [NoFuel] ([Loops] for a whole function)
    also stands for a call that blocks for good.  Integers are [Z] with the
    wrap-around of their width written out; [int] is 64 bits wide.

    ** What is a parameter

    Code that is not in the repository, with its documented behaviour as hypotheses
    where a theorem needs it: libxml2 ([LibXml]), the sockets of ZeroMQ ([send_ok] of a
    [bus] says which sends are accepted; [Sockets]) and its proxy ([Bus.step]), the XML library ([Etree]), the Modbus libraries
    ([ModbusLib]; what the server library passes on is a request), the expression
    language ([Expr]), Prometheus ([Prometheus]), the MQTT library, TLS, URLs, files
    and templates ([Std]), processes and executables ([LookPath], exits as events),
    the hash function and the file of Node-RED, the host of Tailscale, the embedded
    SunSpec model files ([ModelFiles]), and what the Go specification leaves to the
    platform ([GoPlatform]: conversions of floats out of range).  Iterations over
    maps are permutations that are arguments; clocks are arguments.  Goroutines are
    state machines ([cpu_step], [client_step], [mqtt_step], [daemon_step], ...)
    whose steps interleave.

    ** Simplifications

    A nil slice and an empty one are the same; slices that are returned have no
    spare capacity; a JSON document is its syntax tree, whose strings are UTF-8 text:
    an encoder replaces invalid bytes, so that a tag or a name arrives as [to_utf8] of
    it, which is the tag itself if it is valid; a handler of the subscriber is one
    step of its module, which holds its lock, where it has one, all the time; the
    attempts of an MQTT module to connect again are one step; a SUB socket that a
    monitor left open counts as open, although zmq4 closes it when the garbage
    collector finds it; an error is known by its format and its cause, not by the
    values printed in it; logging is left out except where it is the subject
    ([CpuLogs]).  A module with state in package variables (the modules of the CPU
    module, the global registers of SunSpec) carries them in its state or in the
    [World] of the registry.  After an error of [ParseConfigFile] or [Start] the
    program exits, so nothing is said about what its goroutines did meanwhile.

    ** Not modelled

    - [util/slice.go]: used by nothing.
    - The router, the TLS and web socket libraries behind [cpu/api.go] (parameters);
      the creation of sockets; [util/sigterm]: signals.
    - The tests, and the C++ and Python modules.
    - Of the Go modules: what prints, the tickers and sleeps (a tick is a step), the
      wrapper functions of the telnet commands, which only call the handlers.

    On the bus the theorems on a write ask every program to be ready: a logic module
    whose lock is free, a client that is connected to its device, a SunSpec client
    without writable texts.  What happens to those that are not is in the files of
    the modules ([Logic.nonfinite_tick_deadlocks],
    [ModbusClient.update_before_connect_panics], [SunSpecClient.text_update_panics]). *)

From stdpp Require Export prelude gmap strings list.
From Stdlib Require Export ZArith Lia.

#[global] Set Default Goal Selector "1".
#[global] Open Scope Z_scope.

(** ** Go control flow

    A Go function body is run in the monad [go S R]: [S] is the state it
    mutates, [R] what the enclosing function returns.  A statement either
    falls through to the next one ([Next]), leaves the function early
    ([Return]), panics ([Panic]) or exhausts the loop fuel ([NoFuel]: only the
    [for] loops consume fuel).  The state reached is kept on every path:
    mutations made before an early return or a panic stay visible. *)

Inductive panic :=
| PanicBounds        (* index or slice expression out of range *)
| PanicCloseClosed   (* close of a closed channel *)
| PanicNil           (* nil dereference, close of a nil channel *)
| PanicTypeAssert    (* failed type assertion v.(T) *)
| PanicExplicit.     (* panic(...) *)

#[export] Instance panic_eq_dec : EqDecision panic.
Proof. solve_decision. Defined.

Inductive ctl (R A : Type) :=
| Next (a : A)
| Return (r : R)
| Panic (p : panic)
| NoFuel.
Arguments Next {R A} a.
Arguments Return {R A} r.
Arguments Panic {R A} p.
Arguments NoFuel {R A}.

Definition go (S R A : Type) : Type := S → S * ctl R A.

#[export] Instance go_ret {S R} : MRet (go S R) := λ A a s, (s, Next a).

#[export] Instance go_bind {S R} : MBind (go S R) := λ A B f m s,
  match m s with
  | (s', Next a) => f a s'
  | (s', Return r) => (s', Return r)
  | (s', Panic p) => (s', Panic p)
  | (s', NoFuel) => (s', NoFuel)
  end.

Definition get {S R} : go S R S := λ s, (s, Next s).
Definition modify {S R} (f : S → S) : go S R () := λ s, (f s, Next ()).
Definition return_ {S R A} (r : R) : go S R A := λ s, (s, Return r).
Definition panic_ {S R A} (p : panic) : go S R A := λ s, (s, Panic p).
Definition nofuel {S R A} : go S R A := λ s, (s, NoFuel).

(** A pure expression that may panic. *)
Definition eval {S R A} (o : option A) (p : panic) : go S R A :=
  match o with Some a => mret a | None => panic_ p end.

(** Running a whole function body: its value is what it returns, whether by
    the last statement or early. *)
Inductive outcome (R : Type) :=
| Returns (r : R)
| Panics (p : panic)
| Loops.
Arguments Returns {R} r.
Arguments Panics {R} p.
Arguments Loops {R}.

Definition run {S R} (m : go S R R) (s : S) : S * outcome R :=
  match m s with
  | (s', Next r) | (s', Return r) => (s', Returns r)
  | (s', Panic p) => (s', Panics p)
  | (s', NoFuel) => (s', Loops)
  end.

(** A call of a function that returns or panics. *)
Definition call {S R A} (o : outcome A) : go S R A :=
  match o with Returns a => mret a | Panics p => panic_ p | Loops => nofuel end.

(** [for _, x := range l { body }] *)
Fixpoint range {S R A} (l : list A) (body : A → go S R ()) : go S R () :=
  match l with
  | [] => mret ()
  | x :: l' => body x ≫= λ _, range l' body
  end.

(** Fallible functions return [(T, error)]: a nil error is [inl], any other
    [inr].  An error is a sentinel value, an error of the standard library or
    one made by [fmt.Errorf], known by its format string, which may wrap ([%w])
    a cause, or a [util.ExitError] with the code the process is to exit with. *)
Inductive error :=
| Sentinel (name : string)
| Errorf (format : string)
| Wrapf (format : string) (cause : error)
| ExitError (code : Z) (format : string).

#[export] Instance error_eq_dec : EqDecision error.
Proof. solve_decision. Defined.

(** [errors.Is(e, Sentinel name)] *)
Fixpoint errors_Is (e : error) (name : string) : bool :=
  match e with
  | Sentinel n => String.eqb n name
  | Errorf _ | ExitError _ _ => false
  | Wrapf _ c => errors_Is c name
  end.

(** [errors.As(e, &exitErr)]: the exit code of the first [ExitError] of the chain *)
Fixpoint errors_As_ExitError (e : error) : option Z :=
  match e with
  | ExitError code _ => Some code
  | Wrapf _ c => errors_As_ExitError c
  | Sentinel _ | Errorf _ => None
  end.

Definition ExitNoRestart : Z := 101.

Definition NewExitError (code : Z) (format : string) : error := ExitError code format.

Definition result (A : Type) : Type := A + error.

(** [if err != nil { return fmt.Errorf(format, err) }] *)
Definition wrapf {A} (format : string) (r : result A) : result A :=
  match r with inl a => inl a | inr e => inr (Wrapf format e) end.

Definition result_bind {A B} (r : result A) (k : A → result B) : result B :=
  match r with inl a => k a | inr e => inr e end.

Notation "'try' x ':=' r 'in' k" := (result_bind r (λ x, k))
  (at level 10, x name, r at level 100, k at level 200).

(** ** util: the context of a program *)

(** A context, as far as it matters here: the configuration file it carries. *)
Definition context : Type := option string.

Definition Background : context := None.
Definition SetConfigFile (ctx : context) (path : string) : context := Some path.
Definition ConfigFile (ctx : context) : option string := ctx.

Definition MustConfigFile {S R} (ctx : context) : go S R string :=
  eval (ConfigFile ctx) PanicExplicit.

(** ** Automation *)

Create HintDb go.
Create Rewrite HintDb go_len.

Ltac go_unfold :=
  unfold call, eval, get, modify, return_, panic_, nofuel, mret, mbind, go_ret, go_bind in *.

(** Split the conditionals and matches of the goal or of a hypothesis. *)
Ltac split_match :=
  match goal with
  | |- context [match ?x with _ => _ end] => destruct x eqn:?
  | H : context [match ?x with _ => _ end] |- _ => destruct x eqn:?
  end.

(** *** Reasoning on [go] *)

Section go_laws.
Context {S R : Type}.

Lemma bind_next {A B} (m : go S R A) (k : A → go S R B) s s' a :
  m s = (s', Next a) → (m ≫= k) s = k a s'.
Proof. unfold mbind, go_bind. by intros ->. Qed.

Lemma bind_return {A B} (m : go S R A) (k : A → go S R B) s s' r :
  m s = (s', Return r) → (m ≫= k) s = (s', Return r).
Proof. unfold mbind, go_bind. by intros ->. Qed.

(** Whatever way it ends, [m] leads from a state to a related one. *)
Definition keeps (Q : S → S → Prop) {A} (m : go S R A) : Prop := ∀ s, Q s (m s).1.

Context (Q : S → S → Prop) `{!PreOrder Q}.

Lemma keeps_ret {A} (a : A) : keeps Q (mret a).
Proof. by intros s. Qed.

Lemma keeps_bind {A B} (m : go S R A) (k : A → go S R B) :
  keeps Q m → (∀ a, keeps Q (k a)) → keeps Q (m ≫= k).
Proof.
  intros Hm Hk s. specialize (Hm s). unfold mbind, go_bind.
  destruct (m s) as [s' [a| | |]]; simpl in *; try done.
  transitivity s'; [done|apply Hk].
Qed.

Lemma keeps_return {A} (r : R) : keeps Q (return_ (A:=A) r).
Proof. by intros s. Qed.

Lemma keeps_get : keeps Q get.
Proof. by intros s. Qed.

Lemma keeps_modify f : (∀ s, Q s (f s)) → keeps Q (modify f).
Proof. by intros Hf s. Qed.

Lemma keeps_eval {A} (o : option A) p : keeps Q (eval o p).
Proof. by destruct o; intros s. Qed.

Lemma keeps_call {A} (o : outcome A) : keeps Q (call o).
Proof. by destruct o; intros s. Qed.

Lemma keeps_nofuel {A} : keeps Q (nofuel (A:=A)).
Proof. by intros s. Qed.

Lemma keeps_range {A} (l : list A) body : (∀ x, keeps Q (body x)) → keeps Q (range l body).
Proof. intros Hb. induction l; [apply keeps_ret|]. apply keeps_bind; auto. Qed.

Lemma keeps_range_Forall {A} (l : list A) body :
  Forall (λ x, keeps Q (body x)) l → keeps Q (range l body).
Proof. intros Hb. induction Hb; [apply keeps_ret|]. apply keeps_bind; auto. Qed.

(** [m] neither panics nor runs out of fuel, and what it returns early is [P]. *)
Definition ends (P : R → Prop) {A} (m : go S R A) : Prop := ∀ s,
  match (m s).2 with Next _ => True | Return r => P r | _ => False end.

Lemma ends_ret P {A} (a : A) : ends P (mret a).
Proof. by intros s. Qed.

Lemma ends_bind P {A B} (m : go S R A) (k : A → go S R B) :
  ends P m → (∀ a, ends P (k a)) → ends P (m ≫= k).
Proof.
  intros Hm Hk s. specialize (Hm s). unfold mbind, go_bind.
  destruct (m s) as [s' [a| | |]]; try done. apply Hk.
Qed.

Lemma ends_return (P : R → Prop) {A} r : P r → ends P (return_ (A:=A) r).
Proof. by intros Hr s. Qed.

Lemma ends_get P : ends P get.
Proof. by intros s. Qed.

Lemma ends_modify P f : ends P (modify f).
Proof. by intros s. Qed.

Lemma ends_range P {A} (l : list A) body : (∀ x, ends P (body x)) → ends P (range l body).
Proof. intros Hb. induction l; [apply ends_ret|]. apply ends_bind; auto. Qed.

Lemma run_keeps (m : go S R R) s : keeps Q m → Q s (run m s).1.
Proof. intros Hm. specialize (Hm s). unfold run. by destruct (m s) as [s' [| | |]]. Qed.
End go_laws.

#[export] Hint Resolve keeps_ret keeps_bind keeps_return keeps_get keeps_modify keeps_eval keeps_call
  keeps_nofuel keeps_range ends_ret ends_bind ends_return ends_get ends_modify ends_range : go.

#[export] Hint Extern 1 (PreOrder _) => typeclasses eauto : go.

(** ** Lists *)

Lemma Forall_replicate_intro {A} (P : A → Prop) n x : P x → Forall P (replicate n x).
Proof. intros Hx. induction n; simpl; constructor; auto. Qed.

Lemma fold_left_ext {A B} (f g : A → B → A) (l : list B) a :
  (∀ x y, f x y = g x y) → fold_left f l a = fold_left g l a.
Proof. intros H. revert a. induction l; intros a0; simpl; [done|]. rewrite H. auto. Qed.

#[export] Hint Resolve Forall_replicate_intro : go.
#[export] Hint Rewrite @length_app @length_replicate @length_fmap @length_insert : go_len.

(** Solve goals on lengths after normalising them. *)
Ltac len := autorewrite with go_len; simpl; try lia.

(** ** Strings *)

Lemma string_app_nil_r (s : string) : s +:+ "" = s.
Proof. induction s as [|c s IH]; [done|]. exact (f_equal (String.String c) IH). Qed.

Lemma string_app_assoc (s t u : string) : s +:+ (t +:+ u) = (s +:+ t) +:+ u.
Proof. induction s as [|c s IH]; [done|]. exact (f_equal (String.String c) IH). Qed.

(** The texts of the elements of a list, one after the other. *)
Definition texts {A} (f : A → string) (l : list A) : string := foldr (λ x t, f x +:+ t) "" l.
