(* ===== verification/GoFloat.v ===== *)
(** * Go's [float64] and [float32]

    Values are the IEEE 754 numbers of the Standard Library's [SpecFloat]
    (exact, executable, no axioms): binary64 is [prec = 53], [emax = 1024],
    binary32 is [prec = 24], [emax = 128].  NaN payloads are not represented.
    What the Go specification or the [math] package leaves to the platform is
    a field of the class [GoPlatform]. *)

From Stdlib Require Export SpecFloat.
From S2P Require Import Prelude.

(** ** Fixed-width integer types *)

Inductive int_kind := I16 | U16 | I32 | U32 | I64 | U64.

#[export] Instance int_kind_eq_dec : EqDecision int_kind.
Proof. solve_decision. Defined.

Definition int_bits (k : int_kind) : Z :=
  match k with I16 | U16 => 16 | I32 | U32 => 32 | I64 | U64 => 64 end.

Definition int_signed (k : int_kind) : bool :=
  match k with I16 | I32 | I64 => true | _ => false end.

Definition int_min (k : int_kind) : Z :=
  if int_signed k then - 2 ^ (int_bits k - 1) else 0.

Definition int_max (k : int_kind) : Z :=
  if int_signed k then 2 ^ (int_bits k - 1) - 1 else 2 ^ int_bits k - 1.

Definition in_range (k : int_kind) (z : Z) : Prop := int_min k ≤ z ≤ int_max k.

Definition in_rangeb (k : int_kind) (z : Z) : bool :=
  (int_min k <=? z) && (z <=? int_max k).

(** [int64(z)], [uint16(z)], ...: conversions between integers wrap around. *)
Definition wrap (k : int_kind) (z : Z) : Z :=
  let m := z mod 2 ^ int_bits k in
  if int_signed k && (2 ^ (int_bits k - 1) <=? m) then m - 2 ^ int_bits k else m.

(** ** Arithmetic *)

Abbreviation float64 := spec_float (only parsing).

Definition valid64 (f : float64) : Prop := valid_binary 53 1024 f = true.
Definition valid32 (f : spec_float) : Prop := valid_binary 24 128 f = true.

Definition fmul : float64 → float64 → float64 := SFmul 53 1024.
Definition fdiv : float64 → float64 → float64 := SFdiv 53 1024.
Definition fadd : float64 → float64 → float64 := SFadd 53 1024.
Definition fsub : float64 → float64 → float64 := SFsub 53 1024.

(** [float64(z)] for an integer [z]. *)
Definition f64_of_Z (z : Z) : float64 := binary_normalize 53 1024 z 0 false.

Definition f64_0 : float64 := S754_zero false.
Definition f64_1 : float64 := f64_of_Z 1.

(** The comparison [==] of floats: NaN differs from everything, -0 == +0. *)
Definition feqb : float64 → float64 → bool := SFeqb.

Definition is_nan (f : spec_float) : bool :=
  match f with S754_nan => true | _ => false end.

Definition is_finite (f : spec_float) : bool :=
  match f with S754_zero _ | S754_finite _ _ _ => true | _ => false end.

(** Truncation toward zero; [None] for NaN and the infinities. *)
Definition f64_trunc (f : spec_float) : option Z :=
  match f with
  | S754_zero _ => Some 0
  | S754_finite s m e =>
      let a := if 0 <=? e then Zpos m * 2 ^ e else Zpos m / 2 ^ (- e) in
      Some (cond_Zopp s a)
  | _ => None
  end.

(** [float32(f)] and [float64(f)] between the two widths. *)
Definition f32_of_f64 (f : float64) : spec_float :=
  match f with S754_finite s m e => binary_round 24 128 s m e | _ => f end.

Definition f64_of_f32 (f : spec_float) : float64 :=
  match f with S754_finite s m e => binary_round 53 1024 s m e | _ => f end.

(** ** Platform-dependent behaviour *)

Class GoPlatform := {
  (** float-to-integer conversion of a value the type cannot represent:
      "the behavior is implementation-dependent" (Go specification). *)
  unrep_conv : int_kind → float64 → Z;
  unrep_conv_range : ∀ k f, in_range k (unrep_conv k f);
  (** the bit patterns of the NaNs the hardware produces *)
  nan64_bits : Z;
  nan32_bits : Z;
  (** math.Exp(yf * math.Log(10)) for a fraction 0 < |yf| <= 0.5: [math.Exp]
      is written in assembly on the main platforms. *)
  exp_log10 : float64 → float64;
}.

(** [int16(f)], [uint32(f)], ... for a float [f]. *)
Definition conv `{GoPlatform} (k : int_kind) (f : float64) : Z :=
  match f64_trunc f with
  | Some z => if in_rangeb k z then z else unrep_conv k f
  | None => unrep_conv k f
  end.

(** ** math.Pow(10, y)

    The algorithm of Go's [math.Pow] with [x = 10]: the special cases that
    apply to a finite base greater than one, then the square-and-multiply
    loop over the bits of the integral part of |y| on the mantissa and
    exponent [math.Frexp] gives. *)

Fixpoint pow_loop (i : positive) (a1 : float64) (ae : Z) (x1 : float64) (xe : Z)
  : float64 * Z :=
  if (xe <? - 2 ^ 12) || (2 ^ 12 <? xe) then (a1, ae + xe) else
  let odd := match i with xO _ => false | _ => true end in
  let a1' := if odd then fmul a1 x1 else a1 in
  let ae' := if odd then ae + xe else ae in
  let x2 := fmul x1 x1 in
  let xe2 := Z.shiftl xe 1 in
  let half := SFltb x2 (S754_finite false 4503599627370496 (-53)) in
  let x3 := if half then fadd x2 x2 else x2 in
  let xe3 := if half then xe2 - 1 else xe2 in
  match i with
  | xH => (a1', ae')
  | xO p | xI p => pow_loop p a1' ae' x3 xe3
  end.

Definition f64_half : float64 := fdiv f64_1 (f64_of_Z 2).

Definition math_Pow10 `{GoPlatform} (y : float64) : float64 :=
  let x := f64_of_Z 10 in
  if feqb y f64_0 then f64_1
  else if feqb y f64_1 then x
  else match y with
  | S754_nan => S754_nan
  | S754_infinity s => if s then f64_0 else S754_infinity false
  | _ =>
    if feqb y f64_half then SFsqrt 53 1024 x
    else if feqb y (SFopp f64_half) then fdiv f64_1 (SFsqrt 53 1024 x)
    else
    let ay := SFabs y in
    let yi := default 0 (f64_trunc ay) in
    let yf := fsub ay (f64_of_Z yi) in
    if 2 ^ 63 <=? yi then (if SFltb y f64_0 then f64_0 else S754_infinity false) else
    let up := SFltb f64_half yf in
    let yf' := if up then fsub yf f64_1 else yf in
    let yi' := if negb (feqb yf f64_0) && up then yi + 1 else yi in
    let a1 := if feqb yf f64_0 then f64_1 else exp_log10 yf' in
    let '(x1, xe) := SFfrexp 53 1024 x in
    let '(a1, ae) :=
      match yi' with Zpos i => pow_loop i a1 0 x1 xe | _ => (a1, 0) end in
    if SFltb y f64_0 then SFldexp 53 1024 (fdiv f64_1 a1) (- ae)
    else SFldexp 53 1024 a1 ae
  end.

(** ** math.Float64bits, math.Float64frombits and their 32-bit versions

    The IEEE interchange format with [mw] mantissa bits and [ew] exponent
    bits; [nan] is the pattern used for a NaN. *)

Definition to_bits (mw ew nan : Z) (f : spec_float) : Z :=
  let sgn (s : bool) := if s then 2 ^ (mw + ew) else 0 in
  let emin := emin (mw + 1) (2 ^ (ew - 1)) in
  match f with
  | S754_zero s => sgn s
  | S754_infinity s => sgn s + (2 ^ ew - 1) * 2 ^ mw
  | S754_nan => nan
  | S754_finite s m e =>
      if Zpos m <? 2 ^ mw then sgn s + Zpos m
      else sgn s + (e - emin + 1) * 2 ^ mw + (Zpos m - 2 ^ mw)
  end.

Definition of_bits (mw ew : Z) (b : Z) : spec_float :=
  let s := Z.testbit b (mw + ew) in
  let x := (b / 2 ^ mw) mod 2 ^ ew in
  let t := b mod 2 ^ mw in
  let emin := emin (mw + 1) (2 ^ (ew - 1)) in
  if x =? 0 then
    match t with Zpos m => S754_finite s m emin | _ => S754_zero s end
  else if x =? 2 ^ ew - 1 then
    if t =? 0 then S754_infinity s else S754_nan
  else
    match t + 2 ^ mw with
    | Zpos m => S754_finite s m (x - 1 + emin)
    | _ => S754_nan (* not reached: the sum is positive *)
    end.

Definition f64_bits `{GoPlatform} (f : float64) : Z := to_bits 52 11 nan64_bits f.
Definition f64_of_bits (b : Z) : float64 := of_bits 52 11 b.
Definition f32_bits `{GoPlatform} (f : spec_float) : Z := to_bits 23 8 nan32_bits f.
Definition f32_of_bits (b : Z) : spec_float := of_bits 23 8 b.

(** ** Integers at their width *)

Lemma in_rangeb_spec k z : in_rangeb k z = true ↔ in_range k z.
Proof. unfold in_rangeb, in_range. rewrite andb_true_iff, !Z.leb_le. done. Qed.

Lemma wrap_range k z : in_range k (wrap k z).
Proof.
  unfold in_range, wrap, int_min, int_max.
  pose proof (Z.mod_pos_bound z (2 ^ int_bits k)) as Hm.
  destruct k; simpl in *; repeat case_match; rewrite ?Z.leb_le, ?Z.leb_gt in *; lia.
Qed.

Lemma wrap_id k z : in_range k z → wrap k z = z.
Proof.
  unfold in_range, wrap, int_min, int_max. intros Hz.
  destruct (decide (0 ≤ z)) as [Hp|Hn].
  - destruct k; simpl in *; rewrite Z.mod_small by lia; repeat case_match;
      rewrite ?Z.leb_le, ?Z.leb_gt in *; lia.
  - assert (z mod 2 ^ int_bits k = z + 2 ^ int_bits k) as ->.
    { symmetry. apply Z.mod_unique with (-1); destruct k; simpl in *; lia. }
    destruct k; simpl in *; repeat case_match; rewrite ?Z.leb_le, ?Z.leb_gt in *; lia.
Qed.

Lemma wrap_mod k z : wrap k (z mod 2 ^ int_bits k) = wrap k z.
Proof. unfold wrap. by rewrite Z.mod_mod by (destruct k; done). Qed.

(** ** Digits and rounding *)

Lemma digits2_log2 m : Zpos (digits2_pos m) = Z.log2 (Zpos m) + 1.
Proof.
  induction m as [m IH|m IH|]; simpl digits2_pos; [| |done].
  - rewrite Pos2Z.inj_succ, IH.
    change (Z.pos m~1) with (2 * Z.pos m + 1). rewrite Z.log2_succ_double; lia.
  - rewrite Pos2Z.inj_succ, IH.
    change (Z.pos m~0) with (2 * Z.pos m). rewrite Z.log2_double; lia.
Qed.

Lemma iter_pos_nat {A} (f : A → A) n x : SpecFloat.iter_pos f n x = Nat.iter (Pos.to_nat n) f x.
Proof.
  revert x. induction n as [n IH|n IH|]; intros x; cbn [SpecFloat.iter_pos]; rewrite ?IH; [| |done].
  - rewrite Pos2Nat.inj_xI, Nat.iter_succ_r, <- Nat.iter_add. f_equal. lia.
  - rewrite Pos2Nat.inj_xO, <- Nat.iter_add. f_equal. lia.
Qed.

Lemma shr_1_iter k m :
  Nat.iter k shr_1 (Build_shr_record (Zpos m * 2 ^ Z.of_nat k) false false)
  = Build_shr_record (Zpos m) false false.
Proof.
  induction k as [|k IH]; [by rewrite Z.mul_1_r|].
  rewrite Nat.iter_succ_r. rewrite <- IH. f_equal.
  rewrite Nat2Z.inj_succ, Z.pow_succ_r by lia.
  destruct (Zpos m * 2 ^ Z.of_nat k) as [|p|p] eqn:Hp.
  - pose proof (Z.pow_pos_nonneg 2 (Z.of_nat k)). lia.
  - replace (Z.pos m * (2 * 2 ^ Z.of_nat k)) with (Zpos p~0) by lia. done.
  - pose proof (Z.pow_pos_nonneg 2 (Z.of_nat k)). lia.
Qed.

(** A valid number scaled by an exact power of two rounds to itself. *)
Lemma binary_round_aux_exact prec emax s m e k :
  0 ≤ k → bounded prec emax m (e + k) = true →
  binary_round_aux prec emax s (Zpos m * 2 ^ k) e loc_Exact = S754_finite s m (e + k).
Proof.
  intros Hk [Hc He]%andb_true_iff. apply Z.eqb_eq in Hc.
  unfold binary_round_aux, shr_fexp.
  assert (Hd : Zdigits2 (Z.pos m * 2 ^ k) + e = Zpos (digits2_pos m) + (e + k)).
  { pose proof (Z.pow_pos_nonneg 2 k).
    assert (Zdigits2 (Z.pos m * 2 ^ k) = Z.log2 (Z.pos m * 2 ^ k) + 1) as ->.
    { destruct (Z.pos m * 2 ^ k) eqn:Hp; [lia| |lia]. apply digits2_log2. }
    rewrite digits2_log2, Z.log2_mul_pow2 by lia. lia. }
  rewrite Hd, Hc. replace (e + k - e) with k by lia. simpl shr_record_of_loc.
  assert (shr {| shr_m := Z.pos m * 2 ^ k; shr_r := false; shr_s := false |} e k
          = (Build_shr_record (Zpos m) false false, e + k)) as ->.
  { destruct k as [|k|k]; [| |lia]; unfold shr.
    - by rewrite Z.mul_1_r, Z.add_0_r.
    - rewrite iter_pos_nat. f_equal. rewrite <- (shr_1_iter (Pos.to_nat k)).
      by rewrite positive_nat_Z. }
  simpl. rewrite Hc, Z.sub_diag. simpl. by rewrite He.
Qed.

Lemma pos_iter_xO m d : Zpos (Pos.iter xO m d) = Zpos m * 2 ^ Zpos d.
Proof.
  induction d as [|d IH] using Pos.peano_ind; [simpl; lia|].
  rewrite Pos.iter_succ, Pos2Z.inj_succ, Z.pow_succ_r by lia.
  change (Z.pos (Pos.iter xO m d)~0) with (2 * Z.pos (Pos.iter xO m d)). lia.
Qed.

(** A number with more trailing room than it needs is aligned to its canonical
    exponent and kept exactly. *)
Lemma binary_round_shl prec emax s m e d :
  0 ≤ d → fexp prec emax (Zpos (digits2_pos m) + e) = e - d → e - d ≤ emax - prec →
  ∃ m', Zpos m' = Zpos m * 2 ^ d ∧
    bounded prec emax m' (e - d) = true ∧
    binary_round prec emax s m e = S754_finite s m' (e - d).
Proof.
  intros Hd Hf He. unfold binary_round, shl_align. rewrite Hf.
  replace (e - d - e) with (- d) by lia.
  assert (∃ m', (match - d with
                 | Zneg d0 => (Pos.iter xO m d0, e - d)
                 | _ => (m, e) end) = (m', e - d) ∧ Zpos m' = Zpos m * 2 ^ d)
    as (m' & -> & Hm').
  { destruct d as [|d|d]; simpl; [| |lia].
    - exists m. rewrite Z.sub_0_r. split; [done|lia].
    - eexists; split; [done|apply pos_iter_xO]. }
  assert (Hb : bounded prec emax m' (e - d) = true).
  { unfold bounded, canonical_mantissa. rewrite andb_true_iff, Z.eqb_eq, Z.leb_le.
    rewrite digits2_log2, Hm', Z.log2_mul_pow2 by lia.
    split; [|done]. rewrite <- Hf at 2. f_equal. rewrite digits2_log2. lia. }
  exists m'. split_and!; [done|done|].
  pose proof (binary_round_aux_exact prec emax s m' (e - d) 0) as H.
  rewrite Z.mul_1_r, Z.add_0_r in H. apply H; [lia|done].
Qed.

(** *** Rounding gives valid numbers

    A mantissa whose exponent leaves it at least as many digits as it needs is
    shifted to the canonical exponent; the digit that rounding may add is shifted
    out again. *)

Lemma Zdigits2_pos z : 0 < z → Zdigits2 z = Z.log2 z + 1.
Proof. destruct z; [lia| |lia]. intros _. apply digits2_log2. Qed.

Lemma shr_1_m r : 0 ≤ shr_m r → shr_m (shr_1 r) = shr_m r / 2.
Proof.
  destruct r as [[|[p|p|]|p] b c]; cbn -[Z.div]; intros; Z.div_mod_to_equations; lia.
Qed.

Lemma shr_m_iter k r : 0 ≤ shr_m r → shr_m (Nat.iter k shr_1 r) = shr_m r / 2 ^ Z.of_nat k.
Proof.
  intros Hr. induction k as [|k IH]; [by rewrite Z.div_1_r|].
  rewrite Nat.iter_succ, shr_1_m, IH, Z.div_div by (rewrite ?IH; try apply Z.div_pos; lia).
  f_equal. rewrite Nat2Z.inj_succ, Z.pow_succ_r by lia. lia.
Qed.

Lemma shr_m_of_loc m l : shr_m (shr_record_of_loc m l) = m.
Proof. by destruct l as [|[| |]]. Qed.

Section round_valid.
Context (prec emax : Z).
Hypothesis prec_pos : 1 < prec.
#[local] Abbreviation fexp := (fexp prec emax).

Lemma fexp_mono a b : a ≤ b → fexp a ≤ fexp b.
Proof. unfold SpecFloat.fexp. lia. Qed.

Lemma shr_fexp_m m e l :
  0 ≤ m → e ≤ fexp (Zdigits2 m + e) →
  ∃ r, shr_fexp prec emax m e l = (r, fexp (Zdigits2 m + e)) ∧
    shr_m r = m / 2 ^ (fexp (Zdigits2 m + e) - e).
Proof.
  intros Hm He. unfold shr_fexp, shr. set (f := fexp _) in *.
  destruct (f - e) as [|n|n] eqn:Hn; [| |lia].
  - eexists. split; [f_equal; lia|]. by rewrite shr_m_of_loc, Z.div_1_r.
  - eexists. split; [f_equal; lia|].
    by rewrite iter_pos_nat, shr_m_iter, shr_m_of_loc, positive_nat_Z by (by rewrite shr_m_of_loc).
Qed.

(** After the shift the exponent is canonical, or nothing is left. *)
Lemma shifted_canonical m e :
  0 ≤ m → e ≤ fexp (Zdigits2 m + e) →
  let f := fexp (Zdigits2 m + e) in
  let m' := m / 2 ^ (f - e) in
  0 ≤ m' ∧ if decide (m' = 0) then f = emin prec emax else fexp (Zdigits2 m' + f) = f.
Proof.
  intros Hm He f m'. assert (0 ≤ m') as Hm' by (apply Z.div_pos; lia). split; [done|].
  assert (0 ≤ f - e) as Hf by (unfold f; lia).
  destruct (decide (m' = 0)) as [H0|H0].
  - assert (m < 2 ^ (f - e)) as Hlt.
    { apply Z.nle_gt. intros Hle. apply (Z.div_le_mono _ _ (2 ^ (f - e))) in Hle; [|lia].
      rewrite Z.div_same in Hle by lia. unfold m' in H0. lia. }
    assert (Zdigits2 m + e ≤ f).
    { destruct (decide (m = 0)) as [->|Hne]; [simpl; lia|].
      rewrite Zdigits2_pos by lia. apply Z.log2_lt_pow2 in Hlt; lia. }
    unfold f, SpecFloat.fexp in *. lia.
  - assert (m ≠ 0) as Hne by (intros ->; apply H0; unfold m'; by rewrite Z.div_0_l by lia).
    assert (Z.log2 m' = Z.log2 m - (f - e)) as Hl.
    { unfold m' in *. rewrite <- Z.shiftr_div_pow2 in * by lia. rewrite Z.log2_shiftr by lia.
      apply Z.max_r, Z.nlt_ge. intros Hlt. apply H0. apply Z.shiftr_eq_0; lia. }
    unfold f at 2. rewrite !Zdigits2_pos by lia. rewrite Hl. f_equal. lia.
Qed.

Lemma binary_round_aux_valid s m e l :
  0 ≤ m → e ≤ fexp (Zdigits2 m + e) →
  valid_binary prec emax (binary_round_aux prec emax s m e l) = true.
Proof.
  intros Hm He. unfold binary_round_aux.
  destruct (shr_fexp_m m e l Hm He) as (r & -> & Hr).
  destruct (shifted_canonical m e Hm He) as [Hm1 Hc1]. cbv zeta in Hm1, Hc1.
  rewrite <- Hr in Hm1, Hc1. set (f := fexp (Zdigits2 m + e)) in *. clearbody f.
  set (m2 := round_nearest_even (shr_m r) (loc_of_shr_record r)).
  assert (shr_m r ≤ m2) as Hm2.
  { unfold m2, round_nearest_even. destruct (loc_of_shr_record r) as [|[| |]]; cbv iota; [lia|destruct (Z.even _); lia|lia..]. }
  assert (f ≤ fexp (Zdigits2 m2 + f)) as Hf.
  { destruct (decide (shr_m r = 0)); [unfold SpecFloat.fexp; lia|].
    rewrite <- Hc1 at 1. apply fexp_mono. rewrite !Zdigits2_pos by lia.
    pose proof (Z.log2_le_mono _ _ Hm2). lia. }
  destruct (shr_fexp_m m2 f loc_Exact ltac:(lia) Hf) as (r2 & -> & Hr2).
  destruct (shifted_canonical m2 f ltac:(lia) Hf) as [_ Hc2]. cbv zeta in Hc2. rewrite <- Hr2 in Hc2.
  destruct (shr_m r2) as [|p|p]; [done| |done].
  destruct (Z.leb _ _) eqn:Hle; [|done]. cbn [valid_binary]. unfold bounded. rewrite Hle, andb_true_r.
  apply Z.eqb_eq. exact Hc2.
Qed.

Lemma binary_round_valid s m e : valid_binary prec emax (binary_round prec emax s m e) = true.
Proof.
  unfold binary_round, shl_align. set (f := fexp (Zpos (digits2_pos m) + e)).
  destruct (f - e) as [|d|d] eqn:Hd.
  1, 2: apply binary_round_aux_valid; [lia|]; change (e ≤ f); lia.
  apply binary_round_aux_valid; [lia|]. simpl Zdigits2.
  rewrite digits2_log2, pos_iter_xO, Z.log2_mul_pow2 by lia.
  unfold f at 1. rewrite digits2_log2. apply fexp_mono. lia.
Qed.

Lemma binary_normalize_valid m e s : valid_binary prec emax (binary_normalize prec emax m e s) = true.
Proof. destruct m; [done|apply binary_round_valid..]. Qed.

(** The quotient of a division has enough digits. *)
Lemma SFdiv_core_digits m1 m2 q e l :
  0 < m1 → 0 < m2 → SFdiv_core_binary prec emax m1 0 m2 0 = (q, e, l) →
  0 ≤ q ∧ e ≤ fexp (Zdigits2 q + e).
Proof.
  intros H1 H2. unfold SFdiv_core_binary. rewrite !Z.add_0_r, Z.sub_0_r.
  set (d := Zdigits2 m1 - Zdigits2 m2). set (e' := Z.min (fexp d) 0). cbn [Z.sub].
  set (m' := match 0 - e' with Zpos _ => Z.shiftl m1 (0 - e') | Z0 => m1 | Zneg _ => 0 end).
  assert (m' = m1 * 2 ^ (- e')) as Hm'.
  { unfold m'. destruct (0 - e') as [|p|p] eqn:Hp; [| |lia].
    - replace (- e') with 0 by lia. lia.
    - rewrite Z.shiftl_mul_pow2 by lia. do 2 f_equal. lia. }
  destruct (Z.div_eucl m' m2) as [q' r] eqn:Hq. intros [= <- <- _].
  assert (q' = m' / m2) as -> by (unfold Z.div; by rewrite Hq).
  assert (0 < 2 ^ (- e')) by (apply Z.pow_pos_nonneg; lia).
  assert (0 ≤ m' / m2) as Hq0 by (apply Z.div_pos; nia). split; [done|].
  transitivity (fexp d); [lia|]. apply fexp_mono. unfold d.
  rewrite !(Zdigits2_pos m1), !(Zdigits2_pos m2) by done.
  set (k := Z.log2 m1 - e' - Z.log2 m2 - 1).
  destruct (decide (k < 0)) as [Hk|Hk].
  { assert (0 ≤ Zdigits2 (m' / m2)) by (destruct (m' / m2); simpl; lia). lia. }
  assert (2 ^ k ≤ m' / m2) as Hle.
  { apply Z.div_le_lower_bound; [done|]. rewrite Hm'.
    pose proof (Z.log2_spec m1 H1). pose proof (Z.log2_spec m2 H2).
    transitivity (2 ^ (Z.log2 m2 + 1) * 2 ^ k); [nia|].
    rewrite <- Z.pow_add_r by (pose proof (Z.log2_nonneg m2); lia).
    replace (Z.log2 m2 + 1 + k) with (Z.log2 m1 + - e') by lia.
    rewrite Z.pow_add_r by (pose proof (Z.log2_nonneg m1); lia). nia. }
  assert (0 < 2 ^ k) by (apply Z.pow_pos_nonneg; lia).
  pose proof (Z.log2_le_mono _ _ Hle) as Hl. rewrite Z.log2_pow2 in Hl by lia.
  rewrite Zdigits2_pos by lia. lia.
Qed.
End round_valid.

(** ** Integers as floats *)

Lemma f64_of_pos m :
  Zpos m < 2 ^ 53 →
  ∃ m' d, 0 ≤ d ∧ Zpos m' = Zpos m * 2 ^ d ∧ bounded 53 1024 m' (- d) = true ∧
    ∀ s, binary_round 53 1024 s m 0 = S754_finite s m' (- d).
Proof.
  intros Hm. set (d := 52 - Z.log2 (Zpos m)).
  assert (Z.log2 (Zpos m) < 53) by (apply Z.log2_lt_pow2; lia).
  pose proof (Z.log2_nonneg (Zpos m)).
  assert (Hf : fexp 53 1024 (Zpos (digits2_pos m) + 0) = 0 - d).
  { rewrite digits2_log2. unfold fexp, emin, d. lia. }
  destruct (binary_round_shl 53 1024 false m 0 d) as (m' & Hm' & Hb & _); [lia|done|lia|].
  exists m', d. rewrite Z.sub_0_l in Hb. split_and!; [lia|done|done|]. intros s.
  destruct (binary_round_shl 53 1024 s m 0 d) as (m2 & Hm2 & _ & Hr); [lia|done|lia|].
  rewrite Hr, Z.sub_0_l. f_equal. lia.
Qed.

Lemma f64_of_Z_shape z :
  z ≠ 0 → Z.abs z < 2 ^ 53 →
  ∃ m' d, 0 ≤ d ∧ Zpos m' = Z.abs z * 2 ^ d ∧ bounded 53 1024 m' (- d) = true ∧
    f64_of_Z z = S754_finite (z <? 0) m' (- d).
Proof.
  intros Hz Hlt. unfold f64_of_Z.
  destruct z as [|m|m]; [done| |];
    destruct (f64_of_pos m) as (m' & d & Hd & Hm' & Hb & Hr); try lia;
    exists m', d; split_and!; eauto; apply Hr.
Qed.

Lemma f64_of_Z_valid z : Z.abs z < 2 ^ 53 → valid64 (f64_of_Z z).
Proof.
  intros Hz. destruct (decide (z = 0)) as [->|Hne]; [done|].
  destruct (f64_of_Z_shape z) as (m' & d & _ & _ & Hb & ->); done.
Qed.

Lemma f64_of_Z_finite z : Z.abs z < 2 ^ 53 → is_finite (f64_of_Z z) = true.
Proof.
  intros Hz. destruct (decide (z = 0)) as [->|Hne]; [done|].
  by destruct (f64_of_Z_shape z) as (m' & d & _ & _ & _ & ->).
Qed.

(** Every integer below 2^53 in magnitude survives the trip through a float64. *)
Lemma f64_trunc_of_Z z : Z.abs z < 2 ^ 53 → f64_trunc (f64_of_Z z) = Some z.
Proof.
  intros Hz. destruct (decide (z = 0)) as [->|Hne]; [done|].
  destruct (f64_of_Z_shape z) as (m' & d & Hd & Hm & _ & ->); [done|done|].
  unfold f64_trunc. f_equal. rewrite Z.opp_involutive, Hm.
  pose proof (Z.pow_pos_nonneg 2 d).
  assert ((if 0 <=? - d then Z.abs z * 2 ^ d * 2 ^ (- d) else Z.abs z * 2 ^ d / 2 ^ d)
          = Z.abs z) as ->.
  { destruct (Z.leb_spec 0 (- d)).
    - assert (d = 0) as -> by lia. lia.
    - by rewrite Z.div_mul by lia. }
  destruct (Z.ltb_spec z 0); simpl; lia.
Qed.

Lemma f64_of_Z_inj z1 z2 :
  Z.abs z1 < 2 ^ 53 → Z.abs z2 < 2 ^ 53 → f64_of_Z z1 = f64_of_Z z2 → z1 = z2.
Proof.
  intros H1 H2 Heq. apply (f_equal f64_trunc) in Heq.
  rewrite !f64_trunc_of_Z in Heq by done. congruence.
Qed.

Lemma conv_of_Z `{GoPlatform} k z :
  Z.abs z < 2 ^ 53 → in_range k z → conv k (f64_of_Z z) = z.
Proof.
  intros Hz Hr. unfold conv. rewrite f64_trunc_of_Z by done.
  apply in_rangeb_spec in Hr. by rewrite Hr.
Qed.

Lemma conv_range `{GoPlatform} k f : in_range k (conv k f).
Proof.
  unfold conv. repeat case_match; try apply unrep_conv_range.
  by apply in_rangeb_spec.
Qed.

(** Multiplication by one is exact. *)
Lemma fmul_1_r f : valid64 f → fmul f f64_1 = f.
Proof.
  intros Hv. destruct f as [s|s| |s m e]; try (by destruct s); [done|].
  change f64_1 with (S754_finite false 4503599627370496 (-52)).
  unfold fmul, SFmul. rewrite xorb_false_r, Pos2Z.inj_mul.
  change 4503599627370496 with (2 ^ 52).
  rewrite binary_round_aux_exact; [f_equal; lia|lia|].
  replace (e + -52 + 52) with e by lia. done.
Qed.

Lemma math_Pow10_0 `{GoPlatform} s : math_Pow10 (S754_zero s) = f64_1.
Proof. done. Qed.

(** ** The IEEE interchange formats

    [math.Float64bits] and [math.Float32bits] and their inverses, for [mw]
    mantissa bits and [ew] exponent bits. *)

Section bits.
Context (mw ew : Z) (Hmw : 0 < mw) (Hew : 1 < ew) (Hwide : mw + 1 < 2 ^ (ew - 1)).

Lemma bits_fields (s : bool) x t :
  0 ≤ x < 2 ^ ew → 0 ≤ t < 2 ^ mw →
  let b := (if s then 2 ^ (mw + ew) else 0) + x * 2 ^ mw + t in
  Z.testbit b (mw + ew) = s ∧ (b / 2 ^ mw) mod 2 ^ ew = x ∧ b mod 2 ^ mw = t.
Proof using Hmw Hew.
  intros Hx Ht. simpl. set (sg := if s then 1 else 0).
  assert ((if s then 2 ^ (mw + ew) else 0) = sg * 2 ^ ew * 2 ^ mw) as ->.
  { unfold sg. destruct s; [|lia]. rewrite Z.pow_add_r by lia. lia. }
  replace (sg * 2 ^ ew * 2 ^ mw + x * 2 ^ mw + t) with (t + (sg * 2 ^ ew + x) * 2 ^ mw) by lia.
  assert (Hq : (t + (sg * 2 ^ ew + x) * 2 ^ mw) / 2 ^ mw = sg * 2 ^ ew + x).
  { rewrite Z.div_add by lia. rewrite Z.div_small by lia. lia. }
  split_and!.
  - rewrite Z.testbit_eqb, Z.pow_add_r by lia.
    rewrite <- Z.div_div by lia. rewrite Hq.
    rewrite (Z.add_comm (sg * _)), Z.div_add, Z.div_small by lia.
    unfold sg. by destruct s.
  - rewrite Hq, Z.add_comm, Z.mod_add, Z.mod_small by lia. done.
  - rewrite Z.mod_add, Z.mod_small by lia. done.
Qed.

(** Decoding inverts encoding on every valid number that is not a NaN. *)
Lemma of_to_bits nan f :
  valid_binary (mw + 1) (2 ^ (ew - 1)) f = true → is_nan f = false →
  of_bits mw ew (to_bits mw ew nan f) = f.
Proof using Hmw Hew Hwide.
  intros Hv Hn. set (emx := 2 ^ (ew - 1)) in *.
  assert (Hemx : 2 ^ ew = 2 * emx).
  { unfold emx. rewrite <- Z.pow_succ_r by lia. f_equal. lia. }
  assert (0 < 2 ^ mw) by (apply Z.pow_pos_nonneg; lia).
  unfold of_bits, to_bits. fold emx. set (em := emin (mw + 1) emx).
  destruct f as [s|s| |s m e]; [| |done|].
  - destruct (bits_fields s 0 0) as (Hs & Hx & Ht); [lia|lia|].
    rewrite Z.mul_0_l, !Z.add_0_r in Hs, Hx, Ht. by rewrite Hx, Ht, Hs.
  - destruct (bits_fields s (2 ^ ew - 1) 0) as (Hs & Hx & Ht); [lia|lia|].
    rewrite Z.add_0_r in Hs, Hx, Ht. rewrite Hx, Ht, Hs.
    rewrite Z.eqb_refl. destruct (Z.eqb_spec (2 ^ ew - 1) 0); [lia|done].
  - simpl in Hv. apply andb_true_iff in Hv as [Hc He].
    apply Z.eqb_eq in Hc. apply Z.leb_le in He. rewrite digits2_log2 in Hc.
    unfold fexp in Hc. fold em in Hc.
    pose proof (Z.log2_spec (Zpos m)) as [Hl1 Hl2]; [lia|].
    destruct (Z.ltb_spec (Zpos m) (2 ^ mw)) as [Hlt|Hge].
    + apply Z.log2_lt_pow2 in Hlt as Hlog; [|lia].
      destruct (bits_fields s 0 (Zpos m)) as (Hs & Hx & Ht); [lia|lia|].
      rewrite Z.mul_0_l, Z.add_0_r in Hs, Hx, Ht. rewrite Hx, Ht, Hs. simpl.
      f_equal. lia.
    + apply Z.log2_le_pow2 in Hge as Hlog; [|lia].
      assert (Z.log2 (Zpos m) = mw) as Hlm by lia.
      rewrite Hlm in *. rewrite Z.pow_succ_r in Hl2 by lia.
      assert (em = 3 - emx - (mw + 1)) as Hem by done.
      destruct (bits_fields s (e - em + 1) (Zpos m - 2 ^ mw)) as (Hs & Hx & Ht); [lia|lia|].
      rewrite Hx, Ht, Hs.
      destruct (Z.eqb_spec (e - em + 1) 0); [lia|].
      destruct (Z.eqb_spec (e - em + 1) (2 ^ ew - 1)); [lia|].
      replace (Zpos m - 2 ^ mw + 2 ^ mw) with (Zpos m) by lia. f_equal. lia.
Qed.

Lemma to_bits_range nan f :
  valid_binary (mw + 1) (2 ^ (ew - 1)) f = true → is_nan f = false →
  0 ≤ to_bits mw ew nan f < 2 ^ (mw + ew + 1).
Proof using Hmw Hew Hwide.
  intros Hv Hn. set (emx := 2 ^ (ew - 1)) in *.
  assert (Hemx : 2 ^ ew = 2 * emx).
  { unfold emx. rewrite <- Z.pow_succ_r by lia. f_equal. lia. }
  assert (0 < 2 ^ mw) by (apply Z.pow_pos_nonneg; lia).
  assert (Hsum : 2 ^ (mw + ew) = 2 ^ mw * (2 * emx)) by (rewrite Z.pow_add_r by lia; lia).
  assert (Hsum1 : 2 ^ (mw + ew + 1) = 2 * 2 ^ (mw + ew)).
  { rewrite <- Z.pow_succ_r by lia. f_equal. }
  unfold to_bits. fold emx. set (em := emin (mw + 1) emx).
  assert (Hsg : ∀ s : bool, 0 ≤ (if s then 2 ^ (mw + ew) else 0) ≤ 2 ^ (mw + ew))
    by (intros []; lia).
  destruct f as [s|s| |s m e]; [| |done|]; specialize (Hsg s).
  - nia.
  - rewrite Hemx. nia.
  - simpl in Hv. apply andb_true_iff in Hv as [Hc He].
    apply Z.eqb_eq in Hc. apply Z.leb_le in He. rewrite digits2_log2 in Hc.
    unfold fexp in Hc. fold em in Hc.
    pose proof (Z.log2_spec (Zpos m)) as [Hl1 Hl2]; [lia|].
    assert (em = 3 - emx - (mw + 1)) as Hem by done.
    destruct (Z.ltb_spec (Zpos m) (2 ^ mw)) as [Hlt|Hge]; [nia|].
    apply Z.log2_le_pow2 in Hge as Hlog; [|lia].
    assert (Z.log2 (Zpos m) = mw) as Hlm by lia.
    rewrite Hlm in *. rewrite Z.pow_succ_r in Hl2 by lia. nia.
Qed.

Lemma bits_split b :
  0 ≤ b < 2 ^ (mw + ew + 1) →
  b = (if Z.testbit b (mw + ew) then 2 ^ (mw + ew) else 0)
      + (b / 2 ^ mw) mod 2 ^ ew * 2 ^ mw + b mod 2 ^ mw.
Proof using Hmw Hew.
  intros Hb.
  assert (0 < 2 ^ mw) by (apply Z.pow_pos_nonneg; lia).
  assert (0 < 2 ^ ew) by (apply Z.pow_pos_nonneg; lia).
  assert (Hsum : 2 ^ (mw + ew) = 2 ^ mw * 2 ^ ew) by (rewrite Z.pow_add_r by lia; lia).
  assert (2 ^ (mw + ew + 1) = 2 * 2 ^ (mw + ew)).
  { rewrite <- Z.pow_succ_r by lia. f_equal. }
  rewrite Z.testbit_eqb by lia.
  pose proof (Z.div_mod b (2 ^ mw)). pose proof (Z.div_mod (b / 2 ^ mw) (2 ^ ew)).
  rewrite Hsum, <- Z.div_div by lia.
  assert (0 ≤ b / 2 ^ mw / 2 ^ ew < 2).
  { rewrite Z.div_div, <- Hsum by lia. split; [apply Z.div_pos; lia|].
    apply Z.div_lt_upper_bound; lia. }
  assert (b / 2 ^ mw / 2 ^ ew = 0 ∨ b / 2 ^ mw / 2 ^ ew = 1) as [Hq|Hq] by lia;
    rewrite Hq in *; simpl; nia.
Qed.

(** Encoding inverts decoding on every pattern that is not a NaN. *)
Lemma to_of_bits nan b :
  0 ≤ b < 2 ^ (mw + ew + 1) → is_nan (of_bits mw ew b) = false →
  to_bits mw ew nan (of_bits mw ew b) = b.
Proof using Hmw Hew.
  intros Hb Hn. apply bits_split in Hb. unfold of_bits, to_bits in *.
  assert (0 < 2 ^ mw) by (apply Z.pow_pos_nonneg; lia).
  pose proof (Z.mod_pos_bound b (2 ^ mw)).
  set (x := (b / 2 ^ mw) mod 2 ^ ew) in *. set (t := b mod 2 ^ mw) in *.
  destruct (Z.eqb_spec x 0) as [Hx|Hx].
  - destruct t as [|p|p] eqn:Ht; [lia| |lia].
    destruct (Z.ltb_spec (Zpos p) (2 ^ mw)); lia.
  - destruct (Z.eqb_spec x (2 ^ ew - 1)) as [Hx2|Hx2].
    + destruct (Z.eqb_spec t 0) as [Ht|Ht]; [|done]. rewrite Hx2 in Hb. lia.
    + destruct (t + 2 ^ mw) as [|p|p] eqn:Ht; [lia| |lia].
      destruct (Z.ltb_spec (Zpos p) (2 ^ mw)); [lia|].
      replace (x - 1 + emin (mw + 1) (2 ^ (ew - 1)) - emin (mw + 1) (2 ^ (ew - 1)) + 1)
        with x by lia. lia.
Qed.

Lemma of_bits_valid b :
  valid_binary (mw + 1) (2 ^ (ew - 1)) (of_bits mw ew b) = true.
Proof using Hmw Hew.
  unfold of_bits. set (emx := 2 ^ (ew - 1)).
  assert (Hemx : 2 ^ ew = 2 * emx).
  { unfold emx. rewrite <- Z.pow_succ_r by lia. f_equal. lia. }
  assert (2 ^ 1 ≤ emx) by (apply Z.pow_le_mono_r; lia).
  assert (0 < 2 ^ mw) by (apply Z.pow_pos_nonneg; lia).
  pose proof (Z.mod_pos_bound b (2 ^ mw)).
  pose proof (Z.mod_pos_bound (b / 2 ^ mw) (2 ^ ew)).
  set (x := (b / 2 ^ mw) mod 2 ^ ew) in *. set (t := b mod 2 ^ mw) in *.
  assert (Hb : ∀ m e, emin (mw + 1) emx ≤ e ≤ emx - (mw + 1) →
    (Z.log2 (Zpos m) = mw ∨ e = emin (mw + 1) emx ∧ Z.log2 (Zpos m) < mw) →
    bounded (mw + 1) emx m e = true).
  { intros m e He Hl. unfold bounded, canonical_mantissa, fexp.
    rewrite andb_true_iff, Z.eqb_eq, Z.leb_le, digits2_log2. lia. }
  assert (emin (mw + 1) emx = 3 - emx - (mw + 1)) as Hem by done.
  destruct (Z.eqb_spec x 0) as [Hx|Hx].
  - destruct t as [|p|p] eqn:Ht; [done| |done]. apply Hb; [lia|].
    right. split; [done|]. apply Z.log2_lt_pow2; lia.
  - destruct (Z.eqb_spec x (2 ^ ew - 1)) as [Hx2|Hx2]; [by destruct (t =? 0)|].
    destruct (t + 2 ^ mw) as [|p|p] eqn:Ht; [done| |done]. apply Hb; [lia|].
    left. apply Z.log2_unique; [lia|]. rewrite <- Ht, Z.pow_succ_r by lia. lia.
Qed.
End bits.

Lemma f64_bits_roundtrip `{GoPlatform} f :
  valid64 f → is_nan f = false → f64_of_bits (f64_bits f) = f.
Proof. apply (of_to_bits 52 11); done. Qed.

Lemma f64_bits_range `{GoPlatform} f :
  valid64 f → is_nan f = false → 0 ≤ f64_bits f < 2 ^ 64.
Proof. apply (to_bits_range 52 11); done. Qed.

Lemma f64_of_bits_inv `{GoPlatform} b :
  0 ≤ b < 2 ^ 64 → is_nan (f64_of_bits b) = false → f64_bits (f64_of_bits b) = b.
Proof. apply (to_of_bits 52 11); done. Qed.

Lemma f32_bits_roundtrip `{GoPlatform} f :
  valid32 f → is_nan f = false → f32_of_bits (f32_bits f) = f.
Proof. apply (of_to_bits 23 8); done. Qed.

Lemma f32_bits_range `{GoPlatform} f :
  valid32 f → is_nan f = false → 0 ≤ f32_bits f < 2 ^ 32.
Proof. apply (to_bits_range 23 8); done. Qed.

Lemma f32_of_bits_inv `{GoPlatform} b :
  0 ≤ b < 2 ^ 32 → is_nan (f32_of_bits b) = false → f32_bits (f32_of_bits b) = b.
Proof. apply (to_of_bits 23 8); done. Qed.

Lemma f64_of_bits_valid b : valid64 (f64_of_bits b).
Proof. apply (of_bits_valid 52 11); done. Qed.

Lemma f32_of_bits_valid b : valid32 (f32_of_bits b).
Proof. apply (of_bits_valid 23 8); done. Qed.

(** ** float32 values are a subset of the float64 values *)

Lemma f64_of_f32_shape s m e :
  bounded 24 128 m e = true →
  ∃ m' d, 0 ≤ d ∧ Zpos m' = Zpos m * 2 ^ d ∧ bounded 53 1024 m' (e - d) = true ∧
    f64_of_f32 (S754_finite s m e) = S754_finite s m' (e - d).
Proof.
  intros [Hc He]%andb_true_iff. apply Z.eqb_eq in Hc. apply Z.leb_le in He.
  rewrite digits2_log2 in Hc. unfold fexp, emin in Hc.
  pose proof (Z.log2_nonneg (Zpos m)).
  destruct (binary_round_shl 53 1024 s m e (52 - Z.log2 (Zpos m)))
    as (m' & Hm' & Hb & Hr); [lia|unfold fexp, emin; rewrite digits2_log2; lia|lia|].
  exists m', (52 - Z.log2 (Zpos m)). split_and!; [lia|done|done|exact Hr].
Qed.

Lemma f32_roundtrip f : valid32 f → f32_of_f64 (f64_of_f32 f) = f.
Proof.
  intros Hv. destruct f as [s|s| |s m e]; [done|done|done|].
  destruct (f64_of_f32_shape s m e Hv) as (m' & d & Hd & Hm' & _ & ->).
  unfold valid32 in Hv. simpl in Hv.
  pose proof Hv as [Hc _]%andb_true_iff. apply Z.eqb_eq in Hc.
  unfold f32_of_f64, binary_round, shl_align.
  assert (fexp 24 128 (Z.pos (digits2_pos m') + (e - d)) = e) as ->.
  { rewrite digits2_log2, Hm', Z.log2_mul_pow2 by lia.
    rewrite <- Hc at 2. f_equal. rewrite digits2_log2. lia. }
  replace (e - (e - d)) with d by lia.
  assert (match d with Zneg d0 => (Pos.iter xO m' d0, e) | _ => (m', e - d) end
          = (m', e - d)) as -> by (destruct d; [done|done|lia]).
  rewrite Hm', binary_round_aux_exact; [f_equal; lia|lia|].
  by replace (e - d + d) with e by lia.
Qed.

Lemma f64_of_f32_valid f : valid32 f → valid64 (f64_of_f32 f).
Proof.
  intros Hv. destruct f as [s|s| |s m e]; [done|done|done|].
  by destruct (f64_of_f32_shape s m e Hv) as (m' & d & _ & _ & Hb & ->).
Qed.

Lemma f64_of_f32_nan f : valid32 f → is_nan (f64_of_f32 f) = is_nan f.
Proof.
  intros Hv. destruct f as [s|s| |s m e]; [done|done|done|].
  by destruct (f64_of_f32_shape s m e Hv) as (m' & d & _ & _ & _ & ->).
Qed.

#[export] Hint Resolve f64_of_bits_valid f32_of_bits_valid f64_of_f32_valid
  f64_of_Z_valid wrap_range conv_range : go.

(** ** Exact addition of integers *)

Lemma binary_normalize_scale z k :
  0 ≤ k → Z.abs z < 2 ^ 53 →
  binary_normalize 53 1024 (z * 2 ^ k) (- k) false = f64_of_Z z.
Proof.
  intros Hk Hz. pose proof (Z.pow_pos_nonneg 2 k).
  assert (Hpos : ∀ s p, Zpos p < 2 ^ 53 → ∀ q, Zpos q = Zpos p * 2 ^ k →
    binary_round 53 1024 s q (- k) = binary_round 53 1024 s p 0).
  { intros s p Hp q Hq. destruct (f64_of_pos p Hp) as (m' & d & Hd & Hm & Hb & ->).
    pose proof Hb as [Hc He]%andb_true_iff. apply Z.eqb_eq in Hc. apply Z.leb_le in He.
    assert (Hf : fexp 53 1024 (Zpos (digits2_pos q) + - k) = - d).
    { rewrite <- Hc. f_equal. rewrite !digits2_log2, Hm, Hq, !Z.log2_mul_pow2 by lia. lia. }
    destruct (Z.leb_spec k d).
    - destruct (binary_round_shl 53 1024 s q (- k) (d - k)) as (m2 & Hm2 & _ & ->);
        [lia|rewrite Hf; lia|lia|].
      replace (- k - (d - k)) with (- d) by lia. f_equal.
      assert (Zpos m2 = Zpos m'); [|congruence].
      rewrite Hm2, Hq, Hm, <- Z.mul_assoc, <- Z.pow_add_r by lia. do 2 f_equal. lia.
    - unfold binary_round, shl_align. rewrite Hf.
      assert (match - d - - k with Zneg d0 => (Pos.iter xO q d0, - d) | _ => (q, - k) end
              = (q, - k)) as -> by (destruct (- d - - k) eqn:E; [done|done|lia]).
      assert (Zpos q = Zpos m' * 2 ^ (k - d)) as ->.
      { rewrite Hq, Hm, <- Z.mul_assoc, <- Z.pow_add_r by lia. do 2 f_equal. lia. }
      rewrite binary_round_aux_exact; [f_equal; lia|lia|].
      by replace (- k + (k - d)) with (- d) by lia. }
  unfold f64_of_Z. destruct z as [|p|p]; [done| |].
  - destruct (Z.pos p * 2 ^ k) as [|q|q] eqn:Hq; [nia| |nia]. simpl. apply Hpos; lia.
  - destruct (Z.neg p * 2 ^ k) as [|q|q] eqn:Hq; [nia|nia|]. simpl. apply Hpos; lia.
Qed.

Lemma f64_of_Z_signed z :
  z ≠ 0 → Z.abs z < 2 ^ 53 →
  ∃ m d, 0 ≤ d ∧ f64_of_Z z = S754_finite (z <? 0) m (- d) ∧
    cond_Zopp (z <? 0) (Zpos m) = z * 2 ^ d.
Proof.
  intros Hz Hlt. destruct (f64_of_Z_shape z Hz Hlt) as (m & d & Hd & Hm & _ & He).
  exists m, d. split_and!; [done|done|]. rewrite Hm.
  destruct (Z.ltb_spec z 0); simpl; lia.
Qed.

Lemma shl_align_fst m e e' :
  e' ≤ e → Zpos (fst (shl_align m e e')) = Zpos m * 2 ^ (e - e').
Proof.
  intros He. unfold shl_align.
  destruct (e' - e) as [|p|p] eqn:E; [|lia|]; simpl fst.
  - replace (e - e') with 0 by lia. lia.
  - rewrite pos_iter_xO. do 2 f_equal. lia.
Qed.

(** The sum of two integers is exact while it stays below 2^53. *)
Lemma fadd_of_Z a b :
  Z.abs a < 2 ^ 53 → Z.abs b < 2 ^ 53 → Z.abs (a + b) < 2 ^ 53 →
  fadd (f64_of_Z a) (f64_of_Z b) = f64_of_Z (a + b).
Proof.
  intros Ha Hb Hab. destruct (decide (a = 0)) as [->|Hna].
  { destruct (decide (b = 0)) as [->|Hnb]; [done|].
    destruct (f64_of_Z_signed b Hnb Hb) as (m & d & _ & He & _).
    rewrite Z.add_0_l, He. done. }
  destruct (f64_of_Z_signed a Hna Ha) as (ma & da & Hda & Hea & Hca).
  destruct (decide (b = 0)) as [->|Hnb]; [by rewrite Z.add_0_r, Hea|].
  destruct (f64_of_Z_signed b Hnb Hb) as (mb & db & Hdb & Heb & Hcb).
  rewrite Hea, Heb. unfold fadd, SFadd. set (k := Z.max da db).
  replace (Z.min (- da) (- db)) with (- k) by lia.
  assert (Hopp : ∀ s m d z, d ≤ k → 0 ≤ d → cond_Zopp s (Zpos m) = z * 2 ^ d →
    cond_Zopp s (Zpos (fst (shl_align m (- d) (- k)))) = z * 2 ^ k).
  { intros s m d z Hdk Hd Hc. rewrite shl_align_fst by lia.
    replace (2 ^ k) with (2 ^ d * 2 ^ (- d - - k)) by (rewrite <- Z.pow_add_r by lia; f_equal; lia).
    rewrite Z.mul_assoc, <- Hc. destruct s; simpl; lia. }
  rewrite (Hopp _ ma da a), (Hopp _ mb db b) by (done || lia).
  rewrite <- Z.mul_add_distr_r. apply binary_normalize_scale; lia.
Qed.

(** ** Exact multiplication of integers *)

Lemma f64_of_Z_exponent z :
  z ≠ 0 → Z.abs z < 2 ^ 53 →
  ∃ m, Zpos m = Z.abs z * 2 ^ (52 - Z.log2 (Z.abs z)) ∧
    bounded 53 1024 m (- (52 - Z.log2 (Z.abs z))) = true ∧
    f64_of_Z z = S754_finite (z <? 0) m (- (52 - Z.log2 (Z.abs z))).
Proof.
  intros Hz Hlt. destruct (f64_of_Z_shape z Hz Hlt) as (m & d & Hd & Hm & Hb & He).
  assert (d = 52 - Z.log2 (Z.abs z)) as ->; [|eauto].
  pose proof Hb as [Hc _]%andb_true_iff. apply Z.eqb_eq in Hc.
  rewrite digits2_log2, Hm, Z.log2_mul_pow2 in Hc by lia. unfold fexp, emin in Hc.
  pose proof (Z.log2_nonneg (Z.abs z)).
  assert (Z.log2 (Z.abs z) < 53) by (apply Z.log2_lt_pow2; lia). lia.
Qed.

Lemma fmul_of_Z a b :
  Z.abs a < 2 ^ 53 → 0 ≤ b < 2 ^ 53 → Z.abs (a * b) < 2 ^ 53 → b ≠ 0 →
  fmul (f64_of_Z a) (f64_of_Z b) = f64_of_Z (a * b).
Proof.
  intros Ha Hb Hab Hnb. destruct (decide (a = 0)) as [->|Hna].
  { rewrite Z.mul_0_l.
    destruct (f64_of_Z_exponent b Hnb ltac:(lia)) as (m & _ & _ & ->).
    destruct (Z.ltb_spec b 0); [lia|done]. }
  destruct (f64_of_Z_exponent a Hna Ha) as (ma & Hma & _ & ->).
  destruct (f64_of_Z_exponent b Hnb ltac:(lia)) as (mb & Hmb & _ & ->).
  destruct (f64_of_Z_exponent (a * b) ltac:(lia) Hab) as (m & Hm & Hbd & ->).
  rewrite Z.abs_mul in *.
  set (la := Z.log2 (Z.abs a)) in *. set (lb := Z.log2 (Z.abs b)) in *.
  set (lab := Z.log2 (Z.abs a * Z.abs b)) in *.
  assert (la + lb ≤ lab) by (apply Z.log2_mul_below; lia).
  assert (0 ≤ la ∧ 0 ≤ lb ∧ la < 53 ∧ lb < 53 ∧ lab < 53) as (?&?&?&?&?).
  { unfold la, lb, lab. repeat split; try apply Z.log2_nonneg; apply Z.log2_lt_pow2; lia. }
  unfold fmul, SFmul. rewrite Pos2Z.inj_mul, Hma, Hmb.
  assert (Z.abs a * 2 ^ (52 - la) * (Z.abs b * 2 ^ (52 - lb))
          = Zpos m * 2 ^ (52 - la - lb + lab)) as ->.
  { rewrite Hm, <- (Z.mul_assoc _ (2 ^ (52 - lab))), <- Z.pow_add_r by lia.
    replace (52 - lab + (52 - la - lb + lab)) with ((52 - la) + (52 - lb)) by lia.
    rewrite Z.pow_add_r by lia. ring. }
  rewrite binary_round_aux_exact; [|lia|].
  - f_equal; [|lia].
    assert ((b <? 0) = false) as -> by (apply Z.ltb_ge; lia). rewrite xorb_false_r.
    pose proof (Z.mul_neg_pos a b). pose proof (Z.mul_nonneg_nonneg a b).
    destruct (Z.ltb_spec a 0), (Z.ltb_spec (a * b) 0); lia || done.
  - replace (- (52 - la) + - (52 - lb) + (52 - la - lb + lab)) with (- (52 - lab)) by lia. done.
Qed.

(** math.Pow(10, s) is the exact power of ten for the small exponents. *)
Lemma math_Pow10_int `{GoPlatform} s :
  0 ≤ s ≤ 15 → math_Pow10 (f64_of_Z s) = f64_of_Z (10 ^ s).
Proof.
  intros Hs.
  assert (s = 0 ∨ s = 1 ∨ s = 2 ∨ s = 3 ∨ s = 4 ∨ s = 5 ∨ s = 6 ∨ s = 7 ∨ s = 8 ∨ s = 9
    ∨ s = 10 ∨ s = 11 ∨ s = 12 ∨ s = 13 ∨ s = 14 ∨ s = 15) as Hc by lia.
  repeat destruct Hc as [->|Hc]; [..|subst s]; vm_compute; reflexivity.
Qed.

(** A concrete platform for the witnesses: the conversions of amd64, where an
    unrepresentable value gives the smallest integer, and its NaNs. *)
#[refine] Definition amd64 : GoPlatform := {|
  unrep_conv k _ := int_min k;
  nan64_bits := 9221120237041090561;
  nan32_bits := 2143289344;
  exp_log10 _ := f64_1;
|}.
Proof. by intros [] f; split. Defined.
