(* ===== verification/GoText.v ===== *)
(** * The text functions of the Go standard library the modules use

    [strconv.Atoi], [strconv.ParseFloat], [strconv.ParseBool],
    [time.ParseDuration], the verb %f of [fmt] and parts of [strings].  A Go string is a sequence of
    bytes, here a [string] of 8-bit characters. *)

From Stdlib Require Import Ascii SpecFloat.
From stdpp Require Import pretty.
From S2P Require Import Prelude GoFloat.

Definition ErrSyntax : error := Sentinel "invalid syntax".
Definition ErrRange : error := Sentinel "value out of range".

Definition code (c : ascii) : Z := Z.of_N (N_of_ascii c).

Definition digit (c : ascii) : option Z :=
  if (48 <=? code c) && (code c <=? 57) then Some (code c - 48) else None.

(** The letter-case folding bit trick [c | ('x' - 'X')]. *)
Definition lower (c : ascii) : Z := Z.lor (code c) 32.

Definition hex_digit (c : ascii) : option Z :=
  match digit c with
  | Some d => Some d
  | None => if (97 <=? lower c) && (lower c <=? 102) then Some (lower c - 87) else None
  end.

(** An optional sign: whether it is a minus, and the rest. *)
Definition sign (s : string) : bool * string :=
  match s with
  | String "+" r => (false, r)
  | String "-" r => (true, r)
  | _ => (false, s)
  end.

(** ** strconv.Atoi *)

(** [ParseUint(s, 10, 64)]: an overflow is reported as soon as it is met. *)
Fixpoint parse_uint (n : Z) (s : string) : Z * option error :=
  match s with
  | EmptyString => (n, None)
  | String c s' =>
    match digit c with
    | None => (0, Some ErrSyntax)
    | Some d =>
      if int_max U64 <? n * 10 + d then (int_max U64, Some ErrRange)
      else parse_uint (n * 10 + d) s'
    end
  end.

(** The value comes with the error: out of range, it is the nearest integer. *)
Definition Atoi (s : string) : Z * option error :=
  let '(neg, body) := sign s in
  match body with
  | EmptyString => (0, Some ErrSyntax)
  | _ =>
    match parse_uint 0 body with
    | (_, Some (Sentinel "invalid syntax")) => (0, Some ErrSyntax)
    | (un, _) =>
      if negb neg && (2 ^ 63 <=? un) then (int_max I64, Some ErrRange)
      else if neg && (2 ^ 63 <? un) then (int_min I64, Some ErrRange)
      else (if neg then - un else un, None)
    end
  end.

(** ** strconv.ParseBool *)

Definition ParseBool (s : string) : bool * option error :=
  if existsb (String.eqb s) ["1"; "t"; "T"; "TRUE"; "true"; "True"] then (true, None)
  else if existsb (String.eqb s) ["0"; "f"; "F"; "FALSE"; "false"; "False"] then (false, None)
  else (false, Some ErrSyntax).

(** ** strings *)

Definition HasPrefix (s prefix : string) : bool := String.prefix prefix s.

Definition ascii_lower (c : ascii) : ascii :=
  if (65 <=? code c) && (code c <=? 90) then ascii_of_N (Z.to_N (code c + 32)) else c.

Fixpoint lower_string (s : string) : string :=
  match s with EmptyString => EmptyString | String c s' => String (ascii_lower c) (lower_string s') end.

(** [strings.EqualFold(s, t)] for a [t] in ASCII without the letters k and s,
    the only ones with a fold outside ASCII. *)
Definition EqualFold (s t : string) : bool := String.eqb (lower_string s) (lower_string t).

(** [strings.Split(s, sep)] for a separator of one byte: never empty. *)
Fixpoint Split (s : string) (sep : ascii) : list string :=
  match s with
  | EmptyString => [EmptyString]
  | String c s' =>
    match Split s' sep with
    | [] => []
    | w :: ws => if Ascii.eqb c sep then EmptyString :: w :: ws else String c w :: ws
    end
  end.

(** [strings.SplitN(s, sep, 2)] for a separator of one byte *)
Fixpoint SplitN2 (s : string) (sep : ascii) : string * option string :=
  match s with
  | EmptyString => (EmptyString, None)
  | String c s' =>
    if Ascii.eqb c sep then (EmptyString, Some s')
    else let '(l, r) := SplitN2 s' sep in (String c l, r)
  end.

(** [strings.ReplaceAll(s, old, new)] for a non-empty [old].  Each round moves on
    by one character at least, so the length of [s] is enough fuel. *)
Fixpoint drop_prefix (p s : string) : option string :=
  match p, s with
  | EmptyString, _ => Some s
  | String a p', String b s' => if Ascii.eqb a b then drop_prefix p' s' else None
  | String _ _, EmptyString => None
  end.

Fixpoint replace_all (fuel : nat) (s old new : string) : string :=
  match fuel, s with
  | S fuel', String c s' =>
    match drop_prefix old s with
    | Some r => new +:+ replace_all fuel' r old new
    | None => String c (replace_all fuel' s' old new)
    end
  | _, _ => s
  end.

Definition ReplaceAll (s old new : string) : string := replace_all (String.length s) s old new.

(** The UTF-8 forms of the white space of [unicode.IsSpace]. *)
Definition space_runes : list (list Z) :=
  [[9]; [10]; [11]; [12]; [13]; [32]; [194; 133]; [194; 160]; [225; 154; 128];
   [226; 128; 128]; [226; 128; 129]; [226; 128; 130]; [226; 128; 131]; [226; 128; 132];
   [226; 128; 133]; [226; 128; 134]; [226; 128; 135]; [226; 128; 136]; [226; 128; 137];
   [226; 128; 138]; [226; 128; 168]; [226; 128; 169]; [226; 128; 175]; [226; 129; 159];
   [227; 128; 128]].

Fixpoint strip (p l : list Z) : option (list Z) :=
  match p, l with
  | [], _ => Some l
  | x :: p', y :: l' => if x =? y then strip p' l' else None
  | _ :: _, [] => None
  end.

Fixpoint strip_any (ps : list (list Z)) (l : list Z) : option (list Z) :=
  match ps with
  | [] => None
  | p :: ps' => match strip p l with Some l' => Some l' | None => strip_any ps' l end
  end.

(** Each round strips one character at least, so the length is enough fuel. *)
Fixpoint trim (fuel : nat) (ps : list (list Z)) (l : list Z) : list Z :=
  match fuel with
  | O => l
  | S fuel' => match strip_any ps l with Some l' => trim fuel' ps l' | None => l end
  end.

Definition bytes_of (s : string) : list Z := map code (String.list_ascii_of_string s).
Definition string_of (l : list Z) : string :=
  String.string_of_list_ascii (map (λ z, ascii_of_N (Z.to_N z)) l).

Definition TrimSpace (s : string) : string :=
  let l := bytes_of s in
  let l1 := trim (length l) space_runes l in
  string_of (rev (trim (length l1) (map (@rev Z) space_runes) (rev l1))).

(** ** strconv.ParseFloat(s, 64) *)

(** [underscoreOK]: an underscore stands between digits, or after a prefix. *)
Inductive under := UStart | UDigit | UUnder | UOther.

Fixpoint underscore_loop (hex : bool) (i : under) (s : string) : bool :=
  match s with
  | EmptyString => match i with UUnder => false | _ => true end
  | String c s' =>
    if bool_decide (is_Some (if hex then hex_digit c else digit c))
    then underscore_loop hex UDigit s'
    else if Ascii.eqb c "_" then
      match i with UDigit => underscore_loop hex UUnder s' | _ => false end
    else match i with UUnder => false | _ => underscore_loop hex UOther s' end
  end.

Definition underscoreOK (s : string) : bool :=
  match snd (sign s) with
  | String "0" (String c r) =>
    if existsb (Z.eqb (lower c)) [98; 111; 120] then underscore_loop (lower c =? 120) UDigit r
    else underscore_loop false UStart (snd (sign s))
  | s' => underscore_loop false UStart s'
  end.

(** The mantissa: its digits as an integer, how many followed the dot, whether
    there was any digit and any underscore, and the rest of the text. *)
Record mantissa := mk_mantissa {
  mant : Z; fraction : Z; saw_digits : bool; saw_under : bool; mant_rest : string }.

Fixpoint scan_mantissa (hex dot digits under : bool) (m frac : Z) (s : string) : mantissa :=
  match s with
  | EmptyString => mk_mantissa m frac digits under s
  | String c s' =>
    if Ascii.eqb c "_" then scan_mantissa hex dot digits true m frac s'
    else if Ascii.eqb c "." then
      if dot then mk_mantissa m frac digits under s
      else scan_mantissa hex true digits under m frac s'
    else
      match (if hex then hex_digit c else digit c) with
      | Some d => scan_mantissa hex dot true under (m * (if hex then 16 else 10) + d)
                    (if dot then frac + 1 else frac) s'
      | None => mk_mantissa m frac digits under s
      end
  end.

(** The digits of the exponent, which saturate. *)
Fixpoint scan_exponent (e : Z) (under : bool) (s : string) : Z * bool * string :=
  match s with
  | EmptyString => (e, under, s)
  | String c s' =>
    if Ascii.eqb c "_" then scan_exponent e true s'
    else match digit c with
         | Some d => scan_exponent (if e <? 10000 then e * 10 + d else e) under s'
         | None => (e, under, s)
         end
  end.

(** [None]: no number.  [Some None]: no exponent. *)
Definition exponent (hex : bool) (s : string) : option (option Z * bool * string) :=
  match s with
  | String c s' =>
    if lower c =? (if hex then 112 else 101) then
      let '(neg, r) := sign s' in
      match r with
      | String d _ =>
        match digit d with
        | Some _ => let '(e, under, rest) := scan_exponent 0 false r in
                    Some (Some (if neg then - e else e), under, rest)
        | None => None
        end
      | EmptyString => None
      end
    else Some (None, false, s)
  | EmptyString => Some (None, false, s)
  end.

(** The float64 nearest to [m * 10^e]. *)
Definition round_decimal (neg : bool) (m e : Z) : float64 :=
  match m with
  | Zpos p =>
    if 0 <=? e then binary_normalize 53 1024 (if neg then - (m * 10 ^ e) else m * 10 ^ e) 0 neg
    else let '(q, ez, l) := SFdiv_core_binary 53 1024 m 0 (10 ^ (- e)) 0 in
         binary_round_aux 53 1024 neg q ez l
  | _ => S754_zero neg
  end.

Definition ParseFloat (s : string) : float64 * option error :=
  let '(neg, body) := sign s in
  if existsb (String.eqb (lower_string body)) ["inf"; "infinity"] then (S754_infinity neg, None)
  else if String.eqb (lower_string s) "nan" then (S754_nan, None)
  else
    let '(hex, digits) :=
      match body with
      | String "0" (String c (String _ _ as r)) => if lower c =? 120 then (true, r) else (false, body)
      | _ => (false, body)
      end in
    let m := scan_mantissa hex false false false 0 0 digits in
    if negb (saw_digits m) then (f64_0, Some ErrSyntax)
    else
      match exponent hex (mant_rest m) with
      | Some (e, under, EmptyString) =>
        if hex && bool_decide (e = None) then (f64_0, Some ErrSyntax)
        else if (saw_under m || under) && negb (underscoreOK s) then (f64_0, Some ErrSyntax)
        else
          let e := default 0 e in
          let f := if hex then
              binary_normalize 53 1024 (if neg then - mant m else mant m)
                (e - 4 * fraction m) neg
            else round_decimal neg (mant m) (e - fraction m) in
          (f, if match f with S754_infinity _ => true | _ => false end
              then Some ErrRange else None)
      | _ => (f64_0, Some ErrSyntax)
      end.

Lemma round_decimal_valid neg m e : valid64 (round_decimal neg m e).
Proof.
  unfold round_decimal. destruct m as [|p|p]; [done| |done].
  destruct (0 <=? e) eqn:He; [by apply binary_normalize_valid|].
  destruct (SFdiv_core_binary 53 1024 (Zpos p) 0 (10 ^ (- e)) 0) as [[q ez] l] eqn:Hd.
  assert (0 < 10 ^ (- e)) by (apply Z.pow_pos_nonneg; lia).
  destruct (SFdiv_core_digits 53 1024 eq_refl (Zpos p) (10 ^ (- e)) q ez l) as [Hq Hz]; [done..|].
  by apply binary_round_aux_valid.
Qed.

(** What a text parses to is a float64. *)
Lemma ParseFloat_valid s : valid64 (ParseFloat s).1.
Proof.
  unfold ParseFloat.
  repeat first [done | apply round_decimal_valid | by apply binary_normalize_valid | split_match
    | progress simpl].
Qed.

(** ** time.ParseDuration, in nanoseconds *)

Definition duration_unit (u : string) : option Z :=
  if String.eqb u "ns" then Some 1
  else if existsb (String.eqb u) ["us"; string_of [194; 181; 115]; string_of [206; 188; 115]]
  then Some 1000
  else if String.eqb u "ms" then Some 1000000
  else if String.eqb u "s" then Some 1000000000
  else if String.eqb u "m" then Some 60000000000
  else if String.eqb u "h" then Some 3600000000000
  else None.

Fixpoint leading_int (x : Z) (s : string) : option (Z * string) :=
  match s with
  | EmptyString => Some (x, s)
  | String c s' =>
    match digit c with
    | None => Some (x, s)
    | Some d =>
      if (2 ^ 63 / 10 <? x) || (2 ^ 63 <? x * 10 + d) then None else leading_int (x * 10 + d) s'
    end
  end.

Fixpoint leading_fraction (x : Z) (scale : float64) (overflow : bool) (s : string)
  : Z * float64 * string :=
  match s with
  | EmptyString => (x, scale, s)
  | String c s' =>
    match digit c with
    | None => (x, scale, s)
    | Some d =>
      if overflow || ((2 ^ 63 - 1) / 10 <? x) || (2 ^ 63 <? x * 10 + d)
      then leading_fraction x scale true s'
      else leading_fraction (x * 10 + d) (fmul scale (f64_of_Z 10)) false s'
    end
  end.

Fixpoint span_unit (s : string) : string * string :=
  match s with
  | EmptyString => (EmptyString, s)
  | String c s' =>
    if Ascii.eqb c "." || bool_decide (is_Some (digit c)) then (EmptyString, s)
    else let '(u, r) := span_unit s' in (String c u, r)
  end.

Definition invalid_duration : error := Errorf "time: invalid duration ".

Section duration.
Context `{GoPlatform}.

(** Each round consumes a number and its unit, so the length is enough fuel. *)
Fixpoint duration_loop (fuel : nat) (d : Z) (s : string) : result Z :=
  match fuel, s with
  | _, EmptyString => inl d
  | O, _ => inr invalid_duration
  | S fuel', String c _ =>
    if negb (Ascii.eqb c "." || bool_decide (is_Some (digit c))) then inr invalid_duration
    else
      match leading_int 0 s with
      | None => inr invalid_duration
      | Some (v, s1) =>
        let pre := negb (String.eqb s s1) in
        let '(f, scale, s2, post) :=
          match s1 with
          | String "." r => let '(f, scale, s2) := leading_fraction 0 f64_1 false r in
                            (f, scale, s2, negb (String.eqb r s2))
          | _ => (0, f64_1, s1, false)
          end in
        if negb pre && negb post then inr invalid_duration
        else
          let '(u, s3) := span_unit s2 in
          if String.eqb u "" then inr (Errorf "time: missing unit in duration ")
          else
            match duration_unit u with
            | None => inr (Errorf "time: unknown unit ")
            | Some unit =>
              if 2 ^ 63 / unit <? v then inr invalid_duration
              else
                let v := v * unit + (if 0 <? f
                  then conv U64 (fmul (f64_of_Z f) (fdiv (f64_of_Z unit) scale)) else 0) in
                if (2 ^ 63 <? v) || (2 ^ 63 <? d + v) then inr invalid_duration
                else duration_loop fuel' (d + v) s3
            end
      end
  end.

Definition ParseDuration (s : string) : result Z :=
  let '(neg, s') := sign s in
  if String.eqb s' "0" then inl 0
  else if String.eqb s' "" then inr invalid_duration
  else
    try d := duration_loop (String.length s') 0 s' in
    if neg then inl (- d)
    else if 2 ^ 63 - 1 <? d then inr invalid_duration
    else inl d.
End duration.

(** ** fmt: the verb %f *)

(** [n / d], the nearest integer, ties to the even one. *)
Definition div_even (n d : Z) : Z :=
  let q := n / d in let r := n mod d in
  if 2 * r <? d then q
  else if d <? 2 * r then q + 1
  else if Z.even q then q else q + 1.

(** The decimal with six digits after the point of [n] millionths. *)
Definition millionths (n : Z) : string :=
  pretty (n / 1000000) +:+ "." +:+ String.substring 1 6 (pretty (1000000 + n mod 1000000)).

Definition minus (neg : bool) (s : string) : string := if neg then "-" +:+ s else s.

(** [fmt.Sprintf("%f", f)] *)
Definition format_f (f : spec_float) : string :=
  match f with
  | S754_nan => "NaN"
  | S754_infinity neg => if neg then "-Inf" else "+Inf"
  | S754_zero neg => minus neg (millionths 0)
  | S754_finite neg m e =>
    minus neg (millionths (if 0 <=? e then Zpos m * 2 ^ e * 1000000
                           else div_even (Zpos m * 1000000) (2 ^ (- e))))
  end.
