(* ===== verification/GoBytes.v ===== *)
(** * Byte slices and [encoding/binary]

    A byte is a [Z] in [0, 256).  A slice expression may reach into the spare
    capacity of the backing array, so a [[]byte] received from elsewhere is a
    [slice]: its elements and the bytes that follow them up to the capacity. *)

From S2P Require Import Prelude GoFloat.

Definition is_byte (b : Z) : Prop := 0 ≤ b < 256.

Record slice := mk_slice { vis : list Z; spare : list Z }.

Definition slice_of (l : list Z) : slice := mk_slice l [].
Definition slice_len (s : slice) : Z := Z.of_nat (length (vis s)).
Definition slice_cap (s : slice) : Z := Z.of_nat (length (vis s ++ spare s)).

(** [s[lo:hi]]; [None] when the expression panics. *)
Definition slice_expr (s : slice) (lo hi : Z) : option slice :=
  if (0 <=? lo) && (lo <=? hi) && (hi <=? slice_cap s) then
    let arr := vis s ++ spare s in
    Some (mk_slice (take (Z.to_nat (hi - lo)) (drop (Z.to_nat lo) arr))
                   (drop (Z.to_nat hi) arr))
  else None.

(** [s[lo:]] *)
Definition slice_from (s : slice) (lo : Z) : option slice := slice_expr s lo (slice_len s).

(** ** Big-endian integers *)

Fixpoint be_encode (n : nat) (z : Z) : list Z :=
  match n with
  | O => []
  | S n' => Z.land (Z.shiftr z (8 * Z.of_nat n')) 255 :: be_encode n' z
  end.

Definition be_decode (l : list Z) : Z :=
  fold_left (λ acc b, Z.lor (Z.shiftl acc 8) b) l 0.

Definition int_bytes (k : int_kind) : nat :=
  match k with I16 | U16 => 2 | I32 | U32 => 4 | I64 | U64 => 8 end%nat.

(** [binary.BigEndian.Uint16(s)], which panics on fewer than two bytes. *)
Definition be_uint16 (s : slice) : option Z :=
  if slice_len s <? 2 then None else Some (be_decode (take 2 (vis s))).

(** [io.ReadFull] of [n] bytes, what [binary.Read] starts with. *)
Definition read_full (data : list Z) (n : nat) : result (list Z) :=
  if (length data =? 0)%nat && negb (n =? 0)%nat then inr (Sentinel "EOF")
  else if (length data <? n)%nat then inr (Sentinel "ErrUnexpectedEOF")
  else inl (take n data).

(** [binary.Read(buf, binary.BigEndian, &v)] for [v] of an integer type *)
Definition read_int (k : int_kind) (data : list Z) : result Z :=
  try b := read_full data (int_bytes k) in inl (wrap k (be_decode b)).

(** ... and [binary.Write(buf, binary.BigEndian, v)] *)
Definition write_int (k : int_kind) (z : Z) : list Z := be_encode (int_bytes k) z.

Definition read_f32 (data : list Z) : result spec_float :=
  try b := read_full data 4 in inl (f32_of_bits (be_decode b)).

Definition read_f64 (data : list Z) : result spec_float :=
  try b := read_full data 8 in inl (f64_of_bits (be_decode b)).

Definition write_f32 `{GoPlatform} (f : spec_float) : list Z := be_encode 4 (f32_bits f).
Definition write_f64 `{GoPlatform} (f : spec_float) : list Z := be_encode 8 (f64_bits f).

(** *** Modbus requests *)

(** [int(binary.BigEndian.Uint16(data[lo:lo+2]))] *)
Definition uint16_at (data : slice) (lo : Z) : option Z :=
  slice_expr data lo (lo + 2) ≫= be_uint16.

(** The request data of the multiple reads, and of the multiple writes. *)
Definition request (start count : Z) (payload : list Z) : slice :=
  slice_of (be_encode 2 start ++ be_encode 2 count ++ payload).

(** ** Lemmas *)

Lemma be_encode_length n z : length (be_encode n z) = n.
Proof. induction n; simpl; auto. Qed.

Lemma be_encode_byte n z : Forall is_byte (be_encode n z).
Proof.
  induction n; simpl; constructor; [|done].
  unfold is_byte. change 255 with (Z.ones 8). rewrite Z.land_ones by lia.
  apply Z.mod_pos_bound. lia.
Qed.

Lemma be_encode_snoc n z :
  be_encode (S n) z = be_encode n (Z.shiftr z 8) ++ [Z.land z 255].
Proof.
  induction n as [|n IH]; [done|].
  change (be_encode (S (S n)) z)
    with (Z.land (Z.shiftr z (8 * Z.of_nat (S n))) 255 :: be_encode (S n) z).
  rewrite IH. simpl be_encode. rewrite Z.shiftr_shiftr by lia.
  simpl. do 3 f_equal. lia.
Qed.

Lemma be_decode_snoc l b : be_decode (l ++ [b]) = Z.lor (Z.shiftl (be_decode l) 8) b.
Proof. unfold be_decode. by rewrite fold_left_app. Qed.

Lemma land_shiftl_byte a b : is_byte b → Z.land (Z.shiftl a 8) b = 0.
Proof.
  intros [H0 H1]. apply Z.bits_inj'. intros i Hi. rewrite Z.land_spec, Z.bits_0.
  destruct (Z.ltb_spec i 8) as [Hlt|Hge]; [by rewrite Z.shiftl_spec_low|].
  rewrite (Z.testbit_eqb b) by lia. rewrite Z.div_small; [by rewrite andb_false_r|].
  split; [done|]. apply Z.lt_le_trans with (2 ^ 8); [done|]. by apply Z.pow_le_mono_r.
Qed.

Lemma lor_shiftl_byte a b : is_byte b → Z.lor (Z.shiftl a 8) b = a * 256 + b.
Proof.
  intros Hb. pose proof (Z.add_lor_land (Z.shiftl a 8) b) as H.
  rewrite land_shiftl_byte, Z.shiftl_mul_pow2 in H by done.
  rewrite Z.shiftl_mul_pow2 by done. lia.
Qed.

Lemma land_255 z : Z.land z 255 = z mod 256.
Proof. change 255 with (Z.ones 8). by rewrite Z.land_ones. Qed.

(** Decoding what was encoded gives the value modulo the width. *)
Lemma be_decode_encode n z : be_decode (be_encode n z) = z mod 2 ^ (8 * Z.of_nat n).
Proof.
  revert z. induction n as [|n IH]; intros z; [by rewrite Z.mod_1_r|].
  rewrite be_encode_snoc, be_decode_snoc, IH, land_255.
  rewrite lor_shiftl_byte by (apply Z.mod_pos_bound; lia).
  rewrite Z.shiftr_div_pow2 by lia. change (2 ^ 8) with 256.
  replace (8 * Z.of_nat (S n)) with (8 + 8 * Z.of_nat n) by lia.
  rewrite Z.pow_add_r by lia. change (2 ^ 8) with 256.
  rewrite Z.rem_mul_r by (try apply Z.pow_pos_nonneg; lia). lia.
Qed.

(** ... and encoding what was decoded gives the bytes back. *)
Lemma be_encode_decode l : Forall is_byte l → be_encode (length l) (be_decode l) = l.
Proof.
  induction l as [|b l IH] using rev_ind; intros Hl; [done|].
  apply Forall_app in Hl as [Hl Hb]. apply Forall_inv in Hb.
  rewrite length_app, Nat.add_1_r, be_encode_snoc, be_decode_snoc, land_255.
  rewrite lor_shiftl_byte by done. rewrite Z.shiftr_div_pow2 by lia.
  change (2 ^ 8) with 256. rewrite (Z.add_comm _ b), Z.div_add, Z.mod_add by lia.
  rewrite Z.div_small, Z.mod_small by done. by rewrite Z.add_0_l, IH.
Qed.

Lemma be_decode_range l : Forall is_byte l → 0 ≤ be_decode l < 2 ^ (8 * Z.of_nat (length l)).
Proof.
  intros Hl. rewrite <- (be_encode_decode l) at 1 2 by done.
  rewrite be_decode_encode. apply Z.mod_pos_bound. apply Z.pow_pos_nonneg; lia.
Qed.

Lemma be_encode_mod n z : be_encode n (z mod 2 ^ (8 * Z.of_nat n)) = be_encode n z.
Proof.
  rewrite <- be_decode_encode.
  rewrite <- (be_encode_length n z) at 1.
  apply be_encode_decode, be_encode_byte.
Qed.

Lemma int_bytes_bits k : 8 * Z.of_nat (int_bytes k) = int_bits k.
Proof. by destruct k. Qed.

Lemma read_full_ok data n : (n ≤ length data)%nat → read_full data n = inl (take n data).
Proof.
  intros Hn. unfold read_full.
  destruct (Nat.eqb_spec (length data) 0), (Nat.eqb_spec n 0); simpl; try lia;
    destruct (Nat.ltb_spec (length data) n); try done; lia.
Qed.

Lemma read_full_short data n :
  (length data < n)%nat → ∃ e, read_full data n = inr e.
Proof.
  intros Hn. unfold read_full. repeat case_match; eauto.
  destruct (Nat.ltb_spec (length data) n); [done|lia].
Qed.

(** [binary.Read] inverts [binary.Write], whatever follows in the buffer. *)
Lemma read_write_int k z rest : in_range k z → read_int k (write_int k z ++ rest) = inl z.
Proof.
  intros Hz. unfold read_int, write_int.
  rewrite read_full_ok by (rewrite length_app, be_encode_length; lia).
  simpl. rewrite take_app_le, take_ge by (rewrite be_encode_length; lia).
  rewrite be_decode_encode, int_bytes_bits, wrap_mod. by rewrite wrap_id.
Qed.

Lemma write_read_int k data z :
  Forall is_byte data → read_int k data = inl z →
  write_int k z = take (int_bytes k) data.
Proof.
  intros Hb. unfold read_int, write_int.
  destruct (decide (int_bytes k ≤ length data)%nat) as [Hl|Hl].
  - rewrite read_full_ok by done. simpl. intros [= <-].
    set (l := take (int_bytes k) data).
    assert (length l = int_bytes k) as Hlen by (apply length_take_le; done).
    rewrite <- be_encode_mod, int_bytes_bits.
    assert (wrap k (be_decode l) mod 2 ^ int_bits k = be_decode l) as ->.
    { assert (Forall is_byte l) as Hbl by (by apply Forall_take).
      pose proof (be_decode_range l Hbl) as Hr. rewrite Hlen, int_bytes_bits in Hr.
      unfold wrap. rewrite (Z.mod_small (be_decode l)) by done.
      case_match; [|by rewrite Z.mod_small].
      rewrite <- (Z.mod_small (be_decode l) (2 ^ int_bits k)) at 2 by done.
      rewrite <- (Z.mod_add (be_decode l - 2 ^ int_bits k) 1) by (by destruct k).
      f_equal. lia. }
    rewrite <- Hlen. apply be_encode_decode. by apply Forall_take.
  - destruct (read_full_short data (int_bytes k)) as [e ->]; [lia|done].
Qed.

Lemma read_write_f64 `{GoPlatform} f rest :
  valid64 f → is_nan f = false → read_f64 (write_f64 f ++ rest) = inl f.
Proof.
  intros Hv Hn. unfold read_f64, write_f64.
  rewrite read_full_ok by (rewrite length_app, be_encode_length; lia).
  cbn [result_bind]. rewrite take_app_le, take_ge by (rewrite be_encode_length; lia).
  rewrite be_decode_encode, Z.mod_small by (by apply f64_bits_range).
  by rewrite f64_bits_roundtrip.
Qed.

Lemma read_write_f32 `{GoPlatform} f rest :
  valid32 f → is_nan f = false → read_f32 (write_f32 f ++ rest) = inl f.
Proof.
  intros Hv Hn. unfold read_f32, write_f32.
  rewrite read_full_ok by (rewrite length_app, be_encode_length; lia).
  cbn [result_bind]. rewrite take_app_le, take_ge by (rewrite be_encode_length; lia).
  rewrite be_decode_encode, Z.mod_small by (by apply f32_bits_range).
  by rewrite f32_bits_roundtrip.
Qed.

#[export] Hint Resolve be_encode_byte : go.
#[export] Hint Rewrite be_encode_length : go_len.

Lemma slice_expr_ok data lo hi :
  0 ≤ lo → lo ≤ hi → hi ≤ slice_cap data →
  slice_expr data lo hi =
    Some (mk_slice (take (Z.to_nat (hi - lo)) (drop (Z.to_nat lo) (vis data ++ spare data)))
                   (drop (Z.to_nat hi) (vis data ++ spare data))).
Proof.
  intros. unfold slice_expr.
  destruct (Z.leb_spec 0 lo), (Z.leb_spec lo hi), (Z.leb_spec hi (slice_cap data)); try lia. done.
Qed.

Lemma uint16_at_request start count payload :
  0 ≤ start < 65536 → 0 ≤ count < 65536 →
  uint16_at (request start count payload) 0 = Some start ∧
  uint16_at (request start count payload) 2 = Some count.
Proof.
  intros Hs Hc. unfold uint16_at, request, slice_of.
  rewrite !slice_expr_ok by (unfold slice_cap; simpl; lia).
  change (Z.to_nat (0 + 2 - 0)) with 2%nat. change (Z.to_nat (2 + 2 - 2)) with 2%nat.
  change (Z.to_nat 0) with 0%nat. change (Z.to_nat 2) with 2%nat.
  assert (Hbe : ∀ z l l', 0 ≤ z < 65536 →
    be_uint16 (mk_slice (take 2 (be_encode 2 z ++ l)) l') = Some z).
  { intros z l l' Hz. unfold be_uint16. cbn [vis]. 
    rewrite take_app_le, !take_ge by (rewrite ?take_ge, ?be_encode_length; rewrite ?be_encode_length; lia).
    unfold slice_len. cbn [vis]. rewrite be_encode_length, be_decode_encode.
    simpl. by rewrite Z.mod_small. }
  cbn [vis spare]. rewrite app_nil_r, drop_0. split.
  - unfold mbind, option_bind. by apply Hbe.
  - rewrite drop_app_ge, be_encode_length by (rewrite be_encode_length; lia).
    unfold mbind, option_bind. rewrite drop_0. by apply Hbe.
Qed.
