(* ===== verification/Etree.v ===== *)
(** * XML elements

    The configuration arrives as elements of the etree library, which is a
    parameter here: a type of elements with the accessors the modules call.
    [SelectAttrValue] is in the library a lookup with a default, and so it is
    derived here.  [xml] is a concrete document type, used by the examples. *)

From S2P Require Import Prelude.

Class Etree := {
  Element : Type;
  ETag : Element → string;
  Text : Element → string;
  ChildElements : Element → list Element;
  SelectAttr : Element → string → option string;       (* None: the nil *Attr *)
  SelectElement : Element → string → option Element;   (* None: the nil *Element *)
}.

Definition SelectAttrValue `{Etree} (e : Element) (key dflt : string) : string :=
  default dflt (SelectAttr e key).

(** The text of the last element with a tag: what a setting ends up as. *)
Definition last_text `{Etree} (tag : string) (l : list Element) : option string :=
  Text <$> last (List.filter (λ c, String.eqb (ETag c) tag) l).

Lemma last_text_cons `{Etree} tag c l :
  last_text tag (c :: l) =
    match last_text tag l with
    | Some t => Some t
    | None => if String.eqb (ETag c) tag then Some (Text c) else None
    end.
Proof.
  unfold last_text. cbn [List.filter]. destruct (String.eqb (ETag c) tag); [rewrite last_cons|];
    by destruct (last _).
Qed.

(** A document: tag, attributes, text, child elements. *)
#[warnings="-register-all"]
Inductive xml := Elem (tag : string) (attrs : list (string * string)) (text : string) (children : list xml).

Definition xml_tag (e : xml) : string := match e with Elem t _ _ _ => t end.

Definition attr (attrs : list (string * string)) (key : string) : option string :=
  snd <$> List.find (λ kv, String.eqb kv.1 key) attrs.

#[export] Instance xml_etree : Etree := {|
  Element := xml;
  ETag := xml_tag;
  Text e := match e with Elem _ _ t _ => t end;
  ChildElements e := match e with Elem _ _ _ cs => cs end;
  SelectAttr e key := match e with Elem _ attrs _ _ => attr attrs key end;
  SelectElement e tag :=
    match e with Elem _ _ _ cs => List.find (λ c, String.eqb (xml_tag c) tag) cs end;
|}.

(** [<tag>text</tag>] *)
Definition leaf (tag text : string) : xml := Elem tag [] text [].
