(* ===== verification/Json.v ===== *)
(** * [encoding/json] on syntax trees

    A JSON document is its syntax tree; the tokenizer and the digits of a
    printed number are not modelled.  A string of a tree is the text that the
    literal stands for, which is always UTF-8: an encoder replaces each invalid
    byte by U+FFFD ([to_utf8]), in values and in the keys of a map, and so does
    the tokenizer when it reads a literal.  Encoders and decoders follow
    [encoding/json]: a decoder updates a Go value in place, [null] leaves it
    unchanged, a member of the wrong type is skipped and reported at the end
    (so the value may be partly filled when an error is returned), unknown
    members are ignored and names match up to ASCII case. *)

From stdpp Require Import sorting.
From S2P Require Import Prelude GoFloat.

(** A number literal: digits only ([JInt], with the sign that "-0" has), or
    with a fraction or an exponent ([JFrac], the float64 it rounds to). *)
#[warnings="-register-all"]
Inductive json :=
| JNull
| JBool (b : bool)
| JInt (neg : bool) (n : N)
| JFrac (f : float64)
| JStr (s : string)
| JArr (l : list json)
| JObj (l : list (string * json)).

(** ** Strings

    [utf8.DecodeRune]: the ranges of the bytes that follow the first byte of a
    rune, or nothing for a byte that starts no rune. *)
Definition rune_tail (a : Ascii.ascii) : option (list (N * N)) :=
  let n := Ascii.N_of_ascii a in
  let cont := (128, 191)%N in
  if (n <=? 127)%N then Some []
  else if (n <=? 193)%N then None
  else if (n <=? 223)%N then Some [cont]
  else if (n =? 224)%N then Some [(160, 191)%N; cont]
  else if (n =? 237)%N then Some [(128, 159)%N; cont]
  else if (n <=? 239)%N then Some [cont; cont]
  else if (n =? 240)%N then Some [(144, 191)%N; cont; cont]
  else if (n <=? 243)%N then Some [cont; cont; cont]
  else if (n =? 244)%N then Some [(128, 143)%N; cont; cont]
  else None.

Fixpoint starts_with (rs : list (N * N)) (s : string) : bool :=
  match rs, s with
  | [], _ => true
  | (lo, hi) :: rs', String a s' =>
      let n := Ascii.N_of_ascii a in ((lo <=? n) && (n <=? hi))%N && starts_with rs' s'
  | _ :: _, EmptyString => false
  end.

(** U+FFFD, the replacement character *)
Definition replacement : string :=
  String (Ascii.ascii_of_N 239) (String (Ascii.ascii_of_N 191) (String (Ascii.ascii_of_N 189) "")).

(** The text after the first [k] bytes, which are the rest of a rune. *)
Fixpoint replace_invalid (k : nat) (s : string) : string :=
  match s, k with
  | EmptyString, _ => EmptyString
  | String a s', S k' => String a (replace_invalid k' s')
  | String a s', O =>
      match rune_tail a with
      | Some rs => if starts_with rs s' then String a (replace_invalid (length rs) s')
                   else replacement +:+ replace_invalid 0 s'
      | None => replacement +:+ replace_invalid 0 s'
      end
  end.

(** What [encoding/json] makes of a Go string, and the strings it keeps. *)
Definition to_utf8 (s : string) : string := replace_invalid 0 s.
Definition is_utf8 (s : string) : bool := String.eqb (to_utf8 s) s.

(** ** Encoding *)

Definition enc_string (s : string) : json := JStr (to_utf8 s).

(** The integer value of a float, when it has one. *)
Definition f64_integral (f : float64) : option N :=
  match f with
  | S754_zero _ => Some 0%N
  | S754_finite _ m e =>
      if 0 <=? e then Some (Z.to_N (Zpos m * 2 ^ e))
      else if Zpos m mod 2 ^ (- e) =? 0 then Some (Z.to_N (Zpos m / 2 ^ (- e)))
      else None
  | _ => None
  end.

Definition f64_sign (f : float64) : bool :=
  match f with
  | S754_zero s | S754_infinity s | S754_finite s _ _ => s
  | S754_nan => false
  end.

(** Integers below 1e21 are printed with digits only; NaN and the infinities
    are an [UnsupportedValueError]. *)
Definition enc_float (f : float64) : result json :=
  if is_finite f then
    inl match f64_integral f with
        | Some n => if (n <? 10 ^ 21)%N then JInt (f64_sign f) n else JFrac f
        | None => JFrac f
        end
  else inr (Errorf "json: unsupported value: ").

Definition enc_uint (z : Z) : json := JInt false (Z.to_N z).

Fixpoint enc_list {A} (enc : A → result json) (l : list A) : result (list json) :=
  match l with
  | [] => inl []
  | x :: l' => try j := enc x in try js := enc_list enc l' in inl (j :: js)
  end.

(** A slice; an empty one is nil and prints as [null]. *)
Definition enc_slice {A} (enc : A → result json) (l : list A) : result json :=
  match l with
  | [] => inl JNull
  | _ => try js := enc_list enc l in inl (JArr js)
  end.

Definition enc_strings (l : list string) : json :=
  match l with [] => JNull | _ => JArr (map enc_string l) end.

(** The entries of a map are printed in the order of its keys. *)
Definition key_le {A} : relation (string * A) := λ x y, String.leb x.1 y.1 = true.
#[export] Instance key_le_dec {A} : RelDecision (@key_le A).
Proof. intros x y. unfold key_le. apply _. Defined.

Definition sorted_entries {A} (m : gmap string A) : list (string * A) :=
  merge_sort key_le (map_to_list m).

Definition enc_map {A} (enc : A → json) (m : gmap string A) : json :=
  JObj (map (λ kv, (to_utf8 kv.1, enc kv.2)) (sorted_entries m)).

(** A map that may be nil. *)
Definition enc_opt_map {A} (enc : A → json) (m : option (gmap string A)) : json :=
  match m with None => JNull | Some m => enc_map enc m end.

(** ** Decoding *)

Definition dec (A : Type) : Type := json → A → A * option error.

Definition type_error : error := Errorf "json: cannot unmarshal ".

(** The first error is the one reported. *)
Definition first_error (e1 e2 : option error) : option error :=
  match e1 with Some _ => e1 | None => e2 end.

Definition d_string : dec string := λ j old,
  match j with
  | JNull => (old, None)
  | JStr s => (s, None)
  | _ => (old, Some type_error)
  end.

Definition d_bool : dec bool := λ j old,
  match j with
  | JNull => (old, None)
  | JBool b => (b, None)
  | _ => (old, Some type_error)
  end.

(** [strconv.ParseFloat] of the digits of an integer literal *)
Definition float_of_digits (neg : bool) (n : N) : float64 :=
  match n with
  | N0 => S754_zero neg
  | Npos p => binary_round 53 1024 neg p 0
  end.

Definition d_float : dec float64 := λ j old,
  match j with
  | JNull => (old, None)
  | JInt neg n =>
      let f := float_of_digits neg n in
      if is_finite f then (f, None) else (old, Some type_error)
  | JFrac f => if is_finite f then (f, None) else (old, Some type_error)
  | _ => (old, Some type_error)
  end.

Definition d_uint64 : dec Z := λ j old,
  match j with
  | JNull => (old, None)
  | JInt false n =>
      if (n <? 2 ^ 64)%N then (Z.of_N n, None) else (old, Some type_error)
  | _ => (old, Some type_error)
  end.

(** An [any] holds whatever the document is. *)
Definition d_any : dec json := λ j _, (j, None).

(** A [json.RawMessage] keeps the document, [null] included. *)
Definition d_raw : dec (option json) := λ j _, (Some j, None).

Fixpoint d_elems {A} (d : dec A) (zero : A) (l : list json) : list A * option error :=
  match l with
  | [] => ([], None)
  | j :: l' =>
      let '(x, e) := d j zero in
      let '(xs, es) := d_elems d zero l' in
      (x :: xs, first_error e es)
  end.

Definition d_slice {A} (d : dec A) (zero : A) : dec (list A) := λ j old,
  match j with
  | JNull => ([], None)
  | JArr l => d_elems d zero l
  | _ => (old, Some type_error)
  end.

Fixpoint d_members {A} (d : dec A) (zero : A) (l : list (string * json)) (m : gmap string A)
  : gmap string A * option error :=
  match l with
  | [] => (m, None)
  | (k, j) :: l' =>
      let '(x, e) := d j zero in
      let '(m', es) := d_members d zero l' (<[k := x]> m) in
      (m', first_error e es)
  end.

(** A map: members are added to the map already there, if any. *)
Definition d_map {A} (d : dec A) (zero : A) : dec (option (gmap string A)) := λ j old,
  match j with
  | JNull => (None, None)
  | JObj l => let '(m, e) := d_members d zero l (default ∅ old) in (Some m, e)
  | _ => (old, Some type_error)
  end.

(** ASCII case folding of a member name. *)
Definition lower_ascii (c : Ascii.ascii) : Ascii.ascii :=
  let n := Ascii.N_of_ascii c in
  if ((65 <=? n) && (n <=? 90))%N then Ascii.ascii_of_N (n + 32) else c.

Fixpoint fold_name (s : string) : string :=
  match s with
  | EmptyString => EmptyString
  | String c s' => String (lower_ascii c) (fold_name s')
  end.

(** The fields of a struct: their names and what a member does to the struct. *)
Definition fields (A : Type) : Type := list (string * dec A).

Definition find_field {B} (fs : list (string * B)) (name : string) : option B :=
  match list_find (λ f, f.1 = name) fs with
  | Some (_, f) => Some f.2
  | None =>
      match list_find (λ f, fold_name f.1 = fold_name name) fs with
      | Some (_, f) => Some f.2
      | None => None
      end
  end.

Fixpoint d_fields {A} (fs : fields A) (l : list (string * json)) (x : A)
  : A * option error :=
  match l with
  | [] => (x, None)
  | (name, j) :: l' =>
      match find_field fs name with
      | Some d =>
          let '(x', e) := d j x in
          let '(x'', e') := d_fields fs l' x' in
          (x'', first_error e e')
      | None => d_fields fs l' x
      end
  end.

Definition d_struct {A} (fs : fields A) : dec A := λ j old,
  match j with
  | JNull => (old, None)
  | JObj l => d_fields fs l old
  | _ => (old, Some type_error)
  end.

(** Decode a member into one field of a struct. *)
Definition field {A B} (d : dec B) (get : A → B) (set : B → A → A) : dec A := λ j x,
  let '(y, e) := d j (get x) in (set y x, e).

(** [json.Unmarshal(data, &x)] with [x] initially [zero]; [None] is a text that
    is not JSON, and leaves [x] alone. *)
Definition Unmarshal {A} (d : dec A) (zero : A) (data : option json) : A * option error :=
  match data with
  | None => (zero, Some (Errorf "json: syntax error"))
  | Some j => d j zero
  end.

(** ** Round trips *)

Lemma f64_integral_back s m e n :
  bounded 53 1024 m e = true → f64_integral (S754_finite s m e) = Some n →
  float_of_digits s n = S754_finite s m e.
Proof.
  intros Hb Hn. pose proof Hb as [Hc He]%andb_true_iff.
  apply Z.eqb_eq in Hc. apply Z.leb_le in He. rewrite digits2_log2 in Hc.
  simpl in Hn. destruct (Z.leb_spec 0 e) as [Hpos|Hneg].
  - injection Hn as <-. pose proof (Z.pow_pos_nonneg 2 e).
    destruct (Z.pos m * 2 ^ e) as [|p|p] eqn:Hp; [lia| |lia]. cbn [Z.to_N float_of_digits].
    assert (Hlog : Z.log2 (Z.pos p) = Z.log2 (Z.pos m) + e).
    { rewrite <- Hp, Z.log2_mul_pow2 by lia. lia. }
    unfold binary_round, shl_align. rewrite digits2_log2, Hlog.
    replace (Z.log2 (Z.pos m) + e + 1 + 0) with (Z.log2 (Z.pos m) + 1 + e) by lia.
    rewrite Hc, Z.sub_0_r.
    assert (match e with Zneg d => (Pos.iter xO p d, e) | _ => (p, 0) end = (p, 0)) as ->
      by (destruct e; [done|done|lia]).
    rewrite <- Hp, binary_round_aux_exact by done. by rewrite Z.add_0_l.
  - destruct (Z.eqb_spec (Z.pos m mod 2 ^ (- e)) 0) as [Hmod|]; [|done].
    injection Hn as <-. pose proof (Z.pow_pos_nonneg 2 (- e)).
    pose proof (Z.div_mod (Z.pos m) (2 ^ (- e))) as Hdm. rewrite Hmod in Hdm.
    destruct (Z.pos m / 2 ^ (- e)) as [|p|p] eqn:Hp; [lia| |nia]. cbn [Z.to_N float_of_digits].
    assert (Hpm : Z.pos m = Z.pos p * 2 ^ (- e)) by lia.
    assert (Hlog : Z.log2 (Z.pos m) = Z.log2 (Z.pos p) - e).
    { rewrite Hpm, Z.log2_mul_pow2 by lia. lia. }
    destruct (binary_round_shl 53 1024 s p 0 (- e)) as (m' & Hm' & _ & ->); [lia| |lia|].
    + rewrite digits2_log2. unfold fexp in *. lia.
    + replace (0 - - e) with e by lia. f_equal. lia.
Qed.

(** Decoding the encoding of a finite float64 gives the same number back. *)
Lemma d_enc_float f j old :
  valid64 f → enc_float f = inl j → d_float j old = (f, None).
Proof.
  unfold enc_float. destruct (is_finite f) eqn:Hfin; [|done]. intros Hv [= <-].
  destruct f as [s|s| |s m e]; [done|done|done|].
  destruct (f64_integral (S754_finite s m e)) as [n|] eqn:Hn; [|done].
  case_match; [|done]. simpl. by rewrite (f64_integral_back s m e n Hv Hn).
Qed.

Lemma enc_float_finite f : is_finite f = true ↔ ∃ j, enc_float f = inl j.
Proof.
  unfold enc_float. split; [intros ->; eauto|].
  intros [j Hj]. by destruct (is_finite f).
Qed.

Lemma d_enc_uint z old : 0 ≤ z < 2 ^ 64 → d_uint64 (enc_uint z) old = (z, None).
Proof.
  intros Hz. unfold d_uint64, enc_uint.
  destruct (N.ltb_spec (Z.to_N z) (2 ^ 64)) as [_|Hge]; [by rewrite Z2N.id by lia|].
  change (2 ^ 64)%N with (Z.to_N (2 ^ 64)) in Hge. lia.
Qed.

Lemma d_enc_slice {A} (enc : A → result json) (rd : A → A) (d : dec A) zero (P : A → Prop) l j old :
  (∀ x jx, P x → enc x = inl jx → d jx zero = (rd x, None)) →
  Forall P l → enc_slice enc l = inl j → d_slice d zero j old = (map rd l, None).
Proof.
  intros Hd Hl. unfold enc_slice. destruct l as [|x0 l0] eqn:El; [by intros [= <-]|].
  rewrite <- El in *. clear El x0 l0.
  destruct (enc_list enc l) as [js|] eqn:Hjs; [|done]. intros [= <-]. simpl.
  revert js Hjs. induction Hl as [|x l Hx Hl IH]; intros js; [by intros [= <-]|]. simpl.
  destruct (enc x) as [jx|] eqn:Hjx; [|done].
  destruct (enc_list enc l) as [js'|]; [|done]. intros [= <-]. simpl.
  rewrite (Hd x jx Hx Hjx). by rewrite (IH js').
Qed.

Lemma enc_slice_ok {A} (enc : A → result json) (P : A → Prop) l :
  (∀ x, (∃ j, enc x = inl j) ↔ P x) → (∃ j, enc_slice enc l = inl j) ↔ Forall P l.
Proof.
  intros Henc. unfold enc_slice.
  destruct l as [|x0 l0] eqn:El; [split; eauto|]. rewrite <- El. clear El x0 l0.
  assert ((∃ js, enc_list enc l = inl js) ↔ Forall P l) as <-.
  - induction l as [|x l IH]; [split; eauto|]. rewrite Forall_cons, <- IH, <- Henc. simpl.
    split.
    + intros [js Hjs]. destruct (enc x); [|done]. destruct (enc_list enc l); [|done]. eauto.
    + intros [[j ->] [js ->]]. simpl. eauto.
  - split; intros [j Hj]; destruct (enc_list enc l); simpl in *; eauto; done.
Qed.

Lemma starts_with_kept rs s :
  starts_with rs s = true → starts_with rs (replace_invalid (length rs) s) = true.
Proof.
  revert s. induction rs as [|[lo hi] rs IH]; intros [|a s]; try done. simpl.
  intros [-> Hs]%andb_true_iff. by apply IH.
Qed.

Lemma replace_invalid_twice k s :
  replace_invalid k (replace_invalid k s) = replace_invalid k s.
Proof.
  revert k. induction s as [|a s IH]; intros [|k]; [done|done| |by cbn; rewrite IH].
  cbn [replace_invalid]. destruct (rune_tail a) as [rs|] eqn:Ha.
  - destruct (starts_with rs s) eqn:Hs.
    + cbn [replace_invalid]. by rewrite Ha, starts_with_kept, IH.
    + change (replacement +:+ replace_invalid 0 (replace_invalid 0 s)
        = replacement +:+ replace_invalid 0 s). by rewrite IH.
  - change (replacement +:+ replace_invalid 0 (replace_invalid 0 s)
      = replacement +:+ replace_invalid 0 s). by rewrite IH.
Qed.

Lemma to_utf8_twice s : to_utf8 (to_utf8 s) = to_utf8 s.
Proof. apply replace_invalid_twice. Qed.

Lemma to_utf8_valid s : is_utf8 (to_utf8 s) = true.
Proof. unfold is_utf8. rewrite to_utf8_twice. apply String.eqb_refl. Qed.

Lemma is_utf8_eq s : is_utf8 s = true ↔ to_utf8 s = s.
Proof. apply String.eqb_eq. Qed.

(** A map that was printed and read again, [rd] being what became of its values. *)
Definition reread {A} (rd : A → A) (m : gmap string A) : gmap string A :=
  foldl (λ m' kv, <[to_utf8 kv.1 := rd kv.2]> m') ∅ (sorted_entries m).

Lemma d_strings_enc l old : d_slice d_string "" (enc_strings l) old = (map to_utf8 l, None).
Proof.
  destruct l as [|s l]; [done|]. simpl.
  assert (∀ l, d_elems d_string "" (map enc_string l) = (map to_utf8 l, None)) as ->; [|done].
  clear. intros l. induction l as [|s l IH]; [done|]. simpl. by rewrite IH.
Qed.

Lemma d_members_enc {A} (enc : A → json) (rd : A → A) (d : dec A) zero (l : list (string * A)) m :
  (∀ x, d (enc x) zero = (rd x, None)) →
  d_members d zero (map (λ kv, (to_utf8 kv.1, enc kv.2)) l) m
  = (foldl (λ m kv, <[to_utf8 kv.1 := rd kv.2]> m) m l, None).
Proof.
  intros Hd. revert m. induction l as [|[k v] l IH]; intros m; simpl; [done|].
  by rewrite Hd, IH.
Qed.

Lemma d_enc_map {A} (enc : A → json) (rd : A → A) (d : dec A) zero m :
  (∀ x, d (enc x) zero = (rd x, None)) →
  d_map d zero (enc_opt_map enc m) None = (reread rd <$> m, None).
Proof. intros Hd. destruct m as [m|]; [|done]. simpl. by rewrite (d_members_enc _ rd). Qed.

Lemma foldl_insert_lookup {A} (l : list (string * A)) (m : gmap string A) k :
  NoDup l.*1 →
  foldl (λ (m : gmap string A) kv, <[kv.1 := kv.2]> m) m l !! k
  = match (list_to_map l : gmap string A) !! k with Some x => Some x | None => m !! k end.
Proof.
  revert m. induction l as [|[k' x] l IH]; intros m; simpl; [done|].
  intros [Hk Hnd]%NoDup_cons. rewrite IH by done.
  destruct (decide (k' = k)) as [->|Hne].
  - assert ((list_to_map l : gmap string A) !! k = None) as ->
      by (by apply not_elem_of_list_to_map_1).
    by rewrite !lookup_insert_eq.
  - by rewrite !(lookup_insert_ne _ k') by done.
Qed.

(** A map with keys and values of UTF-8 text is read as it was. *)
Lemma reread_id {A} (rd : A → A) (m : gmap string A) :
  map_Forall (λ k x, to_utf8 k = k ∧ rd x = x) m → reread rd m = m.
Proof.
  intros Hm. unfold reread.
  assert (sorted_entries m ≡ₚ map_to_list m) as Hp by apply merge_sort_Permutation.
  assert (Forall (λ kv, to_utf8 kv.1 = kv.1 ∧ rd kv.2 = kv.2) (sorted_entries m)) as Hl.
  { rewrite Hp. apply Forall_forall. intros [k x] Hkx%elem_of_map_to_list. by apply (Hm k). }
  assert (∀ m', foldl (λ m' kv, <[to_utf8 kv.1 := rd kv.2]> m') m' (sorted_entries m)
    = foldl (λ (m' : gmap string A) kv, <[kv.1 := kv.2]> m') m' (sorted_entries m)) as ->.
  { clear Hp. induction Hl as [|[k x] l [Hk Hx] _ IH]; intros m'; [done|].
    cbn in *. rewrite Hk, Hx. apply IH. }
  apply map_eq. intros k.
  assert (NoDup (sorted_entries m).*1) as Hnd by (rewrite Hp; apply NoDup_fst_map_to_list).
  rewrite foldl_insert_lookup by done.
  rewrite (list_to_map_proper (sorted_entries m) (map_to_list m)) by done.
  rewrite list_to_map_to_list. by destruct (m !! k).
Qed.

Lemma reread_empty {A} (rd : A → A) : reread rd ∅ = ∅.
Proof. apply reread_id, map_Forall_empty. Qed.

Lemma reread_singleton {A} (rd : A → A) k x : reread rd {[k := x]} = {[to_utf8 k := rd x]}.
Proof. unfold reread, sorted_entries. rewrite map_to_list_singleton. by rewrite <- insert_empty. Qed.
