(* ===== verification/JsonMethods.v ===== *)
(** * [encoding/json] and types with an [UnmarshalJSON] method

    A decoder of [Json] goes on after a member of the wrong type and reports the
    first error at the end; an error of an [UnmarshalJSON] method ends the decoding
    at once.  An [undec] does either.  [UnmarshalJSON] is called for [null] too.
    Here are also the values of type [interface{}], and what tells whether a
    decoder takes a document: the class [Decides].  (An element of a slice is decoded
    into a zero value: of members of the same name that are arrays of texts, a [null]
    in a later one would keep the text of an earlier one.) *)

From S2P Require Import Prelude GoFloat Json.

(** ** Values of type [interface{}]

    An object has its members in the order of the document; of members with the
    same name the last one counts. *)
#[warnings="-register-all"]
Inductive value :=
| VNull
| VBool (b : bool)
| VNumber (f : float64)
| VString (s : string)
| VArray (l : list value)
| VObject (l : list (string * value)).

(** A number, or [None] when it is out of the range of float64. *)
Definition number (j : json) : option float64 :=
  match j with
  | JInt neg n => let f := float_of_digits neg n in if is_finite f then Some f else None
  | JFrac f => if is_finite f then Some f else None
  | _ => None
  end.

Fixpoint value_of (j : json) : value :=
  match j with
  | JNull => VNull
  | JBool b => VBool b
  | JInt _ _ | JFrac _ => match number j with Some f => VNumber f | None => VNull end
  | JStr s => VString s
  | JArr l => VArray (map value_of l)
  | JObj l => VObject (map (λ kv, (kv.1, value_of kv.2)) l)
  end.

(** The numbers of a document that no float64 holds are reported. *)
Fixpoint in_range (j : json) : bool :=
  match j with
  | JInt _ _ | JFrac _ => match number j with Some _ => true | None => false end
  | JArr l => forallb in_range l
  | JObj l => forallb (λ kv, in_range kv.2) l
  | _ => true
  end.

Definition d_value : dec value := λ j _,
  (value_of j, if in_range j then None else Some type_error).

(** ** More fields *)

(** A field of type [int]. *)
Definition d_int : dec Z := λ j old,
  match j with
  | JNull => (old, None)
  | JInt neg n =>
      let z := if neg then - Z.of_N n else Z.of_N n in
      if (- 2 ^ 63 <=? z) && (z <? 2 ^ 63) then (z, None) else (old, Some type_error)
  | _ => (old, Some type_error)
  end.

(** A pointer: [null] makes it nil. *)
Definition d_ptr {A} (d : dec A) (zero : A) : dec (option A) := λ j old,
  match j with
  | JNull => (None, None)
  | _ => let '(x, e) := d j (default zero old) in (Some x, e)
  end.

(** ** Decoders that may stop *)

Definition undec (A : Type) : Type := json → A → result (A * option error).

Definition saves {A} (d : dec A) : undec A := λ j x, inl (d j x).

(** A type with a method: the value it leaves when it succeeds. *)
Definition calls {A} (UnmarshalJSON : json → result A) : undec A := λ j _,
  try x := UnmarshalJSON j in inl (x, None).

Fixpoint u_elems {A} (d : undec A) (zero : A) (l : list json) : result (list A * option error) :=
  match l with
  | [] => inl ([], None)
  | j :: l' =>
      try x := d j zero in
      try xs := u_elems d zero l' in
      inl (x.1 :: xs.1, first_error x.2 xs.2)
  end.

Definition u_slice {A} (d : undec A) (zero : A) : undec (list A) := λ j old,
  match j with
  | JNull => inl ([], None)
  | JArr l => u_elems d zero l
  | _ => inl (old, Some type_error)
  end.

Definition u_field {A B} (d : undec B) (get : A → B) (set : B → A → A) : undec A := λ j x,
  try y := d j (get x) in inl (set y.1 x, y.2).

Fixpoint u_fields {A} (fs : list (string * undec A)) (l : list (string * json)) (x : A)
  : result (A * option error) :=
  match l with
  | [] => inl (x, None)
  | (name, j) :: l' =>
      match find_field fs name with
      | Some d =>
          try y := d j x in
          try z := u_fields fs l' y.1 in
          inl (z.1, first_error y.2 z.2)
      | None => u_fields fs l' x
      end
  end.

Definition u_struct {A} (fs : list (string * undec A)) : undec A := λ j old,
  match j with
  | JNull => inl (old, None)
  | JObj l => u_fields fs l old
  | _ => inl (old, Some type_error)
  end.

(** [json.Unmarshal(value, &x)] with [x] initially [zero], of a value that is JSON:
    what it leaves in [x] when it returns no error. *)
Definition unmarshal_in {A} (d : undec A) (zero : A) (j : json) : result A :=
  try x := d j zero in
  match x.2 with None => inl x.1 | Some e => inr e end.

(** ** The members of a document *)

(** [var raw map[string]interface{}; json.Unmarshal(value, &raw)] *)
Definition unmarshal_raw (j : json) : result (option (gmap string value)) :=
  match d_map d_value VNull j None with
  | (raw, None) => inl raw
  | (_, Some e) => inr e
  end.

(** [if _, ok := raw[k]; raw != nil && !ok] *)
Definition missing (raw : option (gmap string value)) (k : string) : bool :=
  match raw with
  | None => false
  | Some m => match m !! k with Some _ => false | None => true end
  end.

(** [if v, ok := raw[k]; !ok || v == nil] *)
Definition absent (raw : option (gmap string value)) (k : string) : bool :=
  match raw ≫= lookup k with
  | None | Some VNull => true
  | _ => false
  end.

Fixpoint require (what : string) (ks : list string) (raw : option (gmap string value)) : result () :=
  match ks with
  | [] => inl ()
  | k :: ks' =>
      if missing raw k then inr (Errorf ("field " +:+ k +:+ " in " +:+ what +:+ ": required"))
      else require what ks' raw
  end.

(** The body of the [UnmarshalJSON] of a struct: the required members, the fields,
    the defaults that [finish] fills in. *)
Definition unmarshal_struct {A} (what : string) (required : list string)
  (fs : list (string * undec A)) (zero : A) (finish : option (gmap string value) → A → A)
  (j : json) : result A :=
  try raw := unmarshal_raw j in
  try _ := require what required raw in
  try plain := unmarshal_in (u_struct fs) zero j in
  inl (finish raw plain).

(** ** What a decoder takes

    [d] takes the documents of [P] without an error, whatever it decodes into. *)
Class Decides {A} (d : undec A) (P : json → Prop) : Prop :=
  decides j x : (∃ y, d j x = inl (y, None)) ↔ P j.

Definition is_text (j : json) : Prop :=
  match j with JNull | JStr _ => True | _ => False end.

Definition is_text_of (values : list string) (j : json) : Prop :=
  match j with JStr s => In s values | _ => False end.

Definition signed (neg : bool) (n : N) : Z := if neg then - Z.of_N n else Z.of_N n.

Definition is_int (j : json) : Prop :=
  match j with JNull => True | JInt neg n => - 2 ^ 63 ≤ signed neg n < 2 ^ 63 | _ => False end.

Definition is_list (P : json → Prop) (j : json) : Prop :=
  match j with JNull => True | JArr l => Forall P l | _ => False end.

Definition member_ok (ps : list (string * (json → Prop))) (kv : string * json) : Prop :=
  match find_field ps kv.1 with Some P => P kv.2 | None => True end.

(** The documents of a struct. *)
Definition is_object (required : list string) (ps : list (string * (json → Prop))) (j : json) : Prop :=
  match j with
  | JNull => True
  | JObj l => in_range j = true ∧ Forall (λ k, In k (map fst l)) required ∧ Forall (member_ok ps) l
  | _ => False
  end.

Lemma first_error_None e1 e2 : first_error e1 e2 = None ↔ e1 = None ∧ e2 = None.
Proof. destruct e1; naive_solver. Qed.

#[export] Instance decides_string : Decides (saves d_string) is_text.
Proof. intros [] x; simpl; naive_solver. Qed.

#[export] Instance decides_int : Decides (saves d_int) is_int.
Proof.
  intros [] x; simpl; try naive_solver. unfold saves, d_int. fold (signed neg n).
  destruct ((_ <=? _) && _) eqn:Hz; [|naive_solver lia]. split; [lia|eauto].
Qed.

#[export] Instance decides_value : Decides (saves d_value) (λ j, in_range j = true).
Proof. intros j x. unfold saves, d_value. destruct (in_range j); naive_solver. Qed.

#[export] Instance decides_ptr {A} (d : dec A) zero P `{!Decides (saves d) P} :
  Decides (saves (d_ptr d zero)) (λ j, j = JNull ∨ P j).
Proof.
  intros j x. unfold saves. pose proof (decides (d:=saves d) j (default zero x)) as Hd.
  unfold saves in Hd. destruct j; simpl; try naive_solver;
    destruct (d _ _) as [y e]; naive_solver.
Qed.

Lemma decides_iff {A} (d : undec A) P P' :
  Decides d P → (∀ j, P j ↔ P' j) → Decides d P'.
Proof. intros Hd HP j x. by rewrite <- HP. Qed.

#[export] Instance decides_string_ptr : Decides (saves (d_ptr d_string "")) is_text.
Proof. eapply decides_iff; [apply _|]. intros []; simpl; naive_solver. Qed.

#[export] Instance decides_int_ptr : Decides (saves (d_ptr d_int 0)) is_int.
Proof. eapply decides_iff; [apply _|]. intros []; simpl; naive_solver. Qed.

#[export] Instance decides_calls {A} (m : json → result A) :
  Decides (calls m) (λ j, ∃ y, m j = inl y).
Proof. intros j x. unfold calls. destruct (m j); naive_solver. Qed.

Lemma u_elems_decides {A} (d : undec A) zero P `{!Decides d P} l :
  (∃ y, u_elems d zero l = inl (y, None)) ↔ Forall P l.
Proof.
  induction l as [|j l IH]; simpl; [by split; eauto|].
  rewrite Forall_cons, <- IH, <- (decides j zero). split.
  - intros [y Hy]. destruct (d j zero) as [[a e]|]; [|done].
    destruct (u_elems d zero l) as [[b e']|]; [|done]. simpl in Hy.
    injection Hy as <- [-> ->]%first_error_None. eauto.
  - intros [[a ->] [b ->]]. simpl. eauto.
Qed.

#[export] Instance decides_slice {A} (d : undec A) zero P `{!Decides d P} :
  Decides (u_slice d zero) (is_list P).
Proof. intros [] x; simpl; try naive_solver. by apply u_elems_decides. Qed.

Lemma u_elems_saves {A} (d : dec A) zero l :
  u_elems (saves d) zero l = inl (d_elems d zero l).
Proof.
  induction l as [|j l IH]; simpl; [done|]. rewrite IH. simpl.
  destruct (d j zero), (d_elems d zero l). done.
Qed.

#[export] Instance decides_saved_slice {A} (d : dec A) zero P `{!Decides (saves d) P} :
  Decides (saves (d_slice d zero)) (is_list P).
Proof.
  intros j x. rewrite <- (decides (d:=u_slice (saves d) zero) j x).
  destruct j; simpl; try naive_solver. by rewrite u_elems_saves.
Qed.

#[export] Instance decides_field {A B} (d : undec B) (get : A → B) set P `{!Decides d P} :
  Decides (u_field d get set) P.
Proof.
  intros j x. rewrite <- (decides j (get x)). unfold u_field.
  destruct (d j (get x)) as [[y e]|]; naive_solver.
Qed.

(** The fields of a struct one by one. *)
Class DecidesAll {A} (fs : list (string * undec A)) (ps : list (string * (json → Prop))) : Prop :=
  decides_all : Forall2 (λ f p, f.1 = p.1 ∧ Decides f.2 p.2) fs ps.

#[export] Instance decides_nil {A} : DecidesAll (A:=A) [] [].
Proof. constructor. Qed.

#[export] Instance decides_cons {A} name (d : undec A) P fs ps `{!Decides d P} `{!DecidesAll fs ps} :
  DecidesAll ((name, d) :: fs) ((name, P) :: ps).
Proof. constructor; [done|assumption]. Qed.

(** ** Lemmas on the members of a struct *)

Lemma list_find_Forall2 {B C} (R : string * B → string * C → Prop) (P : string → Prop)
  `{∀ s, Decision (P s)} fs ps :
  (∀ f p, R f p → f.1 = p.1) → Forall2 R fs ps →
  option_Forall2 (λ f p, R f.2 p.2) (list_find (λ f, P f.1) fs) (list_find (λ p, P p.1) ps).
Proof.
  intros HR Hfs. induction Hfs as [|f p fs ps Hfp Hfs IH]; simpl; [constructor|].
  rewrite (HR f p Hfp). destruct (decide (P p.1)); [by constructor|].
  destruct IH; constructor. simpl. done.
Qed.

Lemma find_field_Forall2 {B C} (R : B → C → Prop) fs ps name :
  Forall2 (λ f p, f.1 = p.1 ∧ R f.2 p.2) fs ps →
  option_Forall2 R (find_field fs name) (find_field ps name).
Proof.
  intros Hfs. unfold find_field.
  pose proof (list_find_Forall2 _ (λ s, s = name) fs ps (λ f p H, proj1 H) Hfs) as [[i f] [k p] [_ Hf]|];
    [by constructor|].
  pose proof (list_find_Forall2 _ (λ s, fold_name s = fold_name name) fs ps (λ f p H, proj1 H) Hfs)
    as [[i f] [k p] [_ Hf]|]; by constructor.
Qed.

Lemma u_fields_decides {A} (fs : list (string * undec A)) ps `{!DecidesAll fs ps} l x :
  (∃ y, u_fields fs l x = inl (y, None)) ↔ Forall (member_ok ps) l.
Proof.
  revert x. induction l as [|[k j] l IH]; intros x; simpl; [by split; eauto|].
  rewrite Forall_cons. unfold member_ok at 1; simpl.
  destruct (find_field_Forall2 Decides fs ps k decides_all) as [d P Hd|]; [|by rewrite IH; naive_solver].
  rewrite <- (Hd j x). split.
  - intros [y Hy]. destruct (d j x) as [[a e]|]; [|done]. simpl in Hy.
    destruct (u_fields fs l a) as [[b e']|] eqn:Hl; [|done]. simpl in Hy.
    injection Hy as <- [-> ->]%first_error_None. split; [eauto|]. apply (IH a). eauto.
  - intros [[a ->] Hl]. apply (IH a) in Hl as [b Hb]. simpl. rewrite Hb. simpl. eauto.
Qed.

Lemma find_field_In {B} (fs : list (string * B)) k d :
  find_field fs k = Some d → ∃ n, (n, d) ∈ fs.
Proof.
  unfold find_field. intros Hd.
  destruct (list_find (λ f, f.1 = k) fs) as [[i [n d']]|] eqn:H1;
    [|destruct (list_find (λ f, fold_name f.1 = fold_name k) fs) as [[i [n d']]|] eqn:H2; [|done]];
    injection Hd as <-; exists n;
    [apply list_find_Some in H1 as (Hp & _)|apply list_find_Some in H2 as (Hp & _)];
    by apply list_elem_of_lookup_2 in Hp.
Qed.

(** An invariant of the decoders of all fields. *)
Lemma u_fields_keeps {A} (Q : A → Prop) (fs : list (string * undec A)) l x y :
  Forall (λ f, ∀ j x y, Q x → f.2 j x = inl y → Q y.1) fs →
  Q x → u_fields fs l x = inl y → Q y.1.
Proof.
  intros Hfs. revert x y. induction l as [|[k j] l IH]; intros x y Hx; simpl; [by intros [= <-]|].
  destruct (find_field fs k) as [d|] eqn:Hd; [|by apply IH].
  destruct (d j x) as [a|] eqn:Ha; [|done]. simpl.
  destruct (u_fields fs l a.1) as [b|] eqn:Hb; [|done]. intros [= <-]. simpl.
  apply (IH a.1 b); [|done]. apply find_field_In in Hd as (n & Hd).
  rewrite Forall_forall in Hfs. by apply (Hfs _ Hd j x a).
Qed.

(** A member that is there has been decoded, and the rest keeps what it set. *)
Lemma u_fields_reaches {A} (Q R : A → Prop) (fs : list (string * undec A)) l x y k d :
  Forall (λ f, ∀ j x y, Q x → f.2 j x = inl y → Q y.1) fs →
  Forall (λ f, ∀ j x y, R x → f.2 j x = inl y → R y.1) fs →
  find_field fs k = Some d → (∀ j x y, Q x → d j x = inl (y, None) → R y) →
  In k (map fst l) → Q x → u_fields fs l x = inl (y, None) → R y.
Proof.
  intros HQ HR Hk Hd. revert x. induction l as [|[k' j] l IH]; intros x Hin Hx; simpl in *; [done|].
  destruct (find_field fs k') as [d'|] eqn:Hd'.
  - destruct (d' j x) as [a|] eqn:Ha; [|done]. simpl.
    destruct (u_fields fs l a.1) as [b|] eqn:Hb; [|done]. intros [= <- [He He']%first_error_None].
    destruct a as [a e], b as [b e']; simpl in *. subst.
    destruct Hin as [->|Hin].
    + apply (u_fields_keeps R fs l a (b, None)); [done| |done].
      rewrite Hk in Hd'. injection Hd' as <-. by apply (Hd j x a).
    + apply (IH a Hin); [|done].
      apply (u_fields_keeps Q fs [(k', j)] x (a, None)); [done|done|]. simpl. by rewrite Hd', Ha.
  - apply IH; [|done]. destruct Hin as [->|]; [congruence|done].
Qed.

(** ** Lemmas on raw members *)

(** The last member of a name. *)
Fixpoint last_member (k : string) (l : list (string * json)) : option json :=
  match l with
  | [] => None
  | (n, j) :: l' =>
      match last_member k l' with
      | Some j' => Some j'
      | None => if decide (n = k) then Some j else None
      end
  end.

Lemma last_member_In k l : In k (map fst l) ↔ last_member k l ≠ None.
Proof.
  induction l as [|[n j] l IH]; simpl; [naive_solver|].
  destruct (last_member k l); [naive_solver|]. case_decide; naive_solver.
Qed.

Lemma d_members_value l m :
  ∃ m', d_members d_value VNull l m = (m', if forallb (λ kv, in_range kv.2) l then None else Some type_error) ∧
    ∀ k, m' !! k = match last_member k l with Some j => Some (value_of j) | None => m !! k end.
Proof.
  revert m. induction l as [|[n j] l IH]; intros m; simpl; [eauto|].
  destruct (IH (<[n := value_of j]> m)) as (m' & -> & Hm'). exists m'. split.
  - by destruct (in_range j).
  - intros k. rewrite Hm'. destruct (last_member k l); [done|].
    case_decide as Hk; [by rewrite Hk, lookup_insert_eq|by rewrite lookup_insert_ne].
Qed.

Lemma require_ok what ks raw : require what ks raw = inl () ↔ Forall (λ k, missing raw k = false) ks.
Proof.
  induction ks as [|k ks IH]; simpl; [by split; [constructor|]|].
  rewrite Forall_cons. destruct (missing raw k); [naive_solver|]. rewrite IH. naive_solver.
Qed.

(** The documents that the [UnmarshalJSON] of a struct takes. *)
Lemma unmarshal_struct_decides {A} what required (fs : list (string * undec A)) zero finish ps
  `{!DecidesAll fs ps} j :
  (∃ x, unmarshal_struct what required fs zero finish j = inl x) ↔ is_object required ps j.
Proof.
  unfold unmarshal_struct, unmarshal_raw, unmarshal_in.
  destruct j as [| | | | | |l]; simpl; try naive_solver.
  - rewrite (proj2 (require_ok what required None)) by (induction required; by constructor).
    simpl. split; eauto.
  - destruct (d_members_value l ∅) as (m & -> & Hm).
    destruct (forallb (λ kv, in_range kv.2) l) eqn:Hr; simpl; [|naive_solver].
    rewrite <- (u_fields_decides fs ps l zero).
    assert (Forall (λ k, In k (map fst l)) required ↔ require what required (Some m) = inl ()) as ->.
    { rewrite require_ok, !Forall_forall. apply forall_proper. intros k.
      rewrite last_member_In. simpl. rewrite Hm. destruct (last_member k l); naive_solver. }
    destruct (require what required (Some m)) as [[]|]; simpl; [|naive_solver].
    destruct (u_fields fs l zero) as [[x [e|]]|]; simpl; naive_solver.
Qed.
