(* ===== verification/Msgbus.v ===== *)
(** * msgbus: envelopes, the pusher, metrics and the subscriber

    [envelope.go], [runtime.go], [module.go], [health.go]: the messages and
    their JSON form.  [pusher.go]: sending.  [metric.go]: the metrics table.
    [subscriber.go]: receiving and dispatching.  ZeroMQ is outside: which sends
    succeed is a parameter of the bus, what is received an argument. *)

From S2P Require Import Prelude GoFloat GoText Json.

(** ** runtime.go, module.go, health.go: message contents *)

Record Point := mk_Point { Point_Tag : string; Point_Value : float64; Point_Tstamp : Z }.

Record Status := mk_Status { Measurements : list Point }.

Record Update := mk_Update {
  Updates : list Point;
  Update_Recipient : string;
  Update_Confirm : string;
}.

(** Results and errors of a confirmation: [map[string]any], [map[string]string].
    A value of type [any] is given by the document it is printed as. *)
Record Confirmation := mk_Confirmation {
  Confirm : string;
  Results : option (gmap string json);
  Errors : option (gmap string string);
}.

Record ModuleControl := mk_ModuleControl {
  MC_List : bool;
  Enable : list string;
  Disable : list string;
  MC_Recipient : string;
  MC_Confirm : string;
}.

Record HealthCheck := mk_HealthCheck { HC_State : string }.

Definition ENVELOPE_STATUS := "Status".
Definition ENVELOPE_UPDATE := "Update".
Definition ENVELOPE_CONFIRMATION := "Confirmation".
Definition ENVELOPE_MODULE_CONTROL := "ModuleControl".
Definition ENVELOPE_HEALTHCHECK := "HealthCheck".
Definition ENVELOPE_METRIC := "Metric".

Definition ErrKindNotStatus := Sentinel "not a Status message".
Definition ErrKindNotUpdate := Sentinel "not an Update message".
Definition ErrKindNotConfirmation := Sentinel "not a Confirmation message".
Definition ErrKindNotModuleControl := Sentinel "not a ModuleControl message".
Definition ErrKindNotMetric := Sentinel "not a Metric message".
Definition ErrKindNotHealthCheck := Sentinel "not a HealthCheck message".

(** ** envelope.go *)

Record Envelope := mk_Envelope {
  Version : string;
  Kind : string;
  Metadata : option (gmap string string);   (* None: the nil map *)
  Contents : option json;                   (* None: the nil json.RawMessage *)
}.

Definition zero_Envelope : Envelope := mk_Envelope "" "" None None.

Definition Sender (this : Envelope) : string :=
  match Metadata this with
  | None => ""
  | Some m => default "" (m !! "sender")
  end.

Definition Envelope_fields : fields Envelope :=
  [("version", field d_string Version
      (λ v e, mk_Envelope v (Kind e) (Metadata e) (Contents e)));
   ("kind", field d_string Kind
      (λ v e, mk_Envelope (Version e) v (Metadata e) (Contents e)));
   ("metadata", field (d_map d_string "") Metadata
      (λ v e, mk_Envelope (Version e) (Kind e) v (Contents e)));
   ("contents", field d_raw Contents
      (λ v e, mk_Envelope (Version e) (Kind e) (Metadata e) v))].

Definition ParseEnvelope (data : option json) : result Envelope :=
  match Unmarshal (d_struct Envelope_fields) zero_Envelope data with
  | (env, None) => inl env
  | (_, Some e) => inr (Wrapf "unmarshaling envelope: %w" e)
  end.

(** [json.Marshal(env)] *)
Definition MarshalEnvelope (env : Envelope) : json :=
  JObj [("version", enc_string (Version env));
        ("kind", enc_string (Kind env));
        ("metadata", enc_opt_map enc_string (Metadata env));
        ("contents", default JNull (Contents env))].

(** ** JSON forms of the contents *)

Definition enc_Point (p : Point) : result json :=
  try v := enc_float (Point_Value p) in
  inl (JObj [("tag", enc_string (Point_Tag p)); ("value", v); ("ts", enc_uint (Point_Tstamp p))]).

Definition zero_Point : Point := mk_Point "" f64_0 0.

Definition d_Point : dec Point := d_struct
  [("tag", field d_string Point_Tag (λ v p, mk_Point v (Point_Value p) (Point_Tstamp p)));
   ("value", field d_float Point_Value (λ v p, mk_Point (Point_Tag p) v (Point_Tstamp p)));
   ("ts", field d_uint64 Point_Tstamp (λ v p, mk_Point (Point_Tag p) (Point_Value p) v))].

Definition d_Points : dec (list Point) := d_slice d_Point zero_Point.

(** The constraint [IEnvelope] of the generic [NewEnvelope]: a contents type
    with its kind, here together with its [encoding/json] form. *)
Class IEnvelope (T : Type) := {
  kind_of : string;
  err_kind : error;
  unmarshal_format : string;
  marshal : T → result json;
  unmarshal : dec T;
  zero : T;
}.
Arguments kind_of T {_}.
Arguments err_kind T {_}.
Arguments unmarshal_format T {_}.
Arguments zero T {_}.

#[export] Instance Status_IEnvelope : IEnvelope Status := {|
  kind_of := ENVELOPE_STATUS;
  err_kind := ErrKindNotStatus;
  unmarshal_format := "unmarshaling Status message: %w";
  marshal s := try ps := enc_slice enc_Point (Measurements s) in
    inl (JObj [("measurements", ps)]);
  unmarshal := d_struct [("measurements", field d_Points Measurements (λ v _, mk_Status v))];
  zero := mk_Status [];
|}.

#[export] Instance Update_IEnvelope : IEnvelope Update := {|
  kind_of := ENVELOPE_UPDATE;
  err_kind := ErrKindNotUpdate;
  unmarshal_format := "unmarshaling Update message: %w";
  marshal u := try ps := enc_slice enc_Point (Updates u) in
    inl (JObj [("updates", ps); ("recipient", enc_string (Update_Recipient u));
               ("confirm", enc_string (Update_Confirm u))]);
  unmarshal := d_struct
    [("updates", field d_Points Updates
        (λ v u, mk_Update v (Update_Recipient u) (Update_Confirm u)));
     ("recipient", field d_string Update_Recipient
        (λ v u, mk_Update (Updates u) v (Update_Confirm u)));
     ("confirm", field d_string Update_Confirm
        (λ v u, mk_Update (Updates u) (Update_Recipient u) v))];
  zero := mk_Update [] "" "";
|}.

#[export] Instance Confirmation_IEnvelope : IEnvelope Confirmation := {|
  kind_of := ENVELOPE_CONFIRMATION;
  err_kind := ErrKindNotConfirmation;
  unmarshal_format := "unmarshaling Confirmation message: %w";
  marshal c := inl (JObj [("confirm", enc_string (Confirm c));
    ("results", enc_opt_map id (Results c)); ("errors", enc_opt_map enc_string (Errors c))]);
  unmarshal := d_struct
    [("confirm", field d_string Confirm (λ v c, mk_Confirmation v (Results c) (Errors c)));
     ("results", field (d_map d_any JNull) Results (λ v c, mk_Confirmation (Confirm c) v (Errors c)));
     ("errors", field (d_map d_string "") Errors (λ v c, mk_Confirmation (Confirm c) (Results c) v))];
  zero := mk_Confirmation "" None None;
|}.

#[export] Instance ModuleControl_IEnvelope : IEnvelope ModuleControl := {|
  kind_of := ENVELOPE_MODULE_CONTROL;
  err_kind := ErrKindNotModuleControl;
  unmarshal_format := "unmarshaling ModuleControl message: %w";
  marshal c := inl (JObj [("list", JBool (MC_List c)); ("enable", enc_strings (Enable c));
    ("disable", enc_strings (Disable c)); ("recipient", enc_string (MC_Recipient c));
    ("confirm", enc_string (MC_Confirm c))]);
  unmarshal := d_struct
    [("list", field d_bool MC_List
        (λ v c, mk_ModuleControl v (Enable c) (Disable c) (MC_Recipient c) (MC_Confirm c)));
     ("enable", field (d_slice d_string "") Enable
        (λ v c, mk_ModuleControl (MC_List c) v (Disable c) (MC_Recipient c) (MC_Confirm c)));
     ("disable", field (d_slice d_string "") Disable
        (λ v c, mk_ModuleControl (MC_List c) (Enable c) v (MC_Recipient c) (MC_Confirm c)));
     ("recipient", field d_string MC_Recipient
        (λ v c, mk_ModuleControl (MC_List c) (Enable c) (Disable c) v (MC_Confirm c)));
     ("confirm", field d_string MC_Confirm
        (λ v c, mk_ModuleControl (MC_List c) (Enable c) (Disable c) (MC_Recipient c) v))];
  zero := mk_ModuleControl false [] [] "" "";
|}.

#[export] Instance HealthCheck_IEnvelope : IEnvelope HealthCheck := {|
  kind_of := ENVELOPE_HEALTHCHECK;
  err_kind := ErrKindNotHealthCheck;
  unmarshal_format := "unmarshaling HealthCheck message: %w";
  marshal c := inl (JObj [("state", enc_string (HC_State c))]);
  unmarshal := d_struct [("state", field d_string HC_State (λ v _, mk_HealthCheck v))];
  zero := mk_HealthCheck "";
|}.

(** The body shared by [NewEnvelope], [NewHealthCheckEnvelope] and
    [NewMetricEnvelope], which differ in the text of their error. *)
Definition build_envelope {T} `{IEnvelope T} (format sender : string) (contents : T)
  : result Envelope :=
  try raw := wrapf format (marshal contents) in
  inl (mk_Envelope "v1" (kind_of T) (Some {["sender" := sender]}) (Some raw)).

Definition NewEnvelope {T} `{IEnvelope T} (sender : string) (contents : T) : result Envelope :=
  build_envelope "marshaling envelope contents: %w" sender contents.

Definition NewHealthCheckEnvelope (sender : string) (hc : HealthCheck) : result Envelope :=
  build_envelope "marshaling HealthCheck envelope contents: %w" sender hc.

(** The accessors [env.Status()], [env.Update()], [env.Conformation()],
    [env.ModuleControl()], [env.HealthCheck()] have the same body: the kind is
    checked, then the contents are decoded.  The value comes with the error: a
    failed [json.Unmarshal] leaves it partly filled. *)
Definition Envelope_as (T : Type) `{IEnvelope T} (this : Envelope) : T * option error :=
  if negb (String.eqb (Kind this) (kind_of T)) then (zero T, Some (err_kind T))
  else
    match Unmarshal unmarshal (zero T) (Contents this) with
    | (x, None) => (x, None)
    | (x, Some e) => (x, Some (Wrapf (unmarshal_format T) e))
    end.

Definition Envelope_Status := Envelope_as Status.
Definition Envelope_Update := Envelope_as Update.
Definition Envelope_Conformation := Envelope_as Confirmation.
Definition Envelope_ModuleControl := Envelope_as ModuleControl.
Definition Envelope_HealthCheck := Envelope_as HealthCheck.

(** ** pusher.go

    The messages the socket accepted so far (topic and body) and, for each
    [SendMessage] call, whether ZeroMQ accepts it. *)

Inductive body := BJson (j : json) | BText (s : string).

Record bus := mk_bus {
  sent : list (string * body);
  sends : nat;
  send_ok : nat → bool;
}.

Definition SendMessage (topic : string) (b : body) (this : bus) : bus * option error :=
  if send_ok this (sends this)
  then (mk_bus (sent this ++ [(topic, b)]) (S (sends this)) (send_ok this), None)
  else (mk_bus (sent this) (S (sends this)) (send_ok this), Some (Sentinel "zmq")).

Definition Push (topic : string) (env : Envelope) (this : bus) : bus * option error :=
  match SendMessage topic (BJson (MarshalEnvelope env)) this with
  | (b, None) => (b, None)
  | (b, Some e) => (b, Some (Wrapf "sending Envelope to topic %s: %w" e))
  end.

Definition PushString (topic msg : string) (this : bus) : bus * option error :=
  match SendMessage topic (BText msg) this with
  | (b, None) => (b, None)
  | (b, Some e) => (b, Some (Wrapf "sending string to topic %s: %w" e))
  end.

(** ** metric.go *)

Record Metric := mk_Metric {
  Metric_Kind : string;
  Metric_Name : string;
  Metric_Desc : string;
  Metric_Value : float64;
}.

Definition METRIC_COUNTER := "Counter".
Definition METRIC_GAUGE := "Gauge".

Record Metrics := mk_Metrics { Metric_Updates : list Metric }.

Definition enc_Metric (m : Metric) : result json :=
  try v := enc_float (Metric_Value m) in
  inl (JObj [("kind", enc_string (Metric_Kind m)); ("name", enc_string (Metric_Name m));
             ("desc", enc_string (Metric_Desc m)); ("value", v)]).

Definition zero_Metric : Metric := mk_Metric "" "" "" f64_0.

Definition d_Metric : dec Metric := d_struct
  [("kind", field d_string Metric_Kind
      (λ v m, mk_Metric v (Metric_Name m) (Metric_Desc m) (Metric_Value m)));
   ("name", field d_string Metric_Name
      (λ v m, mk_Metric (Metric_Kind m) v (Metric_Desc m) (Metric_Value m)));
   ("desc", field d_string Metric_Desc
      (λ v m, mk_Metric (Metric_Kind m) (Metric_Name m) v (Metric_Value m)));
   ("value", field d_float Metric_Value
      (λ v m, mk_Metric (Metric_Kind m) (Metric_Name m) (Metric_Desc m) v))].

#[export] Instance Metrics_IEnvelope : IEnvelope Metrics := {|
  kind_of := ENVELOPE_METRIC;
  err_kind := ErrKindNotMetric;
  unmarshal_format := "unmarshaling Metric message: %w";
  marshal c := try ms := enc_slice enc_Metric (Metric_Updates c) in
    inl (JObj [("metrics", ms)]);
  unmarshal := d_struct
    [("metrics", field (d_slice d_Metric zero_Metric) Metric_Updates (λ v _, mk_Metrics v))];
  zero := mk_Metrics [];
|}.

Definition NewMetricEnvelope (sender : string) (ms : Metrics) : result Envelope :=
  build_envelope "marshaling Metric envelope contents: %w" sender ms.
Definition Envelope_Metrics := Envelope_as Metrics.

Abbreviation metrics_table := (gmap string Metric).

Definition NewMetric (kind name desc : string) (this : metrics_table) : metrics_table :=
  <[name := mk_Metric kind name desc f64_0]> this.

Definition with_value (v : float64) (m : Metric) : Metric :=
  mk_Metric (Metric_Kind m) (Metric_Name m) (Metric_Desc m) v.

Definition IncrMetric (name : string) (this : metrics_table) : metrics_table :=
  match this !! name with
  | Some m => <[name := with_value (fadd (Metric_Value m) f64_1) m]> this
  | None => this
  end.

Definition IncrMetricBy (name : string) (val : Z) (this : metrics_table) : metrics_table :=
  match this !! name with
  | Some m => <[name := with_value (fadd (Metric_Value m) (f64_of_Z val)) m]> this
  | None => this
  end.

Definition SetMetric (name : string) (val : float64) (this : metrics_table) : metrics_table :=
  match this !! name with
  | Some m => <[name := with_value val m]> this
  | None => this
  end.

(** One call of [IncrMetric] (for one) or [IncrMetricBy] (for any other amount),
    and the state of a counter that was bumped [n] times in all. *)
Definition increment (name : string) (this : metrics_table) (n : N) : metrics_table :=
  if (n =? 1)%N then IncrMetric name this else IncrMetricBy name (Z.of_N n) this.

Definition counter (name desc : string) (n : N) : Metric :=
  mk_Metric METRIC_COUNTER name desc (f64_of_Z (Z.of_N n)).

Definition prefixed (prefix : string) (m : Metric) : Metric :=
  if HasPrefix (Metric_Name m) prefix then m
  else mk_Metric (Metric_Kind m) (prefix +:+ Metric_Name m) (Metric_Desc m) (Metric_Value m).

(** One tick of the goroutine of [MetricsPusher.Start].  [entries] is the order
    in which this iteration ranges over the map. *)
Definition metrics_tick (name : string) (entries : list Metric) (b : bus) : bus :=
  let updates := map (prefixed (name +:+ "_")) entries in
  match updates with
  | [] => b
  | _ =>
    match NewMetricEnvelope name (mk_Metrics updates) with
    | inr _ => (PushString "LOG" "[%s] [ERROR] %v" b).1
    | inl env =>
      match Push "HEALTH" env b with
      | (b', None) => b'
      | (b', Some _) => (PushString "LOG" "[%s] [ERROR] %v" b').1
      end
    end
  end.

(** ** subscriber.go *)

(** A handler runs on the state [S] of the module that registered it. *)
Record Subscriber (S : Type) := mk_Subscriber {
  running : bool;
  statusHandlers : list (Envelope → go S () ());
  updateHandlers : list (Envelope → go S () ());
  healthCheckHandlers : list (Envelope → go S () ());
}.
Arguments mk_Subscriber {S}.
Arguments running {S}.
Arguments statusHandlers {S}.
Arguments updateHandlers {S}.
Arguments healthCheckHandlers {S}.

(** What the loop shares with the rest of the module: the module's state, the
    channels of [confirmationHandlers] (whether a goroutine is receiving from
    it) and what was received from them. *)
Record shared (S : Type) := mk_shared {
  user : S;
  confirmationHandlers : gmap string bool;
  received : list (string * Confirmation);
}.
Arguments mk_shared {S}.
Arguments user {S}.
Arguments confirmationHandlers {S}.
Arguments received {S}.

(** A handler runs to its end, on the state of its module: the loop over the
    handlers goes on when it returns early. *)
Definition on_user {S R} (m : go S () ()) : go (shared S) R () := λ s,
  let '(u, o) := run m (user s) in
  call o (mk_shared u (confirmationHandlers s) (received s)).

Definition AddStatusHandler {S} (h : Envelope → go S () ()) (this : Subscriber S) : Subscriber S :=
  mk_Subscriber (running this) (statusHandlers this ++ [h]) (updateHandlers this)
    (healthCheckHandlers this).

Definition AddUpdateHandler {S} (h : Envelope → go S () ()) (this : Subscriber S) : Subscriber S :=
  mk_Subscriber (running this) (statusHandlers this) (updateHandlers this ++ [h])
    (healthCheckHandlers this).

Definition AddHealthCheckHandler {S} (h : Envelope → go S () ()) (this : Subscriber S)
  : Subscriber S :=
  mk_Subscriber (running this) (statusHandlers this) (updateHandlers this)
    (healthCheckHandlers this ++ [h]).

(** A fresh channel, received from as soon as the caller selects on it. *)
Definition RegisterConfirmationHandler {S} (confirmation : string) (s : shared S) : shared S :=
  mk_shared (user s) (<[confirmation := true]> (confirmationHandlers s)) (received s).

(** [conf <- confirmation] on an unbuffered channel: it is received if someone
    is waiting, else the sender is blocked for ever. *)
Definition send_confirmation {S} (id : string) (waiting : bool) (c : Confirmation)
  : go (shared S) () () :=
  if waiting then
    modify (λ s, mk_shared (user s) (confirmationHandlers s) (received s ++ [(id, c)]))
  else nofuel.

(** The [switch env.Kind] of the loop. *)
Definition dispatch {S} (this : Subscriber S) (env : Envelope) : go (shared S) () () :=
  if String.eqb (Kind env) ENVELOPE_STATUS then
    range (statusHandlers this) (λ h, on_user (h env))
  else if String.eqb (Kind env) ENVELOPE_UPDATE then
    range (updateHandlers this) (λ h, on_user (h env))
  else if String.eqb (Kind env) ENVELOPE_HEALTHCHECK then
    range (healthCheckHandlers this) (λ h, on_user (h env))
  else if String.eqb (Kind env) ENVELOPE_CONFIRMATION then
    match Envelope_Conformation env with
    | (_, Some _) => mret ()
    | (c, None) =>
      s ← get;
      match confirmationHandlers s !! Confirm c with
      | None => mret ()
      | Some waiting =>
        _ ← send_confirmation (Confirm c) waiting c;
        modify (λ s, mk_shared (user s) (delete (Confirm c) (confirmationHandlers s)) (received s))
      end
    end
  else mret ().

(** What [RecvMessage] returned: an error or the frames of a message, each
    with its text and, when the text is JSON, its syntax tree. *)
Record frame := mk_frame { frame_text : string; frame_json : option json }.

Inductive recv := RecvError | RecvMessage (msg : list frame).

(** One iteration of the loop of [Subscriber.run]. *)
Definition run_iteration {S} (this : Subscriber S) (topic : string) (r : recv)
  : go (shared S) () () :=
  match r with
  | RecvError => mret ()
  | RecvMessage msg =>
    match msg with
    | [] => panic_ PanicBounds
    | f0 :: rest =>
      if negb (String.eqb (frame_text f0) topic) then mret ()
      else match rest with
      | [] => panic_ PanicBounds
      | f1 :: _ =>
        match ParseEnvelope (frame_json f1) with
        | inr _ => mret ()
        | inl env => dispatch this env
        end
      end
    end
  end.

(** [Start] copies the subscriber into the goroutine ([run] has a value
    receiver); [Stop] changes the original.  A state is the original's
    [running] field and the [running] field of each goroutine's copy. *)
Record sub_system := mk_sub_system { original : bool; copies : list bool }.

Inductive sub_step : sub_system → sub_system → Prop :=
| sub_start o cs :   (* Start: running = true; go this.run(topic) *)
    sub_step (mk_sub_system o cs) (mk_sub_system true (cs ++ [true]))
| sub_stop o cs :    (* Stop: running = false *)
    sub_step (mk_sub_system o cs) (mk_sub_system false cs)
| sub_iterate o cs i :  (* for this.running { ... }: one more iteration *)
    cs !! i = Some true → sub_step (mk_sub_system o cs) (mk_sub_system o cs)
| sub_exit o cs1 cs2 :  (* the loop condition is false: the goroutine ends *)
    sub_step (mk_sub_system o (cs1 ++ false :: cs2)) (mk_sub_system o (cs1 ++ cs2)).

(** ** Round trips over the bus *)

Lemma d_fields_hit {A} (fs : fields A) name d j x x' l :
  find_field fs name = Some d → d j x = (x', None) →
  d_fields fs ((name, j) :: l) x = d_fields fs l x'.
Proof. intros Hf Hd. simpl. rewrite Hf, Hd. by destruct (d_fields fs l x'). Qed.

Lemma d_field {A B} (d : dec B) (get : A → B) (set : B → A → A) j x y :
  d j (get x) = (y, None) → field d get set j x = (set y x, None).
Proof. unfold field. by intros ->. Qed.

(** Decode a struct whose members are its fields, one after the other. *)
Ltac decode_members :=
  repeat (erewrite d_fields_hit; [|reflexivity|
    first [ reflexivity
          | apply d_field; first [reflexivity | eassumption | eauto] ] ]).

Definition point_ok (p : Point) : Prop :=
  valid64 (Point_Value p) ∧ 0 ≤ Point_Tstamp p < 2 ^ 64.

Definition metric_ok (m : Metric) : Prop := valid64 (Metric_Value m).

(** A point and a metric as they are read again. *)
Definition arrived_Point (p : Point) : Point :=
  mk_Point (to_utf8 (Point_Tag p)) (Point_Value p) (Point_Tstamp p).

Definition arrived_Metric (m : Metric) : Metric :=
  mk_Metric (to_utf8 (Metric_Kind m)) (to_utf8 (Metric_Name m)) (to_utf8 (Metric_Desc m))
    (Metric_Value m).

Lemma d_enc_Point p j :
  point_ok p → enc_Point p = inl j → d_Point j zero_Point = (arrived_Point p, None).
Proof.
  intros [Hv Ht]. unfold enc_Point. destruct (enc_float _) as [v|] eqn:Hf; [|done].
  intros [= <-]. unfold d_Point, d_struct.
  pose proof (d_enc_float _ _ (Point_Value zero_Point) Hv Hf) as Hdf.
  pose proof (d_enc_uint (Point_Tstamp p) 0 Ht) as Hdu.
  decode_members. by destruct p.
Qed.

Lemma d_enc_Metric m j :
  metric_ok m → enc_Metric m = inl j → d_Metric j zero_Metric = (arrived_Metric m, None).
Proof.
  intros Hv. unfold enc_Metric. destruct (enc_float _) as [v|] eqn:Hf; [|done].
  intros [= <-]. unfold d_Metric, d_struct.
  pose proof (d_enc_float _ _ (Metric_Value zero_Metric) Hv Hf) as Hdf.
  decode_members. by destruct m.
Qed.

Lemma enc_Point_ok p : (∃ j, enc_Point p = inl j) ↔ is_finite (Point_Value p) = true.
Proof.
  rewrite enc_float_finite. unfold enc_Point.
  split; intros [j Hj]; destruct (enc_float (Point_Value p)); simpl in *; eauto; done.
Qed.

(** The contract of a contents type: which values it can encode, and that
    decoding an encoded value gives it back, with its strings as UTF-8. *)
Class IEnvelopeLaws (T : Type) `{IEnvelope T} := {
  encodable : T → Prop;
  representable : T → Prop;
  arrived : T → T;
  marshal_ok : ∀ x, (∃ j, marshal x = inl j) ↔ encodable x;
  unmarshal_marshal : ∀ x j,
    representable x → marshal x = inl j → unmarshal j (zero T) = (arrived x, None);
}.

Definition finite_points (ps : list Point) : Prop :=
  Forall (λ p, is_finite (Point_Value p) = true) ps.

Lemma enc_Points_ok ps : (∃ j, enc_slice enc_Point ps = inl j) ↔ finite_points ps.
Proof. apply enc_slice_ok, enc_Point_ok. Qed.

Lemma d_enc_Points ps j old :
  Forall point_ok ps → enc_slice enc_Point ps = inl j → d_Points j old = (map arrived_Point ps, None).
Proof. intros Hps Hj. eapply d_enc_slice; eauto using d_enc_Point. Qed.

#[export, refine] Instance Status_laws : IEnvelopeLaws Status := {|
  encodable s := finite_points (Measurements s);
  representable s := Forall point_ok (Measurements s);
  arrived s := mk_Status (map arrived_Point (Measurements s));
|}.
Proof.
  - intros s. rewrite <- enc_Points_ok. simpl.
    split; intros [j Hj]; destruct (enc_slice enc_Point _); simpl in *; eauto; done.
  - intros s j Hs. simpl. destruct (enc_slice enc_Point _) as [ps|] eqn:Hps; [|done].
    intros [= <-]. pose proof (d_enc_Points _ _ [] Hs Hps) as Hd.
    unfold d_struct. decode_members. by destruct s.
Defined.

#[export, refine] Instance Update_laws : IEnvelopeLaws Update := {|
  encodable u := finite_points (Updates u);
  representable u := Forall point_ok (Updates u);
  arrived u := mk_Update (map arrived_Point (Updates u)) (to_utf8 (Update_Recipient u))
    (to_utf8 (Update_Confirm u));
|}.
Proof.
  - intros u. rewrite <- enc_Points_ok. simpl.
    split; intros [j Hj]; destruct (enc_slice enc_Point _); simpl in *; eauto; done.
  - intros u j Hu. simpl. destruct (enc_slice enc_Point _) as [ps|] eqn:Hps; [|done].
    intros [= <-]. pose proof (d_enc_Points _ _ [] Hu Hps) as Hd.
    unfold d_struct. decode_members. by destruct u.
Defined.

#[export, refine] Instance Confirmation_laws : IEnvelopeLaws Confirmation := {|
  encodable _ := True;
  representable _ := True;
  arrived c := mk_Confirmation (to_utf8 (Confirm c)) (reread id <$> Results c)
    (reread to_utf8 <$> Errors c);
|}.
Proof.
  - intros c. simpl. split; eauto.
  - intros c j _ [= <-].
    pose proof (d_enc_map id id d_any JNull (Results c) (λ _, eq_refl)) as Hr.
    pose proof (d_enc_map enc_string to_utf8 d_string "" (Errors c) (λ _, eq_refl)) as He.
    unfold unmarshal, Confirmation_IEnvelope, d_struct. decode_members. by destruct c.
Defined.

#[export, refine] Instance ModuleControl_laws : IEnvelopeLaws ModuleControl := {|
  encodable _ := True;
  representable _ := True;
  arrived c := mk_ModuleControl (MC_List c) (map to_utf8 (Enable c)) (map to_utf8 (Disable c))
    (to_utf8 (MC_Recipient c)) (to_utf8 (MC_Confirm c));
|}.
Proof.
  - intros c. simpl. split; eauto.
  - intros c j _ [= <-].
    pose proof (d_strings_enc (Enable c) []) as He.
    pose proof (d_strings_enc (Disable c) []) as Hd.
    unfold unmarshal, ModuleControl_IEnvelope, d_struct. decode_members. by destruct c.
Defined.

#[export, refine] Instance Metrics_laws : IEnvelopeLaws Metrics := {|
  encodable m := Forall (λ x, is_finite (Metric_Value x) = true) (Metric_Updates m);
  representable m := Forall metric_ok (Metric_Updates m);
  arrived m := mk_Metrics (map arrived_Metric (Metric_Updates m));
|}.
Proof.
  - intros m. rewrite <- (enc_slice_ok enc_Metric).
    + simpl. split; intros [j Hj]; destruct (enc_slice enc_Metric _); simpl in *; eauto; done.
    + intros x. rewrite enc_float_finite. unfold enc_Metric.
      split; intros [j Hj]; destruct (enc_float (Metric_Value x)); simpl in *; eauto; done.
  - intros m j Hm. simpl. destruct (enc_slice enc_Metric _) as [ms|] eqn:Hms; [|done].
    intros [= <-].
    assert (d_slice d_Metric zero_Metric ms [] = (map arrived_Metric (Metric_Updates m), None)) as Hd
      by (eapply d_enc_slice; eauto using d_enc_Metric).
    unfold d_struct. decode_members. by destruct m.
Defined.

(** An envelope as a subscriber reads it. *)
Definition wire (env : Envelope) : Envelope :=
  mk_Envelope (to_utf8 (Version env)) (to_utf8 (Kind env)) (reread to_utf8 <$> Metadata env)
    (Some (default JNull (Contents env))).

Lemma parse_marshal_envelope env : ParseEnvelope (Some (MarshalEnvelope env)) = inl (wire env).
Proof.
  unfold ParseEnvelope, MarshalEnvelope, Unmarshal, d_struct.
  pose proof (d_enc_map enc_string to_utf8 d_string "" (Metadata env) (λ _, eq_refl)) as Hm.
  decode_members. done.
Qed.

Lemma NewEnvelope_inv {T} `{IEnvelope T} sender (x : T) env :
  NewEnvelope sender x = inl env →
  ∃ raw, marshal x = inl raw ∧
    env = mk_Envelope "v1" (kind_of T) (Some {["sender" := sender]}) (Some raw).
Proof.
  unfold NewEnvelope, build_envelope. destruct (marshal x) as [raw|]; [|done].
  intros [= <-]. eauto.
Qed.

(** The kinds are ASCII. *)
Class PlainKind (T : Type) `{IEnvelope T} := plain_kind : to_utf8 (kind_of T) = kind_of T.
#[export] Hint Extern 0 (PlainKind _) => reflexivity : typeclass_instances.

Lemma NewEnvelope_Sender {T} `{IEnvelope T} sender (x : T) env :
  NewEnvelope sender x = inl env → Sender env = sender.
Proof.
  intros (raw & _ & ->)%NewEnvelope_inv. unfold Sender. simpl.
  by rewrite lookup_singleton_eq.
Qed.

Lemma wire_Sender {T} `{IEnvelope T} sender (x : T) env :
  NewEnvelope sender x = inl env → Sender (wire env) = to_utf8 sender.
Proof.
  intros (raw & _ & ->)%NewEnvelope_inv. unfold Sender, wire. cbn [Metadata fmap option_fmap option_map].
  rewrite reread_singleton. change (to_utf8 "sender") with "sender". by rewrite lookup_singleton_eq.
Qed.

Lemma NewEnvelope_Kind {T} `{IEnvelope T} sender (x : T) env :
  NewEnvelope sender x = inl env → Kind env = kind_of T.
Proof. by intros (raw & _ & ->)%NewEnvelope_inv. Qed.

Lemma wire_Kind {T} `{PlainKind T} sender (x : T) env :
  NewEnvelope sender x = inl env → Kind (wire env) = kind_of T.
Proof. intros (raw & _ & ->)%NewEnvelope_inv. apply plain_kind. Qed.

(** An envelope carries [x] for a sender. *)
Definition carries {T} `{IEnvelope T} (sender : string) (x : T) (env : Envelope) : Prop :=
  Sender env = sender ∧ Envelope_as T env = (x, None).

Lemma wire_contents {T} `{IEnvelopeLaws T} `{!PlainKind T} sender (x : T) env :
  representable x → NewEnvelope sender x = inl env → Envelope_as T (wire env) = (arrived x, None).
Proof.
  intros Hx (raw & Hraw & ->)%NewEnvelope_inv.
  unfold Envelope_as, wire. cbn [Kind Contents default option_fmap]. rewrite plain_kind, String.eqb_refl.
  unfold Unmarshal. cbn [negb Contents default from_option id]. by rewrite (unmarshal_marshal x raw Hx Hraw).
Qed.

Lemma wire_carries {T} `{IEnvelopeLaws T} `{!PlainKind T} sender (x : T) env :
  representable x → NewEnvelope sender x = inl env →
  carries (to_utf8 sender) (arrived x) (wire env).
Proof. split; [by eapply wire_Sender|by eapply wire_contents]. Qed.

(** The messages of a write. *)
Lemma one_point_ok tag f : valid64 f → Forall point_ok [mk_Point tag f 0].
Proof. intros Hv. repeat constructor; simpl; try done; lia. Qed.

Lemma status_arrives sender tag f env :
  valid64 f → NewEnvelope sender (mk_Status [mk_Point tag f 0]) = inl env →
  carries (to_utf8 sender) (mk_Status [mk_Point (to_utf8 tag) f 0]) (wire env).
Proof.
  intros Hf. exact (wire_carries sender (mk_Status [mk_Point tag f 0]) env (one_point_ok tag f Hf)).
Qed.

Lemma update_arrives sender tag f env :
  valid64 f → NewEnvelope sender (mk_Update [mk_Point tag f 0] "" "") = inl env →
  carries (to_utf8 sender) (mk_Update [mk_Point (to_utf8 tag) f 0] "" "") (wire env).
Proof.
  intros Hf. exact (wire_carries sender (mk_Update [mk_Point tag f 0] "" "") env (one_point_ok tag f Hf)).
Qed.

Lemma carries_Kind {T} `{IEnvelope T} sender (x : T) env :
  carries sender x env → Kind env = kind_of T.
Proof.
  intros [_ Hc]. unfold Envelope_as in Hc.
  destruct (String.eqb_spec (Kind env) (kind_of T)); [done|discriminate].
Qed.

#[export] Hint Resolve parse_marshal_envelope wire_Sender wire_contents : go.

Lemma Envelope_as_kind T `{IEnvelope T} env :
  Kind env ≠ kind_of T → Envelope_as T env = (zero T, Some (err_kind T)).
Proof. intros Hk. unfold Envelope_as. by apply String.eqb_neq in Hk as ->. Qed.

Lemma Push_spec topic env b :
  Push topic env b =
  if send_ok b (sends b)
  then (mk_bus (sent b ++ [(topic, BJson (MarshalEnvelope env))]) (S (sends b)) (send_ok b), None)
  else (mk_bus (sent b) (S (sends b)) (send_ok b),
        Some (Wrapf "sending Envelope to topic %s: %w" (Sentinel "zmq"))).
Proof. unfold Push, SendMessage. by destruct (send_ok b (sends b)). Qed.

Lemma sub_reachable_running o cs st :
  Forall (eq true) cs → rtc sub_step (mk_sub_system o cs) st → Forall (eq true) (copies st).
Proof.
  intros Hcs Hst. remember (mk_sub_system o cs) as st0 eqn:E.
  assert (Forall (eq true) (copies st0)) as H0 by (by subst). clear E Hcs.
  induction Hst as [st|st1 st2 st3 Hstep _ IH]; [done|]. apply IH.
  destruct Hstep; simpl in *; [by apply Forall_app; auto|done|done|].
  apply Forall_app in H0 as [_ H0]. by apply Forall_inv in H0.
Qed.

Lemma increment_counter name desc acc n (m : metrics_table) :
  m !! name = Some (counter name desc acc) → (acc + n < 2 ^ 53)%N →
  increment name m n = <[name := counter name desc (acc + n)]> m.
Proof.
  intros Hm Hb. unfold increment, counter.
  destruct (N.eqb_spec n 1) as [->|_];
    unfold IncrMetric, IncrMetricBy; rewrite Hm; unfold with_value, counter; simpl;
    rewrite N2Z.inj_add; [change f64_1 with (f64_of_Z 1)|];
    by rewrite fadd_of_Z by lia.
Qed.

Lemma increments_sum name desc incs acc (m : metrics_table) :
  m !! name = Some (counter name desc acc) → (acc + foldr N.add 0 incs < 2 ^ 53)%N →
  foldl (increment name) m incs !! name
    = Some (counter name desc (acc + foldr N.add 0%N incs)) ∧
  ∀ other, other ≠ name → foldl (increment name) m incs !! other = m !! other.
Proof.
  revert acc m. induction incs as [|n incs IH]; intros acc m Hm Hb; simpl in *.
  { by rewrite N.add_0_r. }
  rewrite (increment_counter name desc acc) by (done || lia).
  destruct (IH (acc + n)%N (<[name := counter name desc (acc + n)]> m)) as [IH1 IH2];
    [apply lookup_insert_eq|lia|].
  split; [by rewrite IH1, N.add_assoc|].
  intros other Ho. rewrite IH2 by done. by rewrite lookup_insert_ne.
Qed.

(** A status or an update is refused exactly when a value cannot be written as
    JSON: a NaN or an infinity. *)
(** A sent envelope is received, its strings as UTF-8. *)
Lemma received_envelope {S} (sub : Subscriber S) env topic text s :
  run_iteration sub topic
    (RecvMessage [mk_frame topic None; mk_frame text (Some (MarshalEnvelope env))]) s
  = dispatch sub (wire env) s.
Proof.
  unfold run_iteration. cbn [frame_text frame_json]. rewrite String.eqb_refl. cbn [negb].
  by rewrite parse_marshal_envelope.
Qed.

Lemma dispatch_status {S} (sub : Subscriber S) sender (st : Status) env s :
  NewEnvelope sender st = inl env →
  dispatch sub (wire env) s = range (statusHandlers sub) (λ h, on_user (h (wire env))) s.
Proof. intros Hnew. unfold dispatch. by rewrite (wire_Kind _ _ _ Hnew). Qed.

Lemma dispatch_update {S} (sub : Subscriber S) sender (up : Update) env s :
  NewEnvelope sender up = inl env →
  dispatch sub (wire env) s = range (updateHandlers sub) (λ h, on_user (h (wire env))) s.
Proof. intros Hnew. unfold dispatch. by rewrite (wire_Kind _ _ _ Hnew). Qed.

Lemma on_user_returns {S R} (m : go S () ()) (s : shared S) u :
  run m (user s) = (u, Returns ()) →
  on_user (R:=R) m s = (mk_shared u (confirmationHandlers s) (received s), Next ()).
Proof. unfold on_user. by intros ->. Qed.

Lemma NewEnvelope_ok {T} `{IEnvelopeLaws T} sender (x : T) :
  encodable x → ∃ env, NewEnvelope sender x = inl env.
Proof.
  intros Hx. apply marshal_ok in Hx as [j Hj]. unfold NewEnvelope, build_envelope. rewrite Hj.
  by eexists.
Qed.

Lemma NewEnvelope_refused {T} `{IEnvelopeLaws T} sender (x : T) :
  ¬ encodable x → ∃ e, NewEnvelope sender x = inr e.
Proof.
  intros Hx. unfold NewEnvelope, build_envelope.
  destruct (marshal x) as [j|e] eqn:Hj; [|by eexists]. destruct Hx. apply marshal_ok. eauto.
Qed.

(** ** Properties *)

(** A message survives the bus.  Whatever contents type is sent (status,
    update, confirmation, module control, metrics), an envelope made by
    [NewEnvelope], marshalled and parsed on the other side, names its sender and
    gives the same contents back, all strings as UTF-8. *)
Theorem envelope_roundtrip {T} `{IEnvelopeLaws T} `{!PlainKind T} sender (x : T) env :
  representable x → NewEnvelope sender x = inl env →
  ∃ env', ParseEnvelope (Some (MarshalEnvelope env)) = inl env' ∧
    Sender env' = to_utf8 sender ∧ Envelope_as T env' = (arrived x, None).
Proof. intros Hx Hnew. exists (wire env). split_and!; eauto with go. Qed.

Definition example_status : Status := mk_Status
  [mk_Point "line-650632.kW" (f64_of_Z 480) 7; mk_Point "line-650632.closed" f64_1 0].

Lemma example_status_representable : representable example_status.
Proof. simpl. repeat constructor; simpl; try done; lia. Qed.

Lemma envelope_roundtrip_witness :
  ∃ env, NewEnvelope "io" example_status = inl env ∧
  ∃ env', ParseEnvelope (Some (MarshalEnvelope env)) = inl env' ∧
    Sender env' = "io" ∧ Envelope_as Status env' = (example_status, None).
Proof.
  destruct (NewEnvelope "io" example_status) as [env|e] eqn:Henv; [|discriminate Henv].
  exists env. split; [done|].
  destruct (envelope_roundtrip "io" example_status env example_status_representable Henv)
    as (env' & Hp & Hs & Hx).
  exists env'. split; [exact Hp|]. split; [exact Hs|exact Hx].
Defined.

(** Publishing a status and receiving it runs the status handlers of the
    subscriber, all of them, in the order they were added and no other handler,
    each on an envelope that carries the sender and the published status. *)
Theorem pushed_status_dispatched {S} (sub : Subscriber S) sender (st : Status) env topic b b' :
  representable st → NewEnvelope sender st = inl env → Push topic env b = (b', None) →
  ∃ j env', last (sent b') = Some (topic, BJson j) ∧ carries (to_utf8 sender) (arrived st) env' ∧
    ∀ text s, run_iteration sub topic
      (RecvMessage [mk_frame topic None; mk_frame text (Some j)]) s
      = range (statusHandlers sub) (λ h, on_user (h env')) s.
Proof.
  intros Hr Hnew Hpush. exists (MarshalEnvelope env), (wire env).
  assert (sent b' = sent b ++ [(topic, BJson (MarshalEnvelope env))]) as ->.
  { unfold Push, SendMessage in Hpush. destruct (send_ok b (sends b)); [|done].
    by injection Hpush as <-. }
  split_and!; [apply last_snoc|by apply wire_carries|].
  intros text s. rewrite received_envelope. by apply (dispatch_status _ sender st).
Qed.

Lemma pushed_status_dispatched_witness :
  ∃ env env' j b', Push "RUNTIME" env (mk_bus [] 0 (λ _, true)) = (b', None) ∧
    last (sent b') = Some ("RUNTIME", BJson j) ∧ carries "io" example_status env' ∧
    ∀ text s, run_iteration
      (AddStatusHandler (λ _, modify S) (mk_Subscriber true [] [λ _, modify (λ _, 0%nat)] []))
      "RUNTIME" (RecvMessage [mk_frame "RUNTIME" None; mk_frame text (Some j)]) s
    = range [λ _, modify S] (λ h, on_user (h env')) s.
Proof.
  destruct (NewEnvelope "io" example_status) as [env|e] eqn:Henv; [|discriminate Henv].
  destruct (Push "RUNTIME" env (mk_bus [] 0 (λ _, true))) as [b' oe] eqn:Hp.
  assert (oe = None) as -> by (injection Hp as _ <-; reflexivity).
  destruct (pushed_status_dispatched
    (AddStatusHandler (λ _, modify S) (mk_Subscriber true [] [λ _, modify (λ _, 0%nat)] []))
    "io" example_status env "RUNTIME" _ b' example_status_representable Henv Hp) as (j & env' & Hj).
  exists env, env', j, b'. split; [exact Hp|exact Hj].
Defined.

(** A subscriber's receive loop never ends.  The goroutine that [Start]
    launches works on its own copy of the subscriber, so the [running = false]
    of [Stop] never reaches the loop condition: from a new subscriber, after any
    sequence of starts, stops and iterations, every goroutine ever started is
    still running and its loop condition still holds. *)
Theorem Stop_does_not_stop_the_loop st :
  rtc sub_step (mk_sub_system false []) st →
  Forall (eq true) (copies st) ∧
  (∀ st', sub_step st st' → (length (copies st) ≤ length (copies st'))%nat).
Proof.
  intros Hst. assert (Forall (eq true) (copies st)) as Hrun
    by (by eapply (sub_reachable_running false [])).
  split; [done|]. intros st' Hstep. destruct Hstep; simpl in *; [len|lia|lia|].
  apply Forall_app in Hrun as [_ Hrun]. by apply Forall_inv in Hrun.
Qed.

Lemma Stop_does_not_stop_the_loop_witness :
  let st := mk_sub_system false [true] in
  rtc sub_step (mk_sub_system false []) st ∧ Forall (eq true) (copies st).
Proof.
  assert (rtc sub_step (mk_sub_system false []) (mk_sub_system false [true])) as H.
  { eapply rtc_l; [apply (sub_start false [])|].
    eapply rtc_l; [apply sub_stop|]. apply rtc_refl. }
  split; [exact H|]. exact (proj1 (Stop_does_not_stop_the_loop _ H)).
Defined.

(** A counter counts.  Registered and then incremented by any sequence of
    [IncrMetric] (one) and [IncrMetricBy] calls, it holds exactly the sum of the
    increments as long as that stays below 2^53; other metrics are untouched. *)
Theorem metric_counts name desc (incs : list N) (this : metrics_table) :
  (foldr N.add 0%N incs < 2 ^ 53)%N →
  let this' := foldl (increment name) (NewMetric METRIC_COUNTER name desc this) incs in
  this' !! name = Some (counter name desc (foldr N.add 0%N incs)) ∧
  ∀ other, other ≠ name → this' !! other = this !! other.
Proof.
  intros Hlt.
  destruct (increments_sum name desc incs 0%N (NewMetric METRIC_COUNTER name desc this))
    as [H1 H2]; [apply lookup_insert_eq|lia|].
  split; [by rewrite H1, N.add_0_l|]. intros other Ho. rewrite H2 by done.
  by apply lookup_insert_ne.
Qed.

Lemma metric_counts_witness :
  (foldr N.add 0 [1; 8; 1] < 2 ^ 53)%N ∧
  foldl (increment "coil_writes_count")
    (NewMetric METRIC_COUNTER "coil_writes_count" "writes" ∅) [1%N; 8%N; 1%N]
    !! "coil_writes_count"
  = Some (counter "coil_writes_count" "writes" 10).
Proof.
  split; [reflexivity|].
  exact (proj1 (metric_counts "coil_writes_count" "writes" [1%N; 8%N; 1%N] ∅ eq_refl)).
Defined.
