(* ===== verification/ModbusRegister.v ===== *)
(** * modbus/util: the Modbus register codec

    [bytes.go]: packing of bits into bytes and back.  [register.go]: the
    [Register] type, its validation and the conversion between the float64 a
    tag holds and the bytes of the protocol. *)

From S2P Require Import Prelude GoFloat GoBytes.

(** ** math/bits *)

Definition Reverse8 (d : Z) : Z :=
  fold_left (λ acc i, Z.lor acc (Z.shiftl (Z.b2z (Z.testbit d i)) (7 - i)))
    [0; 1; 2; 3; 4; 5; 6; 7] 0.

Definition LeadingZeros8 (d : Z) : Z := if d =? 0 then 8 else 7 - Z.log2 d.

(** ** bytes.go *)

Fixpoint byte_bits_loop (n : nat) (d : Z) : list Z :=
  match n with
  | O => []
  | S n' => (if LeadingZeros8 d =? 0 then 1 else 0)
            :: byte_bits_loop n' (Z.land (Z.shiftl d 1) 255)
  end.

Definition BytesToBits (data : list Z) : list Z :=
  flat_map (λ d, byte_bits_loop 8 (Reverse8 d)) data.

(** An element of an array at an index known to be in range. *)
Definition byte_at (data : list Z) (i : nat) : Z := default 0 (data !! i).

(** [data[idx/8] |= byte(1 << (uint(idx) % 8))] *)
Definition set_bit (data : list Z) (idx : nat) : list Z :=
  let shift := Z.of_nat (idx mod 8) in
  <[(idx / 8)%nat := Z.lor (byte_at data (idx / 8)) (Z.land (Z.shiftl 1 shift) 255)]> data.

Fixpoint pack_loop (bits : list Z) (data : list Z) (idx : nat) : list Z :=
  match bits with
  | [] => data
  | b :: bits' =>
      pack_loop bits' (if negb (b =? 0) then set_bit data idx else data) (S idx)
  end.

Definition packed_size (count : nat) : nat :=
  (count / 8 + if count mod 8 =? 0 then 0 else 1)%nat.

Definition BitsToBytes (bits : list Z) : list Z :=
  pack_loop bits (replicate (packed_size (length bits)) 0) 0.

(** ** register.go *)

Definition validRegisterTypes : list string := ["coil"; "discrete"; "input"; "holding"].
Definition validDataTypes : list string :=
  ["int16"; "uint16"; "int32"; "uint32"; "int64"; "uint64"; "float"; "double"].

Definition slices_Contains (l : list string) (s : string) : bool :=
  existsb (String.eqb s) l.

Record Register := mk_Register {
  RType : string;
  DataType : string;
  Addr : Z;
  Count : Z;
  Scaling : Z;
  Tag : string;
}.

(** The [case "int16", ..., "uint64"] alternatives of the switches. *)
Definition int_data_type (dt : string) : option int_kind :=
  if (dt =? "int16")%string then Some I16
  else if (dt =? "uint16")%string then Some U16
  else if (dt =? "int32")%string then Some I32
  else if (dt =? "uint32")%string then Some U32
  else if (dt =? "int64")%string then Some I64
  else if (dt =? "uint64")%string then Some U64
  else None.

Definition is_bit_type (ty : string) : bool := (ty =? "coil")%string || (ty =? "discrete")%string.
Definition is_word_type (ty : string) : bool := (ty =? "input")%string || (ty =? "holding")%string.

Definition data_type_count (dt : string) (c : Z) : Z :=
  if slices_Contains ["int16"; "uint16"] dt then 1
  else if slices_Contains ["int32"; "uint32"] dt then 2
  else if slices_Contains ["int64"; "uint64"] dt then 4
  else if (dt =? "float")%string then 2
  else if (dt =? "double")%string then 4
  else c.

Section platform.
Context `{GoPlatform}.

Definition Init (this : Register) : result Register :=
  if negb (slices_Contains validRegisterTypes (RType this))
  then inr (Errorf "invalid register type '%s' provided")
  else if is_word_type (RType this) && negb (slices_Contains validDataTypes (DataType this))
  then inr (Errorf "invalid register data type '%s' provided")
  else inl {|
    RType := RType this;
    DataType := DataType this;
    Addr := Addr this;
    Count := data_type_count (DataType this) (Count this);
    Scaling := conv I64 (SFabs (f64_of_Z (Scaling this)));
    Tag := Tag this;
  |}.

Definition Scaled (this : Register) (value : float64) : float64 :=
  if is_bit_type (RType this) then value
  else if is_word_type (RType this) then
    match int_data_type (DataType this) with
    | Some _ => fmul value (math_Pow10 (f64_of_Z (Scaling this)))
    | None => value
    end
  else value.

Definition Bytes (this : Register) (value : float64) : result (list Z) :=
  if is_bit_type (RType this) then
    inl (write_int U16 (if feqb value f64_0 then 0 else 65280))
  else if is_word_type (RType this) then
    match int_data_type (DataType this) with
    | Some k => inl (write_int k (conv k (fmul value (math_Pow10 (f64_of_Z (Scaling this))))))
    | None =>
      if (DataType this =? "float")%string then inl (write_f32 (f32_of_f64 value))
      else if (DataType this =? "double")%string then inl (write_f64 value)
      else inr (Errorf "invalid register data type %s for register %d")
    end
  else inr (Errorf "invalid register type %s for register %d").

(** [None]: the index expression [bits[0]] panics on empty data. *)
Definition Value (this : Register) (data : list Z) : option (result float64) :=
  if is_bit_type (RType this) then
    match BytesToBits data with
    | b :: _ => Some (inl (f64_of_Z b))
    | [] => None
    end
  else if is_word_type (RType this) then
    Some match int_data_type (DataType this) with
    | Some k =>
        try val := wrapf "reading integer from %s %d: %w" (read_int k data) in
        inl (fmul (f64_of_Z val) (math_Pow10 (SFopp (f64_of_Z (Scaling this)))))
    | None =>
      if (DataType this =? "float")%string then
        try val := wrapf "reading float from %s %d: %w" (read_f32 data) in
        inl (f64_of_f32 val)
      else if (DataType this =? "double")%string then
        wrapf "reading double from %s %d: %w" (read_f64 data)
      else inr (Errorf "invalid register data type %s for register %d")
    end
  else Some (inr (Errorf "invalid register type %s for register %d")).
End platform.

(** What [Init] establishes: a known register type and, for the two word types,
    a known data type with its register count. *)
Definition register_wf (r : Register) : Prop :=
  slices_Contains validRegisterTypes (RType r) = true ∧
  (is_word_type (RType r) = true →
    slices_Contains validDataTypes (DataType r) = true ∧
    Count r = data_type_count (DataType r) 0).

(** Number of bytes a value of the register takes on the wire. *)
Definition wire_bytes (r : Register) : nat :=
  if is_word_type (RType r) then Z.to_nat (2 * Count r) else 2.

(** The bytes denote a number that a float64 holds exactly: an integer below
    2^53 in magnitude, or a float that is not a NaN. *)
Definition exact_data (r : Register) (data : list Z) : bool :=
  match int_data_type (DataType r) with
  | Some k => Z.abs (wrap k (be_decode data)) <? 2 ^ 53
  | None =>
    if (DataType r =? "float")%string then negb (is_nan (f32_of_bits (be_decode data)))
    else negb (is_nan (f64_of_bits (be_decode data)))
  end.

(** ** Bits and bytes *)

Definition bit_at (data : list Z) (i : nat) : bool :=
  Z.testbit (byte_at data (i / 8)) (Z.of_nat (i mod 8)).

Definition byte_bits (d : Z) : list Z :=
  map (λ i, Z.b2z (Z.testbit d i)) [0; 1; 2; 3; 4; 5; 6; 7].

Lemma byte_bits_loop_spec d : is_byte d → byte_bits_loop 8 (Reverse8 d) = byte_bits d.
Proof.
  intros [H0 H1].
  assert (Hall : forallb (λ n, bool_decide
    (byte_bits_loop 8 (Reverse8 (Z.of_nat n)) = byte_bits (Z.of_nat n))) (seq 0 256) = true)
    by (vm_compute; reflexivity).
  rewrite forallb_forall in Hall. specialize (Hall (Z.to_nat d)).
  rewrite bool_decide_eq_true, Z2Nat.id in Hall by lia. apply Hall. apply in_seq. lia.
Qed.

Lemma BytesToBits_cons d data :
  BytesToBits (d :: data) = byte_bits_loop 8 (Reverse8 d) ++ BytesToBits data.
Proof. done. Qed.

Lemma BytesToBits_length data : length (BytesToBits data) = (8 * length data)%nat.
Proof. induction data as [|d data IH]; [done|]. simpl in *. lia. Qed.

Lemma BytesToBits_lookup data i :
  Forall is_byte data → (i < 8 * length data)%nat →
  BytesToBits data !! i = Some (Z.b2z (bit_at data i)).
Proof.
  intros Hd. revert i. induction Hd as [|d data Hb Hd IH]; intros i Hi; simpl in Hi; [lia|].
  rewrite BytesToBits_cons, byte_bits_loop_spec by done.
  destruct (decide (i < 8)%nat) as [Hlt|Hge].
  - rewrite lookup_app_l by done. unfold bit_at.
    rewrite Nat.div_small, Nat.mod_small by done. simpl.
    do 8 (destruct i as [|i]; [done|]). lia.
  - rewrite lookup_app_r by (simpl; lia).
    change (length (byte_bits d)) with 8%nat.
    rewrite IH by lia. unfold bit_at. do 2 f_equal.
    replace i with (i - 8 + 1 * 8)%nat at 3 4 by lia.
    rewrite Nat.div_add, Nat.Div0.mod_add by lia. by rewrite Nat.add_1_r.
Qed.

Lemma set_bit_length data idx : length (set_bit data idx) = length data.
Proof. unfold set_bit. len. Qed.

Lemma pack_loop_length bits data idx : length (pack_loop bits data idx) = length data.
Proof.
  revert data idx. induction bits as [|b bits IH]; intros data idx; simpl; [done|].
  rewrite IH. case_match; [apply set_bit_length|done].
Qed.

Lemma bit_at_set_bit data idx i :
  (idx / 8 < length data)%nat →
  bit_at (set_bit data idx) i = bit_at data i || (i =? idx)%nat.
Proof.
  intros Hidx. unfold bit_at, set_bit.
  pose proof (Nat.div_mod_eq i 8). pose proof (Nat.div_mod_eq idx 8).
  pose proof (Nat.mod_upper_bound i 8). pose proof (Nat.mod_upper_bound idx 8).
  destruct (decide (idx / 8 = i / 8)%nat) as [He|Hne].
  - rewrite <- He. unfold byte_at at 1. rewrite list_lookup_insert_eq by done.
    unfold default, from_option, id.
    change 255 with (Z.ones 8). rewrite Z.lor_spec, Z.land_spec, Z.ones_spec_low by lia.
    rewrite andb_true_r. f_equal. rewrite Z.shiftl_1_l, Z.pow2_bits_eqb by lia.
    destruct (Nat.eqb_spec i idx) as [->|Hn]; [apply Z.eqb_refl|]. apply Z.eqb_neq. lia.
  - unfold byte_at at 1. rewrite list_lookup_insert_ne by done.
    destruct (Nat.eqb_spec i idx) as [->|Hn]; [done|]. by rewrite orb_false_r.
Qed.

(** The loop sets exactly the bits of the nonzero entries. *)
Lemma bit_at_pack_loop bits data idx i :
  (idx + length bits ≤ 8 * length data)%nat →
  bit_at (pack_loop bits data idx) i =
  bit_at data i || ((idx <=? i)%nat && negb (default 0 (bits !! (i - idx)%nat) =? 0)).
Proof.
  revert data idx. induction bits as [|b bits IH]; intros data idx Hlen; simpl in *.
  { by rewrite andb_false_r, orb_false_r. }
  rewrite IH by (case_match; rewrite ?set_bit_length; lia).
  assert (Hix : (idx / 8 < length data)%nat) by (apply Nat.Div0.div_lt_upper_bound; lia).
  assert (Hb : bit_at (if negb (b =? 0) then set_bit data idx else data) i
          = bit_at data i || ((i =? idx)%nat && negb (b =? 0))).
  { case_match; [by rewrite bit_at_set_bit, andb_true_r|].
    by rewrite andb_false_r, orb_false_r. }
  rewrite Hb, <- orb_assoc. f_equal.
  destruct (Nat.eqb_spec i idx) as [->|Hne].
  - replace (S idx <=? idx)%nat with false by (symmetry; apply Nat.leb_gt; lia).
    rewrite Nat.sub_diag, Nat.leb_refl. simpl. by rewrite orb_false_r.
  - cbn [andb orb]. destruct (Nat.leb_spec (S idx) i), (Nat.leb_spec idx i); try lia.
    by replace (i - idx)%nat with (S (i - S idx)) by lia.
Qed.

Lemma packed_size_spec n : (n ≤ 8 * packed_size n)%nat ∧ (8 * packed_size n < n + 8)%nat.
Proof.
  unfold packed_size. pose proof (Nat.div_mod_eq n 8). pose proof (Nat.mod_upper_bound n 8).
  destruct (Nat.eqb_spec (n mod 8) 0); lia.
Qed.

Lemma BitsToBytes_length bits : length (BitsToBytes bits) = packed_size (length bits).
Proof. unfold BitsToBytes. by rewrite pack_loop_length, length_replicate. Qed.

Lemma bit_at_BitsToBytes bits i :
  bit_at (BitsToBytes bits) i = negb (default 0 (bits !! i) =? 0).
Proof.
  unfold BitsToBytes. pose proof (packed_size_spec (length bits)).
  rewrite bit_at_pack_loop by len. rewrite Nat.sub_0_r. simpl.
  assert (bit_at (replicate (packed_size (length bits)) 0) i = false) as ->; [|done].
  unfold bit_at.
  destruct (decide (i / 8 < packed_size (length bits))%nat).
  - unfold byte_at. rewrite lookup_replicate_2 by done. apply Z.bits_0.
  - unfold byte_at. rewrite lookup_ge_None_2 by (rewrite length_replicate; lia).
    apply Z.bits_0.
Qed.

Lemma bytes_eq_bit_at l1 l2 :
  Forall is_byte l1 → Forall is_byte l2 → length l1 = length l2 →
  (∀ i, bit_at l1 i = bit_at l2 i) → l1 = l2.
Proof.
  intros H1 H2 Hlen Hbits. apply list_eq_same_length with (length l1); [done|done|].
  intros k x y Hk Hx Hy.
  rewrite Forall_lookup in H1, H2. specialize (H1 k x Hx). specialize (H2 k y Hy).
  apply Z.bits_inj'. intros j Hj.
  destruct (Z.ltb_spec j 8) as [Hlt|Hge].
  - specialize (Hbits (8 * k + Z.to_nat j)%nat). unfold bit_at, byte_at in Hbits.
    assert (((8 * k + Z.to_nat j) / 8)%nat = k) as Hq.
    { rewrite Nat.add_comm, Nat.mul_comm, Nat.div_add, Nat.div_small by lia. done. }
    assert (((8 * k + Z.to_nat j) mod 8)%nat = Z.to_nat j) as Hr.
    { rewrite Nat.add_comm, Nat.mul_comm, Nat.Div0.mod_add, Nat.mod_small by lia. done. }
    rewrite Hq, Hr, Hx, Hy, Z2Nat.id in Hbits by lia. done.
  - assert (Hhigh : ∀ z, is_byte z → Z.testbit z j = false); [|by rewrite !Hhigh].
    intros z [Hz0 Hz1]. rewrite Z.testbit_eqb by lia.
    rewrite Z.div_small; [done|]. split; [done|].
    apply Z.lt_le_trans with (2 ^ 8); [done|]. by apply Z.pow_le_mono_r.
Qed.

Lemma pack_loop_bytes bits data idx : Forall is_byte data → Forall is_byte (pack_loop bits data idx).
Proof.
  revert data idx. induction bits as [|b bits IH]; intros data idx Hd; simpl; [done|].
  apply IH. case_match; [|done]. unfold set_bit.
  assert (Hor : ∀ x y, is_byte x → is_byte (Z.lor x (Z.land y 255))).
  { intros x y [Hx0 Hx1]. unfold is_byte.
    assert (Z.lor x (Z.land y 255) = Z.land (Z.lor x y) 255) as ->.
    { rewrite Z.land_lor_distr_l. f_equal. rewrite land_255. by rewrite Z.mod_small. }
    rewrite land_255. apply Z.mod_pos_bound. lia. }
  apply Forall_insert; [done|]. apply Hor. unfold byte_at.
  destruct (data !! (idx / 8)%nat) eqn:Hl; [|by split].
  rewrite Forall_lookup in Hd. eauto.
Qed.

Lemma BitsToBytes_bytes bits : Forall is_byte (BitsToBytes bits).
Proof. apply pack_loop_bytes, Forall_replicate_intro. by split. Qed.

Lemma Forall_lookup_default {A} (P : A → Prop) (l : list A) i d :
  Forall P l → P d → P (default d (l !! i)).
Proof. intros Hl Hd. rewrite Forall_lookup in Hl. destruct (l !! i) eqn:E; simpl; eauto. Qed.

(** Packing then unpacking restores the bits, padded with zeros to whole bytes. *)
Lemma BytesToBits_BitsToBytes bits :
  Forall (λ b, b = 0 ∨ b = 1) bits →
  BytesToBits (BitsToBytes bits)
  = bits ++ replicate (8 * packed_size (length bits) - length bits) 0.
Proof.
  intros Hbits. pose proof (packed_size_spec (length bits)).
  apply list_eq_same_length with (8 * packed_size (length bits))%nat.
  - len.
  - by rewrite BytesToBits_length, BitsToBytes_length.
  - intros i x y Hi Hx Hy.
    rewrite BytesToBits_lookup in Hx
      by (rewrite ?BitsToBytes_length; auto using BitsToBytes_bytes).
    rewrite bit_at_BitsToBytes in Hx. injection Hx as <-.
    destruct (decide (i < length bits)%nat).
    + rewrite lookup_app_l in Hy by done.
      pose proof (Forall_lookup_default _ bits i 0 Hbits (or_introl eq_refl)) as [Hb|Hb];
        rewrite Hy in Hb |- *; simpl in *; by subst.
    + rewrite lookup_app_r in Hy by lia. rewrite lookup_replicate_2 in Hy by lia.
      rewrite lookup_ge_None_2 by lia. by injection Hy as <-.
Qed.

(** Unpacking then packing restores the bytes. *)
Lemma BitsToBytes_BytesToBits data :
  Forall is_byte data → BitsToBytes (BytesToBits data) = data.
Proof.
  intros Hd. apply bytes_eq_bit_at; [apply BitsToBytes_bytes|done| |].
  - rewrite BitsToBytes_length, BytesToBits_length. unfold packed_size.
    rewrite Nat.mul_comm, Nat.div_mul, Nat.Div0.mod_mul by lia. simpl. lia.
  - intros i. rewrite bit_at_BitsToBytes.
    destruct (decide (i < 8 * length data)%nat).
    + rewrite BytesToBits_lookup by done. simpl. by destruct (bit_at data i).
    + rewrite lookup_ge_None_2 by (rewrite BytesToBits_length; lia). simpl.
      unfold bit_at, byte_at. rewrite lookup_ge_None_2; [by rewrite Z.bits_0|].
      apply Nat.div_le_lower_bound; lia.
Qed.

(** ** Registers *)

Lemma slices_Contains_spec l s : slices_Contains l s = true ↔ In s l.
Proof.
  unfold slices_Contains. rewrite existsb_exists. split.
  - intros (x & Hx & ->%String.eqb_eq). done.
  - intros Hin. exists s. split; [done|apply String.eqb_refl].
Qed.

Lemma bit_not_word ty : is_bit_type ty = true → is_word_type ty = false.
Proof.
  unfold is_bit_type, is_word_type.
  intros [->%String.eqb_eq | ->%String.eqb_eq]%orb_true_iff; done.
Qed.

(** The three families of word registers and the width of each. *)
Inductive word_format (r : Register) : Prop :=
| format_int k :
    int_data_type (DataType r) = Some k → 2 * Count r = Z.of_nat (int_bytes k) → word_format r
| format_float :
    int_data_type (DataType r) = None → DataType r = "float" → Count r = 2 → word_format r
| format_double :
    int_data_type (DataType r) = None → DataType r = "double" → Count r = 4 → word_format r.

Lemma register_wf_format r :
  register_wf r → is_word_type (RType r) = true → word_format r.
Proof.
  intros [_ Hw] Hty. destruct (Hw Hty) as [Hdt Hc].
  apply slices_Contains_spec in Hdt. simpl in Hdt.
  repeat destruct Hdt as [Hdt|Hdt]; [| | | | | | | |done]; rewrite <- Hdt in Hc; simpl in Hc;
    first [ eapply format_int; [rewrite <- Hdt; reflexivity|rewrite Hc; reflexivity]
          | apply format_float; [by rewrite <- Hdt|by symmetry|done]
          | apply format_double; [by rewrite <- Hdt|by symmetry|done] ].
Qed.

Lemma word_format_count r : word_format r → 1 ≤ Count r ≤ 4.
Proof. intros [k _ Hc|_ _ Hc|_ _ Hc]; [destruct k; simpl in Hc|..]; lia. Qed.

Lemma register_wf_bit_or_word r :
  register_wf r → is_bit_type (RType r) = true ∨ is_word_type (RType r) = true.
Proof.
  intros [Hty _]. apply slices_Contains_spec in Hty. simpl in Hty.
  repeat destruct Hty as [Hty|Hty]; rewrite <- ?Hty; [by left|by left|by right|by right|done].
Qed.

Section register.
Context `{GoPlatform}.

Lemma Init_wf r r' : Init r = inl r' → register_wf r'.
Proof.
  unfold Init. destruct (slices_Contains validRegisterTypes (RType r)) eqn:Hty; [|done].
  destruct (is_word_type (RType r)) eqn:Hw; cbn [andb negb].
  - destruct (slices_Contains validDataTypes (DataType r)) eqn:Hdt; [|done].
    intros [= <-]. split; [exact Hty|]. intros _. split; [exact Hdt|]. simpl.
    apply slices_Contains_spec in Hdt. simpl in Hdt.
    by repeat destruct Hdt as [Hdt|Hdt]; rewrite <- ?Hdt.
  - intros [= <-]. split; [done|]. simpl. by rewrite Hw.
Qed.

Lemma Bytes_word r v :
  register_wf r → is_word_type (RType r) = true →
  ∃ bs, Bytes r v = inl bs ∧ Forall is_byte bs ∧ Z.of_nat (length bs) = 2 * Count r.
Proof.
  intros Hwf Hw. unfold Bytes.
  destruct (is_bit_type (RType r)) eqn:Hb; [apply bit_not_word in Hb; congruence|].
  rewrite Hw. destruct (register_wf_format r Hwf Hw) as [k -> Hc | -> -> Hc | -> -> Hc];
    eexists; (split; [done|]); (split; [apply be_encode_byte|]);
    unfold write_int, write_f32, write_f64; rewrite be_encode_length; lia.
Qed.

Lemma Value_word r data :
  register_wf r → is_word_type (RType r) = true →
  2 * Count r ≤ Z.of_nat (length data) → ∃ v, Value r data = Some (inl v).
Proof.
  intros Hwf Hw Hlen. unfold Value.
  destruct (is_bit_type (RType r)) eqn:Hb; [apply bit_not_word in Hb; congruence|].
  rewrite Hw. destruct (register_wf_format r Hwf Hw) as [k -> Hc | -> -> Hc | -> -> Hc];
    cbn -[read_int read_f32 read_f64]; unfold read_int, read_f32, read_f64;
    rewrite read_full_ok by lia; eexists; reflexivity.
Qed.

Lemma Value_short r data :
  register_wf r → is_word_type (RType r) = true →
  Z.of_nat (length data) < 2 * Count r → ∃ e, Value r data = Some (inr e).
Proof.
  intros Hwf Hw Hlen. unfold Value.
  destruct (is_bit_type (RType r)) eqn:Hb; [apply bit_not_word in Hb; congruence|].
  rewrite Hw. destruct (register_wf_format r Hwf Hw) as [k -> Hc | -> -> Hc | -> -> Hc];
    cbn -[read_int read_f32 read_f64]; unfold read_int, read_f32, read_f64.
  - destruct (read_full_short data (int_bytes k)) as [e ->]; [lia|by eexists].
  - destruct (read_full_short data 4) as [e ->]; [lia|by eexists].
  - destruct (read_full_short data 8) as [e ->]; [lia|by eexists].
Qed.

(** With no scaling, multiplying and dividing by 10^0 changes nothing. *)
Lemma scale_up_0 r f :
  Scaling r = 0 → valid64 f → fmul f (math_Pow10 (f64_of_Z (Scaling r))) = f.
Proof. intros ->. change (math_Pow10 _) with f64_1. apply fmul_1_r. Qed.

Lemma scale_down_0 r f :
  Scaling r = 0 → valid64 f → fmul f (math_Pow10 (SFopp (f64_of_Z (Scaling r)))) = f.
Proof. intros ->. change (math_Pow10 _) with f64_1. apply fmul_1_r. Qed.

Lemma Bytes_Value_int r k z rest :
  is_word_type (RType r) = true → int_data_type (DataType r) = Some k → Scaling r = 0 →
  in_range k z → Z.abs z < 2 ^ 53 →
  Bytes r (f64_of_Z z) = inl (write_int k z) ∧
  Value r (write_int k z ++ rest) = Some (inl (f64_of_Z z)).
Proof.
  intros Hw Hk Hs Hr Hz. unfold Bytes, Value.
  destruct (is_bit_type (RType r)) eqn:Hb; [apply bit_not_word in Hb; congruence|].
  rewrite Hw, Hk, scale_up_0, conv_of_Z by auto with go.
  split; [done|]. rewrite read_write_int by done. simpl. by rewrite scale_down_0 by auto with go.
Qed.

(** Decoding bytes and encoding the value gives the bytes back, for every data
    type, when the register is not scaled and the number fits a float64. *)
Lemma Value_Bytes_exact r data :
  register_wf r → is_word_type (RType r) = true → Scaling r = 0 →
  Forall is_byte data → Z.of_nat (length data) = 2 * Count r → exact_data r data = true →
  ∃ v, Value r data = Some (inl v) ∧ Bytes r v = inl data.
Proof.
  intros Hwf Hw Hs Hby Hlen Hex. unfold Value, Bytes.
  destruct (is_bit_type (RType r)) eqn:Hb; [apply bit_not_word in Hb; congruence|].
  rewrite Hw. pose proof (be_decode_range data Hby) as Hdr. unfold exact_data in Hex.
  destruct (register_wf_format r Hwf Hw) as [k Hk Hc|Hk Hdt Hc|Hk Hdt Hc].
  - rewrite Hk in *. apply Z.ltb_lt in Hex.
    destruct (read_int k data) as [z|e] eqn:Hrd.
    2: { unfold read_int in Hrd. rewrite read_full_ok in Hrd by lia. done. }
    pose proof (write_read_int k data z Hby Hrd) as Hwr.
    rewrite take_ge in Hwr by lia. unfold read_int in Hrd.
    rewrite read_full_ok, take_ge in Hrd by lia. injection Hrd as <-.
    eexists; split; [done|]. simpl.
    rewrite scale_down_0, scale_up_0, conv_of_Z by auto with go. by rewrite Hwr.
  - rewrite Hk, Hdt in *. simpl in *. apply negb_true_iff in Hex.
    unfold read_f32. rewrite read_full_ok, take_ge by lia. eexists; split; [done|].
    unfold write_f32. rewrite f32_roundtrip by auto with go. f_equal.
    assert (length data = 4%nat) as Hl by lia. rewrite Hl in Hdr.
    rewrite f32_of_bits_inv by done. rewrite <- Hl. by apply be_encode_decode.
  - rewrite Hk, Hdt in *. simpl in *. apply negb_true_iff in Hex.
    unfold read_f64. rewrite read_full_ok, take_ge by lia. eexists; split; [done|].
    unfold write_f64. f_equal.
    assert (length data = 8%nat) as Hl by lia. rewrite Hl in Hdr.
    rewrite f64_of_bits_inv by done. rewrite <- Hl. by apply be_encode_decode.
Qed.
End register.

(** ** Properties *)

(** Bit packing is a bijection up to padding.  Unpacking packed coils gives
    them back followed by zeros up to a whole number of bytes, and packing
    unpacked bytes gives the bytes back. *)
Theorem bits_bytes_roundtrip bits data :
  Forall (λ b, b = 0 ∨ b = 1) bits → Forall is_byte data →
  BytesToBits (BitsToBytes bits)
    = bits ++ replicate (8 * packed_size (length bits) - length bits) 0 ∧
  BitsToBytes (BytesToBits data) = data.
Proof. intros Hb Hd. split; [by apply BytesToBits_BitsToBytes|by apply BitsToBytes_BytesToBits]. Qed.

Lemma bits_bytes_roundtrip_witness :
  BytesToBits (BitsToBytes [1; 0; 1; 1; 0; 0; 1; 1; 1; 0])
    = [1; 0; 1; 1; 0; 0; 1; 1; 1; 0] ++ replicate 6 0 ∧
  BitsToBytes (BytesToBits [205; 1]) = [205; 1].
Proof.
  apply (bits_bytes_roundtrip [1; 0; 1; 1; 0; 0; 1; 1; 1; 0] [205; 1]).
  - repeat constructor; lia.
  - repeat constructor; lia.
Defined.

(** [Init] accepts exactly the four register types, with one of the eight
    data types for input and holding registers, and then the register's count
    is the number of 16-bit words of its data type, between one and four. *)
Theorem Init_validates `{GoPlatform} r :
  ((∃ r', Init r = inl r') ↔
    In (RType r) validRegisterTypes ∧
    (is_word_type (RType r) = true → In (DataType r) validDataTypes)) ∧
  ∀ r', Init r = inl r' →
    RType r' = RType r ∧ DataType r' = DataType r ∧ Addr r' = Addr r ∧ Tag r' = Tag r ∧
    (is_word_type (RType r) = true → 1 ≤ Count r' ≤ 4 ∧ word_format r').
Proof.
  rewrite <- !slices_Contains_spec. split.
  - unfold Init. destruct (slices_Contains validRegisterTypes (RType r)); cbn [negb].
    2: split; [by intros [? ?]|by intros [? _]].
    destruct (is_word_type (RType r)); cbn [andb]; [|split; [by intros _|by eauto]].
    destruct (slices_Contains validDataTypes (DataType r)); cbn [negb]; split; eauto.
    + by intros [? ?].
    + intros [_ Hdt]. by specialize (Hdt eq_refl).
  - intros r' Hr. pose proof (Init_wf r r' Hr) as Hwf.
    unfold Init in Hr. repeat case_match; try done. injection Hr as <-.
    split_and!; try done; [intros Hw..].
    all: pose proof (register_wf_format _ Hwf Hw) as Hf; eauto using word_format_count.
Qed.

(** The first coil or input of an answer is the lowest bit of its first byte. *)
Lemma Value_bits `{GoPlatform} r d data :
  is_bit_type (RType r) = true → is_byte d →
  Value r (d :: data) = Some (inl (f64_of_Z (Z.b2z (Z.testbit d 0)))).
Proof. intros Hb Hd. unfold Value. by rewrite Hb, BytesToBits_cons, byte_bits_loop_spec. Qed.

Lemma register_kind r :
  slices_Contains validRegisterTypes (RType r) = true →
  is_bit_type (RType r) = true ∨ is_word_type (RType r) = true.
Proof.
  rewrite slices_Contains_spec. simpl. intros Hr.
  repeat destruct Hr as [Hr|Hr]; rewrite <- ?Hr; first [by left|by right|done].
Qed.

(** C28: what a register that [Init] accepts encodes and decodes.  An input or
    holding register encodes every value, to exactly its count of 16-bit words;
    decoding succeeds as soon as that many bytes are there and fails with an
    error when they are not.  A coil or discrete input encodes zero as two zero
    bytes and any other value as 0xFF00; it decodes to the lowest bit of the
    first byte, and on no bytes at all it has no error to return: it panics. *)
Theorem codec_total `{GoPlatform} r0 r v data :
  Init r0 = inl r → Forall is_byte data →
  (is_word_type (RType r) = true ∧
   (∃ bs, Bytes r v = inl bs ∧ Forall is_byte bs ∧ Z.of_nat (length bs) = 2 * Count r) ∧
   (2 * Count r ≤ Z.of_nat (length data) → ∃ x, Value r data = Some (inl x)) ∧
   (Z.of_nat (length data) < 2 * Count r → ∃ e, Value r data = Some (inr e))) ∨
  (is_bit_type (RType r) = true ∧
   Bytes r v = inl (if feqb v f64_0 then [0; 0] else [255; 0]) ∧
   Value r data = match data with
                  | [] => None
                  | d :: _ => Some (inl (if Z.testbit d 0 then f64_1 else f64_0))
                  end).
Proof.
  intros Hi Hd. pose proof (Init_wf _ _ Hi) as Hwf.
  destruct (register_kind r (proj1 Hwf)) as [Hb|Hw]; [right|left].
  - split_and!; [done|unfold Bytes; rewrite Hb; by destruct (feqb v f64_0)|].
    destruct data as [|d data]; [unfold Value; by rewrite Hb|].
    rewrite Value_bits by (done || by inversion Hd). by destruct (Z.testbit d 0).
  - split_and!; [done|by apply Bytes_word|by apply Value_word|by apply Value_short].
Qed.

Definition kw_register : Register := mk_Register "input" "uint32" 30000 0 (-2) "line-650632.kW".
Definition breaker_register : Register := mk_Register "coil" "" 3 0 0 "breaker".

Lemma codec_total_witness :
  (∃ r, @Init amd64 kw_register = inl r ∧ ∃ e, @Value amd64 r [0; 0; 187] = Some (inr e)) ∧
  (∃ r, @Init amd64 breaker_register = inl r ∧ @Value amd64 r [] = None).
Proof.
  split; eexists; (split; [reflexivity|]).
  - destruct (@codec_total amd64 kw_register _ f64_0 [0; 0; 187] eq_refl) as [(_ & _ & _ & He)|[Hb _]].
    + repeat constructor; lia.
    + apply He. reflexivity.
    + discriminate Hb.
  - destruct (@codec_total amd64 breaker_register _ f64_0 [] eq_refl) as [[Hw _]|(_ & _ & Hv)].
    + constructor.
    + discriminate Hw.
    + exact Hv.
Defined.

(** C23: the wire format round-trips.  For an unscaled register of any data type,
    decoding the bytes a client wrote and encoding the value for a client that
    reads gives the same bytes, whenever a float64 can hold the number (all
    16- and 32-bit integers, 64-bit ones below 2^53, all floats but NaN). *)
Theorem wire_roundtrip `{GoPlatform} r data :
  register_wf r → is_word_type (RType r) = true → Scaling r = 0 →
  Forall is_byte data → Z.of_nat (length data) = 2 * Count r → exact_data r data = true →
  ∃ v, Value r data = Some (inl v) ∧ Bytes r v = inl data.
Proof. apply Value_Bytes_exact. Qed.

Definition setpoint : Register := mk_Register "holding" "int32" 40 2 0 "setpoint".

Lemma wire_roundtrip_witness :
  ∃ v, @Value amd64 setpoint [255; 255; 255; 214] = Some (inl v) ∧
       @Bytes amd64 setpoint v = inl [255; 255; 255; 214].
Proof.
  apply (@wire_roundtrip amd64 setpoint); try reflexivity.
  - split; [reflexivity|]. intros _. split; reflexivity.
  - repeat constructor; lia.
Defined.

(** Scaling on the way out is exact for integers.  A tag that holds the
    integer [z] in a register scaled by [s] digits is sent as the integer
    [z * 10^s] of the register's type, whatever the platform, as long as that
    product fits both the type and 53 bits. *)
Theorem scaled_encoding `{GoPlatform} r k z :
  is_word_type (RType r) = true → int_data_type (DataType r) = Some k →
  0 ≤ Scaling r ≤ 15 → in_range k (z * 10 ^ Scaling r) →
  Z.abs z < 2 ^ 53 → Z.abs (z * 10 ^ Scaling r) < 2 ^ 53 →
  Bytes r (f64_of_Z z) = inl (write_int k (z * 10 ^ Scaling r)) ∧
  Scaled r (f64_of_Z z) = f64_of_Z (z * 10 ^ Scaling r).
Proof.
  intros Hw Hk Hs Hr Hz Hp. unfold Bytes, Scaled.
  destruct (is_bit_type (RType r)) eqn:Hb; [apply bit_not_word in Hb; congruence|].
  assert (0 < 10 ^ Scaling r ≤ 10 ^ 15) by
    (split; [apply Z.pow_pos_nonneg|apply Z.pow_le_mono_r]; lia).
  rewrite Hw, Hk, math_Pow10_int, fmul_of_Z by lia.
  by rewrite conv_of_Z.
Qed.

Lemma scaled_encoding_witness :
  @Bytes amd64 (mk_Register "input" "uint32" 0 2 2 "kW") (f64_of_Z 480) = inl [0; 0; 187; 128] ∧
  @Scaled amd64 (mk_Register "input" "uint32" 0 2 2 "kW") (f64_of_Z 480) = f64_of_Z 48000.
Proof.
  apply (@scaled_encoding amd64 (mk_Register "input" "uint32" 0 2 2 "kW") U32 480);
    try reflexivity; unfold in_range, int_min, int_max; simpl; lia.
Defined.

(** Scaling is not symmetric.  The conversion back to an integer truncates
    instead of rounding, so a register value that is read, or written by a
    client, and sent out again can come back one smaller: with two digits of
    scaling the raw value 29 is decoded to 0.29 and encoded as 28, on every
    platform. *)
Theorem scaled_value_loses_a_unit `{GoPlatform} :
  let r := mk_Register "holding" "uint16" 7 1 2 "setpoint" in
  ∃ v, Value r [0; 29] = Some (inl v) ∧ Bytes r v = inl [0; 28].
Proof. eexists. split; vm_compute; reflexivity. Qed.
