(* ===== verification/ModbusSettings.v ===== *)
(** * The settings the Modbus modules share

    [modbus/server] and [modbus/client] read the settings of a serial line and
    the elements of registers with the same code, up to the record they store
    them in: the steps here work on any state, with an update [upd] of the serial
    settings it holds. *)

From S2P Require Import Prelude GoFloat GoText Etree ModbusRegister.

(** The settings of the serial library. *)
Record serial_Config := mk_serial_Config {
  Address : string;
  BaudRate : Z;
  DataBits : Z;
  StopBits : Z;
  Parity : string;
  Timeout : Z;
}.

(** [x, err = strconv.Atoi(text)] with the early return: the assignment is made
    before the error is looked at. *)
Definition assign_int {S} (text format : string) (set : Z → S → S) : go S (option error) () :=
  let '(v, err) := Atoi text in
  _ ← modify (set v);
  match err with Some e => return_ (Some (Wrapf format e)) | None => mret () end.

Section serial.
Context `{GoPlatform} `{Etree} {S : Type} (upd : (serial_Config → serial_Config) → S → S).

Definition configure_serial (child : Element) : go S (option error) () :=
  let text := Text child in
  if String.eqb (ETag child) "device" then
    modify (upd (λ c, mk_serial_Config text (BaudRate c) (DataBits c) (StopBits c) (Parity c) (Timeout c)))
  else if String.eqb (ETag child) "baud-rate" then
    assign_int text "invalid baud rate '%s' provided: %w" (λ v, upd (λ c,
      mk_serial_Config (Address c) v (DataBits c) (StopBits c) (Parity c) (Timeout c)))
  else if String.eqb (ETag child) "data-bits" then
    assign_int text "invalid data bits '%s' provided: %w" (λ v, upd (λ c,
      mk_serial_Config (Address c) (BaudRate c) v (StopBits c) (Parity c) (Timeout c)))
  else if String.eqb (ETag child) "stop-bits" then
    assign_int text "invalid stop bits '%s' provided: %w" (λ v, upd (λ c,
      mk_serial_Config (Address c) (BaudRate c) (DataBits c) v (Parity c) (Timeout c)))
  else if String.eqb (ETag child) "parity" then
    let set_parity p := modify (upd (λ c,
      mk_serial_Config (Address c) (BaudRate c) (DataBits c) (StopBits c) p (Timeout c))) in
    if EqualFold text "none" then set_parity "N"
    else if EqualFold text "even" then set_parity "E"
    else if EqualFold text "odd" then set_parity "O"
    else return_ (Some (Errorf "invalid parity '%s' provided"))
  else if String.eqb (ETag child) "timeout" then
    let set_timeout d := modify (upd (λ c,
      mk_serial_Config (Address c) (BaudRate c) (DataBits c) (StopBits c) (Parity c) d)) in
    match ParseDuration text with
    | inl d => set_timeout d
    | inr e => _ ← set_timeout 0; return_ (Some (Wrapf "invalid timeout '%s' provided: %w" e))
    end
  else mret ().

(** The body of [case "register"] up to and including [reg.Init()]. *)
Definition parse_register (child : Element) : result Register :=
  match SelectAttr child "type" with
  | None => inr (Errorf "type attribute missing from register for %s")
  | Some ty =>
    let data_type :=
      if is_word_type ty then SelectAttrValue child "data-type" "uint16" else "" in
    match SelectElement child "address" with
    | None => inr (Errorf "address element missing from register for %s")
    | Some a =>
      match Atoi (Text a) with
      | (_, Some _) => inr (Errorf "unable to convert register address '%s' for %s")
      | (addr, None) =>
        match SelectElement child "tag" with
        | None => inr (Errorf "tag element missing from register for %s")
        | Some t =>
          let scaling :=
            match SelectElement child "scaling" with
            | Some sc => if String.eqb data_type "float" then 0 else (Atoi (Text sc)).1
            | None => 0
            end in
          wrapf "validating register for %s: %w"
            (Init (mk_Register ty data_type addr 0 scaling (Text t)))
        end
      end
    end
  end.
End serial.

(** An error that is returned is not nil. *)
Definition is_error (o : option error) : Prop := o ≠ None.

(** The settings steps keep what [upd] keeps, and end. *)
Section laws.
Context {S : Type} (Q : S → S → Prop) `{!PreOrder Q}.

Lemma assign_int_ok text format set :
  (∀ v s, Q s (set v s)) →
  keeps Q (assign_int text format set) ∧ ends is_error (assign_int text format set).
Proof.
  intros Hset. unfold assign_int.
  destruct (Atoi text) as [v [e|]]; split; intros s; simpl; try done; apply Hset.
Qed.

Context `{GoPlatform} `{Etree} (upd : (serial_Config → serial_Config) → S → S).
Hypothesis Hupd : ∀ f s, Q s (upd f s).

Lemma configure_serial_ok c :
  keeps Q (configure_serial upd c) ∧ ends is_error (configure_serial upd c).
Proof.
  unfold configure_serial.
  repeat match goal with
  | |- context [if ?b then _ else _] => destruct b
  | |- context [match ParseDuration ?t with _ => _ end] => destruct (ParseDuration t)
  end; try (apply assign_int_ok; auto); split; intros s; simpl; try apply Hupd; done.
Qed.

Lemma configure_serials_ok (init : S → S) l :
  (∀ s, Q s (init s)) →
  keeps Q (_ ← modify init; range l (configure_serial upd)) ∧
  ends is_error (_ ← modify init; range l (configure_serial upd)).
Proof.
  intros Hi. split.
  - apply keeps_bind; [apply _|by apply keeps_modify|]. intros _. apply keeps_range; [apply _|].
    apply configure_serial_ok.
  - apply ends_bind; [by intros s|]. intros _. apply ends_range. apply configure_serial_ok.
Qed.
End laws.

Section registers.
Context `{GoPlatform} `{Etree}.

(** A register that is accepted went through [Init]. *)
Lemma parse_register_wf c reg :
  parse_register c = inl reg →
  register_wf reg ∧ SelectAttr c "type" = Some (RType reg) ∧
  (∃ a, SelectElement c "address" = Some a ∧ Atoi (Text a) = (Addr reg, None)) ∧
  (∃ t, SelectElement c "tag" = Some t ∧ Text t = Tag reg).
Proof.
  unfold parse_register. destruct (SelectAttr c "type") as [ty|]; [|done].
  destruct (SelectElement c "address") as [a|]; [|done].
  destruct (Atoi (Text a)) as [addr [e|]] eqn:Ha; [done|].
  destruct (SelectElement c "tag") as [t|]; [|done].
  destruct (Init _) as [r|e] eqn:Hi; [|done]. intros [= <-].
  pose proof (Init_wf _ _ Hi) as Hwf. unfold Init in Hi. repeat case_match; try done.
  all: injection Hi as <-; split_and!; eauto.
Qed.
End registers.
