(* ===== verification/ModbusServer.v ===== *)
(** * modbus/server: the Modbus server module

    The handlers registered with the Modbus library for the function codes 1,
    2, 3, 4, 5, 6, 15 and 16 ([coil.go], [discrete.go], [input.go],
    [holding.go]) and the message bus handler ([server.go]).  A handler gets the
    data field of the request as a [slice] and returns the data of the response
    and an exception code. *)

From S2P Require Import Prelude GoFloat GoBytes Etree ModbusRegister ModbusSettings Json Msgbus.

(** The exceptions of the Modbus library that the handlers return. *)
Inductive Exception := Success | IllegalDataAddress | IllegalDataValue | SlaveDeviceFailure.

#[export] Instance Exception_eq_dec : EqDecision Exception.
Proof. solve_decision. Defined.

Definition response : Type := list Z * Exception.

Abbreviation register_map := (gmap Z Register).

(** The module's fields. *)
Record ModbusServer := mk_ModbusServer {
  pullEndpoint : string;
  pubEndpoint : string;
  name : string;
  unit_id : Z;
  endpoint : string;
  serial : option serial_Config;
  registers : gmap string register_map;
  tags : gmap string float64;
  metrics : metrics_table;
  pusher : bus;
}.

Definition set_tags (t : gmap string float64) (s : ModbusServer) : ModbusServer :=
  mk_ModbusServer (pullEndpoint s) (pubEndpoint s) (name s) (unit_id s) (endpoint s) (serial s) (registers s) t (metrics s) (pusher s).
Definition set_metrics (m : metrics_table) (s : ModbusServer) : ModbusServer :=
  mk_ModbusServer (pullEndpoint s) (pubEndpoint s) (name s) (unit_id s) (endpoint s) (serial s) (registers s) (tags s) m (pusher s).
Definition set_pusher (b : bus) (s : ModbusServer) : ModbusServer :=
  mk_ModbusServer (pullEndpoint s) (pubEndpoint s) (name s) (unit_id s) (endpoint s) (serial s) (registers s) (tags s) (metrics s) b.

Definition handler : Type := go ModbusServer response response.

(** [this.tags[tag]]: zero when the tag is not in the map. *)
Definition tag_value (s : ModbusServer) (tag : string) : float64 :=
  default f64_0 (tags s !! tag).

(** [this.tags[tag] = value] *)
Definition set_tag {R} (tag : string) (value : float64) : go ModbusServer R () :=
  modify (λ s, set_tags (<[tag := value]> (tags s)) s).

(** [this.registers[ty]], with the early return when it is nil. *)
Definition registers_of (ty : string) : go ModbusServer response register_map :=
  s ← get;
  match registers s !! ty with
  | None => return_ ([], IllegalDataAddress)
  | Some regs => mret regs
  end.

(** [this.registers[ty][addr]], with the early return when it is missing. *)
Definition register_at (regs : register_map) (addr : Z) : go ModbusServer response Register :=
  match regs !! addr with
  | None => return_ ([], IllegalDataAddress)
  | Some reg => mret reg
  end.

(** [append([]byte{byte(size)}, data...), &mbserver.Success] *)
Definition sized_response (size : Z) (data : list Z) : response :=
  (size mod 256 :: data, Success).

Section platform.
Context `{GoPlatform}.

(** ** coil.go and discrete.go: reading bits *)

Fixpoint coil_bits_loop (regs : register_map) (n : nat) (addr : Z)
  : go ModbusServer response (list Z) :=
  match n with
  | O => mret []
  | S n' =>
    reg ← register_at regs addr;
    s ← get;
    let value := tag_value s (Tag reg) in
    bits ← coil_bits_loop regs n' (addr + 1);
    mret ((if feqb value f64_0 then 0 else 1) :: bits)
  end.

Definition readCoilRegisters (data : slice) : handler :=
  regs ← registers_of "coil";
  start ← eval (uint16_at data 0) PanicBounds;
  count ← eval (uint16_at data 2) PanicBounds;
  bits ← coil_bits_loop regs (Z.to_nat count) start;
  let data := BitsToBytes bits in
  mret (sized_response (Z.of_nat (length data)) data).

Fixpoint discrete_loop (regs : register_map) (n : nat) (addr : Z) (data : list Z) (idx : nat)
  : go ModbusServer response (list Z) :=
  match n with
  | O => mret data
  | S n' =>
    reg ← register_at regs addr;
    s ← get;
    let value := tag_value s (Tag reg) in
    discrete_loop regs n' (addr + 1)
      (if negb (feqb value f64_0) then set_bit data idx else data) (S idx)
  end.

Definition readDiscreteRegisters (data : slice) : handler :=
  regs ← registers_of "discrete";
  start ← eval (uint16_at data 0) PanicBounds;
  count ← eval (uint16_at data 2) PanicBounds;
  let size := count / 8 + (if negb (count mod 8 =? 0) then 1 else 0) in
  data ← discrete_loop regs (Z.to_nat count) start (replicate (Z.to_nat size) 0) 0;
  mret (sized_response size data).

(** ** input.go and holding.go: reading words *)

Fixpoint read_words_loop (fuel : nat) (regs : register_map) (addr stop size : Z) (data : list Z)
  : go ModbusServer response (Z * list Z) :=
  match fuel with
  | O => nofuel
  | S fuel' =>
    if addr <? stop then
      reg ← register_at regs addr;
      s ← get;
      match Bytes reg (tag_value s (Tag reg)) with
      | inr _ => return_ ([], SlaveDeviceFailure)
      | inl buf =>
        read_words_loop fuel' regs (addr + Count reg) stop (size + Count reg * 2) (data ++ buf)
      end
    else mret (size, data)
  end.

(** The two handlers differ in the register table only. *)
Definition read_words (ty : string) (data : slice) : handler :=
  regs ← registers_of ty;
  start ← eval (uint16_at data 0) PanicBounds;
  count ← eval (uint16_at data 2) PanicBounds;
  r ← read_words_loop (S (Z.to_nat count)) regs start (start + count) 0 [];
  mret (sized_response r.1 r.2).

Definition readHoldingRegisters (data : slice) : handler := read_words "holding" data.
Definition readInputRegisters (data : slice) : handler := read_words "input" data.

(** ** Writing *)

(** The publication of the updates at the end of the four write handlers. *)
Definition publish (updates : list Point) : go ModbusServer response () :=
  s ← get;
  match NewEnvelope (name s) (mk_Update updates "" "") with
  | inr _ => return_ ([], SlaveDeviceFailure)
  | inl env =>
    match Push "RUNTIME" env (pusher s) with
    | (b, None) => modify (set_pusher b)
    | (b, Some _) => _ ← modify (set_pusher b); return_ ([], SlaveDeviceFailure)
    end
  end.

(** [reg.Value(data)] and the early return on an error. *)
Definition register_value (reg : Register) (data : slice) : go ModbusServer response float64 :=
  v ← eval (Value reg (vis data)) PanicBounds;
  match v with
  | inr _ => return_ ([], IllegalDataValue)
  | inl value => mret value
  end.

(** [writeCoilRegister] and [writeHoldingRegister] differ in the register table
    and the metric. *)
Definition write_single (ty metric : string) (data : slice) : handler :=
  regs ← registers_of ty;
  addr ← eval (uint16_at data 0) PanicBounds;
  reg ← register_at regs addr;
  d ← eval (slice_expr data 2 4) PanicBounds;
  value ← register_value reg d;
  _ ← set_tag (Tag reg) value;
  _ ← publish [mk_Point (Tag reg) value 0];
  _ ← modify (λ s, set_metrics (IncrMetric metric (metrics s)) s);
  r ← eval (slice_expr data 0 4) PanicBounds;
  mret (vis r, Success).

Definition writeCoilRegister (data : slice) : handler :=
  write_single "coil" "coil_writes_count" data.
Definition writeHoldingRegister (data : slice) : handler :=
  write_single "holding" "holding_writes_count" data.

(** [if len(updates) > 0 { ... }] and the end of the two multiple writes. *)
Definition finish_write (metric : string) (data : slice) (count : Z) (updates : list Point)
  : handler :=
  _ ← (if (0 <? length updates)%nat then publish updates else mret ());
  _ ← modify (λ s, set_metrics (IncrMetricBy metric count (metrics s)) s);
  r ← eval (slice_expr data 0 4) PanicBounds;
  mret (vis r, Success).

Fixpoint write_coils_loop (regs : register_map) (bits : list Z) (n : nat) (addr : Z) (idx : nat)
  (updates : list Point) : go ModbusServer response (list Point) :=
  match n with
  | O => mret updates
  | S n' =>
    reg ← register_at regs addr;
    b ← eval (bits !! idx) PanicBounds;
    let val := f64_of_Z b in
    _ ← set_tag (Tag reg) val;
    write_coils_loop regs bits n' (addr + 1) (S idx) (updates ++ [mk_Point (Tag reg) val 0])
  end.

Definition writeCoilRegisters (data : slice) : handler :=
  regs ← registers_of "coil";
  start ← eval (uint16_at data 0) PanicBounds;
  count ← eval (uint16_at data 2) PanicBounds;
  d ← eval (slice_from data 5) PanicBounds;
  let bits := BytesToBits (vis d) in
  updates ← write_coils_loop regs bits (Z.to_nat count) start 0 [];
  finish_write "coil_writes_count" data count updates.

Fixpoint write_words_loop (fuel : nat) (regs : register_map) (data : slice) (addr stop begin : Z)
  (updates : list Point) : go ModbusServer response (list Point) :=
  match fuel with
  | O => nofuel
  | S fuel' =>
    if addr <? stop then
      reg ← register_at regs addr;
      let end_ := begin + Count reg * 2 in
      d ← eval (slice_expr data begin end_) PanicBounds;
      value ← register_value reg d;
      _ ← set_tag (Tag reg) value;
      write_words_loop fuel' regs data (addr + Count reg) stop end_
        (updates ++ [mk_Point (Tag reg) value 0])
    else mret updates
  end.

Definition writeHoldingRegisters (data : slice) : handler :=
  regs ← registers_of "holding";
  start ← eval (uint16_at data 0) PanicBounds;
  count ← eval (uint16_at data 2) PanicBounds;
  updates ← write_words_loop (S (Z.to_nat count)) regs data start (start + count) 5 [];
  finish_write "holding_writes_count" data count updates.

(** ** server.go *)

(** The handlers [Run] registers, by function code. *)
Definition function_handler (code : Z) : option (slice → handler) :=
  if code =? 1 then Some readCoilRegisters
  else if code =? 2 then Some readDiscreteRegisters
  else if code =? 3 then Some readHoldingRegisters
  else if code =? 4 then Some readInputRegisters
  else if code =? 5 then Some writeCoilRegister
  else if code =? 6 then Some writeHoldingRegister
  else if code =? 15 then Some writeCoilRegisters
  else if code =? 16 then Some writeHoldingRegisters
  else None.

(** A status that cannot be decoded for another reason than its kind is only
    logged: the measurements decoded before the error are applied. *)
Definition handleMsgBusStatus (env : Envelope) : go ModbusServer () () :=
  s ← get;
  if String.eqb (Sender env) (name s) then return_ () else
  _ ← modify (λ s, set_metrics (IncrMetric "status_count" (metrics s)) s);
  let '(status, e) := Envelope_Status env in
  let not_status :=
    match e with Some e => errors_Is e "not a Status message" | None => false end in
  if not_status then return_ () else
  range (Measurements status) (λ point, set_tag (Point_Tag point) (Point_Value point)).
End platform.

(** ** Specification vocabulary *)

(** The registers a request for the addresses [addr, stop) walks through, each
    one moving the address by [step], and whether the walk got to the end
    ([true]) or met an address with no register ([false]). *)
Inductive walk (step : Register → Z) (regs : register_map) (stop : Z)
  : Z → list Register → bool → Prop :=
| walk_end addr : stop ≤ addr → walk step regs stop addr [] true
| walk_missing addr : addr < stop → regs !! addr = None → walk step regs stop addr [] false
| walk_reg addr r rs b :
    addr < stop → regs !! addr = Some r → walk step regs stop (addr + step r) rs b →
    walk step regs stop addr (r :: rs) b.

(** Coils and discrete inputs take one address each, words their count. *)
Definition bit_step (r : Register) : Z := 1.

(** 16-bit words of a list of registers. *)
Definition words (rs : list Register) : Z := foldr (λ r n, Count r + n) 0 rs.

(** The state of a coil, and the bytes of a word register, for given tags. *)
Definition coil_state (t : gmap string float64) (r : Register) : Z :=
  if feqb (default f64_0 (t !! Tag r)) f64_0 then 0 else 1.

Definition encoding `{GoPlatform} (t : gmap string float64) (r : Register) : list Z :=
  match Bytes r (default f64_0 (t !! Tag r)) with inl bs => bs | inr _ => [] end.

(** The tags after the points of an update or a status are stored in order. *)
Definition store (ps : list Point) (t : gmap string float64) : gmap string float64 :=
  foldl (λ t p, <[Point_Tag p := Point_Value p]> t) t ps.

(** The updates a multiple write makes: bits, and words at [begin] in [arr]. *)
Definition coil_points (rs : list Register) (bits : list Z) : list Point :=
  zip_with (λ r b, mk_Point (Tag r) (f64_of_Z b) 0) rs bits.

Definition segment (arr : list Z) (begin : Z) (r : Register) : list Z :=
  take (Z.to_nat (Count r * 2)) (drop (Z.to_nat begin) arr).

Definition decoded `{GoPlatform} (r : Register) (bs : list Z) : float64 :=
  match Value r bs with Some (inl v) => v | _ => f64_0 end.

Fixpoint word_points `{GoPlatform} (rs : list Register) (arr : list Z) (begin : Z) : list Point :=
  match rs with
  | [] => []
  | r :: rs' => mk_Point (Tag r) (decoded r (segment arr begin r)) 0
                :: word_points rs' arr (begin + Count r * 2)
  end.

(** What the configuration guarantees of a register table. *)
Definition table_wf (ty : string) (regs : register_map) : Prop :=
  ∀ a r, regs !! a = Some r → RType r = ty ∧ register_wf r.

Definition server_wf (s : ModbusServer) : Prop :=
  ∀ ty regs, registers s !! ty = Some regs → table_wf ty regs.

(** What a handler may change: the name and the registers never, messages are
    only added, and a tag only if a register of [regs] maps to it. *)
Record evolves (regs : register_map) (s s' : ModbusServer) : Prop := {
  evolves_name : name s' = name s;
  evolves_registers : registers s' = registers s;
  evolves_sent : sent (pusher s) `prefix_of` sent (pusher s');
  evolves_tags t : (∀ a r, regs !! a = Some r → Tag r ≠ t) → tags s' !! t = tags s !! t;
}.

(** ** Lemmas *)

Lemma table_wf_lookup ty regs a r :
  table_wf ty regs → regs !! a = Some r → RType r = ty ∧ register_wf r.
Proof. eauto. Qed.

Lemma walk_total step regs stop :
  (∀ a r, regs !! a = Some r → 0 < step r) → ∀ addr, ∃ rs b, walk step regs stop addr rs b.
Proof.
  intros Hpos addr.
  remember (Z.to_nat (stop - addr)) as n eqn:Hn. revert addr Hn.
  induction n as [n IH] using lt_wf_ind. intros addr Hn.
  destruct (decide (stop ≤ addr)); [by repeat econstructor|].
  destruct (regs !! addr) as [r|] eqn:Hr; [|repeat econstructor; [lia|done]].
  pose proof (Hpos _ _ Hr).
  edestruct (IH (Z.to_nat (stop - (addr + step r)))) as (rs & b & Hw); [lia|done|].
  exists (r :: rs), b. apply walk_reg; [lia|done|done].
Qed.

Lemma walk_lookup step regs stop addr rs b :
  walk step regs stop addr rs b → Forall (λ r, ∃ a, regs !! a = Some r) rs.
Proof. induction 1; constructor; eauto. Qed.

Lemma walk_bits_length regs stop addr rs :
  walk bit_step regs stop addr rs true → length rs = Z.to_nat (stop - addr).
Proof.
  intros Hw. remember true as b. induction Hw as [|?|addr r rs b Hlt Hr Hw IH]; simpl; subst.
  - lia.
  - done.
  - rewrite IH by done. unfold bit_step in *. lia.
Qed.

Lemma table_wf_word_step ty regs a r :
  table_wf ty regs → is_word_type ty = true → regs !! a = Some r → 1 ≤ Count r ≤ 4.
Proof.
  intros Hwf Hty Hr. destruct (Hwf _ _ Hr) as [He Hrw].
  apply word_format_count, register_wf_format; [done|by rewrite He].
Qed.

Lemma words_nonneg rs : Forall (λ r, 0 ≤ Count r) rs → 0 ≤ words rs.
Proof. induction 1; simpl; lia. Qed.

Lemma walk_counts ty regs stop addr rs b :
  table_wf ty regs → is_word_type ty = true → walk Count regs stop addr rs b →
  Forall (λ r, 1 ≤ Count r ≤ 4) rs.
Proof.
  intros Hwf Hty Hw%walk_lookup. eapply Forall_impl; [done|].
  intros r [a Ha]. eauto using table_wf_word_step.
Qed.

Lemma store_app ps qs t : store (ps ++ qs) t = store qs (store ps t).
Proof. apply foldl_app. Qed.

Lemma store_lookup_ne ps t tag :
  tag ∉ Point_Tag <$> ps → store ps t !! tag = t !! tag.
Proof.
  revert t. induction ps as [|p ps IH]; intros t Hn; [done|].
  rewrite fmap_cons, not_elem_of_cons in Hn. destruct Hn as [Hne Hn].
  unfold store in *. cbn. rewrite IH by done. by rewrite lookup_insert_ne.
Qed.

Lemma set_tags_id s : set_tags (tags s) s = s.
Proof. by destruct s. Qed.

#[export] Instance evolves_preorder regs : PreOrder (evolves regs).
Proof.
  split; [by constructor|].
  intros s1 s2 s3 [N1 R1 P1 T1] [N2 R2 P2 T2].
  constructor; [congruence|congruence|by transitivity (sent (pusher s2))|].
  intros t Ht. by rewrite T2, T1.
Qed.

Lemma keeps_register_at {A} regs addr (k : Register → go ModbusServer response A) :
  (∀ r, regs !! addr = Some r → keeps (evolves regs) (k r)) →
  keeps (evolves regs) (register_at regs addr ≫= k).
Proof.
  intros Hk. unfold register_at. destruct (regs !! addr) as [r|] eqn:Hr.
  - intros s. apply (Hk r eq_refl).
  - by intros s.
Qed.

Lemma keeps_set_tag regs addr r v :
  regs !! addr = Some r → keeps (evolves regs) (set_tag (R:=response) (Tag r) v).
Proof.
  intros Hr s. constructor; simpl; try done.
  intros t Ht. rewrite lookup_insert_ne; eauto.
Qed.

Lemma evolves_set_metrics regs m s : evolves regs s (set_metrics m s).
Proof. by constructor. Qed.

Lemma keeps_publish regs ups : keeps (evolves regs) (publish ups).
Proof.
  intros s. unfold publish. go_unfold. destruct (NewEnvelope _ _) as [env|]; [|done].
  rewrite Push_spec. destruct (send_ok _ _); constructor; simpl; try done.
  by apply prefix_app_r.
Qed.

#[export] Hint Resolve keeps_register_at keeps_set_tag evolves_set_metrics keeps_publish
  evolves_preorder : go.

(** Steps through a handler with the [keeps] lemmas. *)
Ltac keeps := repeat first
  [ progress intros
  | solve [eauto 4 with go]
  | apply (keeps_register_at _ _ _)
  | apply keeps_bind; [typeclasses eauto| |]
  | case_match ].

Section handlers.
Context `{GoPlatform}.

Lemma keeps_register_value regs r d : keeps (evolves regs) (register_value r d).
Proof. unfold register_value. keeps. Qed.

Lemma keeps_finish_write regs m d c ups : keeps (evolves regs) (finish_write m d c ups).
Proof. unfold finish_write. keeps. Qed.

Lemma keeps_coil_bits_loop regs n addr : keeps (evolves regs) (coil_bits_loop regs n addr).
Proof. revert addr. induction n; intros addr; simpl; keeps. Qed.

Lemma keeps_discrete_loop regs n addr data idx :
  keeps (evolves regs) (discrete_loop regs n addr data idx).
Proof. revert addr data idx. induction n; intros; simpl; keeps. Qed.

Lemma keeps_read_words_loop regs fuel addr stop size data :
  keeps (evolves regs) (read_words_loop fuel regs addr stop size data).
Proof. revert addr size data. induction fuel; intros; simpl; keeps. Qed.

Lemma keeps_write_coils_loop regs bits n addr idx ups :
  keeps (evolves regs) (write_coils_loop regs bits n addr idx ups).
Proof. revert addr idx ups. induction n; intros; simpl; keeps. Qed.

Hint Resolve keeps_register_value keeps_finish_write keeps_coil_bits_loop keeps_discrete_loop
  keeps_read_words_loop keeps_write_coils_loop : go.

Lemma keeps_write_words_loop regs fuel data addr stop begin ups :
  keeps (evolves regs) (write_words_loop fuel regs data addr stop begin ups).
Proof. revert addr begin ups. induction fuel; intros; simpl; keeps. Qed.

Hint Resolve keeps_write_words_loop : go.

(** *** The loops compute over the walk *)

Lemma coil_bits_loop_spec regs s n addr rs b :
  walk bit_step regs (addr + Z.of_nat n) addr rs b →
  coil_bits_loop regs n addr s =
    (s, if b then Next (map (coil_state (tags s)) rs) else Return ([], IllegalDataAddress)).
Proof.
  revert addr rs. induction n as [|n IH]; intros addr rs Hw; inversion Hw; subst; try lia.
  - done.
  - simpl. unfold register_at. by rewrite H1.
  - simpl. unfold register_at. rewrite H1. go_unfold. simpl. unfold bit_step in *.
    replace (addr + Z.of_nat (S n)) with (addr + 1 + Z.of_nat n) in * by lia.
    erewrite IH by done.
    by destruct b.
Qed.

Lemma discrete_loop_spec regs s n addr data idx rs b :
  walk bit_step regs (addr + Z.of_nat n) addr rs b →
  discrete_loop regs n addr data idx s =
    (s, if b then Next (pack_loop (map (coil_state (tags s)) rs) data idx)
        else Return ([], IllegalDataAddress)).
Proof.
  revert addr data idx rs.
  induction n as [|n IH]; intros addr data idx rs Hw; inversion Hw; subst; try lia.
  - done.
  - simpl. unfold register_at. by rewrite H1.
  - simpl. unfold register_at. rewrite H1. go_unfold. simpl. unfold bit_step in *.
    replace (addr + Z.of_nat (S n)) with (addr + 1 + Z.of_nat n) in * by lia.
    erewrite IH by done.
    change (coil_state (tags s) r) with (if feqb (tag_value s (Tag r)) f64_0 then 0 else 1).
    by destruct (feqb _ _).
Qed.

Lemma encoding_word ty t regs a r :
  table_wf ty regs → is_word_type ty = true → regs !! a = Some r →
  Bytes r (default f64_0 (t !! Tag r)) = inl (encoding t r) ∧
  Z.of_nat (length (encoding t r)) = 2 * Count r.
Proof.
  intros Hwf Hty Hr. destruct (Hwf _ _ Hr) as [He Hrw]. rewrite <- He in Hty.
  destruct (Bytes_word r (default f64_0 (t !! Tag r)) Hrw Hty) as (bs & Hb & _ & Hl).
  unfold encoding. by rewrite Hb.
Qed.

Lemma read_words_loop_spec ty regs s stop fuel addr size data rs b :
  table_wf ty regs → is_word_type ty = true →
  (Z.to_nat (stop - addr) < fuel)%nat → walk Count regs stop addr rs b →
  read_words_loop fuel regs addr stop size data s =
    (s, if b then Next (size + 2 * words rs, data ++ flat_map (encoding (tags s)) rs)
        else Return ([], IllegalDataAddress)).
Proof.
  intros Hwf Hty Hf Hw. revert fuel size data Hf.
  induction Hw as [addr Hge|addr Hlt Hr|addr r rs b Hlt Hr Hw IH]; intros [|fuel] size data Hf;
    try lia; cbn [read_words_loop]; destruct (Z.ltb_spec addr stop); try lia; unfold register_at.
  - simpl. by rewrite app_nil_r, Z.add_0_r.
  - by rewrite Hr.
  - rewrite Hr. go_unfold. unfold tag_value.
    rewrite (proj1 (encoding_word ty (tags s) regs addr r Hwf Hty Hr)).
    pose proof (table_wf_word_step _ _ _ _ Hwf Hty Hr).
    rewrite IH by lia. destruct b; [|done]. simpl. rewrite <- app_assoc.
    do 3 f_equal. lia.
Qed.

Lemma words_encoding_length ty regs t rs :
  table_wf ty regs → is_word_type ty = true → Forall (λ r, ∃ a, regs !! a = Some r) rs →
  Z.of_nat (length (flat_map (encoding t) rs)) = 2 * words rs.
Proof.
  intros Hwf Hty. induction 1 as [|r rs [a Ha] Hrs IH]; [done|]. simpl.
  destruct (encoding_word ty t regs a r Hwf Hty Ha). rewrite length_app. lia.
Qed.

Lemma coil_points_cons r rs b bits :
  coil_points (r :: rs) (b :: bits) = mk_Point (Tag r) (f64_of_Z b) 0 :: coil_points rs bits.
Proof. done. Qed.

Lemma write_coils_loop_spec regs bits s n addr idx ups rs b :
  walk bit_step regs (addr + Z.of_nat n) addr rs b → (idx + length rs ≤ length bits)%nat →
  write_coils_loop regs bits n addr idx ups s =
    (set_tags (store (coil_points rs (drop idx bits)) (tags s)) s,
     if b then Next (ups ++ coil_points rs (drop idx bits)) else Return ([], IllegalDataAddress)).
Proof.
  revert s addr idx ups rs.
  induction n as [|n IH]; intros s addr idx ups rs Hw Hlen; inversion Hw; subst; try lia.
  - simpl. by rewrite app_nil_r, set_tags_id.
  - simpl. unfold register_at. rewrite H1. go_unfold. simpl. by rewrite set_tags_id.
  - simpl in Hlen. cbn [write_coils_loop]. unfold register_at. rewrite H1. go_unfold.
    destruct (bits !! idx) as [c|] eqn:Hc.
    2: { apply lookup_ge_None_1 in Hc. lia. }
    unfold bit_step in *. unfold set_tag. go_unfold.
    replace (addr + Z.of_nat (S n)) with (addr + 1 + Z.of_nat n) in * by lia.
    erewrite IH; [|done|lia].
    rewrite (drop_S bits c idx Hc), coil_points_cons, <- app_assoc. done.
Qed.

Lemma segment_length data begin r :
  0 ≤ begin → 0 ≤ Count r → begin + Count r * 2 ≤ slice_cap data →
  Z.of_nat (length (segment (vis data ++ spare data) begin r)) = 2 * Count r.
Proof.
  intros H0 Hc Hcap. unfold slice_cap in Hcap. unfold segment.
  rewrite length_take, length_drop. lia.
Qed.

Lemma register_value_segment ty regs s a r data begin :
  table_wf ty regs → is_word_type ty = true → regs !! a = Some r →
  0 ≤ begin → begin + Count r * 2 ≤ slice_cap data →
  ∃ d, slice_expr data begin (begin + Count r * 2) = Some d ∧
    register_value r d s = (s, Next (decoded r (segment (vis data ++ spare data) begin r))).
Proof.
  intros Hwf Hty Hr H0 Hcap. pose proof (table_wf_word_step _ _ _ _ Hwf Hty Hr).
  destruct (Hwf _ _ Hr) as [He Hrw]. rewrite <- He in Hty.
  rewrite slice_expr_ok by lia. eexists. split; [done|].
  unfold register_value. cbn [vis]. replace (begin + Count r * 2 - begin) with (Count r * 2) by lia.
  fold (segment (vis data ++ spare data) begin r).
  pose proof (segment_length data begin r ltac:(lia) ltac:(lia) ltac:(lia)) as Hl.
  destruct (Value_word r (segment (vis data ++ spare data) begin r) Hrw Hty) as [v Hv]; [lia|].
  unfold decoded. by rewrite Hv.
Qed.

Lemma write_words_loop_spec ty regs s data stop fuel addr begin ups rs b :
  table_wf ty regs → is_word_type ty = true →
  (Z.to_nat (stop - addr) < fuel)%nat → walk Count regs stop addr rs b →
  0 ≤ begin → begin + 2 * words rs ≤ slice_cap data →
  let pts := word_points rs (vis data ++ spare data) begin in
  write_words_loop fuel regs data addr stop begin ups s =
    (set_tags (store pts (tags s)) s,
     if b then Next (ups ++ pts) else Return ([], IllegalDataAddress)).
Proof.
  intros Hwf Hty Hf Hw. revert s fuel begin ups Hf.
  induction Hw as [addr Hge|addr Hlt Hr|addr r rs b Hlt Hr Hw IH];
    intros s [|fuel] begin ups Hf H0 Hcap pts;
    try lia; cbn [write_words_loop]; destruct (Z.ltb_spec addr stop); try lia;
    unfold register_at.
  - subst pts. unfold store. simpl. by rewrite set_tags_id, app_nil_r.
  - subst pts. unfold store. simpl. rewrite Hr. by rewrite set_tags_id.
  - rewrite Hr. pose proof (table_wf_word_step _ _ _ _ Hwf Hty Hr).
    pose proof (words_nonneg rs) as Hnn.
    assert (Forall (λ r, 0 ≤ Count r) rs) as Hc
      by (eapply Forall_impl; [by eapply walk_counts|simpl; lia]).
    specialize (Hnn Hc). simpl in Hcap.
    destruct (register_value_segment ty regs s addr r data begin) as (d & Hd & Hv);
      [done|done|done|lia|lia|].
    erewrite bind_next by done. rewrite Hd. cbn [eval]. erewrite bind_next by done.
    erewrite bind_next by exact Hv. erewrite bind_next by done.
    rewrite IH by lia. subst pts. cbn [word_points]. by rewrite <- app_assoc.
Qed.

Lemma words_app rs rs' : words (rs ++ rs') = words rs + words rs'.
Proof.
  unfold words. induction rs as [|r rs IH]; [done|]. rewrite <- app_comm_cons. cbn [foldr].
  rewrite IH. lia.
Qed.

(** A walk over registers of which the payload does not hold all the words panics at
    the first that does not fit. *)
Lemma write_words_loop_overrun ty regs s data stop fuel addr begin ups rs b :
  table_wf ty regs → is_word_type ty = true →
  (Z.to_nat (stop - addr) < fuel)%nat → walk Count regs stop addr rs b →
  0 ≤ begin ≤ slice_cap data → slice_cap data < begin + 2 * words rs →
  ∃ rs' r rest, rs = rs' ++ r :: rest ∧ addr + words rs' < stop ∧
    walk Count regs stop (addr + words rs' + Count r) rest b ∧
    slice_cap data < begin + 2 * (words rs' + Count r) ∧
    write_words_loop fuel regs data addr stop begin ups s =
      (set_tags (store (word_points rs' (vis data ++ spare data) begin) (tags s)) s,
       Panic PanicBounds).
Proof.
  intros Hwf Hty Hf Hw. revert s fuel begin ups Hf.
  induction Hw as [addr Hge|addr Hlt Hr|addr r rs b Hlt Hr Hw IH];
    intros s [|fuel] begin ups Hf H0 Hcap; try lia;
    try (change (words []) with 0 in Hcap; lia).
  pose proof (table_wf_word_step _ _ _ _ Hwf Hty Hr). cbn [write_words_loop].
  destruct (Z.ltb_spec addr stop); [|lia]. unfold register_at. rewrite Hr.
  destruct (Z.le_gt_cases (begin + Count r * 2) (slice_cap data)) as [Hfit|Hover].
  - destruct (register_value_segment ty regs s addr r data begin) as (d & Hd & Hv); [done..|lia|done|].
    erewrite bind_next by done. rewrite Hd. cbn [eval]. erewrite bind_next by done.
    erewrite bind_next by exact Hv. erewrite bind_next by done.
    change (words (r :: rs)) with (Count r + words rs) in Hcap.
    destruct (IH (set_tags (<[Tag r := decoded r (segment (vis data ++ spare data) begin r)]> (tags s)) s)
      fuel (begin + Count r * 2) (ups ++ [mk_Point (Tag r) (decoded r (segment (vis data ++ spare data) begin r)) 0]))
      as (rs' & r' & rest & -> & Hst & Hrest & Hc & Hrun); [lia..|].
    exists (r :: rs'), r', rest. change (words (r :: rs')) with (Count r + words rs').
    split_and!; [done|lia| |lia|].
    + by replace (addr + (Count r + words rs') + Count r') with (addr + Count r + words rs' + Count r') by lia.
    + rewrite Hrun. done.
  - exists [], r, rs. change (words []) with 0. rewrite !Z.add_0_r. split_and!; [done|lia|done|lia|].
    erewrite bind_next by done. unfold slice_expr.
    destruct (Z.leb_spec (begin + Count r * 2) (slice_cap data)); [lia|].
    rewrite andb_false_r. unfold store. simpl. by rewrite set_tags_id.
Qed.

(** What publishing updates does: the envelope reaches the bus if and only if
    every value is finite and the socket accepts it. *)
Definition publishable (ups : list Point) (s : ModbusServer) : Prop :=
  finite_points ups ∧ send_ok (pusher s) (sends (pusher s)) = true.

#[local] Instance publishable_dec ups s : Decision (publishable ups s).
Proof. unfold publishable, finite_points. apply _. Defined.

Lemma publish_ok ups s :
  publishable ups s →
  ∃ env b, NewEnvelope (name s) (mk_Update ups "" "") = inl env ∧
    sent b = sent (pusher s) ++ [("RUNTIME", BJson (MarshalEnvelope env))] ∧
    publish ups s = (set_pusher b s, Next ()).
Proof.
  intros [Hf Hok]. pose proof (marshal_ok (mk_Update ups "" "")) as Hm.
  destruct (proj2 Hm Hf) as [j Hj].
  unfold publish, NewEnvelope, build_envelope. rewrite Hj.
  go_unfold. cbn [wrapf result_bind]. rewrite Push_spec, Hok.
  eexists _, (mk_bus _ _ _). split_and!; reflexivity.
Qed.

Lemma publish_fails ups s :
  ¬ publishable ups s →
  ∃ b, sent b = sent (pusher s) ∧
    publish ups s = (set_pusher b s, Return ([], SlaveDeviceFailure)).
Proof.
  intros Hn. unfold publish. go_unfold.
  destruct (NewEnvelope (name s) (mk_Update ups "" "")) as [env|e] eqn:Henv.
  - rewrite Push_spec. destruct (send_ok _ _) eqn:Hok; [|by eexists (mk_bus _ _ _)].
    destruct Hn. split; [|done].
    apply NewEnvelope_inv in Henv as (raw & Hraw & _).
    pose proof (marshal_ok (mk_Update ups "" "")) as Hm. apply Hm. eauto.
  - exists (pusher s). by destruct s.
Qed.

(** *** The handlers *)

(** The header of a multiple request as the handlers decode it. *)
Definition header (data : slice) (start count : Z) : Prop :=
  uint16_at data 0 = Some start ∧ uint16_at data 2 = Some count.

Lemma be_uint16_range d z : be_uint16 d = Some z → Forall is_byte (vis d) → 0 ≤ z < 65536.
Proof.
  unfold be_uint16, slice_len. destruct (Z.ltb_spec (Z.of_nat (length (vis d))) 2); [done|].
  intros [= <-] Hb. pose proof (be_decode_range (take 2 (vis d)) (Forall_take _ 2 _ Hb)) as Hr.
  rewrite length_take_le in Hr by lia. exact Hr.
Qed.

Lemma read_words_spec ty regs s data start count rs b :
  registers s !! ty = Some regs → table_wf ty regs → is_word_type ty = true →
  header data start count → 0 ≤ count → walk Count regs (start + count) start rs b →
  run (read_words ty data) s =
    (s, Returns (if b then sized_response (2 * words rs) (flat_map (encoding (tags s)) rs)
                 else ([], IllegalDataAddress))).
Proof.
  intros Hregs Hwf Hty [Hs Hc] Hcount Hw. unfold run, read_words, registers_of.
  go_unfold. rewrite Hregs, Hs, Hc.
  cbv beta iota. erewrite (read_words_loop_spec ty) by (done || lia). by destruct b.
Qed.

Lemma readCoilRegisters_spec regs s data start count rs b :
  registers s !! "coil" = Some regs → header data start count → 0 ≤ count →
  walk bit_step regs (start + count) start rs b →
  run (readCoilRegisters data) s =
    (s, Returns (if b then let bs := BitsToBytes (map (coil_state (tags s)) rs) in
                           sized_response (Z.of_nat (length bs)) bs
                 else ([], IllegalDataAddress))).
Proof.
  intros Hregs [Hs Hc] Hcount Hw. unfold run, readCoilRegisters, registers_of.
  go_unfold. rewrite Hregs, Hs, Hc. cbv beta iota. rewrite <- (Z2Nat.id count) in Hw by done.
  rewrite (coil_bits_loop_spec _ _ _ _ _ _ Hw). by destruct b.
Qed.

Lemma packed_size_Z n :
  Z.of_nat (packed_size n) =
  Z.of_nat n / 8 + (if negb (Z.of_nat n mod 8 =? 0) then 1 else 0).
Proof.
  unfold packed_size. rewrite Nat2Z.inj_add, Nat2Z.inj_div. f_equal.
  change 8 with (Z.of_nat 8). rewrite <- Nat2Z.inj_mod.
  destruct (Nat.eqb_spec (n mod 8) 0) as [->|Hn]; [done|].
  destruct (Z.eqb_spec (Z.of_nat (n mod 8)) 0); [lia|done].
Qed.

Lemma readDiscreteRegisters_spec regs s data start count rs b :
  registers s !! "discrete" = Some regs → header data start count → 0 ≤ count →
  walk bit_step regs (start + count) start rs b →
  run (readDiscreteRegisters data) s =
    (s, Returns (if b then let bs := BitsToBytes (map (coil_state (tags s)) rs) in
                           sized_response (Z.of_nat (length bs)) bs
                 else ([], IllegalDataAddress))).
Proof.
  intros Hregs [Hs Hc] Hcount Hw. unfold run, readDiscreteRegisters, registers_of.
  go_unfold. rewrite Hregs, Hs, Hc. cbv beta iota. rewrite <- (Z2Nat.id count) in Hw by done.
  rewrite (discrete_loop_spec _ _ _ _ _ _ _ _ Hw). destruct b; [|done].
  pose proof (walk_bits_length _ _ _ _ Hw) as Hl.
  rewrite BitsToBytes_length, length_map, packed_size_Z.
  replace (Z.of_nat (length rs)) with count by lia.
  unfold BitsToBytes. rewrite length_map.
  replace (packed_size (length rs)) with
    (Z.to_nat (count / 8 + (if negb (count mod 8 =? 0) then 1 else 0))); [done|].
  rewrite <- (Nat2Z.id (packed_size _)), packed_size_Z. by replace (Z.of_nat (length rs)) with count by lia.
Qed.

(** What a multiple write does once its walk gave the updates [pts] and the
    result [ok]: the tags are stored on every path; the update is published and
    counted, and the request's header is echoed, only when the walk reached the
    end and, unless there is nothing to publish, the update can be sent. *)
Record write_effect (metric : string) (data : slice) (count : Z) (pts : list Point) (ok : bool)
  (s s' : ModbusServer) (out : outcome response) : Prop := {
  effect_tags : tags s' = store pts (tags s);
  effect_missing : ok = false →
    out = Returns ([], IllegalDataAddress) ∧
    sent (pusher s') = sent (pusher s) ∧ metrics s' = metrics s;
  effect_unsent : ok = true → pts ≠ [] → ¬ publishable pts s →
    out = Returns ([], SlaveDeviceFailure) ∧
    sent (pusher s') = sent (pusher s) ∧ metrics s' = metrics s;
  effect_done : ok = true → pts = [] ∨ publishable pts s →
    out = Returns (take 4 (vis data ++ spare data), Success) ∧
    metrics s' = IncrMetricBy metric count (metrics s) ∧
    (pts = [] → sent (pusher s') = sent (pusher s)) ∧
    (pts ≠ [] → ∃ env, NewEnvelope (name s) (mk_Update pts "" "") = inl env ∧
       sent (pusher s') = sent (pusher s) ++ [("RUNTIME", BJson (MarshalEnvelope env))]);
}.

Lemma finish_write_effect metric data count pts s :
  4 ≤ slice_cap data →
  let s1 := set_tags (store pts (tags s)) s in
  let r := run (finish_write metric data count pts) s1 in
  write_effect metric data count pts true s r.1 r.2.
Proof.
  intros Hcap s1 r. subst r. unfold run, finish_write.
  assert (Hecho : slice_expr data 0 4 =
    Some (mk_slice (take 4 (vis data ++ spare data)) (drop 4 (vis data ++ spare data))))
    by (rewrite slice_expr_ok by lia; done).
  destruct (decide (pts = [])) as [->|Hne].
  { simpl. go_unfold. rewrite Hecho. simpl. split; intros; simpl in *; done. }
  replace (0 <? length pts)%nat with true by (by destruct pts).
  destruct (decide (publishable pts s1)) as [Hp|Hp].
  - destruct (publish_ok pts s1 Hp) as (env & b & Henv & Hb & Hpub).
    erewrite bind_next by exact Hpub. go_unfold. rewrite Hecho. simpl.
    split; simpl; intros; try done.
    split_and!; [done|done|done|]. intros _. by exists env.
  - destruct (publish_fails pts s1 Hp) as (b & Hb & Hpub).
    erewrite bind_return by exact Hpub.
    split; simpl; intros; try done.
    by match goal with Ho : _ ∨ _ |- _ => destruct Ho end.
Qed.

Lemma writeHoldingRegisters_effect regs s data start count rs b :
  registers s !! "holding" = Some regs → table_wf "holding" regs →
  header data start count → 0 ≤ count → walk Count regs (start + count) start rs b →
  5 + 2 * words rs ≤ slice_cap data →
  let r := run (writeHoldingRegisters data) s in
  write_effect "holding_writes_count" data count
    (word_points rs (vis data ++ spare data) 5) b s r.1 r.2.
Proof.
  intros Hregs Hwf [Hs Hc] Hcount Hw Hcap r. subst r.
  assert (0 ≤ words rs).
  { apply words_nonneg. eapply Forall_impl; [by eapply walk_counts|simpl; lia]. }
  pose proof (write_words_loop_spec "holding" regs s data (start + count) (S (Z.to_nat count))
    start 5 [] rs b Hwf eq_refl ltac:(lia) Hw ltac:(lia) Hcap) as Hloop.
  pose proof (finish_write_effect "holding_writes_count" data count
    (word_points rs (vis data ++ spare data) 5) s ltac:(lia)) as Hfin.
  unfold run, writeHoldingRegisters, registers_of in *.
  erewrite bind_next by (go_unfold; by rewrite Hregs).
  rewrite Hs, Hc. do 2 erewrite bind_next by done.
  destruct b.
  - by erewrite bind_next by exact Hloop.
  - erewrite bind_return by exact Hloop. by split.
Qed.

(** A multiple write of [count] words that ends inside the register [r], of which the
    request holds no more words: the handler panics, after it stored the registers
    before. *)
Record write_overrun (data : slice) (count : Z) (rs : list Register) (ok : bool)
  (arr : list Z) (s s' : ModbusServer) (out : outcome response) : Prop := {
  overrun_out : out = Panics PanicBounds;
  overrun_walk : ok = true;
  overrun_tags : ∃ rs' r, rs = rs' ++ [r] ∧ words rs' < count < words rs ∧
    tags s' = store (word_points rs' arr 5) (tags s);
  overrun_rest : sent (pusher s') = sent (pusher s) ∧ metrics s' = metrics s;
}.

Lemma writeHoldingRegisters_overrun regs s data start count rs b :
  registers s !! "holding" = Some regs → table_wf "holding" regs →
  header data start count → 0 ≤ count → walk Count regs (start + count) start rs b →
  5 + 2 * count ≤ slice_cap data → slice_cap data < 5 + 2 * words rs →
  let r := run (writeHoldingRegisters data) s in
  write_overrun data count rs b (vis data ++ spare data) s r.1 r.2.
Proof.
  intros Hregs Hwf [Hs Hc] Hcount Hw Hfull Hover r. subst r.
  destruct (write_words_loop_overrun "holding" regs s data (start + count) (S (Z.to_nat count))
    start 5 [] rs b Hwf eq_refl ltac:(lia) Hw ltac:(lia) Hover)
    as (rs' & r & rest & -> & Hst & Hrest & Hcap & Hrun).
  assert (rest = [] ∧ b = true) as [-> ->] by (inversion Hrest; subst; [done|lia|lia]).
  unfold run, writeHoldingRegisters, registers_of.
  erewrite bind_next by (go_unfold; by rewrite Hregs).
  rewrite Hs, Hc. do 2 erewrite bind_next by done.
  unfold mbind, go_bind. rewrite Hrun. split; simpl; [done|done| |done].
  exists rs', r. split_and!; [done|lia| |done].
  rewrite words_app. change (words [r]) with (Count r + 0). lia.
Qed.

Lemma writeCoilRegisters_effect regs s data start count rs b :
  registers s !! "coil" = Some regs → header data start count → 0 ≤ count →
  walk bit_step regs (start + count) start rs b →
  5 ≤ slice_len data → 5 + Z.of_nat (packed_size (length rs)) ≤ slice_len data →
  let r := run (writeCoilRegisters data) s in
  write_effect "coil_writes_count" data count
    (coil_points rs (BytesToBits (drop 5 (vis data)))) b s r.1 r.2.
Proof.
  intros Hregs [Hs Hc] Hcount Hw H5 Hlen r. subst r.
  unfold slice_len in *.
  assert (Hcap : Z.of_nat (length (vis data)) ≤ slice_cap data)
    by (unfold slice_cap; rewrite length_app; lia).
  assert (Hfrom : ∃ sp, slice_from data 5 = Some (mk_slice (drop 5 (vis data)) sp)).
  { unfold slice_from, slice_len. rewrite slice_expr_ok by lia. eexists. do 2 f_equal.
    change (Z.to_nat 5) with 5%nat. rewrite drop_app_le by lia.
    rewrite take_app_le, take_ge; rewrite ?length_drop; [done|lia|lia]. }
  destruct Hfrom as [sp Hfrom].
  pose proof (packed_size_spec (length rs)) as [Hps _].
  rewrite <- (Z2Nat.id count) in Hw by done.
  pose proof (write_coils_loop_spec regs (BytesToBits (drop 5 (vis data))) s _ start 0 [] rs b Hw)
    as Hloop.
  rewrite BytesToBits_length, length_drop, drop_0 in Hloop. specialize (Hloop ltac:(lia)).
  pose proof (finish_write_effect "coil_writes_count" data count
    (coil_points rs (BytesToBits (drop 5 (vis data)))) s ltac:(lia)) as Hfin.
  unfold run, writeCoilRegisters, registers_of in *.
  erewrite bind_next by (go_unfold; by rewrite Hregs).
  rewrite Hs, Hc. do 2 erewrite bind_next by done.
  rewrite Hfrom. erewrite bind_next by done. cbn [vis].
  destruct b.
  - by erewrite bind_next by exact Hloop.
  - erewrite bind_return by exact Hloop. by split.
Qed.

(** *** Reading back what was written *)

(** Every segment of the payload is a number a float64 holds exactly. *)
Fixpoint exact_payload (rs : list Register) (arr : list Z) (begin : Z) : bool :=
  match rs with
  | [] => true
  | r :: rs' => exact_data r (segment arr begin r) && exact_payload rs' arr (begin + Count r * 2)
  end.

Lemma word_points_tags rs arr begin : Point_Tag <$> word_points rs arr begin = Tag <$> rs.
Proof. revert begin. induction rs; intros begin; [done|]. simpl. f_equal. auto. Qed.

Lemma coil_points_tags rs bits :
  (length rs ≤ length bits)%nat → Point_Tag <$> coil_points rs bits = Tag <$> rs.
Proof.
  revert bits. induction rs as [|r rs IH]; intros [|b bits] Hl; simpl in *; try done; [lia|].
  f_equal. apply IH. lia.
Qed.

(** A tag stored first and not stored again keeps its value. *)
Lemma store_cons_lookup p ps t :
  Point_Tag p ∉ Point_Tag <$> ps → store (p :: ps) t !! Point_Tag p = Some (Point_Value p).
Proof.
  intros Hn. change (store (p :: ps) t) with (store ps (<[Point_Tag p := Point_Value p]> t)).
  rewrite store_lookup_ne by done. apply lookup_insert_eq.
Qed.

Lemma segment_encoding ty regs a r arr begin t ps :
  table_wf ty regs → is_word_type ty = true → regs !! a = Some r → Scaling r = 0 →
  Forall is_byte arr → 0 ≤ begin → begin + Count r * 2 ≤ Z.of_nat (length arr) →
  exact_data r (segment arr begin r) = true → Tag r ∉ Point_Tag <$> ps →
  encoding (store (mk_Point (Tag r) (decoded r (segment arr begin r)) 0 :: ps) t) r
    = segment arr begin r.
Proof.
  intros Hwf Hty Ha Hs Hby H0 Hlen Hex Hn.
  pose proof (table_wf_word_step _ _ _ _ Hwf Hty Ha).
  destruct (Hwf _ _ Ha) as [He Hrw]. rewrite <- He in Hty.
  destruct (Value_Bytes_exact r (segment arr begin r)) as (v & Hv & Hb); try done.
  - unfold segment. by apply Forall_take, Forall_drop.
  - unfold segment. rewrite length_take, length_drop. lia.
  - unfold encoding.
    pose proof (store_cons_lookup (mk_Point (Tag r) (decoded r (segment arr begin r)) 0) ps t Hn)
      as Hl. cbn [Point_Tag Point_Value] in Hl. rewrite Hl. unfold decoded. rewrite Hv. cbn [default from_option id]. unfold default, id, from_option.
    by rewrite Hb.
Qed.

Lemma encoding_store ty regs rs arr begin t :
  table_wf ty regs → is_word_type ty = true → Forall (λ r, ∃ a, regs !! a = Some r) rs →
  Forall (λ r, Scaling r = 0) rs → NoDup (Tag <$> rs) → Forall is_byte arr →
  0 ≤ begin → begin + 2 * words rs ≤ Z.of_nat (length arr) →
  exact_payload rs arr begin = true →
  flat_map (encoding (store (word_points rs arr begin) t)) rs =
    take (Z.to_nat (2 * words rs)) (drop (Z.to_nat begin) arr).
Proof.
  intros Hwf Hty Hregs Hs. revert begin t.
  induction Hregs as [|r rs [a Ha] Hregs IH]; intros begin t Hnd Hby H0 Hlen Hex; [done|].
  apply Forall_cons in Hs as [Hsr Hs]. specialize (IH Hs).
  rewrite fmap_cons, NoDup_cons in Hnd. destruct Hnd as [Hnot Hnd].
  cbn [exact_payload] in Hex. apply andb_true_iff in Hex as [Hexr Hex].
  pose proof (table_wf_word_step _ _ _ _ Hwf Hty Ha).
  assert (0 ≤ words rs).
  { apply words_nonneg. eapply Forall_impl; [exact Hregs|]. intros r' [a' Ha'].
    pose proof (table_wf_word_step _ _ _ _ Hwf Hty Ha'). simpl. lia. }
  change (words (r :: rs)) with (Count r + words rs) in *.
  cbn [word_points flat_map].
  erewrite segment_encoding; [|done..|lia|done|by rewrite word_points_tags].
  change (store (?p :: ?ps) t) with (store ps (<[Point_Tag p := Point_Value p]> t)).
  rewrite IH by (done || lia). unfold segment.
  replace (Z.to_nat (begin + Count r * 2)) with (Z.to_nat begin + Z.to_nat (Count r * 2))%nat by lia.
  rewrite <- drop_drop, take_take_drop. f_equal. lia.
Qed.

Lemma coil_states_store rs bits t :
  NoDup (Tag <$> rs) → length rs = length bits → Forall (λ b, b = 0 ∨ b = 1) bits →
  map (coil_state (store (coil_points rs bits) t)) rs = bits.
Proof.
  revert bits t. induction rs as [|r rs IH]; intros [|b bits] t Hnd Hl Hb; try done.
  rewrite fmap_cons, NoDup_cons in Hnd. destruct Hnd as [Hnot Hnd].
  apply Forall_cons in Hb as [Hb Hbits]. injection Hl as Hl.
  rewrite coil_points_cons. cbn [map]. f_equal.
  - unfold coil_state.
    pose proof (store_cons_lookup (mk_Point (Tag r) (f64_of_Z b) 0) (coil_points rs bits) t) as Hs.
    cbn [Point_Tag Point_Value] in Hs. rewrite Hs by (rewrite coil_points_tags by lia; done).
    by destruct Hb as [-> | ->].
  - change (store (?p :: ?ps) t) with (store ps (<[Point_Tag p := Point_Value p]> t)). auto.
Qed.

Lemma coil_points_take rs bits more :
  length rs = length bits → coil_points rs (bits ++ more) = coil_points rs bits.
Proof.
  revert bits. induction rs as [|r rs IH]; intros [|b bits] Hl; try done.
  injection Hl as Hl. simpl. f_equal. by apply IH.
Qed.

End handlers.

#[export] Hint Resolve keeps_register_value keeps_finish_write keeps_coil_bits_loop
  keeps_discrete_loop keeps_read_words_loop keeps_write_coils_loop keeps_write_words_loop : go.

(** *** Frame *)

(** The register table a function code works on, and the codes that only read. *)
Definition code_table (code : Z) : string :=
  if (code =? 1) || (code =? 5) || (code =? 15) then "coil"
  else if code =? 2 then "discrete" else if code =? 4 then "input" else "holding".
Definition is_read (code : Z) : bool := (1 <=? code) && (code <=? 4).

Lemma keeps_registers_of ty regs s (k : register_map → handler) :
  registers s !! ty = Some regs → keeps (evolves regs) (k regs) →
  evolves regs s (run (registers_of ty ≫= k) s).1.
Proof.
  intros Hregs Hk. specialize (Hk s). unfold run, registers_of.
  erewrite bind_next by (go_unfold; by rewrite Hregs).
  by destruct (k regs s) as [s' [| | |]].
Qed.

Lemma registers_of_none ty s (k : register_map → handler) :
  registers s !! ty = None →
  run (registers_of ty ≫= k) s = (s, Returns ([], IllegalDataAddress)).
Proof.
  intros Hregs. unfold run, registers_of.
  by erewrite bind_return by (go_unfold; by rewrite Hregs).
Qed.

Lemma function_handler_codes `{GoPlatform} code h :
  function_handler code = Some h → In code [1; 2; 3; 4; 5; 6; 15; 16].
Proof.
  unfold function_handler. intros Hh.
  repeat match type of Hh with context [?c =? ?n] => destruct (Z.eqb_spec c n) end;
    subst; simpl; tauto || done.
Qed.

(** Case analysis on a registered function code. *)
Ltac by_code Hh :=
  pose proof (function_handler_codes _ _ Hh) as Hcode; simpl in Hcode;
  repeat destruct Hcode as [<-|Hcode]; [..|done]; injection Hh as <-.

(** The readers change nothing. *)
Ltac readers := repeat first
  [ progress intros
  | solve [eauto 4 with go]
  | apply keeps_bind; [typeclasses eauto| |]
  | progress unfold read_words, registers_of, register_at
  | case_match ].

Lemma keeps_coil_bits_eq regs n addr : keeps eq (coil_bits_loop regs n addr).
Proof. revert addr. induction n; intros addr; simpl; readers. Qed.

Lemma keeps_discrete_eq regs n addr data idx : keeps eq (discrete_loop regs n addr data idx).
Proof. revert addr data idx. induction n; intros; simpl; readers. Qed.

Lemma keeps_read_words_eq `{GoPlatform} fuel regs addr stop size data :
  keeps eq (read_words_loop fuel regs addr stop size data).
Proof. revert addr size data. induction fuel; intros; simpl; readers. Qed.

#[export] Hint Resolve keeps_coil_bits_eq keeps_discrete_eq keeps_read_words_eq : go.

Section effects.
Context `{GoPlatform}.

Lemma handler_evolves code h s data regs :
  function_handler code = Some h → registers s !! code_table code = Some regs →
  evolves regs s (run (h data) s).1.
Proof.
  intros Hh Hregs. by_code Hh; simpl in Hregs; apply (keeps_registers_of _ _ _ _ Hregs); keeps.
Qed.

Lemma handler_no_table code h s data :
  function_handler code = Some h → registers s !! code_table code = None →
  run (h data) s = (s, Returns ([], IllegalDataAddress)).
Proof.
  intros Hh Hregs. by_code Hh; simpl in Hregs; exact (registers_of_none _ _ _ Hregs).
Qed.

Lemma walk_words_bound ty regs stop addr rs ok :
  table_wf ty regs → is_word_type ty = true → walk Count regs stop addr rs ok →
  words rs ≤ Z.max 0 (stop - addr + 3) ∧ (ok = true → stop - addr ≤ words rs).
Proof.
  intros Hwf Hty. induction 1 as [addr Hge|addr Hlt Hr|addr r rs b Hlt Hr Hw IH];
    [unfold words; cbn [foldr]..|change (words (r :: rs)) with (Count r + words rs)].
  - split; [|intros _]; lia.
  - split; [lia|done].
  - pose proof (table_wf_word_step _ _ _ _ Hwf Hty Hr). destruct IH as [IH1 IH2].
    split; [|intros Hb; specialize (IH2 Hb); lia].
    assert (words rs = 0 ∨ addr + Count r < stop) as [Hz|Hz] by (inversion Hw; subst; auto); lia.
Qed.

Lemma single_value ty regs a r data :
  table_wf ty regs → regs !! a = Some r → 4 ≤ slice_cap data →
  let seg := take 2 (drop 2 (vis data ++ spare data)) in
  (is_bit_type ty = true ∨ Count r = 1 → ∃ v, Value r seg = Some (inl v)) ∧
  (is_word_type ty = true → Count r ≠ 1 → ∃ e, Value r seg = Some (inr e)).
Proof.
  intros Hwf Ha Hcap seg. destruct (Hwf _ _ Ha) as [He Hrw]. rewrite <- He.
  assert (length seg = 2%nat) as Hl.
  { subst seg. unfold slice_cap in Hcap. rewrite length_take, length_drop. lia. }
  assert (Hbit : is_bit_type (RType r) = true → ∃ v, Value r seg = Some (inl v)).
  { intros Hb. unfold Value. rewrite Hb. destruct seg as [|d seg']; [done|].
    rewrite BytesToBits_cons. eauto. }
  split.
  - intros [Hb|Hc]; [auto|].
    destruct (register_wf_bit_or_word r Hrw) as [Hb|Hw]; [auto|].
    apply Value_word; [done|done|lia].
  - intros Hw Hc. apply Value_short; [done|done|].
    pose proof (word_format_count r (register_wf_format r Hrw Hw)). lia.
Qed.

Lemma write_single_effect ty metric regs s data addr :
  registers s !! ty = Some regs → table_wf ty regs → uint16_at data 0 = Some addr →
  4 ≤ slice_cap data →
  match regs !! addr with
  | None => run (write_single ty metric data) s = (s, Returns ([], IllegalDataAddress))
  | Some r =>
    match Value r (take 2 (drop 2 (vis data ++ spare data))) with
    | Some (inl v) =>
        let res := run (write_single ty metric data) s in
        write_effect metric data 1 [mk_Point (Tag r) v 0] true s res.1 res.2
    | Some (inr _) => run (write_single ty metric data) s = (s, Returns ([], IllegalDataValue))
    | None => False
    end
  end.
Proof.
  intros Hregs Hwf Ha Hcap. unfold write_single, registers_of, register_at.
  destruct (regs !! addr) as [r|] eqn:Hr.
  2: { unfold run. erewrite bind_next by (go_unfold; by rewrite Hregs).
       rewrite Ha. erewrite bind_next by done. by rewrite Hr. }
  pose proof (single_value ty regs addr r data Hwf Hr Hcap) as [Hok Hbad].
  set (seg := take 2 (drop 2 (vis data ++ spare data))) in *.
  assert (Hslice : ∃ sp, slice_expr data 2 4 = Some (mk_slice seg sp))
    by (rewrite slice_expr_ok by lia; eexists; done).
  destruct Hslice as [sp Hslice].
  assert (Hrun : ∀ v, Value r seg = Some (inl v) →
    run (write_single ty metric data) s =
    run (finish_write metric data 1 [mk_Point (Tag r) v 0])
      (set_tags (store [mk_Point (Tag r) v 0] (tags s)) s)).
  { intros v Hv. unfold run, write_single, registers_of, register_at.
    erewrite bind_next by (go_unfold; by rewrite Hregs).
    rewrite Ha. erewrite bind_next by done. rewrite Hr. erewrite bind_next by done.
    rewrite Hslice. erewrite bind_next by done.
    erewrite bind_next by (unfold register_value; cbn [vis]; by rewrite Hv).
    by erewrite bind_next by done. }
  destruct (Value r seg) as [[v|e]|] eqn:Hv.
  - unfold write_single, registers_of, register_at in Hrun. rewrite (Hrun v eq_refl).
    by apply finish_write_effect.
  - unfold run. erewrite bind_next by (go_unfold; by rewrite Hregs).
    rewrite Ha. erewrite bind_next by done. rewrite Hr. erewrite bind_next by done.
    rewrite Hslice. erewrite bind_next by done.
    by erewrite bind_return by (unfold register_value; cbn [vis]; by rewrite Hv).
  - destruct (Hwf _ _ Hr) as [He Hrw].
    destruct (register_wf_bit_or_word r Hrw) as [Hb|Hw]; rewrite He in *.
    + destruct (Hok (or_introl Hb)). done.
    + destruct (decide (Count r = 1)) as [H1|H1]; [by destruct (Hok (or_intror H1))|].
      by destruct (Hbad Hw H1).
Qed.

Lemma write_effect_returns metric data count pts ok s s' out :
  write_effect metric data count pts ok s s' out →
  ∃ resp, out = Returns resp ∧ (resp.2 = Success ∨ resp.1 = []).
Proof.
  intros [_ Hm Hu Hd]. destruct ok.
  - destruct (decide (pts = [])) as [He|Hne].
    + destruct (Hd eq_refl) as (-> & _); eauto.
    + destruct (decide (publishable pts s)) as [Hp|Hp].
      * destruct (Hd eq_refl) as (-> & _); eauto.
      * destruct (Hu eq_refl) as (-> & _); eauto.
  - destruct (Hm eq_refl) as (-> & _); eauto.
Qed.

Lemma write_single_returns ty metric regs s data addr :
  registers s !! ty = Some regs → table_wf ty regs → uint16_at data 0 = Some addr →
  4 ≤ slice_cap data →
  ∃ resp, (run (write_single ty metric data) s).2 = Returns resp ∧
    (resp.2 = Success ∨ resp.1 = []).
Proof.
  intros Hregs Hwf Ha Hcap.
  pose proof (write_single_effect ty metric regs s data addr Hregs Hwf Ha Hcap) as He.
  destruct (regs !! addr) as [r|]; [|rewrite He; eauto].
  destruct (Value r _) as [[v|e]|]; [|rewrite He; eauto|done].
  by eapply write_effect_returns.
Qed.

(** The status handler's loop. *)
Lemma set_tags_range ps s :
  range (R:=unit) ps (λ p, set_tag (Point_Tag p) (Point_Value p)) s
    = (set_tags (store ps (tags s)) s, Next ()).
Proof.
  revert s. induction ps as [|p ps IH]; intros s; [simpl; unfold store; simpl; by rewrite set_tags_id|].
  cbn [range]. erewrite bind_next by done. by rewrite IH.
Qed.

Lemma bit_walk_exists regs stop addr : ∃ rs ok, walk bit_step regs stop addr rs ok.
Proof. apply walk_total. intros. unfold bit_step. lia. Qed.

Lemma word_walk_exists ty regs stop addr :
  table_wf ty regs → is_word_type ty = true → ∃ rs ok, walk Count regs stop addr rs ok.
Proof.
  intros Hwf Hty. apply walk_total. intros a r Hr.
  pose proof (table_wf_word_step _ _ _ _ Hwf Hty Hr). lia.
Qed.

Lemma walk_bits_length_le regs stop addr rs ok :
  walk bit_step regs stop addr rs ok → (length rs ≤ Z.to_nat (stop - addr))%nat.
Proof. induction 1; simpl; unfold bit_step in *; lia. Qed.

Lemma packed_size_mono n m : (n ≤ m)%nat → (packed_size n ≤ packed_size m)%nat.
Proof.
  intros Hle. destruct (packed_size_spec n), (packed_size_spec m). lia.
Qed.

(** *** Every complete request is answered *)

(** The data of a complete request: the header, and for multiple writes the byte
    count and a payload for the requested range. *)
Definition complete_request (code : Z) (data : slice) (start count : Z) : Prop :=
  4 ≤ slice_len data ∧ header data start count ∧ 0 ≤ count ∧
  (code = 15 → 5 + Z.of_nat (packed_size (Z.to_nat count)) ≤ slice_len data) ∧
  (code = 16 → 5 + 2 * count ≤ slice_len data).

Lemma slice_len_cap data : slice_len data ≤ slice_cap data.
Proof. unfold slice_len, slice_cap. rewrite length_app. lia. Qed.

(** A multiple write that ends inside a register, of which the buffer of the request
    does not hold the rest. *)
Definition overruns (code : Z) (s : ModbusServer) (data : slice) (start count : Z) : Prop :=
  code = 16 ∧ ∃ regs rs, registers s !! "holding" = Some regs ∧
    walk Count regs (start + count) start rs true ∧ count < words rs ∧
    slice_cap data < 5 + 2 * words rs.

Lemma walk_unique {step regs stop} addr rs b rs' b' :
  walk step regs stop addr rs b → walk step regs stop addr rs' b' → rs = rs' ∧ b = b'.
Proof.
  intros Hw. revert rs' b'. induction Hw as [addr Hge|addr Hlt Hr|addr r rs b Hlt Hr Hw IH];
    intros rs' b' Hw'; inversion Hw' as [|? ? ?|? r' rs0 ? ? Hr' Hw0]; subst; try lia; try congruence; try done.
  assert (r' = r) as -> by congruence. by destruct (IH _ _ Hw0) as [-> ->].
Qed.

Lemma handlers_total code h s data start count :
  function_handler code = Some h → server_wf s → complete_request code data start count →
  (overruns code s data start count ∧ (run (h data) s).2 = Panics PanicBounds) ∨
  (¬ overruns code s data start count ∧
   ∃ resp, (run (h data) s).2 = Returns resp ∧ (resp.2 = Success ∨ resp.1 = [])).
Proof.
  intros Hh Hwf (Hlen & Hhd & Hc & H15 & H16). pose proof (slice_len_cap data) as Hlc.
  assert (4 ≤ slice_cap data) as Hcap by lia.
  destruct (registers s !! code_table code) as [regs|] eqn:Hregs.
  2: { rewrite (handler_no_table _ _ _ _ Hh Hregs). right. split; [|eauto].
       intros (-> & regs & rs & Hr & _). change (code_table 16) with "holding" in Hregs. congruence. }
  pose proof (Hwf _ _ Hregs) as Htw.
  destruct (bit_walk_exists regs (start + count) start) as (rs & ok & Hw).
  destruct (decide (code = 16)) as [->|Hne].
  - injection Hh as <-. change (code_table 16) with "holding" in Hregs, Htw.
    destruct (word_walk_exists _ regs (start + count) start Htw eq_refl) as (rs' & ok' & Hw').
    specialize (H16 eq_refl).
    destruct (Z.le_gt_cases (5 + 2 * words rs') (slice_cap data)) as [Hfit|Hover].
    + right. split.
      * intros (_ & regs' & rs0 & Hr & Hw0 & _ & Ho). rewrite Hregs in Hr. injection Hr as <-.
        destruct (walk_unique _ _ _ _ _ Hw' Hw0) as [-> _]. lia.
      * eapply write_effect_returns, writeHoldingRegisters_effect; eauto.
    + left. destruct (writeHoldingRegisters_overrun regs s data start count rs' ok' Hregs Htw Hhd Hc Hw'
        ltac:(lia) Hover) as [Hout -> (rs0 & r & -> & Hwords & _) _].
      split; [|exact Hout]. split; [done|]. exists regs, (rs0 ++ [r]). split_and!; try done. lia.
  - right. split; [by intros [-> _]|]. by_code Hh; simpl in Hregs, Htw; try done.
    + erewrite readCoilRegisters_spec by done. destruct ok; eexists; split; auto.
    + erewrite readDiscreteRegisters_spec by done. destruct ok; eexists; split; auto.
    + destruct (word_walk_exists _ regs (start + count) start Htw eq_refl) as (rs' & ok' & Hw').
      unfold readHoldingRegisters. erewrite read_words_spec by done. destruct ok'; eexists; split; auto.
    + destruct (word_walk_exists _ regs (start + count) start Htw eq_refl) as (rs' & ok' & Hw').
      unfold readInputRegisters. erewrite read_words_spec by done. destruct ok'; eexists; split; auto.
    + exact (write_single_returns "coil" "coil_writes_count" regs s data start
        Hregs Htw (proj1 Hhd) Hcap).
    + exact (write_single_returns "holding" "holding_writes_count" regs s data start
        Hregs Htw (proj1 Hhd) Hcap).
    + eapply write_effect_returns, writeCoilRegisters_effect; eauto; [specialize (H15 eq_refl); lia|].
      pose proof (walk_bits_length_le _ _ _ _ _ Hw).
      pose proof (packed_size_mono (length rs) (Z.to_nat count) ltac:(lia)).
      specialize (H15 eq_refl). lia.
Qed.

Lemma status_returns env s : (run (handleMsgBusStatus env) s).2 = Returns ().
Proof.
  unfold run, handleMsgBusStatus. go_unfold.
  destruct (String.eqb _ _); [done|]. destruct (Envelope_Status env) as [st e].
  destruct (match e with Some _ => _ | None => _ end); [done|].
  by rewrite set_tags_range.
Qed.
End effects.

(** ** Properties *)

(** C29: reading words.  On a well-formed table, a read of holding or input
    registers leaves the server as it is and answers with the big-endian
    encodings of the tags of the registers that the requested range walks
    through, in address order, preceded by their length in bytes (modulo 256);
    the walk covers at least the requested words and at most three more (the
    last register may be wider than what is left), so that the length byte is the
    length for up to 124 words, but 0 for a read of 125, which the protocol
    allows, that ends in the first word of a four-word register.  It answers with an illegal
    address, and no data, exactly when the walk meets an address where no
    register starts. *)
Theorem word_reads `{GoPlatform} code h s data regs start count :
  code = 3 ∨ code = 4 → function_handler code = Some h →
  server_wf s → registers s !! code_table code = Some regs →
  header data start count → 0 ≤ count →
  ∃ rs ok bytes, walk Count regs (start + count) start rs ok ∧
    run (h data) s = (s, Returns (if ok then sized_response (2 * words rs) bytes
                                  else ([], IllegalDataAddress))) ∧
    bytes = flat_map (encoding (tags s)) rs ∧ Z.of_nat (length bytes) = 2 * words rs ∧
    words rs ≤ Z.max 0 (count + 3) ∧ (ok = true → count ≤ words rs) ∧
    (count ≤ 124 → sized_response (2 * words rs) bytes = (2 * words rs :: bytes, Success)) ∧
    (words rs = 128 → sized_response (2 * words rs) bytes = (0 :: bytes, Success)).
Proof.
  intros Hcode Hh Hwf Hregs Hhd Hc.
  assert (∃ ty, is_word_type ty = true ∧ ty = code_table code ∧ h = read_words ty)
    as (ty & Hty & Hct & ->).
  { destruct Hcode as [-> | ->]; injection Hh as <-; [by exists "holding"|by exists "input"]. }
  rewrite <- Hct in Hregs. pose proof (Hwf _ _ Hregs) as Htw.
  destruct (word_walk_exists ty regs (start + count) start Htw Hty) as (rs & ok & Hw).
  exists rs, ok, (flat_map (encoding (tags s)) rs).
  destruct (walk_words_bound _ _ _ _ _ _ Htw Hty Hw) as [Hle Hge].
  assert (Z.of_nat (length (flat_map (encoding (tags s)) rs)) = 2 * words rs) as Hlen
    by (eapply words_encoding_length; eauto using walk_lookup).
  split_and!; [done|by apply (read_words_spec ty regs _ _ start count)|done|done| | | |].
  - by replace (count + 3) with (start + count - start + 3) by lia.
  - by replace (start + count - start) with count in Hge by lia.
  - intros Hmax. unfold sized_response. by rewrite Z.mod_small by lia.
  - intros ->. done.
Qed.

(** A server with a double-width setpoint, a counter and three coils. *)
Definition counter_register : Register := mk_Register "holding" "uint16" 42 1 0 "ticks".
Definition coil_register (addr : Z) (tag : string) : Register := mk_Register "coil" "" addr 0 0 tag.

Definition example_server : ModbusServer := {|
  pullEndpoint := "";
  pubEndpoint := "";
  unit_id := 1;
  endpoint := ":502";
  serial := None;
  name := "modbus-server";
  registers := {[ "holding" := {[ 40 := setpoint; 42 := counter_register ]};
                  "coil" := {[ 0 := coil_register 0 "a"; 1 := coil_register 1 "b";
                               2 := coil_register 2 "c" ]} ]};
  tags := {[ "setpoint" := f64_of_Z (-42); "b" := f64_1 ]};
  metrics := ∅;
  pusher := mk_bus [] 0 (λ _, true);
|}.

Lemma setpoint_wf : RType setpoint = "holding" ∧ register_wf setpoint.
Proof. split; [done|]. split; [done|]. by intros _. Qed.

Lemma counter_register_wf : RType counter_register = "holding" ∧ register_wf counter_register.
Proof. split; [done|]. split; [done|]. by intros _. Qed.

Lemma coil_register_wf a t : RType (coil_register a t) = "coil" ∧ register_wf (coil_register a t).
Proof. split; [done|]. by split. Qed.

Lemma example_server_wf : server_wf example_server.
Proof.
  intros ty regs Hregs a r Hr. simpl in Hregs.
  repeat (apply lookup_insert_Some in Hregs as [[<- <-]|[_ Hregs]] ||
          apply lookup_singleton_Some in Hregs as [<- <-]).
  all: repeat (apply lookup_insert_Some in Hr as [[<- <-]|[_ Hr]] ||
               apply lookup_singleton_Some in Hr as [<- <-]);
    auto using setpoint_wf, counter_register_wf, coil_register_wf.
Qed.

Lemma word_reads_witness :
  ∃ rs ok bytes, walk Count {[ 40 := setpoint; 42 := counter_register ]} (40 + 3) 40 rs ok ∧
    run (@readHoldingRegisters amd64 (request 40 3 [])) example_server
    = (example_server, Returns (if ok then sized_response (2 * words rs) bytes
                                else ([], IllegalDataAddress))) ∧
    Z.of_nat (length bytes) = 2 * words rs.
Proof.
  pose proof (@word_reads amd64 3 _ example_server (request 40 3 []) _ 40 3
    (or_introl eq_refl) eq_refl example_server_wf eq_refl
    (conj eq_refl eq_refl) ltac:(lia)) as (rs & ok & bytes & Hw & Hrun & _ & Hlen & _).
  exists rs, ok, bytes. split; [exact Hw|]. split; [exact Hrun|exact Hlen].
Defined.

(** C27: reading bits.  A read of coils or discrete inputs, by two different
    algorithms, leaves the server as it is and answers the packed states of the
    requested registers: bit i of the answer is set if and only if register
    start + i holds a tag that is not zero, and the bits past the count are
    clear.  A missing register gives an illegal address and no data. *)
Theorem bit_reads `{GoPlatform} code h s data regs start count :
  code = 1 ∨ code = 2 → function_handler code = Some h →
  registers s !! code_table code = Some regs → header data start count → 0 ≤ count →
  ∃ rs ok bytes, walk bit_step regs (start + count) start rs ok ∧
    run (h data) s = (s, Returns (if ok then sized_response (Z.of_nat (length bytes)) bytes
                                  else ([], IllegalDataAddress))) ∧
    length bytes = packed_size (length rs) ∧ (ok = true → length rs = Z.to_nat count) ∧
    ∀ i, bit_at bytes i =
      match rs !! i with
      | Some r => negb (feqb (default f64_0 (tags s !! Tag r)) f64_0)
      | None => false
      end.
Proof.
  intros Hcode Hh Hregs Hhd Hc.
  destruct (bit_walk_exists regs (start + count) start) as (rs & ok & Hw).
  exists rs, ok, (BitsToBytes (map (coil_state (tags s)) rs)).
  split_and!; [done| | | |].
  - destruct Hcode as [-> | ->]; injection Hh as <-.
    + by apply (readCoilRegisters_spec regs _ _ start count).
    + by apply (readDiscreteRegisters_spec regs _ _ start count).
  - by rewrite BitsToBytes_length, length_map.
  - intros ->. rewrite (walk_bits_length _ _ _ _ Hw). f_equal. lia.
  - intros i. rewrite bit_at_BitsToBytes.
    change (map (coil_state (tags s)) rs) with (coil_state (tags s) <$> rs).
    rewrite list_lookup_fmap. destruct (rs !! i) as [r|]; [|done].
    simpl. unfold coil_state. by destruct (feqb _ _).
Qed.

Lemma bit_reads_witness :
  ∃ rs ok bytes, walk bit_step
      {[ 0 := coil_register 0 "a"; 1 := coil_register 1 "b"; 2 := coil_register 2 "c" ]}
      (0 + 3) 0 rs ok ∧
    run (readCoilRegisters (request 0 3 [])) example_server
    = (example_server, Returns (if ok then sized_response (Z.of_nat (length bytes)) bytes
                                else ([], IllegalDataAddress))).
Proof.
  pose proof (@bit_reads amd64 1 _ example_server (request 0 3 []) _ 0 3
    (or_introl eq_refl) eq_refl eq_refl (conj eq_refl eq_refl) ltac:(lia))
    as (rs & ok & bytes & Hw & Hrun & _).
  exists rs, ok, bytes. split; [exact Hw|exact Hrun].
Defined.

(** C8: writing holding registers.  The payload of a complete request is decoded
    register by register along the walk and the values are stored in the tags on
    every path.  If the walk reaches the end the update message with exactly these
    points goes to the bus, the writes are counted and the header is echoed;
    if the update cannot be sent the client gets a device failure; if a
    register is missing in the middle the client gets an illegal address, while
    the registers before it stay written with no update published.  A request that
    ends inside a register takes the rest from what follows it in its buffer; if
    there is not enough the handler panics, and the registers before stay written. *)
Theorem holding_write_effects `{GoPlatform} s data regs start count :
  server_wf s → registers s !! "holding" = Some regs →
  header data start count → 0 ≤ count → 5 + 2 * count ≤ slice_len data →
  ∃ rs ok, walk Count regs (start + count) start rs ok ∧
    let arr := vis data ++ spare data in
    let r := run (writeHoldingRegisters data) s in
    (5 + 2 * words rs ≤ slice_cap data →
     write_effect "holding_writes_count" data count (word_points rs arr 5) ok s r.1 r.2) ∧
    (slice_cap data < 5 + 2 * words rs → write_overrun data count rs ok arr s r.1 r.2) ∧
    words rs ≤ count + 3.
Proof.
  intros Hwf Hregs Hhd Hc Hlen. pose proof (Hwf _ _ Hregs) as Htw.
  pose proof (slice_len_cap data) as Hcap.
  destruct (word_walk_exists "holding" regs (start + count) start Htw eq_refl) as (rs & ok & Hw).
  exists rs, ok. split; [done|].
  pose proof (walk_words_bound "holding" _ _ _ _ _ Htw eq_refl Hw) as [Hb _].
  split_and!; [by eapply writeHoldingRegisters_effect| |lia].
  eapply writeHoldingRegisters_overrun; eauto. lia.
Qed.

(** A request of three words, and one of the first word of the setpoint. *)
Lemma holding_write_effects_witness :
  (let data := request 40 3 [6; 255; 255; 252; 24; 1; 44] in
   let r := run (@writeHoldingRegisters amd64 data) example_server in
   ∃ rs, walk Count {[ 40 := setpoint; 42 := counter_register ]} (40 + 3) 40 rs true ∧
     write_effect "holding_writes_count" data 3
      (@word_points amd64 rs (vis data ++ spare data) 5) true example_server r.1 r.2) ∧
  (run (@writeHoldingRegisters amd64 (request 40 1 [2; 0; 0])) example_server).2 = Panics PanicBounds.
Proof.
  split.
  - intros data r.
    assert (walk Count {[ 40 := setpoint; 42 := counter_register ]} (40 + 3) 40
      [setpoint; counter_register] true) as Hw0.
    { do 2 (apply walk_reg; [reflexivity|reflexivity|]). apply walk_end. vm_compute. discriminate. }
    destruct (@holding_write_effects amd64 example_server data _ 40 3
      example_server_wf eq_refl (conj eq_refl eq_refl) ltac:(lia) ltac:(vm_compute; discriminate))
      as (rs & ok & Hw & Heff & _ & _).
    destruct (walk_unique _ _ _ _ _ Hw0 Hw) as [<- <-].
    exists [setpoint; counter_register]. split; [exact Hw|]. apply Heff. vm_compute. discriminate.
  - destruct (@holding_write_effects amd64 example_server (request 40 1 [2; 0; 0]) _ 40 1
      example_server_wf eq_refl (conj eq_refl eq_refl) ltac:(lia) ltac:(vm_compute; discriminate))
      as (rs & ok & Hw & _ & Hover & _).
    assert (walk Count {[ 40 := setpoint; 42 := counter_register ]} (40 + 1) 40 [setpoint] true) as Hw0.
    { apply walk_reg; [reflexivity|reflexivity|]. apply walk_end. vm_compute. discriminate. }
    destruct (walk_unique _ _ _ _ _ Hw0 Hw) as [<- <-].
    destruct (Hover ltac:(vm_compute; reflexivity)) as [Hout _ _ _]. exact Hout.
Defined.

(** C7: holding registers keep what is written.  Writing a payload to a range of
    unscaled registers with different tags and reading the range again gives
    the same bytes, for any mix of 16, 32 and 64-bit integers and floats, when
    the numbers fit a float64 and the update can be published. *)
Theorem holding_write_read `{GoPlatform} s regs start count n payload rs :
  server_wf s → registers s !! "holding" = Some regs →
  0 ≤ start < 65536 → 0 ≤ count < 65536 →
  walk Count regs (start + count) start rs true →
  Forall (λ r, Scaling r = 0) rs → NoDup (Tag <$> rs) →
  is_byte n → Forall is_byte payload → Z.of_nat (length payload) = 2 * words rs →
  let data := request start count (n :: payload) in
  exact_payload rs (vis data) 5 = true → publishable (word_points rs (vis data) 5) s →
  let w := run (writeHoldingRegisters data) s in
  w.2 = Returns (take 4 (vis data), Success) ∧
  run (readHoldingRegisters (request start count [])) w.1
    = (w.1, Returns (sized_response (Z.of_nat (length payload)) payload)).
Proof.
  intros Hwf Hregs Hst Hc Hw Hsc Hnd Hn Hby Hlen data Hex Hpub w.
  pose proof (Hwf _ _ Hregs) as Htw.
  assert (vis data ++ spare data = vis data) as Harr by apply app_nil_r.
  assert (Hdata : drop 5 (vis data) = payload ∧ length (vis data) = (5 + length payload)%nat ∧
                  Forall is_byte (vis data)).
  { split_and!; [done|done|]. apply Forall_app. split; [apply be_encode_byte|].
    apply Forall_app. split; [apply be_encode_byte|]. by constructor. }
  destruct Hdata as (Hdrop & Hdlen & Hdby).
  destruct (writeHoldingRegisters_effect regs s data start count rs true Hregs Htw
    (uint16_at_request start count (n :: payload) Hst Hc) ltac:(lia) Hw) as [Ht _ _ Hd];
    [unfold slice_cap; rewrite Harr; lia|].
  fold w in Ht, Hd. rewrite Harr in Ht, Hd.
  destruct (Hd eq_refl (or_intror Hpub)) as (Hout & _). split; [done|].
  assert (registers w.1 !! "holding" = Some regs) as Hregs'.
  { pose proof (handler_evolves 16 _ s data regs eq_refl Hregs) as [_ He _ _].
    fold w in He. by rewrite He. }
  unfold readHoldingRegisters.
  rewrite (read_words_spec "holding" regs _ _ start count rs true Hregs' Htw eq_refl
    (uint16_at_request start count [] Hst Hc) ltac:(lia) Hw).
  rewrite Ht, (encoding_store "holding" regs) by
    (done || lia || by eapply walk_lookup).
  change (Z.to_nat 5) with 5%nat. rewrite Hdrop, take_ge by lia. by rewrite Hlen.
Qed.

Lemma holding_write_read_witness :
  let data := request 40 3 [6; 255; 255; 252; 24; 1; 44] in
  let w := run (@writeHoldingRegisters amd64 data) example_server in
  w.2 = Returns ([0; 40; 0; 3], Success) ∧
  run (@readHoldingRegisters amd64 (request 40 3 [])) w.1
    = (w.1, Returns (sized_response 6 [255; 255; 252; 24; 1; 44])).
Proof.
  apply (@holding_write_read amd64 example_server
    {[ 40 := setpoint; 42 := counter_register ]} 40 3 6 [255; 255; 252; 24; 1; 44]
    [setpoint; counter_register]); try reflexivity; try lia.
  - apply example_server_wf.
  - repeat (apply walk_reg; [reflexivity|reflexivity|]). apply walk_end. vm_compute. discriminate.
  - repeat constructor.
  - apply (bool_decide_unpack _). reflexivity.
  - split; lia.
  - repeat constructor; lia.
  - split; [repeat constructor|reflexivity].
Defined.

(** Coils keep what is written.  Writing any coil states to a range of
    registers with different tags, packed as the protocol packs them, and
    reading the range again gives the same packed states. *)
Theorem coil_write_read `{GoPlatform} s regs start bits n rs :
  registers s !! "coil" = Some regs → 0 ≤ start < 65536 →
  let count := Z.of_nat (length bits) in
  count < 65536 → Forall (λ b, b = 0 ∨ b = 1) bits →
  walk bit_step regs (start + count) start rs true → NoDup (Tag <$> rs) →
  let data := request start count (n :: BitsToBytes bits) in
  publishable (coil_points rs bits) s →
  let w := run (writeCoilRegisters data) s in
  w.2 = Returns (take 4 (vis data), Success) ∧
  run (readCoilRegisters (request start count [])) w.1
    = (w.1, Returns (sized_response (Z.of_nat (packed_size (length bits))) (BitsToBytes bits))).
Proof.
  intros Hregs Hst count Hc Hbits Hw Hnd data Hpub w.
  assert (vis data ++ spare data = vis data) as Harr by apply app_nil_r.
  assert (drop 5 (vis data) = BitsToBytes bits) as Hdrop by done.
  assert (slice_len data = 5 + Z.of_nat (packed_size (length bits))) as Hdlen.
  { unfold slice_len, data, request. simpl. rewrite BitsToBytes_length. lia. }
  assert (length rs = length bits) as Hlen by (rewrite (walk_bits_length _ _ _ _ Hw); lia).
  destruct (writeCoilRegisters_effect regs s data start count rs true Hregs
    (uint16_at_request start count (n :: BitsToBytes bits) Hst ltac:(lia)) ltac:(lia) Hw)
    as [Ht _ _ Hd]; [lia|rewrite Hlen; lia|].
  fold w in Ht, Hd. rewrite Hdrop, BytesToBits_BitsToBytes, coil_points_take in Ht, Hd by done.
  rewrite Harr in Hd. destruct (Hd eq_refl (or_intror Hpub)) as (Hout & _). split; [done|].
  assert (registers w.1 !! "coil" = Some regs) as Hregs'.
  { pose proof (handler_evolves 15 _ s data regs eq_refl Hregs) as [_ He _ _].
    fold w in He. by rewrite He. }
  rewrite (readCoilRegisters_spec regs _ _ start count rs true Hregs'
    (uint16_at_request start count [] Hst ltac:(lia)) ltac:(lia) Hw).
  cbv zeta. by rewrite Ht, coil_states_store, BitsToBytes_length.
Qed.

Lemma coil_write_read_witness :
  let data := request 0 3 [1; 5] in
  let w := run (writeCoilRegisters data) example_server in
  w.2 = Returns ([0; 0; 0; 3], Success) ∧
  run (readCoilRegisters (request 0 3 [])) w.1 = (w.1, Returns (sized_response 1 [5])).
Proof.
  apply (@coil_write_read amd64 example_server
    {[ 0 := coil_register 0 "a"; 1 := coil_register 1 "b"; 2 := coil_register 2 "c" ]} 0
    [1; 0; 1] 1 [coil_register 0 "a"; coil_register 1 "b"; coil_register 2 "c"]);
    try reflexivity; try lia.
  - repeat constructor; lia.
  - repeat (apply walk_reg; [reflexivity|reflexivity|]). apply walk_end. vm_compute. discriminate.
  - apply (bool_decide_unpack _). reflexivity.
  - split; [repeat constructor|reflexivity].
Defined.

(** Single writes.  A write of one coil or one holding register that takes
    one word stores the decoded value, publishes it, counts one write and echoes
    the request; the same request for a register of several words is refused as
    an illegal value, and for an address with no register as an illegal
    address, both with no effect. *)
Theorem single_write_effects `{GoPlatform} code h metric s data regs addr :
  (code, metric) = (5, "coil_writes_count") ∨ (code, metric) = (6, "holding_writes_count") →
  function_handler code = Some h → server_wf s → registers s !! code_table code = Some regs →
  uint16_at data 0 = Some addr → 4 ≤ slice_cap data →
  match regs !! addr with
  | None => run (h data) s = (s, Returns ([], IllegalDataAddress))
  | Some r =>
      (code = 5 ∨ Count r = 1 → ∃ v,
        Value r (take 2 (drop 2 (vis data ++ spare data))) = Some (inl v) ∧
        let res := run (h data) s in
        write_effect metric data 1 [mk_Point (Tag r) v 0] true s res.1 res.2) ∧
      (code = 6 → Count r ≠ 1 → run (h data) s = (s, Returns ([], IllegalDataValue)))
  end.
Proof.
  intros Hcm Hh Hwf Hregs Ha Hcap.
  assert (∃ ty, ty = code_table code ∧ h = write_single ty metric ∧
    (code = 5 → is_bit_type ty = true) ∧ (code = 6 → is_word_type ty = true))
    as (ty & Hct & -> & H5 & H6).
  { destruct Hcm as [[= -> ->] | [= -> ->]]; injection Hh as <-;
      [by exists "coil"|by exists "holding"]. }
  rewrite <- Hct in Hregs. pose proof (Hwf _ _ Hregs) as Htw.
  pose proof (write_single_effect ty metric regs s data addr Hregs Htw Ha Hcap) as Heff.
  destruct (regs !! addr) as [r|] eqn:Hr; [|done].
  destruct (single_value ty regs addr r data Htw Hr Hcap) as [Hok Hbad]. split.
  - intros Hcase. destruct Hok as [v Hv]; [destruct Hcase; [left|right]; auto|].
    exists v. rewrite Hv in Heff. done.
  - intros Hcode Hcnt. destruct (Hbad (H6 Hcode) Hcnt) as [e He]. by rewrite He in Heff.
Qed.

Lemma single_write_effects_witness :
  run (@writeHoldingRegister amd64 (request 40 7 [])) example_server
    = (example_server, Returns ([], IllegalDataValue)).
Proof.
  apply (@single_write_effects amd64 6 _ "holding_writes_count" example_server (request 40 7 [])
    {[ 40 := setpoint; 42 := counter_register ]} 40 (or_intror eq_refl) eq_refl
    example_server_wf eq_refl eq_refl); [vm_compute|reflexivity|vm_compute]; discriminate.
Defined.

(** Who may change what.  A handler, on any request and whatever its
    outcome, leaves the name and the register tables as they are, never
    withdraws a message, and changes only tags of registers of its own table;
    the four read handlers change nothing at all. *)
Theorem handlers_frame `{GoPlatform} code h s data regs :
  function_handler code = Some h → registers s !! code_table code = Some regs →
  let s' := (run (h data) s).1 in
  evolves regs s s' ∧ (is_read code = true → s' = s).
Proof.
  intros Hh Hregs. split; [by eapply handler_evolves|]. intros Hread.
  symmetry. by_code Hh; try discriminate Hread; apply run_keeps;
    [unfold readCoilRegisters|unfold readDiscreteRegisters|unfold readHoldingRegisters|
     unfold readInputRegisters]; readers.
Qed.

Lemma handlers_frame_witness :
  evolves {[ 40 := setpoint; 42 := counter_register ]} example_server
    (run (@writeHoldingRegisters amd64 (request 40 9 [])) example_server).1 ∧
  (run (@readHoldingRegisters amd64 (request 40 9 [])) example_server).1 = example_server.
Proof.
  split.
  - exact (proj1 (@handlers_frame amd64 16 _ example_server (request 40 9 []) _ eq_refl eq_refl)).
  - exact (proj2 (@handlers_frame amd64 3 _ example_server (request 40 9 []) _ eq_refl eq_refl)
      eq_refl).
Defined.

(** Status messages set the tags.  A status published by another module
    stores its measurements in order, so the last one of a tag wins, and is
    counted; the server's own messages and messages of another kind change no
    tag. *)
Theorem status_sets_tags s sender (st : Status) env :
  carries sender st env →
  let r := run (handleMsgBusStatus env) s in
  (sender ≠ name s → r = (set_tags (store (Measurements st) (tags s))
    (set_metrics (IncrMetric "status_count" (metrics s)) s), Returns ())) ∧
  (sender = name s → r = (s, Returns ())) ∧
  (∀ env', Sender env' ≠ name s → Kind env' ≠ ENVELOPE_STATUS →
     run (handleMsgBusStatus env') s
       = (set_metrics (IncrMetric "status_count" (metrics s)) s, Returns ())).
Proof.
  intros [Hsender Hcont] r.
  split_and!.
  - intros Hne. subst r. unfold run, handleMsgBusStatus.
    erewrite bind_next by done. rewrite Hsender. apply String.eqb_neq in Hne. rewrite Hne.
    erewrite bind_next by done. unfold Envelope_Status. rewrite Hcont. cbn.
    by rewrite set_tags_range.
  - intros He. subst r. unfold run, handleMsgBusStatus.
    erewrite bind_next by done. by rewrite Hsender, He, String.eqb_refl.
  - intros env' Hne Hk. unfold run, handleMsgBusStatus.
    erewrite bind_next by done. apply String.eqb_neq in Hne. rewrite Hne.
    erewrite bind_next by done. unfold Envelope_Status.
    pose proof (Envelope_as_kind Status env') as Hks.
    by rewrite (Hks Hk).
Qed.

Lemma status_sets_tags_witness :
  ∃ env, NewEnvelope "io" example_status = inl env ∧
  (run (handleMsgBusStatus (wire env)) example_server).2 = Returns ().
Proof.
  destruct (NewEnvelope "io" example_status) as [env|e] eqn:Henv; [|discriminate Henv].
  exists env. split; [done|].
  pose proof (wire_carries "io" example_status env example_status_representable Henv) as Hc.
  pose proof (proj1 (status_sets_tags example_server _ _ _ Hc)) as Hs.
  cbv zeta in Hs. rewrite Hs; [reflexivity|discriminate].
Defined.

(** A status whose second measurement carries a string for a value. *)
Definition malformed_status (tag : string) : Envelope :=
  mk_Envelope "v1" ENVELOPE_STATUS (Some {["sender" := "io"]})
    (Some (JObj [("measurements", JArr [JObj [("tag", JStr tag); ("value", JStr "open")]])])).

(** A malformed status overwrites a tag.  Decoding fails, but the handler
    only returns for a message of the wrong kind: the measurement whose value
    could not be decoded is applied as zero. *)
Theorem malformed_status_zeroes_tag s tag :
  name s ≠ "io" →
  (∃ e, (Envelope_Status (malformed_status tag)).2 = Some e) ∧
  tags (run (handleMsgBusStatus (malformed_status tag)) s).1 = <[tag := f64_0]> (tags s).
Proof.
  intros Hn. split; [by eexists|]. unfold run, handleMsgBusStatus.
  erewrite bind_next by done.
  replace (String.eqb (Sender (malformed_status tag)) (name s)) with false
    by (symmetry; apply String.eqb_neq; intros He; by apply Hn; rewrite <- He).
  by erewrite bind_next by done.
Qed.

Lemma malformed_status_zeroes_tag_witness :
  tags (run (handleMsgBusStatus (malformed_status "b")) example_server).1
    = <["b" := f64_0]> (tags example_server).
Proof. apply (malformed_status_zeroes_tag example_server "b"). discriminate. Defined.
