(* ===== verification/ModbusServerConfig.v ===== *)
(** * modbus/server: configuration and life of a server

    [New] and [Configure] of [server.go], and the server as a transition system:
    a configured server that gets any requests and any messages in any order. *)

From S2P Require Import Prelude GoFloat GoText GoBytes Etree ModbusRegister ModbusSettings Json Msgbus ModbusServer.

Definition New (name : string) : ModbusServer :=
  mk_ModbusServer "" "" name 1 "" None ∅ ∅ ∅ (mk_bus [] 0 (λ _, true)).

Definition set_pullEndpoint (v : string) (s : ModbusServer) : ModbusServer :=
  mk_ModbusServer v (pubEndpoint s) (name s) (unit_id s) (endpoint s) (serial s) (registers s)
    (tags s) (metrics s) (pusher s).
Definition set_pubEndpoint (v : string) (s : ModbusServer) : ModbusServer :=
  mk_ModbusServer (pullEndpoint s) v (name s) (unit_id s) (endpoint s) (serial s) (registers s)
    (tags s) (metrics s) (pusher s).
Definition set_unit_id (v : Z) (s : ModbusServer) : ModbusServer :=
  mk_ModbusServer (pullEndpoint s) (pubEndpoint s) (name s) v (endpoint s) (serial s) (registers s)
    (tags s) (metrics s) (pusher s).
Definition set_endpoint (v : string) (s : ModbusServer) : ModbusServer :=
  mk_ModbusServer (pullEndpoint s) (pubEndpoint s) (name s) (unit_id s) v (serial s) (registers s)
    (tags s) (metrics s) (pusher s).
Definition set_serial (v : option serial_Config) (s : ModbusServer) : ModbusServer :=
  mk_ModbusServer (pullEndpoint s) (pubEndpoint s) (name s) (unit_id s) (endpoint s) v (registers s)
    (tags s) (metrics s) (pusher s).
Definition set_registers (v : gmap string register_map) (s : ModbusServer) : ModbusServer :=
  mk_ModbusServer (pullEndpoint s) (pubEndpoint s) (name s) (unit_id s) (endpoint s) (serial s) v
    (tags s) (metrics s) (pusher s).

Definition default_serial : serial_Config := mk_serial_Config "/dev/ttyS0" 115200 8 1 "N" 0.

(** [this.serial.field = ...] *)
Definition on_serial (f : serial_Config → serial_Config) (s : ModbusServer) : ModbusServer :=
  set_serial (f <$> serial s) s.

(** [registers[reg.Addr] = reg] in the table of the register's type, made if
    needed, and the initial value of its tag. *)
Definition add_register (regs : gmap string register_map) (reg : Register)
  : gmap string register_map :=
  <[RType reg := <[Addr reg := reg]> (default ∅ (regs !! RType reg))]> regs.

Definition add_tag (t : gmap string float64) (reg : Register) : gmap string float64 :=
  <[Tag reg := f64_0]> t.

Section configure.
Context `{GoPlatform} `{Etree}.

Definition configure_child (child : Element) : go ModbusServer (option error) () :=
  if String.eqb (ETag child) "pull-endpoint" then modify (set_pullEndpoint (Text child))
  else if String.eqb (ETag child) "pub-endpoint" then modify (set_pubEndpoint (Text child))
  else if String.eqb (ETag child) "id" then
    assign_int (Text child) "invalid unit ID '%s' provided: %w" set_unit_id
  else if String.eqb (ETag child) "endpoint" then modify (set_endpoint (Text child))
  else if String.eqb (ETag child) "serial" then
    _ ← modify (set_serial (Some default_serial));
    range (ChildElements child) (configure_serial on_serial)
  else if String.eqb (ETag child) "register" then
    match parse_register child with
    | inr e => return_ (Some e)
    | inl reg =>
      modify (λ s, set_tags (add_tag (tags s) reg) (set_registers (add_register (registers s) reg) s))
    end
  else mret ().

Definition Configure (e : Element) : go ModbusServer (option error) (option error) :=
  _ ← range (ChildElements e) configure_child;
  mret None.
End configure.

(** A request for a registered function code, or a message from the bus. *)
Inductive server_step `{GoPlatform} : ModbusServer → ModbusServer → Prop :=
| step_request code h data s :
    function_handler code = Some h → server_step s (run (h data) s).1
| step_status env s : server_step s (run (handleMsgBusStatus env) s).1.

(** ** Lemmas *)

Definition register_children `{Etree} (l : list Element) : list Element :=
  List.filter (λ c, String.eqb (ETag c) "register") l.

Lemma server_wf_New nm : server_wf (New nm).
Proof. intros ty regs Hr. done. Qed.

Lemma add_register_wf regs r :
  (∀ ty m, regs !! ty = Some m → table_wf ty m) → register_wf r →
  ∀ ty m, add_register regs r !! ty = Some m → table_wf ty m.
Proof.
  intros Hregs Hr ty m Hm a r' Hr'. unfold add_register in Hm.
  apply lookup_insert_Some in Hm as [[<- <-]|[Hne Hm]]; [|by eapply Hregs].
  apply lookup_insert_Some in Hr' as [[<- <-]|[Hne Hr']]; [done|].
  destruct (regs !! RType r) as [m0|] eqn:Hm0; [by eapply Hregs|done].
Qed.

(** The part of the server that only [case "register"] changes, and what the
    whole configuration keeps. *)
Definition same_tables (s s' : ModbusServer) : Prop :=
  name s' = name s ∧ pusher s' = pusher s ∧ metrics s' = metrics s ∧
  registers s' = registers s ∧ tags s' = tags s.

Definition stays_wf (s s' : ModbusServer) : Prop :=
  name s' = name s ∧ pusher s' = pusher s ∧ (server_wf s → server_wf s').

#[export] Instance same_tables_preorder : PreOrder same_tables.
Proof. split; [by intros s|]. unfold same_tables. intros s1 s2 s3. intuition congruence. Qed.

#[export] Instance stays_wf_preorder : PreOrder stays_wf.
Proof.
  split; [by intros s|]. intros s1 s2 s3 (? & ? & ?) (? & ? & ?).
  split_and!; [congruence|congruence|auto].
Qed.

Lemma same_tables_wf s s' : same_tables s s' → stays_wf s s'.
Proof.
  intros (Hn & Hp & _ & Hr & _). split_and!; [done|done|]. unfold server_wf. by rewrite Hr.
Qed.

Section config_laws.
Context `{GoPlatform} `{Etree}.

Lemma on_serial_same f s : same_tables s (on_serial f s).
Proof. done. Qed.

(** Every child but a register leaves the tables alone. *)
Lemma configure_child_ok c :
  (String.eqb (ETag c) "register" = false → keeps same_tables (configure_child c)) ∧
  keeps stays_wf (configure_child c) ∧ ends is_error (configure_child c).
Proof.
  assert (Hgen : keeps same_tables (configure_child c) ∧ ends is_error (configure_child c) →
    (String.eqb (ETag c) "register" = false → keeps same_tables (configure_child c)) ∧
    keeps stays_wf (configure_child c) ∧ ends is_error (configure_child c)).
  { intros [Hk He]. split_and!; try done. intros s. by apply same_tables_wf. }
  unfold configure_child in *.
  destruct (String.eqb (ETag c) "pull-endpoint"); [by apply Hgen|].
  destruct (String.eqb (ETag c) "pub-endpoint"); [by apply Hgen|].
  destruct (String.eqb (ETag c) "id"); [by apply Hgen, assign_int_ok|].
  destruct (String.eqb (ETag c) "endpoint"); [by apply Hgen|].
  destruct (String.eqb (ETag c) "serial").
  { apply Hgen. apply configure_serials_ok; [apply _|intros f s; apply on_serial_same|done]. }
  destruct (String.eqb (ETag c) "register"); [|by apply Hgen].
  split; [done|]. destruct (parse_register c) as [reg|e] eqn:Hreg; [|by split; intros s].
  split; [|by intros s]. intros s. split_and!; [done|done|]. intros Hwf ty regs Hregs. simpl in Hregs.
  eapply add_register_wf; [exact Hwf| |exact Hregs]. by apply parse_register_wf in Hreg as [? _].
Qed.

(** The registers a list of children configures, in order. *)
Definition parsed (l : list Element) (regs : list Register) : Prop :=
  Forall2 (λ c r, parse_register c = inl r) (register_children l) regs.

Lemma configure_register c r s :
  String.eqb (ETag c) "register" = true → parse_register c = inl r →
  configure_child c s =
    (set_tags (add_tag (tags s) r) (set_registers (add_register (registers s) r) s), Next ()).
Proof.
  intros Hc%String.eqb_eq Hr. unfold configure_child. rewrite Hc. simpl. by rewrite Hr.
Qed.

Lemma configure_children_spec l s s' :
  range l configure_child s = (s', Next ()) →
  ∃ regs, parsed l regs ∧
    registers s' = foldl add_register (registers s) regs ∧
    tags s' = foldl add_tag (tags s) regs.
Proof.
  revert s. induction l as [|c l IH]; intros s Hrun.
  { injection Hrun as <-. exists []. split; [constructor|done]. }
  cbn [range] in Hrun. unfold mbind, go_bind in Hrun.
  destruct (configure_child c s) as [s1 [[]| | |]] eqn:Hc; try done.
  destruct (IH s1 Hrun) as (regs & Hp & Hregs & Htags).
  destruct (String.eqb (ETag c) "register") eqn:Hreg.
  - destruct (parse_register c) as [r|e] eqn:Hr.
    + rewrite (configure_register c r s Hreg Hr) in Hc. injection Hc as <-.
      exists (r :: regs). split_and!; [|done|done].
      unfold parsed, register_children in *. simpl. rewrite Hreg. by constructor.
    + apply String.eqb_eq in Hreg. unfold configure_child in Hc. rewrite Hreg in Hc. simpl in Hc.
      by rewrite Hr in Hc.
  - exists regs. pose proof (proj1 (configure_child_ok c) Hreg s) as (_ & _ & _ & Hr & Ht).
    rewrite Hc in Hr, Ht. simpl in Hr, Ht. rewrite Hregs, Htags, Hr, Ht.
    split_and!; [|done|done]. unfold parsed, register_children in *. simpl. by rewrite Hreg.
Qed.

Lemma Configure_ends e s :
  (∃ o, (run (Configure e) s).2 = Returns o) ∧ stays_wf s (run (Configure e) s).1.
Proof.
  assert (Hk : keeps stays_wf (range (ChildElements e) configure_child))
    by (apply keeps_range; [apply _|]; intros c; apply configure_child_ok).
  assert (He : ends is_error (range (ChildElements e) configure_child))
    by (apply ends_range; intros c; apply configure_child_ok).
  specialize (Hk s). specialize (He s). unfold run, Configure, mbind, go_bind.
  destruct (range (ChildElements e) configure_child s) as [s1 [[]|o| |]]; simpl in *; eauto; done.
Qed.

Lemma Configure_ok e s s' :
  run (Configure e) s = (s', Returns None) →
  range (ChildElements e) configure_child s = (s', Next ()).
Proof.
  assert (He : ends is_error (range (ChildElements e) configure_child))
    by (apply ends_range; intros c; apply configure_child_ok).
  specialize (He s). unfold run, Configure, mbind, go_bind.
  destruct (range (ChildElements e) configure_child s) as [s1 [[]|o| |]]; simpl in *; try done.
  - by intros [= ->].
  - by intros [= -> ->].
Qed.
End config_laws.

(** The table entry a list of registers leaves: the last one wins. *)
Lemma foldl_add_register_lookup rs regs ty a :
  (foldl add_register regs rs !! ty) ≫= (λ m, m !! a) =
  match last (List.filter (λ r, String.eqb (RType r) ty && (Addr r =? a)) rs) with
  | Some r => Some r
  | None => (regs !! ty) ≫= (λ m, m !! a)
  end.
Proof.
  induction rs as [|r rs IH] using rev_ind; [done|].
  rewrite foldl_app, List.filter_app. cbn [foldl List.filter].
  unfold add_register at 1.
  destruct (String.eqb_spec (RType r) ty) as [<-|Hty]; cbn [andb].
  - rewrite lookup_insert_eq. cbn. destruct (Z.eqb_spec (Addr r) a) as [<-|Ha]; cbn [andb].
    + rewrite last_snoc. by rewrite lookup_insert_eq.
    + rewrite lookup_insert_ne, app_nil_r by done. rewrite <- IH.
      by destruct (foldl add_register regs rs !! RType r).
  - by rewrite lookup_insert_ne, app_nil_r by done.
Qed.

Lemma foldl_add_tag_lookup rs t tag :
  foldl add_tag t rs !! tag = if bool_decide (tag ∈ Tag <$> rs) then Some f64_0 else t !! tag.
Proof.
  induction rs as [|r rs IH] using rev_ind; [done|].
  rewrite foldl_app, fmap_app. cbn [foldl fmap list_fmap]. unfold add_tag at 1.
  destruct (decide (Tag r = tag)) as [<-|Hne].
  - rewrite lookup_insert_eq, bool_decide_true; [done|]. apply elem_of_app. right. by left.
  - rewrite lookup_insert_ne, IH by done.
    erewrite bool_decide_ext; [done|]. rewrite elem_of_app, list_elem_of_singleton. split; [auto|]. intros [?|?]; [done|congruence].
Qed.

Lemma server_step_wf `{GoPlatform} s s' :
  server_step s s' →
  name s' = name s ∧ registers s' = registers s ∧
  sent (pusher s) `prefix_of` sent (pusher s').
Proof.
  intros [code h data s0 Hh|env s0].
  - destruct (registers s0 !! code_table code) as [regs|] eqn:Hregs.
    + pose proof (handler_evolves _ _ _ data _ Hh Hregs) as [Hn Hr Hs _]. done.
    + by rewrite (handler_no_table _ _ _ _ Hh Hregs).
  - unfold run, handleMsgBusStatus. go_unfold. cbn [pusher].
    destruct (String.eqb _ _); [done|]. destruct (Envelope_Status env) as [st e].
    destruct (match e with Some _ => _ | None => _ end); [done|].
    by rewrite set_tags_range.
Qed.

(** ** Properties *)

(** What a configuration means.  Whatever the document, [Configure] ends
    with nil or an error.  If it is nil, every register element was valid; the
    register found at a type and an address is the last one the document gives
    for them, and the tags of all its registers, no others, exist and are
    zero.  An invalid register element makes it fail. *)
Theorem Configure_registers `{GoPlatform} `{Etree} nm e :
  let r := run (Configure e) (New nm) in
  (∃ o, r.2 = Returns o) ∧ name r.1 = nm ∧
  (r.2 = Returns None → ∃ regs, parsed (ChildElements e) regs ∧
    (∀ ty a, (registers r.1 !! ty) ≫= (λ m, m !! a) =
       last (List.filter (λ x, String.eqb (RType x) ty && (Addr x =? a)) regs)) ∧
    (∀ t, tags r.1 !! t = if bool_decide (t ∈ Tag <$> regs) then Some f64_0 else None)) ∧
  (∀ c err, In c (ChildElements e) → ETag c = "register" → parse_register c = inr err →
     r.2 ≠ Returns None).
Proof.
  intros r. destruct (Configure_ends e (New nm)) as [Hends (Hn & _)]. fold r in Hends, Hn.
  assert (Hok : r.2 = Returns None → ∃ regs, parsed (ChildElements e) regs ∧
    registers r.1 = foldl add_register ∅ regs ∧ tags r.1 = foldl add_tag ∅ regs).
  { intros Hr. apply (configure_children_spec _ (New nm)), Configure_ok.
    fold r. destruct r. simpl in *. by subst. }
  split_and!; [done|done| |].
  - intros Hr. destruct (Hok Hr) as (regs & Hp & Hregs & Htags). exists regs.
    split_and!; [done| |].
    + intros ty a. rewrite Hregs, foldl_add_register_lookup. by destruct (last _).
    + intros t. by rewrite Htags, foldl_add_tag_lookup.
  - intros c err Hin Htag Hbad Hr. destruct (Hok Hr) as (regs & Hp & _).
    assert (In c (register_children (ChildElements e))) as Hc
      by (apply List.filter_In; by rewrite Htag).
    apply list_elem_of_In, list_elem_of_lookup in Hc as [i Hi].
    destruct (Forall2_lookup_l _ _ _ _ _ Hp Hi) as (x & _ & Hx). congruence.
Qed.

(** A document with two registers at the same address, the later one scaled. *)
Definition register_elem (ty dt addr tag scaling : string) : xml :=
  Elem "register" [("type", ty); ("data-type", dt)] ""
    [leaf "address" addr; leaf "tag" tag; leaf "scaling" scaling].

Definition example_config : xml :=
  Elem "modbus" [("mode", "server")] ""
    [leaf "endpoint" "127.0.0.1:5502";
     register_elem "input" "int16" "30000" "line-650632.kW" "-2";
     register_elem "holding" "uint32" "40000" "old" "0";
     register_elem "coil" "" "0" "line-650632.closed" "0";
     register_elem "holding" "int32" "40000" "setpoint" "2"].

Lemma Configure_registers_witness :
  let r := run (@Configure amd64 xml_etree example_config) (New "modbus-server") in
  r.2 = Returns None ∧
  ∃ regs, @parsed amd64 xml_etree (ChildElements (example_config : Element)) regs ∧
    (registers r.1 !! "holding") ≫= (λ m, m !! 40000) =
      last (List.filter (λ x, String.eqb (RType x) "holding" && (Addr x =? 40000)) regs).
Proof.
  intros r. assert (r.2 = Returns None) as Hr by (vm_compute; reflexivity). split; [exact Hr|].
  destruct (proj1 (proj2 (proj2 (@Configure_registers amd64 xml_etree "modbus-server" example_config))) Hr)
    as (regs & Hp & Hl & _).
  exists regs. split; [exact Hp|apply Hl].
Defined.

(** C9: a configured server serves.  From any document, and after any
    requests and messages in any order, every handler ends on every complete
    request without an endless loop, with a success or with an exception and no
    data, except for one kind of request: a multiple write that ends inside a
    register of which the buffer of the request does not hold the rest, which
    panics.  Every message is handled to the end, and the name and the register
    tables are still those of the configuration. *)
Theorem configured_server_serves `{GoPlatform} `{Etree} nm e s :
  rtc server_step (run (Configure e) (New nm)).1 s →
  name s = nm ∧ registers s = registers (run (Configure e) (New nm)).1 ∧
  (∀ code h data start count, function_handler code = Some h → complete_request code data start count →
     (overruns code s data start count ∧ (run (h data) s).2 = Panics PanicBounds) ∨
     (¬ overruns code s data start count ∧
      ∃ resp, (run (h data) s).2 = Returns resp ∧ (resp.2 = Success ∨ resp.1 = []))) ∧
  (∀ env, (run (handleMsgBusStatus env) s).2 = Returns ()).
Proof.
  intros Hsteps. destruct (Configure_ends e (New nm)) as [_ (Hn & _ & Hwf)].
  specialize (Hwf (server_wf_New nm)).
  set (s0 := (run (Configure e) (New nm)).1) in *.
  assert (name s = name s0 ∧ registers s = registers s0) as [Hn' Hr'].
  { clearbody s0. clear Hn Hwf. induction Hsteps as [|s1 s2 s3 Hstep _ IH]; [done|].
    destruct (server_step_wf _ _ Hstep) as (? & ? & _). intuition congruence. }
  split_and!; [by rewrite Hn', Hn|done| |].
  - intros code h data start count Hh Hreq. apply (handlers_total code); [done| |done].
    unfold server_wf. rewrite Hr'. exact Hwf.
  - intros env. apply status_returns.
Qed.

Lemma configured_server_serves_witness :
  ∃ s, rtc (@server_step amd64) (run (@Configure amd64 xml_etree example_config) (New "modbus-server")).1 s ∧
    (∃ resp, (run (@writeHoldingRegisters amd64 (request 40000 2 [4; 0; 0; 0; 7])) s).2 = Returns resp) ∧
    (run (@writeHoldingRegisters amd64 (request 40000 1 [2; 0; 7])) s).2 = Panics PanicBounds.
Proof.
  set (s0 := (run (@Configure amd64 xml_etree example_config) (New "modbus-server")).1).
  set (s1 := (run (handleMsgBusStatus (mk_Envelope "v1" "Status" None None)) s0).1).
  assert (rtc (@server_step amd64) s0 s1) as Hs by (apply rtc_once, step_status).
  destruct (@configured_server_serves amd64 xml_etree "modbus-server" example_config s1 Hs)
    as (_ & _ & Hall & _).
  exists s1. split; [exact Hs|]. split.
  - destruct (Hall 16 _ (request 40000 2 [4; 0; 0; 0; 7]) 40000 2 eq_refl) as [[_ Hp]|[_ (resp & Hr & _)]].
    + split_and!; try (intros; vm_compute; discriminate); try done.
    + vm_compute in Hp. discriminate.
    + exists resp. exact Hr.
  - destruct (Hall 16 _ (request 40000 1 [2; 0; 7]) 40000 1 eq_refl) as [[_ Hp]|[_ (resp & Hr & _)]].
    + split_and!; try (intros; vm_compute; discriminate); try done.
    + exact Hp.
    + vm_compute in Hr. discriminate.
Defined.
