(* ===== verification/ModbusClient.v ===== *)
(** * modbus/client: the Modbus client module

    The client reads its registers from a Modbus device every period and
    publishes them as a status; updates from the message bus are written to the
    device.  The Modbus library is a parameter: a connection with the read and
    write functions of its client, each of which leads to a new state of the
    connection and answers with data or an error. *)

From S2P Require Import Prelude GoFloat GoText GoBytes Etree ModbusRegister ModbusSettings Json Msgbus.

(** The handler [Run] makes for the library. *)
Inductive transport :=
| TCPClientHandler (endpoint : string) (SlaveId : Z)
| RTUClientHandler (Config : serial_Config) (SlaveId : Z).

Class ModbusLib := {
  Client : Type;
  NewClient : transport → Client;
  ReadCoils : Z → Z → Client → Client * result (list Z);
  ReadDiscreteInputs : Z → Z → Client → Client * result (list Z);
  ReadInputRegisters : Z → Z → Client → Client * result (list Z);
  ReadHoldingRegisters : Z → Z → Client → Client * result (list Z);
  WriteSingleCoil : Z → Z → Client → Client * result (list Z);
  WriteMultipleRegisters : Z → Z → list Z → Client → Client * result (list Z);
}.

Section client.
Context `{GoPlatform} `{ModbusLib}.

Record ModbusClient := mk_ModbusClient {
  pullEndpoint : string;
  pubEndpoint : string;
  pusher : bus;
  client : option Client;       (* None: the nil interface *)
  name : string;
  id : Z;
  endpoint : string;
  serial : option serial_Config;
  period : Z;
  registers : gmap string Register;
}.

Definition New (name : string) : ModbusClient :=
  mk_ModbusClient "" "" (mk_bus [] 0 (λ _, true)) None name 1 "" None 5000000000 ∅.

Definition set_pullEndpoint (v : string) (s : ModbusClient) : ModbusClient :=
  mk_ModbusClient v (pubEndpoint s) (pusher s) (client s) (name s) (id s) (endpoint s) (serial s)
    (period s) (registers s).
Definition set_pubEndpoint (v : string) (s : ModbusClient) : ModbusClient :=
  mk_ModbusClient (pullEndpoint s) v (pusher s) (client s) (name s) (id s) (endpoint s) (serial s)
    (period s) (registers s).
Definition set_pusher (v : bus) (s : ModbusClient) : ModbusClient :=
  mk_ModbusClient (pullEndpoint s) (pubEndpoint s) v (client s) (name s) (id s) (endpoint s)
    (serial s) (period s) (registers s).
Definition set_client (v : option Client) (s : ModbusClient) : ModbusClient :=
  mk_ModbusClient (pullEndpoint s) (pubEndpoint s) (pusher s) v (name s) (id s) (endpoint s)
    (serial s) (period s) (registers s).
Definition set_id (v : Z) (s : ModbusClient) : ModbusClient :=
  mk_ModbusClient (pullEndpoint s) (pubEndpoint s) (pusher s) (client s) (name s) v (endpoint s)
    (serial s) (period s) (registers s).
Definition set_endpoint (v : string) (s : ModbusClient) : ModbusClient :=
  mk_ModbusClient (pullEndpoint s) (pubEndpoint s) (pusher s) (client s) (name s) (id s) v
    (serial s) (period s) (registers s).
Definition set_serial (v : option serial_Config) (s : ModbusClient) : ModbusClient :=
  mk_ModbusClient (pullEndpoint s) (pubEndpoint s) (pusher s) (client s) (name s) (id s)
    (endpoint s) v (period s) (registers s).
Definition set_period (v : Z) (s : ModbusClient) : ModbusClient :=
  mk_ModbusClient (pullEndpoint s) (pubEndpoint s) (pusher s) (client s) (name s) (id s)
    (endpoint s) (serial s) v (registers s).
Definition set_registers (v : gmap string Register) (s : ModbusClient) : ModbusClient :=
  mk_ModbusClient (pullEndpoint s) (pubEndpoint s) (pusher s) (client s) (name s) (id s)
    (endpoint s) (serial s) (period s) v.

(** ** Configuration *)

Definition default_serial : serial_Config := mk_serial_Config "/dev/ttyS0" 115200 8 1 "N" 5000000000.

Definition on_serial (f : serial_Config → serial_Config) (s : ModbusClient) : ModbusClient :=
  set_serial (f <$> serial s) s.

(** [this.registers[reg.Tag] = reg] *)
Definition add_register (regs : gmap string Register) (reg : Register) : gmap string Register :=
  <[Tag reg := reg]> regs.

Definition configure_child `{Etree} (child : Element) : go ModbusClient (option error) () :=
  if String.eqb (ETag child) "pull-endpoint" then modify (set_pullEndpoint (Text child))
  else if String.eqb (ETag child) "pub-endpoint" then modify (set_pubEndpoint (Text child))
  else if String.eqb (ETag child) "unit-id" then
    assign_int (Text child) "invalid unit ID '%s' provided: %w" set_id
  else if String.eqb (ETag child) "endpoint" then modify (set_endpoint (Text child))
  else if String.eqb (ETag child) "serial" then
    _ ← modify (set_serial (Some default_serial));
    range (ChildElements child) (configure_serial on_serial)
  else if String.eqb (ETag child) "period" then
    match ParseDuration (Text child) with
    | inl d => modify (set_period d)
    | inr _ =>
      _ ← modify (set_period 0);
      return_ (Some (Errorf "invalid period '%s' provided for %s"))
    end
  else if String.eqb (ETag child) "register" then
    match parse_register child with
    | inr e => return_ (Some e)
    | inl reg => modify (λ s, set_registers (add_register (registers s) reg) s)
    end
  else mret ().

Definition Configure `{Etree} (e : Element) : go ModbusClient (option error) (option error) :=
  _ ← range (ChildElements e) configure_child;
  mret None.

(** ** Running *)

Definition getEndpoint (this : ModbusClient) : result string :=
  if negb (String.eqb (endpoint this) "") && match serial this with Some _ => true | None => false end
  then inr (Errorf "cannot provide both endpoint and serial configuration options")
  else if negb (String.eqb (endpoint this) "") then inl (endpoint this)
  else match serial this with
  | Some c => inl (Address c)
  | None => inr (Errorf "must provide either endpoint or serial configuration option")
  end.

(** The endpoints of the message bus: those of the configuration, if any. *)
Definition bus_endpoint (own given : string) : string :=
  if negb (String.eqb own "") then own else given.

Definition client_handler (this : ModbusClient) : option transport :=
  if negb (String.eqb (endpoint this) "")
  then Some (TCPClientHandler (endpoint this) (id this mod 256))
  else match serial this with
  | Some c => Some (RTUClientHandler c (id this mod 256))
  | None => None
  end.

(** [this.client = modbus.NewClient(handler)], after the subscriber was started. *)
Definition connect {R} : go ModbusClient R () :=
  s ← get;
  h ← eval (client_handler s) PanicExplicit;
  modify (set_client (Some (NewClient h))).

(** The read of one register: no case of the switch leaves [data] nil. *)
Definition read_register (reg : Register) (c : Client) : Client * result (list Z) :=
  let addr := wrap U16 (Addr reg) in
  if String.eqb (RType reg) "coil" then ReadCoils addr 1 c
  else if String.eqb (RType reg) "discrete" then ReadDiscreteInputs addr 1 c
  else if String.eqb (RType reg) "input" then ReadInputRegisters addr (wrap U16 (Count reg)) c
  else if String.eqb (RType reg) "holding" then ReadHoldingRegisters addr (wrap U16 (Count reg)) c
  else (c, inl []).

(** [for tag, reg := range this.registers]: [order] is the order in which the
    iteration meets the entries of the map. *)
Fixpoint poll_loop (order : list (string * Register)) (points : list Point)
  : go ModbusClient () (list Point) :=
  match order with
  | [] => mret points
  | (tag, reg) :: order' =>
    s ← get;
    c ← eval (client s) PanicNil;
    let '(c', r) := read_register reg c in
    _ ← modify (set_client (Some c'));
    match r with
    | inr _ => poll_loop order' points
    | inl data =>
      v ← eval (Value reg data) PanicBounds;
      match v with
      | inr _ => poll_loop order' points
      | inl value => poll_loop order' (points ++ [mk_Point tag value 0])
      end
    end
  end.

Definition connected (this : ModbusClient) (points : list Point) : Point :=
  mk_Point (name this +:+ ".connected") (if (0 <? length points)%nat then f64_1 else f64_0) 0.

(** One period of the goroutine of [Run]. *)
Definition poll (order : list (string * Register)) : go ModbusClient () () :=
  points ← poll_loop order [];
  s ← get;
  match NewEnvelope (name s) (mk_Status (points ++ [connected s points])) with
  | inr _ => mret ()
  | inl env => modify (set_pusher (Push "RUNTIME" env (pusher s)).1)
  end.

(** The body of the loop of [handleMsgBusUpdate]. *)
Definition write_point (point : Point) : go ModbusClient () () :=
  s ← get;
  match registers s !! Point_Tag point with
  | None => mret ()
  | Some register =>
    if String.eqb (RType register) "coil" then
      let value := if negb (feqb (Point_Value point) f64_0) then f64_of_Z 65280 else Point_Value point in
      c ← eval (client s) PanicNil;
      modify (set_client (Some (WriteSingleCoil (wrap U16 (Addr register)) (conv U16 value) c).1))
    else if String.eqb (RType register) "holding" then
      match Bytes register (Point_Value point) with
      | inr _ => mret ()
      | inl data =>
        c ← eval (client s) PanicNil;
        modify (set_client (Some
          (WriteMultipleRegisters (wrap U16 (Addr register)) (wrap U16 (Count register)) data c).1))
      end
    else mret ()
  end.

Definition handleMsgBusUpdate (env : Envelope) : go ModbusClient () () :=
  s ← get;
  if String.eqb (Sender env) (name s) then return_ () else
  match Envelope_Update env with
  | (_, Some _) => return_ ()
  | (update, None) => range (Updates update) write_point
  end.

(** ** The life of a client

    [Run] first starts the subscriber, whose goroutine calls
    [handleMsgBusUpdate], then makes the library's client, then starts the
    goroutine that polls.  A panic, in whichever goroutine, ends the process. *)
Inductive phase := Configured | Subscribed | Polling | Panicked.

Definition phase_after {A} (p : phase) (o : outcome A) : phase :=
  match o with Panics _ => Panicked | _ => p end.

Inductive client_step : phase * ModbusClient → phase * ModbusClient → Prop :=
| step_subscribe s e :
    getEndpoint s = inl e → client_step (Configured, s) (Subscribed, s)
| step_connect s :
    client_step (Subscribed, s) (Polling, (run (connect (R:=())) s).1)
| step_update p s env :
    p = Subscribed ∨ p = Polling →
    let r := run (handleMsgBusUpdate env) s in client_step (p, s) (phase_after p r.2, r.1)
| step_poll s order :
    order ≡ₚ map_to_list (registers s) →
    let r := run (poll order) s in client_step (Polling, s) (phase_after Polling r.2, r.1).

(** ** Specification vocabulary *)

(** What a poll of the registers in [order] reads from the connection [c]: the
    points of the registers that answered with data that decodes, in order, and
    the connection it leaves. *)
Inductive sampled : list (string * Register) → Client → list Point → Client → Prop :=
| sampled_nil c : sampled [] c [] c
| sampled_point tag r order c c1 data v pts c2 :
    read_register r c = (c1, inl data) → Value r data = Some (inl v) →
    sampled order c1 pts c2 → sampled ((tag, r) :: order) c (mk_Point tag v 0 :: pts) c2
| sampled_skip tag r order c c1 answer pts c2 :
    read_register r c = (c1, answer) →
    (∀ data, answer = inl data → ∃ e, Value r data = Some (inr e)) →
    sampled order c1 pts c2 → sampled ((tag, r) :: order) c pts c2.

(** A poll of the registers in [order] comes upon a coil or a discrete input that
    the device answers with no byte at all, the connection then being [c']. *)
Inductive empty_answer : list (string * Register) → Client → Client → Prop :=
| empty_here tag r order c c1 :
    is_bit_type (RType r) = true → read_register r c = (c1, inl []) →
    empty_answer ((tag, r) :: order) c c1
| empty_later tag r order c c1 answer c' :
    read_register r c = (c1, answer) → (is_bit_type (RType r) = true → answer ≠ inl []) →
    empty_answer order c1 c' → empty_answer ((tag, r) :: order) c c'.

(** What the configuration guarantees. *)
Definition client_wf (s : ModbusClient) : Prop :=
  ∀ tag r, registers s !! tag = Some r → Tag r = tag ∧ register_wf r.

(** What running the client keeps of it. *)
Definition same_config (s s' : ModbusClient) : Prop :=
  name s' = name s ∧ registers s' = registers s ∧
  (∀ c, client s = Some c → ∃ c', client s' = Some c').

#[export] Instance same_config_preorder : PreOrder same_config.
Proof.
  split; [by intros s; split_and!; eauto|].
  intros s1 s2 s3 (? & ? & Hc) (? & ? & Hc'). split_and!; [congruence|congruence|].
  intros c Hs. destruct (Hc c Hs) as [c' Hs']. eauto.
Qed.

(** ** Lemmas *)

(** Only a coil or a discrete input has no value, and only on no data. *)
Lemma Value_None r data :
  Value r data = None ↔ is_bit_type (RType r) = true ∧ data = [].
Proof.
  unfold Value. destruct (is_bit_type (RType r)).
  - destruct data as [|d data]; [by split|]. rewrite BytesToBits_cons. simpl.
    split; [done|by intros [_ ?]].
  - split; [by destruct (is_word_type (RType r))|by intros [? _]].
Qed.

(** What one register adds to a loop over the others. *)
Lemma poll_loop_read tag r order pts s c c1 answer :
  client s = Some c → read_register r c = (c1, answer) →
  poll_loop ((tag, r) :: order) pts s =
  match answer with
  | inr _ => poll_loop order pts (set_client (Some c1) s)
  | inl data =>
    match Value r data with
    | None => (set_client (Some c1) s, Panic PanicBounds)
    | Some (inr _) => poll_loop order pts (set_client (Some c1) s)
    | Some (inl v) => poll_loop order (pts ++ [mk_Point tag v 0]) (set_client (Some c1) s)
    end
  end.
Proof.
  intros Hc Hread. cbn [poll_loop]. go_unfold. rewrite Hc, Hread. simpl.
  destruct answer as [data|e]; [|done]. by destruct (Value r data) as [[v|e]|].
Qed.

Lemma poll_loop_spec order : ∀ s c pts,
  client s = Some c →
  (∃ new c', sampled order c new c' ∧
    poll_loop order pts s = (set_client (Some c') s, Next (pts ++ new))) ∨
  (∃ c', empty_answer order c c' ∧ poll_loop order pts s = (set_client (Some c') s, Panic PanicBounds)).
Proof.
  induction order as [|[tag r] order IH]; intros s c pts Hc.
  { left. exists [], c. split; [constructor|]. rewrite app_nil_r. simpl. destruct s. simpl in *. by subst. }
  destruct (read_register r c) as [c1 answer] eqn:Hread.
  rewrite (poll_loop_read tag r order pts s c c1 answer Hc Hread).
  assert (Hskip : (∀ data, answer = inl data → ∃ e, Value r data = Some (inr e)) →
    (∃ new c', sampled ((tag, r) :: order) c new c' ∧
      poll_loop order pts (set_client (Some c1) s) = (set_client (Some c') s, Next (pts ++ new))) ∨
    (∃ c', empty_answer ((tag, r) :: order) c c' ∧
      poll_loop order pts (set_client (Some c1) s) = (set_client (Some c') s, Panic PanicBounds))).
  { intros Hans. destruct (IH (set_client (Some c1) s) c1 pts eq_refl) as [(new & c' & ? & ?)|(c' & ? & ?)].
    - left. exists new, c'. split; [by eapply sampled_skip|done].
    - right. exists c'. split; [|done]. eapply empty_later; [done| |done]. intros Hb ->.
      destruct (Hans [] eq_refl) as [e He]. by rewrite (proj2 (Value_None r []) (conj Hb eq_refl)) in He. }
  destruct answer as [data|e]; [|by apply Hskip].
  destruct (Value r data) as [[v|e]|] eqn:Hv.
  - destruct (IH (set_client (Some c1) s) c1 (pts ++ [mk_Point tag v 0]) eq_refl)
      as [(new & c' & ? & Heq)|(c' & ? & ?)].
    + left. exists (mk_Point tag v 0 :: new), c'. split; [by econstructor|]. by rewrite Heq, <- app_assoc.
    + right. exists c'. split; [|done]. eapply empty_later; [done| |done]. intros Hb [= ->].
      by rewrite (proj2 (Value_None r []) (conj Hb eq_refl)) in Hv.
  - apply Hskip. intros ? [= <-]. eauto.
  - right. apply Value_None in Hv as [Hb ->]. exists c1. split; [by constructor|done].
Qed.

Lemma keeps_set_client s c c0 : client s = Some c0 → same_config s (set_client (Some c) s).
Proof. intros _. split_and!; simpl; eauto. Qed.

Lemma write_point_spec p s c :
  client s = Some c → ∃ c', write_point p s = (set_client (Some c') s, Next ()).
Proof.
  intros Hc. unfold write_point. go_unfold.
  assert (Hid : s = set_client (Some c) s) by (destruct s; simpl in *; by subst).
  destruct (registers s !! Point_Tag p) as [r|]; [|exists c; by rewrite <- Hid].
  rewrite Hc. destruct (String.eqb (RType r) "coil"); [by eexists|].
  destruct (String.eqb (RType r) "holding"); [|exists c; by rewrite <- Hid].
  destruct (Bytes r (Point_Value p)); [by eexists|exists c; by rewrite <- Hid].
Qed.

Lemma write_points_spec ps s c :
  client s = Some c → ∃ c', range ps write_point s = (set_client (Some c') s, Next ()).
Proof.
  revert s c. induction ps as [|p ps IH]; intros s c Hc.
  { exists c. simpl. destruct s; simpl in *; by subst. }
  destruct (write_point_spec p s c Hc) as [c1 H1].
  destruct (IH (set_client (Some c1) s) c1 eq_refl) as [c2 H2].
  exists c2. cbn [range]. by erewrite bind_next by exact H1.
Qed.

Lemma update_spec env s c :
  client s = Some c → ∃ c', run (handleMsgBusUpdate env) s = (set_client (Some c') s, Returns ()).
Proof.
  intros Hc. unfold run, handleMsgBusUpdate. go_unfold.
  assert (Hid : s = set_client (Some c) s) by (destruct s; simpl in *; by subst).
  destruct (String.eqb (Sender env) (name s)); [exists c; by rewrite <- Hid|].
  destruct (Envelope_Update env) as [u [e|]]; [exists c; by rewrite <- Hid|].
  destruct (write_points_spec (Updates u) s c Hc) as [c' Hr]. exists c'. by rewrite Hr.
Qed.

Lemma poll_spec order s c :
  client s = Some c →
  (∃ pts c', sampled order c pts c' ∧
    run (poll order) s =
      (let s' := set_client (Some c') s in
       match NewEnvelope (name s) (mk_Status (pts ++ [connected s pts])) with
       | inr _ => s'
       | inl env => set_pusher (Push "RUNTIME" env (pusher s)).1 s'
       end, Returns ())) ∨
  (∃ c', empty_answer order c c' ∧ run (poll order) s = (set_client (Some c') s, Panics PanicBounds)).
Proof.
  intros Hc. destruct (poll_loop_spec order s c [] Hc) as [(pts & c' & Hs & Heq)|(c' & Hs & Heq)];
    [left; exists pts, c'|right; exists c']; (split; [done|]); unfold run, poll.
  - erewrite bind_next by exact Heq. go_unfold. simpl. unfold connected. simpl. by destruct (NewEnvelope _ _).
  - unfold mbind, go_bind. by rewrite Heq.
Qed.

(** A device does not do both. *)
Lemma sampled_not_empty order c pts c' c2 : sampled order c pts c' → ¬ empty_answer order c c2.
Proof.
  induction 1 as [c|tag r order c c1 data v pts c3 Hr Hv _ IH|tag r order c c1 answer pts c3 Hr Ha _ IH];
    intros He; inversion He as [? ? ? ? ? Hb Hr'|? ? ? ? ? ? ? Hr' Hn He']; subst.
  - rewrite Hr in Hr'. injection Hr' as <- ->.
    by rewrite (proj2 (Value_None r []) (conj Hb eq_refl)) in Hv.
  - rewrite Hr in Hr'. injection Hr' as E1 E2. subst. by apply IH.
  - rewrite Hr in Hr'. injection Hr' as <- ->. destruct (Ha [] eq_refl) as [e He'].
    by rewrite (proj2 (Value_None r []) (conj Hb eq_refl)) in He'.
  - rewrite Hr in Hr'. injection Hr' as E1 E2. subst. by apply IH.
Qed.

(** *** Configuration *)

Definition stays_wf (s s' : ModbusClient) : Prop :=
  name s' = name s ∧ pusher s' = pusher s ∧ client s' = client s ∧ (client_wf s → client_wf s').

#[export] Instance stays_wf_preorder : PreOrder stays_wf.
Proof.
  split; [by intros s|]. intros s1 s2 s3 (? & ? & ? & ?) (? & ? & ? & ?).
  split_and!; [congruence|congruence|congruence|auto].
Qed.

(** All the settings but the registers. *)
Definition same_registers (s s' : ModbusClient) : Prop :=
  name s' = name s ∧ pusher s' = pusher s ∧ client s' = client s ∧ registers s' = registers s.

#[export] Instance same_registers_preorder : PreOrder same_registers.
Proof. split; [by intros s|]. unfold same_registers. intros s1 s2 s3. intuition congruence. Qed.

Lemma same_registers_wf s s' : same_registers s s' → stays_wf s s'.
Proof.
  intros (Hn & Hp & Hc & Hr). split_and!; [done|done|done|]. unfold client_wf. by rewrite Hr.
Qed.

Context `{Etree}.

Lemma client_child_ok c :
  (String.eqb (ETag c) "register" = false → keeps same_registers (configure_child c)) ∧
  keeps stays_wf (configure_child c) ∧ ends is_error (configure_child c).
Proof.
  assert (Hgen : keeps same_registers (configure_child c) ∧ ends is_error (configure_child c) →
    (String.eqb (ETag c) "register" = false → keeps same_registers (configure_child c)) ∧
    keeps stays_wf (configure_child c) ∧ ends is_error (configure_child c)).
  { intros [Hk He]. split_and!; try done. intros s. by apply same_registers_wf. }
  unfold configure_child in *.
  destruct (String.eqb (ETag c) "pull-endpoint"); [by apply Hgen|].
  destruct (String.eqb (ETag c) "pub-endpoint"); [by apply Hgen|].
  destruct (String.eqb (ETag c) "unit-id"); [by apply Hgen, assign_int_ok|].
  destruct (String.eqb (ETag c) "endpoint"); [by apply Hgen|].
  destruct (String.eqb (ETag c) "serial").
  { apply Hgen. apply configure_serials_ok; [apply _|intros f s; done|done]. }
  destruct (String.eqb (ETag c) "period").
  { apply Hgen. destruct (ParseDuration (Text c)); split; by intros s. }
  destruct (String.eqb (ETag c) "register"); [|by apply Hgen].
  split; [done|]. destruct (parse_register c) as [reg|e] eqn:Hreg; [|by split; intros s].
  split; [|by intros s]. intros s. split_and!; [done|done|done|]. intros Hwf tag r Hr.
  cbn in Hr. unfold add_register in Hr. apply parse_register_wf in Hreg as [Hreg _].
  apply lookup_insert_Some in Hr as [[<- <-]|[_ Hr]]; [done|by apply Hwf].
Qed.

Lemma client_Configure_ends e s :
  (∃ o, (run (Configure e) s).2 = Returns o) ∧ stays_wf s (run (Configure e) s).1.
Proof.
  assert (Hk : keeps stays_wf (range (ChildElements e) configure_child))
    by (apply keeps_range; [apply _|]; intros c; apply client_child_ok).
  assert (He : ends is_error (range (ChildElements e) configure_child))
    by (apply ends_range; intros c; apply client_child_ok).
  specialize (Hk s). specialize (He s). unfold run, Configure, mbind, go_bind.
  destruct (range (ChildElements e) configure_child s) as [s1 [[]|o| |]]; simpl in *; eauto; done.
Qed.

Lemma client_wf_New nm : client_wf (New nm).
Proof. intros tag r Hr. done. Qed.

(** *** Running *)

Lemma getEndpoint_handler s e : getEndpoint s = inl e → ∃ h, client_handler s = Some h.
Proof.
  unfold getEndpoint, client_handler. destruct (String.eqb (endpoint s) ""), (serial s); simpl; eauto; done.
Qed.

Lemma client_unchanged_None env s :
  client s = None →
  (∃ p, run (handleMsgBusUpdate env) s = (s, Panics p)) ∨ run (handleMsgBusUpdate env) s = (s, Returns ()).
Proof.
  intros Hc.
  assert (Hps : ∀ ps, range ps write_point s = (s, Panic PanicNil) ∨ range ps write_point s = (s, Next ())).
  { induction ps as [|p ps IH]; [by right|]. cbn [range]. unfold mbind, go_bind.
    assert (write_point p s = (s, Panic PanicNil) ∨ write_point p s = (s, Next ())) as [->| ->]; auto.
    unfold write_point. go_unfold. rewrite Hc.
    destruct (registers s !! Point_Tag p) as [r|]; [|by right].
    destruct (String.eqb (RType r) "coil"); [by left|].
    destruct (String.eqb (RType r) "holding"); [|by right].
    destruct (Bytes r (Point_Value p)); [by left|by right]. }
  unfold run, handleMsgBusUpdate. go_unfold.
  destruct (String.eqb (Sender env) (name s)); [by right|].
  destruct (Envelope_Update env) as [u [e|]]; [by right|].
  destruct (Hps (Updates u)) as [->| ->]; eauto.
Qed.

(** In every state of a life the configuration is as it was; the client exists
    as soon as the goroutine that polls runs, and a state with no client has an
    endpoint to make it for. *)
Definition life_ok (s0 : ModbusClient) (st : phase * ModbusClient) : Prop :=
  name st.2 = name s0 ∧ registers st.2 = registers s0 ∧ getEndpoint st.2 = getEndpoint s0 ∧
  match st.1 with
  | Configured => True
  | Subscribed => ∃ e, getEndpoint s0 = inl e
  | Polling => ∃ c, client st.2 = Some c
  | Panicked => True
  end.

Lemma update_same env s :
  let s' := (run (handleMsgBusUpdate env) s).1 in
  name s' = name s ∧ registers s' = registers s ∧ getEndpoint s' = getEndpoint s ∧
  (∀ c, client s = Some c → ∃ c', client s' = Some c').
Proof.
  destruct (client s) as [c|] eqn:Hc.
  - destruct (update_spec env s c Hc) as [c' ->]. simpl. split_and!; eauto.
  - destruct (client_unchanged_None env s Hc) as [[p ->]| ->]; simpl; split_and!; eauto; congruence.
Qed.

Lemma client_life s0 st :
  client s0 = None → rtc client_step (Configured, s0) st → life_ok s0 st.
Proof.
  intros Hc0 Hsteps.
  assert (Hok : life_ok s0 (Configured, s0)) by done.
  remember (Configured, s0) as st0 eqn:E. clear E. revert Hok.
  induction Hsteps as [|st1 st2 st3 Hstep _ IH]; [done|].
  intros (Hn & Hr & Hg & Hp). apply IH. destruct Hstep; simpl in *.
  - split_and!; [done|done|done|]. exists e. congruence.
  - destruct Hp as [e He]. unfold connect, run, life_ok. go_unfold.
    destruct (getEndpoint_handler s e) as [h ->]; [congruence|]. simpl. split_and!; eauto.
  - destruct (update_same env s) as (Hn' & Hr' & Hg' & Hc'). unfold life_ok. subst r. simpl.
    split_and!; [congruence|congruence|congruence|].
    destruct (run _ s).2; simpl; try done; destruct H2 as [-> | ->]; try done; destruct Hp as [c Hc]; eauto.
  - destruct Hp as [c Hc]. subst r. destruct (poll_spec order s c Hc) as [(pts & c' & _ & ->)|(c' & _ & ->)];
      unfold life_ok; [destruct (NewEnvelope _ _)|]; simpl; split_and!; eauto.
Qed.
End client.
Arguments ModbusClient {_}.

(** ** Properties *)

Section properties.
Context `{GoPlatform} `{ModbusLib}.

(** What a period does.  Whatever the order the registers are met in, the
    poll asks each register once and ends, unless a device answers the read of a
    coil or a discrete input with no byte, which is a panic; it publishes, as one status of the
    client, the values of the registers that answered with data that decodes,
    and the tag [<name>.connected], one if there is any such value and zero
    otherwise.  One value that is a NaN or an infinity keeps the whole status,
    [connected] included, from being published. *)
Theorem poll_reports s c order :
  client s = Some c → (∀ c', ¬ empty_answer order c c') →
  ∃ pts c', sampled order c pts c' ∧
    let r := run (poll order) s in
    let ms := pts ++ [mk_Point (name s +:+ ".connected") (if decide (pts = []) then f64_0 else f64_1) 0] in
    r.2 = Returns () ∧ client r.1 = Some c' ∧ registers r.1 = registers s ∧
    (finite_points pts → ∃ env, NewEnvelope (name s) (mk_Status ms) = inl env ∧
       (send_ok (pusher s) (sends (pusher s)) = true →
        sent (pusher r.1) = sent (pusher s) ++ [("RUNTIME", BJson (MarshalEnvelope env))])) ∧
    (¬ finite_points pts → pusher r.1 = pusher s).
Proof.
  intros Hc Hne. destruct (poll_spec order s c Hc) as [(pts & c' & Hs & Hr)|(c' & He & _)]; [|by destruct (Hne c')].
  exists pts, c'. split; [done|]. rewrite Hr.
  replace (mk_Point _ (if decide _ then _ else _) 0) with (connected s pts)
    by (unfold connected; by destruct pts; simpl).
  assert (Hfin : finite_points (pts ++ [connected s pts]) ↔ finite_points pts).
  { unfold finite_points. rewrite Forall_app. split; [by intros [? _]|]. intros Hp. split; [done|].
    constructor; [|constructor]. unfold connected. simpl. by destruct (0 <? _)%nat. }
  split; [done|]. split; [by destruct (NewEnvelope _ _)|]. split; [by destruct (NewEnvelope _ _)|].
  split; intros Hf.
  - apply Hfin in Hf. destruct (NewEnvelope_ok (name s) (mk_Status (pts ++ [connected s pts]))) as [env Henv]; [exact Hf|].
    exists env. split; [done|]. intros Hok. simpl. rewrite Henv. simpl. by rewrite Push_spec, Hok.
  - assert (¬ encodable (mk_Status (pts ++ [connected s pts]))) as Hn by (simpl; by rewrite Hfin).
    destruct (NewEnvelope_refused (name s) _ Hn) as [e He]. simpl. by rewrite He.
Qed.

(** C33: what a configured client does once it is connected.  From any document
    whose configuration gives an endpoint, through any updates and periods in any
    order that did not crash it, the registers stay those of the configuration,
    each under its tag and valid, and every update is handled to the end.  A
    period, in whatever order it meets the registers, reads them to the end,
    unless the device answers the read of a coil or of a discrete input with no
    byte: then, and only then, it panics, which is the end of the process. *)
Theorem connected_client_runs `{Etree} nm e s :
  rtc client_step (Configured, (run (Configure e) (New nm)).1) (Polling, s) →
  name s = nm ∧ registers s = registers (run (Configure e) (New nm)).1 ∧
  (∀ tag r, registers s !! tag = Some r → Tag r = tag ∧ register_wf r) ∧
  (∀ env, (run (handleMsgBusUpdate env) s).2 = Returns ()) ∧
  ∃ c, client s = Some c ∧ ∀ order,
    ((∃ pts c', sampled order c pts c') ↔ (run (poll order) s).2 = Returns ()) ∧
    ((∃ c', empty_answer order c c') ↔ (run (poll order) s).2 = Panics PanicBounds) ∧
    (order ≡ₚ map_to_list (registers s) → (run (poll order) s).2 = Panics PanicBounds →
     client_step (Polling, s) (Panicked, (run (poll order) s).1)).
Proof.
  intros Hsteps. destruct (client_Configure_ends e (New nm)) as [_ (Hn & _ & Hc & Hwf)].
  specialize (Hwf (client_wf_New nm)).
  destruct (client_life _ _ Hc Hsteps) as (Hn' & Hr & _ & [c Hcl]). simpl in *.
  split_and!; [congruence|done|by rewrite Hr| |].
  - intros env. by destruct (update_spec env s c Hcl) as [c' ->].
  - exists c. split; [done|]. intros order.
    assert (Hcrash : order ≡ₚ map_to_list (registers s) → (run (poll order) s).2 = Panics PanicBounds →
      client_step (Polling, s) (Panicked, (run (poll order) s).1)).
    { intros Ho Hp. pose proof (step_poll s order Ho) as Hst. cbv zeta in Hst. by rewrite Hp in Hst. }
    destruct (poll_spec order s c Hcl) as [(pts & c' & Hs & Hrun)|(c' & He & Hrun)];
      rewrite Hrun in *; cbn [snd]; split_and!; try done; split; try done; eauto.
    + intros [c2 He]. by destruct (sampled_not_empty _ _ _ _ _ Hs He).
    + intros (pts & c2 & Hs). by destruct (sampled_not_empty _ _ _ _ _ Hs He).
Qed.

(** [Run] starts the subscriber before it makes the library's client, so an
    update of a coil that arrives in between calls a method of a nil interface
    and brings the module down. *)
Theorem update_before_connect_panics s e tag r v sender env :
  getEndpoint s = inl e → client s = None →
  registers s !! tag = Some r → RType r = "coil" → sender ≠ name s → valid64 v →
  carries sender (mk_Update [mk_Point tag v 0] "" "") env →
  client_step (Configured, s) (Subscribed, s) ∧
  (run (handleMsgBusUpdate env) s).2 = Panics PanicNil.
Proof.
  intros He Hc Hreg Hty Hs Hv Henv. split; [by econstructor|].
  destruct Henv as [HS Hu].
  unfold run, handleMsgBusUpdate. go_unfold. rewrite HS, (Hu : Envelope_Update env = _).
  apply String.eqb_neq in Hs as ->. simpl. unfold write_point. go_unfold. simpl.
  by rewrite Hreg, Hc, Hty.
Qed.
End properties.

(** *** Examples *)

(** A device with one coil, which is set, and a register that holds 480. *)
#[export] Instance example_device : ModbusLib := {|
  Client := ();
  NewClient _ := ();
  ReadCoils _ _ c := (c, inl [1]);
  ReadDiscreteInputs _ _ c := (c, inl [0]);
  ReadInputRegisters a n c :=
    if a =? 30000 then (c, inl [1; 224]) else (c, inr (Sentinel "illegal data address"));
  ReadHoldingRegisters _ _ c := (c, inr (Sentinel "illegal data address"));
  WriteSingleCoil _ _ c := (c, inl []);
  WriteMultipleRegisters _ _ _ c := (c, inl []);
|}.

Definition client_register (ty dt addr tag : string) : xml :=
  Elem "register" [("type", ty); ("data-type", dt)] "" [leaf "address" addr; leaf "tag" tag].

Definition example_config : xml :=
  Elem "modbus" [("mode", "client")] ""
    [leaf "endpoint" "127.0.0.1:5502"; leaf "period" "2s";
     client_register "input" "uint16" "30000" "load.kW";
     client_register "coil" "" "0" "load.closed";
     client_register "holding" "uint16" "40000" "load.setpoint"].

Definition example_client : @ModbusClient example_device :=
  (run (@Configure amd64 example_device xml_etree example_config) (New "modbus-client")).1.

Definition connected_client : @ModbusClient example_device := set_client (Some ()) example_client.

Definition example_order : list (string * Register) := map_to_list (registers example_client).

(** The device always answers the reads of its coil and its discrete inputs. *)
Lemma example_answers order c c' : ¬ @empty_answer example_device order c c'.
Proof.
  intros He. induction He as [tag r order c c1 Hb Hr|]; [|done].
  unfold read_register, is_bit_type in *. destruct (String.eqb (RType r) "coil"); [done|].
  by destruct (String.eqb (RType r) "discrete").
Qed.

Lemma poll_reports_witness :
  registers example_client ≠ ∅ ∧
  ∃ pts c', @sampled amd64 example_device example_order () pts c' ∧
    client (run (@poll amd64 example_device example_order) connected_client).1 = Some c'.
Proof.
  split; [by vm_compute|].
  destruct (@poll_reports amd64 example_device connected_client () example_order
    eq_refl (example_answers _ _)) as (pts & c' & Hs & _ & Hc & _).
  exists pts, c'. split; [exact Hs|exact Hc].
Defined.

(** A device that answers a read of its coils with no byte. *)
Definition mute_device : ModbusLib := {|
  Client := ();
  NewClient _ := ();
  ReadCoils _ _ c := (c, inl []);
  ReadDiscreteInputs _ _ c := (c, inl []);
  ReadInputRegisters a n c := (c, inl [1; 224]);
  ReadHoldingRegisters _ _ c := (c, inl [1; 224]);
  WriteSingleCoil _ _ c := (c, inl []);
  WriteMultipleRegisters _ _ _ c := (c, inl []);
|}.

(** The life of a client up to its first period. *)
Definition ready (L : ModbusLib) : @ModbusClient L :=
  (run (@connect L ()) (run (@Configure amd64 L xml_etree example_config) (@New L "modbus-client")).1).1.

Lemma ready_steps (L : ModbusLib) :
  getEndpoint (run (@Configure amd64 L xml_etree example_config) (@New L "modbus-client")).1 = inl "127.0.0.1:5502" →
  rtc (@client_step amd64 L)
    (Configured, (run (@Configure amd64 L xml_etree example_config) (@New L "modbus-client")).1)
    (Polling, ready L).
Proof.
  intros He. eapply rtc_l; [eapply (step_subscribe _ "127.0.0.1:5502"); exact He|]. apply rtc_once, step_connect.
Qed.

(** Polling the example device ends; polling a device that does not fill its
    answer for the coil crashes the module. *)
Lemma connected_client_runs_witness :
  (run (@poll amd64 example_device example_order) (ready example_device)).2 = Returns () ∧
  (let reg := mk_Register "coil" "" 0 0 0 "load.closed" in
   (run (@poll amd64 mute_device [("load.closed", reg)]) (ready mute_device)).2 = Panics PanicBounds).
Proof.
  split.
  - destruct (@connected_client_runs amd64 example_device xml_etree "modbus-client" example_config
      (ready example_device) (ready_steps example_device ltac:(vm_compute; reflexivity)))
      as (_ & _ & _ & _ & c & Hc & Hp).
    destruct (Hp example_order) as [Hends _]. apply Hends.
    destruct (@poll_spec amd64 example_device example_order (ready example_device) c Hc)
      as [(pts & c' & Hs & _)|(c' & He & _)]; [by exists pts, c'|].
    by apply example_answers in He.
  - intros reg.
    destruct (@connected_client_runs amd64 mute_device xml_etree "modbus-client" example_config
      (ready mute_device) (ready_steps mute_device ltac:(vm_compute; reflexivity)))
      as (_ & _ & _ & _ & c & Hc & Hp).
    destruct (Hp [("load.closed", reg)]) as (_ & Hcrash & _). apply Hcrash.
    exists c. by constructor.
Defined.

Lemma update_before_connect_panics_witness :
  ∃ env, NewEnvelope "logic" (mk_Update [mk_Point "load.closed" f64_1 0] "" "") = inl env ∧
    (run (@handleMsgBusUpdate amd64 example_device (wire env)) example_client).2 = Panics PanicNil.
Proof.
  destruct (NewEnvelope "logic" (mk_Update [mk_Point "load.closed" f64_1 0] "" "")) as [env|e] eqn:Henv;
    [|discriminate Henv].
  exists env. split; [done|].
  refine (proj2 (@update_before_connect_panics amd64 example_device example_client "127.0.0.1:5502"
    "load.closed" (mk_Register "coil" "" 0 0 0 "load.closed") f64_1 "logic" (wire env)
    _ _ _ _ _ eq_refl (update_arrives "logic" "load.closed" f64_1 env eq_refl Henv)));
    [vm_compute; reflexivity ..|vm_compute; discriminate].
Defined.
