(* ===== verification/ModbusLink.v ===== *)
(** * A Modbus client connected to a Modbus server

    The two modules meet over the Modbus library: a function of its client sends
    a request, the library of the server runs the handler registered for the
    function code on the request's data, and the client function answers the
    data of the response, or an error for an exception.  [Connection] states
    this of a library; the theorems are about [modbus/client] and
    [modbus/server] talking to each other over any such library. *)

From S2P Require Import Prelude GoFloat GoText GoBytes Etree ModbusRegister ModbusSettings Json Msgbus.
From S2P Require Import ModbusServer.
From S2P Require ModbusServerConfig ModbusClient.
Import ModbusClient (ModbusLib, Client, read_register, ModbusClient, client, poll,
  handleMsgBusUpdate, transport).
#[local] Existing Instance ModbusClient.same_config_preorder.

(** The data of a response after its byte count, or an error. *)
Definition answer (out : outcome response) : result (list Z) :=
  match out with
  | Returns (_ :: data, Success) => inl data
  | _ => inr (Sentinel "modbus: exception")
  end.

Section platform.
Context `{GoPlatform}.

(** What the client functions of the library do on requests within the limits
    of the protocol. *)
Class Connection (L : ModbusLib) := {
  peer : Client → ModbusServer;
  ReadCoils_peer a n c : 0 ≤ a < 65536 → 1 ≤ n ≤ 2000 →
    peer (ModbusClient.ReadCoils a n c).1 = (run (readCoilRegisters (request a n [])) (peer c)).1 ∧
    (ModbusClient.ReadCoils a n c).2 = answer (run (readCoilRegisters (request a n [])) (peer c)).2;
  ReadDiscreteInputs_peer a n c : 0 ≤ a < 65536 → 1 ≤ n ≤ 2000 →
    peer (ModbusClient.ReadDiscreteInputs a n c).1
      = (run (readDiscreteRegisters (request a n [])) (peer c)).1 ∧
    (ModbusClient.ReadDiscreteInputs a n c).2
      = answer (run (readDiscreteRegisters (request a n [])) (peer c)).2;
  ReadInputRegisters_peer a n c : 0 ≤ a < 65536 → 1 ≤ n ≤ 125 →
    peer (ModbusClient.ReadInputRegisters a n c).1
      = (run (readInputRegisters (request a n [])) (peer c)).1 ∧
    (ModbusClient.ReadInputRegisters a n c).2
      = answer (run (readInputRegisters (request a n [])) (peer c)).2;
  ReadHoldingRegisters_peer a n c : 0 ≤ a < 65536 → 1 ≤ n ≤ 125 →
    peer (ModbusClient.ReadHoldingRegisters a n c).1
      = (run (readHoldingRegisters (request a n [])) (peer c)).1 ∧
    (ModbusClient.ReadHoldingRegisters a n c).2
      = answer (run (readHoldingRegisters (request a n [])) (peer c)).2;
  WriteSingleCoil_peer a v c : 0 ≤ a < 65536 → v = 0 ∨ v = 65280 →
    peer (ModbusClient.WriteSingleCoil a v c).1 = (run (writeCoilRegister (request a v [])) (peer c)).1;
  WriteMultipleRegisters_peer a n data c :
    0 ≤ a < 65536 → 1 ≤ n ≤ 123 → Z.of_nat (length data) = 2 * n →
    peer (ModbusClient.WriteMultipleRegisters a n data c).1
      = (run (writeHoldingRegisters (request a n (2 * n :: data))) (peer c)).1;
}.

(** The register of the server at the type and the address of [r], and what a
    read of it shows the client: a bit, or the value that the bytes the server
    makes of its tag decode to. *)
Definition matching (srv : ModbusServer) (r : Register) : option Register :=
  registers srv !! RType r ≫= (λ regs, regs !! Addr r).

Definition reading (srv : ModbusServer) (r : Register) : float64 :=
  match matching srv r with
  | Some r' =>
    if is_bit_type (RType r) then f64_of_Z (coil_state (tags srv) r')
    else decoded r (encoding (tags srv) r')
  | None => f64_0
  end.

(** The register is configured alike on both sides. *)
Definition mirrored (srv : ModbusServer) (r : Register) : Prop :=
  register_wf r ∧ 0 ≤ Addr r < 65536 ∧
  ∃ r', matching srv r = Some r' ∧ DataType r' = DataType r ∧ Scaling r' = Scaling r.

(** The value the server stores when the client writes [v]. *)
Definition written (r : Register) (v : float64) : float64 :=
  if String.eqb (RType r) "coil" then f64_of_Z (if feqb v f64_0 then 0 else 1)
  else match Bytes r v with inl bs => decoded r bs | inr _ => f64_0 end.

(** ** Lemmas *)

Lemma codec_alike r r' :
  RType r' = RType r → DataType r' = DataType r → Scaling r' = Scaling r →
  (∀ v, Bytes r' v = Bytes r v) ∧ (∀ d, Value r' d = Value r d).
Proof. intros Ht Hd Hs. unfold Bytes, Value. rewrite Ht, Hd, Hs. done. Qed.

Lemma count_alike r r' :
  register_wf r → register_wf r' → is_word_type (RType r) = true →
  RType r' = RType r → DataType r' = DataType r → Count r' = Count r.
Proof.
  intros [_ Hr] [_ Hr'] Hw Ht Hd. rewrite Ht in Hr'.
  destruct (Hr Hw) as [_ ->], (Hr' Hw) as [_ ->]. by rewrite Hd.
Qed.

Lemma mirrored_lookup srv r :
  server_wf srv → mirrored srv r →
  ∃ regs r', registers srv !! RType r = Some regs ∧ regs !! Addr r = Some r' ∧
    matching srv r = Some r' ∧ table_wf (RType r) regs ∧
    RType r' = RType r ∧ register_wf r' ∧ DataType r' = DataType r ∧ Scaling r' = Scaling r.
Proof.
  intros Hwf (Hr & _ & r' & Hm & Hd & Hs). unfold matching in Hm |- *.
  destruct (registers srv !! RType r) as [regs|] eqn:Hregs; [|done]. simpl in *.
  pose proof (Hwf _ _ Hregs) as Htw. destruct (Htw _ _ Hm) as [Ht Hw'].
  exists regs, r'. by split_and!.
Qed.

Lemma walk_one step regs a n r :
  0 < n → regs !! a = Some r → step r = n → walk step regs (a + n) a [r] true.
Proof. intros Hn Hr Hs. eapply walk_reg; [lia|done|]. rewrite Hs. apply walk_end. lia. Qed.

Lemma one_bit b : b = 0 ∨ b = 1 → head (BytesToBits (BitsToBytes [b])) = Some b.
Proof. intros Hb. rewrite BytesToBits_BitsToBytes by (by constructor). done. Qed.

Lemma Value_bit r data b :
  is_bit_type (RType r) = true → head (BytesToBits data) = Some b →
  Value r data = Some (inl (f64_of_Z b)).
Proof. intros Hb. unfold Value. rewrite Hb. by destruct (BytesToBits data) as [|? ?]; intros [= ->]. Qed.

Lemma coil_state_bit t r : coil_state t r = 0 ∨ coil_state t r = 1.
Proof. unfold coil_state. destruct (feqb _ _); auto. Qed.

Lemma decoded_word r data :
  register_wf r → is_word_type (RType r) = true → 2 * Count r ≤ Z.of_nat (length data) →
  Value r data = Some (inl (decoded r data)).
Proof. intros Hr Hw Hl. unfold decoded. by destruct (Value_word r data Hr Hw Hl) as [v ->]. Qed.

Lemma answer_sized (size : Z) (data : list Z) : answer (Returns (sized_response size data)) = inl data.
Proof. done. Qed.

(** The two reads of bits, and the two reads of words, at one register. *)
Lemma serve_bit srv r regs r' :
  registers srv !! RType r = Some regs → regs !! Addr r = Some r' → 0 ≤ Addr r < 65536 →
  ∃ size, let resp := sized_response size (BitsToBytes [coil_state (tags srv) r']) in
  (RType r = "coil" → run (readCoilRegisters (request (Addr r) 1 [])) srv = (srv, Returns resp)) ∧
  (RType r = "discrete" →
    run (readDiscreteRegisters (request (Addr r) 1 [])) srv = (srv, Returns resp)).
Proof.
  intros Hregs Hr Ha.
  assert (walk bit_step regs (Addr r + 1) (Addr r) [r'] true) as Hw by (apply walk_one; [lia|done..]).
  pose proof (uint16_at_request (Addr r) 1 [] Ha ltac:(lia)) as Hh.
  exists (Z.of_nat (length (BitsToBytes [coil_state (tags srv) r']))).
  intros resp. split; intros Hty; rewrite Hty in Hregs.
  - by rewrite (readCoilRegisters_spec _ _ _ _ _ _ _ Hregs Hh ltac:(lia) Hw).
  - by rewrite (readDiscreteRegisters_spec _ _ _ _ _ _ _ Hregs Hh ltac:(lia) Hw).
Qed.

Lemma serve_word srv r regs r' :
  registers srv !! RType r = Some regs → table_wf (RType r) regs → regs !! Addr r = Some r' →
  is_word_type (RType r) = true → 0 ≤ Addr r < 65536 → 1 ≤ Count r' ≤ 4 →
  run (read_words (RType r) (request (Addr r) (Count r') [])) srv
    = (srv, Returns (sized_response (2 * (Count r' + 0)) (encoding (tags srv) r' ++ []))).
Proof.
  intros Hregs Htw Hr Hw Ha Hc.
  assert (walk Count regs (Addr r + Count r') (Addr r) [r'] true) as Hwalk
    by (apply walk_one; [lia|done..]).
  by rewrite (read_words_spec (RType r) regs srv _ (Addr r) (Count r') [r'] true Hregs Htw Hw
    (uint16_at_request (Addr r) (Count r') [] Ha ltac:(lia)) ltac:(lia) Hwalk).
Qed.

(** *** Over a connection *)

Context {L : ModbusLib} `{!Connection L}.

Lemma wrap_u16 z : 0 ≤ z < 65536 → wrap U16 z = z.
Proof. intros Hz. apply wrap_id. split; unfold int_min, int_max; simpl; lia. Qed.

Lemma bit_types ty : is_bit_type ty = true → ty = "coil" ∨ ty = "discrete".
Proof. intros [?%String.eqb_eq|?%String.eqb_eq]%orb_true_iff; auto. Qed.

Lemma word_types ty : is_word_type ty = true → ty = "input" ∨ ty = "holding".
Proof. intros [?%String.eqb_eq|?%String.eqb_eq]%orb_true_iff; auto. Qed.

(** A call of the library that its law says answers [data]. *)
Lemma answered (x : Client * result (list Z)) o srv size data :
  o = (srv, Returns (sized_response size data)) → peer x.1 = o.1 ∧ x.2 = answer o.2 →
  ∃ c1, x = (c1, inl data) ∧ peer c1 = srv.
Proof. destruct x as [c1 ans]. simpl. intros -> [Hp ->]. eauto. Qed.

Lemma read_mirrored_bit c r :
  server_wf (peer c) → mirrored (peer c) r → is_bit_type (RType r) = true →
  ∃ c1 data, read_register r c = (c1, inl data) ∧ peer c1 = peer c ∧
    Value r data = Some (inl (reading (peer c) r)).
Proof.
  intros Hwf Hm Hb. destruct (mirrored_lookup _ _ Hwf Hm)
    as (regs & r' & Hregs & Hlk & Hmat & Htw & Hty & Hwf' & Hdt & Hsc).
  destruct Hm as (Hr & Ha & _). unfold reading. rewrite Hmat, Hb.
  destruct (serve_bit (peer c) r regs r' Hregs Hlk Ha) as [size [Hcoil Hdisc]].
  assert (∃ c1, read_register r c = (c1, inl (BitsToBytes [coil_state (tags (peer c)) r'])) ∧
    peer c1 = peer c) as (c1 & Hread & Hp).
  { unfold read_register. rewrite (wrap_u16 _ Ha).
    destruct (bit_types _ Hb) as [Ht|Ht]; rewrite Ht; simpl.
    - apply (answered _ _ _ _ _ (Hcoil Ht)), ReadCoils_peer; lia.
    - apply (answered _ _ _ _ _ (Hdisc Ht)), ReadDiscreteInputs_peer; lia. }
  exists c1, (BitsToBytes [coil_state (tags (peer c)) r']). split_and!; [done|done|].
  apply Value_bit; [done|]. apply one_bit, coil_state_bit.
Qed.

Lemma read_mirrored_word c r :
  server_wf (peer c) → mirrored (peer c) r → is_word_type (RType r) = true →
  ∃ c1 data, read_register r c = (c1, inl data) ∧ peer c1 = peer c ∧
    Value r data = Some (inl (reading (peer c) r)).
Proof.
  intros Hwf Hm Hw. destruct (mirrored_lookup _ _ Hwf Hm)
    as (regs & r' & Hregs & Hlk & Hmat & Htw & Hty & Hwf' & Hdt & Hsc).
  destruct Hm as (Hr & Ha & _). unfold reading. rewrite Hmat.
  destruct (is_bit_type (RType r)) eqn:Hb; [apply bit_not_word in Hb; congruence|].
  pose proof (count_alike r r' Hr Hwf' Hw Hty Hdt) as Hcnt.
  pose proof (word_format_count r (register_wf_format r Hr Hw)) as Hc.
  pose proof (serve_word (peer c) r regs r' Hregs Htw Hlk Hw Ha ltac:(lia)) as Hserve.
  rewrite app_nil_r, Hcnt in Hserve.
  assert (∃ c1, read_register r c = (c1, inl (encoding (tags (peer c)) r')) ∧ peer c1 = peer c)
    as (c1 & Hread & Hp).
  { unfold read_register. rewrite (wrap_u16 _ Ha), wrap_u16 by lia.
    destruct (word_types _ Hw) as [Ht|Ht]; rewrite Ht in Hserve |- *; simpl;
      apply (answered _ _ _ _ _ Hserve).
    - apply ReadInputRegisters_peer; lia.
    - apply ReadHoldingRegisters_peer; lia. }
  exists c1, (encoding (tags (peer c)) r'). split_and!; [done|done|].
  destruct (encoding_word (RType r) (tags (peer c)) regs _ _ Htw Hw Hlk) as [_ Hlen].
  apply decoded_word; [done|done|lia].
Qed.

(** A read of a mirrored register shows its reading and changes nothing. *)
Lemma read_mirrored c r :
  server_wf (peer c) → mirrored (peer c) r →
  ∃ c1 data, read_register r c = (c1, inl data) ∧ peer c1 = peer c ∧
    Value r data = Some (inl (reading (peer c) r)).
Proof.
  intros Hwf Hm. destruct (register_wf_bit_or_word r (proj1 Hm)) as [Hb|Hw];
    [by apply read_mirrored_bit|by apply read_mirrored_word].
Qed.

Definition readings (srv : ModbusServer) (order : list (string * Register)) : list Point :=
  map (λ tr, mk_Point tr.1 (reading srv tr.2) 0) order.

Lemma poll_mirrored srv order s c pts :
  server_wf srv → Forall (λ tr, mirrored srv tr.2) order → client s = Some c → peer c = srv →
  ∃ c', peer c' = srv ∧
    ModbusClient.poll_loop order pts s
      = (ModbusClient.set_client (Some c') s, Next (pts ++ readings srv order)).
Proof.
  intros Hwf Hall. revert s c pts. induction order as [|[tag r] order IH]; intros s c pts Hc Hp.
  { exists c. split; [done|]. rewrite app_nil_r. simpl. destruct s; simpl in *; by subst. }
  apply Forall_cons in Hall as [Hm Hall]. simpl in Hm. rewrite <- Hp in Hwf, Hm.
  destruct (read_mirrored c r Hwf Hm) as (c1 & data & Hread & Hp1 & Hv). rewrite Hp in Hv, Hp1, Hwf.
  destruct (IH Hall (ModbusClient.set_client (Some c1) s) c1
    (pts ++ [mk_Point tag (reading srv r) 0]) eq_refl Hp1) as (c2 & Hp2 & Hrun).
  exists c2. split; [done|]. cbn [ModbusClient.poll_loop]. go_unfold. rewrite Hc, Hread. simpl.
  rewrite Hv. go_unfold. rewrite Hrun. by rewrite <- app_assoc.
Qed.

(** A write of one point to a mirrored register: the effect on the server. *)
Definition stored (srv srv' : ModbusServer) (tag : string) (v : float64) : Prop :=
  tags srv' = <[tag := v]> (tags srv) ∧ registers srv' = registers srv ∧
  (publishable [mk_Point tag v 0] srv → ∃ env,
     NewEnvelope (name srv) (mk_Update [mk_Point tag v 0] "" "") = inl env ∧
     sent (pusher srv') = sent (pusher srv) ++ [("RUNTIME", BJson (MarshalEnvelope env))]).

Lemma write_effect_stored metric data count tag v srv srv' out :
  write_effect metric data count [mk_Point tag v 0] true srv srv' out →
  registers srv' = registers srv → stored srv srv' tag v.
Proof.
  intros [Ht _ _ Hd] Hr. split_and!; [done|done|]. intros Hp.
  destruct (Hd eq_refl (or_intror Hp)) as (_ & _ & _ & Hsent). by apply Hsent.
Qed.

Lemma conv_u16_coil v :
  let value := if negb (feqb v f64_0) then f64_of_Z 65280 else v in
  conv U16 value = if feqb v f64_0 then 0 else 65280.
Proof.
  cbv zeta. destruct (feqb v f64_0) eqn:E; cbn [negb];
    [|apply conv_of_Z; [done|split; by vm_compute]].
  by destruct v as [[]|[]| |[] m e].
Qed.

Lemma coil_bytes v :
  Value (mk_Register "coil" "" 0 0 0 "") (be_encode 2 (if feqb v f64_0 then 0 else 65280))
  = Some (inl (f64_of_Z (if feqb v f64_0 then 0 else 1))).
Proof. by destruct (feqb v f64_0). Qed.

Lemma write_mirrored_coil c r v :
  server_wf (peer c) → mirrored (peer c) r → RType r = "coil" →
  ∃ r', matching (peer c) r = Some r' ∧
    stored (peer c)
      (peer (ModbusClient.WriteSingleCoil (Addr r) (if feqb v f64_0 then 0 else 65280) c).1)
      (Tag r') (written r v).
Proof.
  intros Hwf Hm Ht. destruct (mirrored_lookup _ _ Hwf Hm)
    as (regs & r' & Hregs & Hlk & Hmat & Htw & Hty & Hwf' & Hdt & Hsc).
  destruct Hm as (Hr & Ha & _). exists r'. split; [done|]. rewrite Ht in *.
  set (val := if feqb v f64_0 then 0 else 65280).
  assert (0 ≤ val < 65536 ∧ (val = 0 ∨ val = 65280)) as [Hval Hval2]
    by (subst val; destruct (feqb v f64_0); lia).
  rewrite (WriteSingleCoil_peer _ _ _ Ha Hval2). unfold writeCoilRegister.
  destruct (uint16_at_request (Addr r) val [] Ha Hval) as [Haddr _].
  pose proof (write_single_effect "coil" "coil_writes_count" regs (peer c) (request (Addr r) val [])
    (Addr r) Hregs Htw Haddr ltac:(vm_compute; discriminate)) as Heff.
  rewrite Hlk in Heff.
  assert (take 2 (drop 2 (vis (request (Addr r) val []) ++ spare (request (Addr r) val []))) = be_encode 2 val)
    as Hseg by done. rewrite Hseg in Heff.
  assert (Value r' (be_encode 2 val) = Some (inl (written r v))) as Hv.
  { unfold written. rewrite Ht. simpl. rewrite <- coil_bytes. unfold Value. by rewrite Hty. }
  rewrite Hv in Heff. eapply write_effect_stored; [exact Heff|].
  by apply (handler_evolves 5 _ _ _ regs eq_refl Hregs).
Qed.

Lemma write_mirrored_holding c r v :
  server_wf (peer c) → mirrored (peer c) r → RType r = "holding" →
  ∃ r' bs, Bytes r v = inl bs ∧ matching (peer c) r = Some r' ∧
    stored (peer c) (peer (ModbusClient.WriteMultipleRegisters (Addr r) (Count r) bs c).1)
      (Tag r') (written r v).
Proof.
  intros Hwf Hm Ht. destruct (mirrored_lookup _ _ Hwf Hm)
    as (regs & r' & Hregs & Hlk & Hmat & Htw & Hty & Hwf' & Hdt & Hsc).
  destruct Hm as (Hr & Ha & _). exists r'.
  assert (is_word_type (RType r) = true) as Hw by (by rewrite Ht).
  destruct (Bytes_word r v Hr Hw) as (bs & Hbs & _ & Hlen). exists bs. split_and!; [done|done|].
  pose proof (count_alike r r' Hr Hwf' Hw Hty Hdt) as Hcnt.
  pose proof (word_format_count r (register_wf_format r Hr Hw)) as Hc.
  rewrite (WriteMultipleRegisters_peer _ _ _ _ Ha) by lia.
  rewrite Ht in *.
  pose proof (uint16_at_request (Addr r) (Count r) (2 * Count r :: bs) Ha ltac:(lia)) as Hh.
  assert (Hwalk : walk Count regs (Addr r + Count r) (Addr r) [r'] true) by (apply walk_one; [lia|done..]).
  pose proof (writeHoldingRegisters_effect regs (peer c) _ _ _ _ _ Hregs Htw Hh ltac:(lia) Hwalk) as Heff.
  set (data := request (Addr r) (Count r) (2 * Count r :: bs)) in *.
  assert (5 + 2 * words [r'] ≤ slice_cap data) as Hcap
    by (subst data; unfold words, slice_cap; simpl; rewrite app_nil_r; lia).
  assert (word_points [r'] (vis data ++ spare data) 5 = [mk_Point (Tag r') (written r v) 0]) as Hpts.
  { cbn [word_points]. do 2 f_equal. unfold segment, written. change (spare data) with (@nil Z).
    rewrite app_nil_r, Ht, Hbs. change (drop (Z.to_nat 5) (vis data)) with bs. rewrite take_ge by lia. unfold decoded. simpl.
    by rewrite (proj2 (codec_alike r r' (eq_trans Hty (eq_sym Ht)) Hdt Hsc)). }
  rewrite Hpts in Heff. eapply write_effect_stored; [apply Heff, Hcap|].
  by apply (handler_evolves 16 _ _ _ regs eq_refl Hregs).
Qed.

Lemma write_point_mirrored s c tag r v :
  client s = Some c → ModbusClient.registers s !! tag = Some r →
  server_wf (peer c) → mirrored (peer c) r → RType r = "coil" ∨ RType r = "holding" →
  ∃ c' r', ModbusClient.write_point (mk_Point tag v 0) s = (ModbusClient.set_client (Some c') s, Next ()) ∧
    matching (peer c) r = Some r' ∧ stored (peer c) (peer c') (Tag r') (written r v).
Proof.
  intros Hc Hreg Hwf Hm Hty. pose proof (proj1 Hm) as Hr. pose proof (proj1 (proj2 Hm)) as Ha.
  unfold ModbusClient.write_point. go_unfold. cbn [Point_Tag Point_Value]. rewrite Hreg, Hc.
  rewrite (wrap_u16 _ Ha). destruct Hty as [Ht|Ht]; rewrite Ht; cbn [String.eqb Ascii.eqb Bool.eqb].
  - destruct (write_mirrored_coil c r v Hwf Hm Ht) as (r' & Hmat & Hst).
    rewrite <- (conv_u16_coil v) in Hst. eexists _, r'. split; [reflexivity|]. by split.
  - destruct (write_mirrored_holding c r v Hwf Hm Ht) as (r' & bs & Hbs & Hmat & Hst).
    pose proof (word_format_count r (register_wf_format r Hr ltac:(by rewrite Ht))) as Hcnt.
    rewrite Hbs, (wrap_u16 (Count r)) by lia. by eexists _, r'.
Qed.

(** An update of one point by another module. *)
Lemma update_written s c tag r v sender env :
  client s = Some c → server_wf (peer c) →
  ModbusClient.registers s !! tag = Some r → mirrored (peer c) r →
  RType r = "coil" ∨ RType r = "holding" →
  sender ≠ ModbusClient.name s → valid64 v →
  carries sender (mk_Update [mk_Point tag v 0] "" "") env →
  ∃ c' r', run (handleMsgBusUpdate env) s = (ModbusClient.set_client (Some c') s, Returns ()) ∧
    matching (peer c) r = Some r' ∧ stored (peer c) (peer c') (Tag r') (written r v).
Proof.
  intros Hc Hwf Hreg Hm Hty Hs Hv Henv.
  destruct Henv as [HS Hu].
  destruct (write_point_mirrored s c tag r v Hc Hreg Hwf Hm Hty) as (c' & r' & Hw & Hmat & Hst).
  exists c', r'. split; [|done]. unfold run, handleMsgBusUpdate. go_unfold. rewrite HS, (Hu : Envelope_Update env = _).
  apply String.eqb_neq in Hs as ->. cbn [Updates range]. unfold mbind, go_bind. by rewrite Hw.
Qed.

(** ** Properties *)

(** C1: a client sees the server.  Connected to a server that is configured with
    the client's registers (at the same type and address, with the same data
    type and scaling), a period of the client reads every register, changes
    nothing on the server, and publishes the readings of all of them, in the
    order it met them, as connected: for a bit the state of the server's tag,
    for a word the value of the bytes the server encodes its tag in. *)
Theorem client_mirrors_server s c order :
  client s = Some c → server_wf (peer c) → order ≠ [] →
  Forall (λ tr, mirrored (peer c) tr.2) order →
  let r := run (poll order) s in
  r.2 = Returns () ∧ (∃ c', client r.1 = Some c' ∧ peer c' = peer c) ∧
  (finite_points (readings (peer c) order) →
   send_ok (ModbusClient.pusher s) (sends (ModbusClient.pusher s)) = true →
   ∃ env, NewEnvelope (ModbusClient.name s) (mk_Status (readings (peer c) order ++
            [mk_Point (ModbusClient.name s +:+ ".connected") f64_1 0])) = inl env ∧
     sent (ModbusClient.pusher r.1) =
       sent (ModbusClient.pusher s) ++ [("RUNTIME", BJson (MarshalEnvelope env))]).
Proof.
  intros Hc Hwf Hne Hall r. subst r.
  destruct (poll_mirrored (peer c) order s c [] Hwf Hall Hc eq_refl) as (c' & Hp & Hrun).
  unfold run, poll. erewrite bind_next by exact Hrun. go_unfold. simpl.
  unfold ModbusClient.connected. simpl.
  replace (0 <? length (readings (peer c) order))%nat with true by (by destruct order).
  set (st := mk_Status _).
  split; [by destruct (NewEnvelope _ _)|]. split; [exists c'; by destruct (NewEnvelope _ _)|].
  intros Hf Hok. destruct (NewEnvelope_ok (ModbusClient.name s) st) as [env Henv].
  { apply Forall_app. split; [exact Hf|]. by repeat constructor. }
  exists env. split; [exact Henv|]. rewrite Henv. simpl. by rewrite Push_spec, Hok.
Qed.

(** C2: an update reaches the server.  When another module sends the client an
    update of one of its coils or holding registers, the tag of the server's
    register takes the value, as it survives the encoding, no other tag
    changes, and the server publishes the same value as its own update. *)
Theorem update_reaches_server s c tag r v sender env :
  client s = Some c → server_wf (peer c) →
  ModbusClient.registers s !! tag = Some r → mirrored (peer c) r →
  RType r = "coil" ∨ RType r = "holding" →
  sender ≠ ModbusClient.name s → valid64 v →
  carries sender (mk_Update [mk_Point tag v 0] "" "") env →
  let out := run (handleMsgBusUpdate env) s in
  out.2 = Returns () ∧
  ∃ c' r', client out.1 = Some c' ∧ matching (peer c) r = Some r' ∧
    stored (peer c) (peer c') (Tag r') (written r v).
Proof.
  intros Hc Hwf Hreg Hm Hty Hs Hv Henv.
  destruct (update_written s c tag r v sender env Hc Hwf Hreg Hm Hty Hs Hv Henv) as (c' & r' & -> & Hmat & Hst).
  split; [done|]. by exists c', r'.
Qed.
End platform.

(** *** Examples *)

(** A library that hands every request to the handlers of [srv] at once. *)
Definition exchange (h : slice → handler) (data : slice) (c : ModbusServer)
  : ModbusServer * result (list Z) :=
  let r := run (h data) c in (r.1, answer r.2).

#[local] Instance wired (srv : ModbusServer) : ModbusLib := {|
  ModbusClient.Client := ModbusServer;
  ModbusClient.NewClient _ := srv;
  ModbusClient.ReadCoils a n := exchange readCoilRegisters (request a n []);
  ModbusClient.ReadDiscreteInputs a n := exchange readDiscreteRegisters (request a n []);
  ModbusClient.ReadInputRegisters a n := exchange (@readInputRegisters amd64) (request a n []);
  ModbusClient.ReadHoldingRegisters a n := exchange (@readHoldingRegisters amd64) (request a n []);
  ModbusClient.WriteSingleCoil a v := exchange (@writeCoilRegister amd64) (request a v []);
  ModbusClient.WriteMultipleRegisters a n data :=
    exchange (@writeHoldingRegisters amd64) (request a n (2 * n :: data));
|}.

#[local] Instance wired_connection srv : @Connection amd64 (wired srv).
Proof. refine {| peer := λ c : @Client (wired srv), (c : ModbusServer) |}; done. Defined.

Definition wired_client : @ModbusClient (wired example_server) := {|
  ModbusClient.pullEndpoint := "";
  ModbusClient.pubEndpoint := "";
  ModbusClient.pusher := mk_bus [] 0 (λ _, true);
  ModbusClient.client := Some (example_server : @Client (wired example_server));
  ModbusClient.name := "modbus-client";
  ModbusClient.id := 1;
  ModbusClient.endpoint := ":502";
  ModbusClient.serial := None;
  ModbusClient.period := 5000000000;
  ModbusClient.registers := {[ "plant.setpoint" := setpoint; "plant.b" := coil_register 1 "plant.b" ]};
|}.

Definition wired_order : list (string * Register) :=
  [("plant.b", coil_register 1 "plant.b"); ("plant.setpoint", setpoint)].

Lemma wired_mirrored : Forall (λ tr, mirrored example_server tr.2) wired_order.
Proof.
  repeat constructor; simpl; try done; try lia; by eexists.
Qed.

Lemma client_mirrors_server_witness :
  readings (H:=amd64) example_server wired_order
    = [mk_Point "plant.b" f64_1 0; mk_Point "plant.setpoint" (f64_of_Z (-42)) 0] ∧
  ∃ env, NewEnvelope "modbus-client" (mk_Status (readings (H:=amd64) example_server wired_order ++
      [mk_Point "modbus-client.connected" f64_1 0])) = inl env ∧
    sent (ModbusClient.pusher (run (@poll amd64 _ wired_order) wired_client).1)
      = [("RUNTIME", BJson (MarshalEnvelope env))].
Proof.
  split; [vm_compute; reflexivity|].
  destruct (@client_mirrors_server amd64 _ (wired_connection example_server) wired_client
    example_server wired_order eq_refl example_server_wf ltac:(done) wired_mirrored)
    as (_ & _ & Henv).
  destruct Henv as (env & He & Hs); [|reflexivity|].
  - repeat constructor.
  - exists env. split; [exact He|exact Hs].
Defined.

Lemma update_reaches_server_witness :
  ∃ env c', NewEnvelope "logic" (mk_Update [mk_Point "plant.setpoint" (f64_of_Z 7) 0] "" "") = inl env ∧
    client (run (@handleMsgBusUpdate amd64 _ (wire env)) wired_client).1 = Some c' ∧
    tags c' = <["setpoint" := f64_of_Z 7]> (tags example_server).
Proof.
  destruct (NewEnvelope "logic" (mk_Update [mk_Point "plant.setpoint" (f64_of_Z 7) 0] "" ""))
    as [env|e] eqn:Henv; [|discriminate Henv].
  exists env.
  destruct (@update_reaches_server amd64 _ (wired_connection example_server) wired_client
    example_server "plant.setpoint" setpoint (f64_of_Z 7) "logic" (wire env) eq_refl example_server_wf eq_refl
    (proj1 (proj1 (Forall_cons _ _ _) (proj2 (proj1 (Forall_cons _ _ _) wired_mirrored))))
    (or_intror eq_refl) ltac:(done) eq_refl (update_arrives "logic" "plant.setpoint" (f64_of_Z 7) env eq_refl Henv))
    as (_ & c' & r' & Hc & Hm & Ht & _).
  exists c'. split; [done|]. split; [exact Hc|]. etransitivity; [exact Ht|].
  vm_compute in Hm. injection Hm as <-. reflexivity.
Defined.
