(* ===== verification/SunSpecRegister.v ===== *)
(** * sunspec/common: registers of SunSpec models

    A register holds one point of a SunSpec model: its data type, the number of
    16-bit words it takes, its scaling, and the value it has when no tag of the
    message bus stands for it.  [Bytes] makes the words a server answers, [Value]
    and [String] read the words a client got.  ([common/register.go],
    [common/common.go], [common/schema.go]) *)

From S2P Require Import Prelude GoFloat GoText GoBytes.
From stdpp Require Import pretty.
From Stdlib Require Import Ascii.
#[local] Open Scope Z_scope.

(** A value of type [any], as far as the handlers pass it around. *)
Inductive any := ANil | AFloat (f : float64) | AString (s : string).

Record Register := mk_Register {
  DataType : string;
  Name : string;
  Model : Z;
  Count : Z;
  Scaling : float64;
  Tag : string;
  ScaleRegister : string;
  InternalValue : float64;
  InternalString : string;
  Raw : option (list Z);
  Addr : Z;
}.

(** [&common.Register{DataType: dt, Name: name, Model: id}] *)
Definition new_Register (dt name : string) (id : Z) : Register :=
  mk_Register dt name id 0 f64_0 "" "" f64_0 "" None 0.

Definition set_Count (v : Z) (r : Register) : Register :=
  mk_Register (DataType r) (Name r) (Model r) v (Scaling r) (Tag r) (ScaleRegister r)
    (InternalValue r) (InternalString r) (Raw r) (Addr r).
Definition set_Scaling (v : float64) (r : Register) : Register :=
  mk_Register (DataType r) (Name r) (Model r) (Count r) v (Tag r) (ScaleRegister r)
    (InternalValue r) (InternalString r) (Raw r) (Addr r).
Definition set_Tag (v : string) (r : Register) : Register :=
  mk_Register (DataType r) (Name r) (Model r) (Count r) (Scaling r) v (ScaleRegister r)
    (InternalValue r) (InternalString r) (Raw r) (Addr r).
Definition set_ScaleRegister (v : string) (r : Register) : Register :=
  mk_Register (DataType r) (Name r) (Model r) (Count r) (Scaling r) (Tag r) v
    (InternalValue r) (InternalString r) (Raw r) (Addr r).
Definition set_InternalValue (v : float64) (r : Register) : Register :=
  mk_Register (DataType r) (Name r) (Model r) (Count r) (Scaling r) (Tag r) (ScaleRegister r)
    v (InternalString r) (Raw r) (Addr r).
Definition set_InternalString (v : string) (r : Register) : Register :=
  mk_Register (DataType r) (Name r) (Model r) (Count r) (Scaling r) (Tag r) (ScaleRegister r)
    (InternalValue r) v (Raw r) (Addr r).
Definition set_Raw (v : list Z) (r : Register) : Register :=
  mk_Register (DataType r) (Name r) (Model r) (Count r) (Scaling r) (Tag r) (ScaleRegister r)
    (InternalValue r) (InternalString r) (Some v) (Addr r).
Definition set_Addr (v : Z) (r : Register) : Register :=
  mk_Register (DataType r) (Name r) (Model r) (Count r) (Scaling r) (Tag r) (ScaleRegister r)
    (InternalValue r) (InternalString r) (Raw r) v.

Definition one_of (l : list string) (s : string) : bool := existsb (String.eqb s) l.

(** The switch of [Init]. *)
Definition data_type_count (dt : string) : option Z :=
  if one_of ["acc16"; "bitfield16"; "enum16"; "int16"; "pad"; "sunssf"; "uint16"] dt then Some 1
  else if one_of ["acc32"; "bitfield32"; "enum32"; "float32"; "int32"; "uint32"] dt then Some 2
  else if String.eqb dt "acc64" then Some 4
  else if String.eqb dt "string8" then Some 8
  else if String.eqb dt "string16" then Some 16
  else None.

Definition Init (this : Register) : result Register :=
  match data_type_count (DataType this) with
  | None => inr (Errorf "unknown data type %s")
  | Some n => inl (set_Scaling (SFabs (Scaling this)) (set_Count n this))
  end.

(** The integer data types of the switches of [Bytes] and [Value]: the Go type
    and whether the value is scaled. *)
Definition int_format (dt : string) : option (int_kind * bool) :=
  if one_of ["acc16"; "uint16"] dt then Some (U16, true)
  else if one_of ["acc32"; "uint32"] dt then Some (U32, true)
  else if String.eqb dt "acc64" then Some (U64, true)
  else if one_of ["bitfield16"; "enum16"] dt then Some (U16, false)
  else if one_of ["bitfield32"; "enum32"] dt then Some (U32, false)
  else if String.eqb dt "int16" then Some (I16, true)
  else if String.eqb dt "int32" then Some (I32, true)
  else if one_of ["pad"; "sunssf"] dt then Some (I16, false)
  else None.

(** The size of the array a string is copied to. *)
Definition string_size (dt : string) : option nat :=
  if String.eqb dt "string8" then Some 16%nat
  else if String.eqb dt "string16" then Some 32%nat
  else None.

(** [var buf [n]byte; copy(buf[:], s)] *)
Definition copy_string (n : nat) (s : string) : list Z :=
  let bs := take n (bytes_of s) in bs ++ replicate (n - length bs) 0.

Section platform.
Context `{GoPlatform}.

Definition power (this : Register) (scaling : float64) (up : bool) : float64 :=
  let s := if feqb scaling f64_0 then Scaling this else scaling in
  math_Pow10 (if up then s else SFopp s).

(** The type assertion on [value] panics when the data type wants another type;
    [binary.Write] panics on the nil [v] that an unknown data type leaves. *)
Definition Bytes (this : Register) (value : any) (scaling : float64) : outcome (result (list Z)) :=
  let value :=
    match value with
    | ANil => if one_of ["string8"; "string16"] (DataType this)
              then AString (InternalString this) else AFloat (InternalValue this)
    | v => v
    end in
  match int_format (DataType this), string_size (DataType this) with
  | Some (k, scaled), _ =>
    match value with
    | AFloat f =>
      let v := if scaled then fmul f (power this scaling false) else f in
      Returns (inl (write_int k (conv k v)))
    | _ => Panics PanicTypeAssert
    end
  | None, Some n =>
    match value with
    | AString s => Returns (inl (copy_string n s))
    | _ => Panics PanicTypeAssert
    end
  | None, None =>
    if String.eqb (DataType this) "float32" then
      match value with
      | AFloat f => Returns (inl (write_f32 (f32_of_f64 f)))
      | _ => Panics PanicTypeAssert
      end
    else Panics PanicNil
  end.

(** [None] is the nil slice. *)
Definition Value (this : Register) (data : option (list Z)) (scaling : float64) : result float64 :=
  match data with
  | None => inl (InternalValue this)
  | Some data =>
    match int_format (DataType this) with
    | Some (k, scaled) =>
      try value := read_int k data in
      inl (if scaled then fmul (f64_of_Z value) (power this scaling true) else f64_of_Z value)
    | None =>
      if String.eqb (DataType this) "float32" then
        try value := read_f32 data in inl (f64_of_f32 value)
      else inr (Errorf "%s is not a value register")
    end
  end.
End platform.

(** [Register.String] *)
Definition String_ (this : Register) (data : option (list Z)) : result string :=
  match data with
  | None => inl (InternalString this)
  | Some data =>
    if one_of ["string8"; "string16"] (DataType this) then inl (string_of data)
    else inr (Errorf "not a string register")
  end.

(** ** common.go: the registers that frame the models, after [init] *)

Definition SunSpecIdentifier : float64 := f64_of_Z 1400204883.

Definition init_register (r : Register) : Register :=
  match Init r with inl r' => r' | inr _ => r end.

Definition IdentifierRegister : Register :=
  init_register (set_InternalValue SunSpecIdentifier (new_Register "uint32" "SunSpec_Identifier" 0)).
Definition EndRegister : Register :=
  init_register (set_InternalValue (f64_of_Z 65535) (new_Register "uint16" "SunSpec_EndRegister" 0)).
Definition EndRegisterLength : Register :=
  init_register (set_InternalValue f64_0 (new_Register "uint16" "SunSpec_EndRegister_Length" 0)).

(** ** schema.go: the models

    What the server and the client use of a model, as an interface: the points of
    its group, of which a scale factor is whatever value the model has.  [Schema]
    reads the models from the files of the program. *)
Inductive scale_factor :=
| SfNil
| SfInt (z : Z)
| SfFloat (f : float64)
| SfString (s : string)
| SfOther.

Record SchemaPoint := mk_SchemaPoint {
  PName : string;
  PType : string;
  Size : Z;
  Sf : scale_factor;
  Access : string;
}.

Class Schemas := { GetModelSchema : Z → result (list SchemaPoint) }.

(** The sizes of all the points but the first two. *)
Definition GetModelLength (points : list SchemaPoint) : Z :=
  foldl (λ length p, length + Size p) 0 (drop 2 points).

(** The data type of a point: strings carry their size. *)
Definition point_data_type (p : SchemaPoint) : string :=
  if String.eqb (PType p) "string" then "string" +:+ pretty (Size p) else PType p.

(** ** Specification vocabulary *)

(** What [Init] establishes. *)
Definition register_wf (r : Register) : Prop := data_type_count (DataType r) = Some (Count r).

(** The three families of data types. *)
Inductive data_format (dt : string) (n : Z) : Prop :=
| format_int k scaled :
    int_format dt = Some (k, scaled) → string_size dt = None → 2 * n = Z.of_nat (int_bytes k) →
    data_format dt n
| format_float : dt = "float32" → n = 2 → data_format dt n
| format_string m :
    int_format dt = None → string_size dt = Some m → one_of ["string8"; "string16"] dt = true →
    2 * n = Z.of_nat m → data_format dt n.

(** A value the data type can hold. *)
Definition fits (r : Register) (v : any) : Prop :=
  match v with
  | ANil => True
  | AFloat _ => string_size (DataType r) = None
  | AString _ => string_size (DataType r) ≠ None
  end.

(** ** Lemmas *)

Definition data_types : list string :=
  ["acc16"; "bitfield16"; "enum16"; "int16"; "pad"; "sunssf"; "uint16";
   "acc32"; "bitfield32"; "enum32"; "float32"; "int32"; "uint32"; "acc64"; "string8"; "string16"].

Lemma one_of_In l s : one_of l s = true ↔ In s l.
Proof.
  unfold one_of. rewrite existsb_exists. split.
  - intros (x & Hx & ->%String.eqb_eq). done.
  - intros Hs. exists s. by rewrite String.eqb_refl.
Qed.

Lemma data_type_known dt n : data_type_count dt = Some n → In dt data_types.
Proof.
  unfold data_type_count. intros Hn.
  destruct (one_of ["acc16"; _; _; _; _; _; _] dt) eqn:H1.
  { apply one_of_In in H1. apply (List.in_or_app [_;_;_;_;_;_;_]). by left. }
  destruct (one_of ["acc32"; _; _; _; _; _] dt) eqn:H2.
  { apply one_of_In in H2. apply (List.in_or_app [_;_;_;_;_;_;_]). right.
    apply (List.in_or_app [_;_;_;_;_;_]). by left. }
  unfold data_types.
  destruct (String.eqb_spec dt "acc64") as [->|]; [simpl; tauto|].
  destruct (String.eqb_spec dt "string8") as [->|]; [simpl; tauto|].
  destruct (String.eqb_spec dt "string16") as [->|]; [simpl; tauto|done].
Qed.

Lemma data_type_format dt n : data_type_count dt = Some n → data_format dt n.
Proof.
  intros Hn. pose proof (data_type_known dt n Hn) as Hin. unfold data_types in Hin. simpl in Hin.
  repeat destruct Hin as [Hin|Hin]; [..|done]; subst dt; injection Hn as <-;
    first [ eapply format_int; reflexivity
          | by apply format_float
          | eapply format_string; reflexivity ].
Qed.

Lemma data_type_count_range dt n : data_type_count dt = Some n → 1 ≤ n ≤ 16.
Proof.
  intros Hn. destruct (data_type_format dt n Hn) as [k sc _ _ Hk|_ ->|m _ Hm _ Hk]; [|lia|].
  - destruct k; simpl in Hk; lia.
  - unfold string_size in Hm. repeat case_match; simplify_eq; lia.
Qed.

Lemma copy_string_length n s : length (copy_string n s) = n.
Proof. unfold copy_string. rewrite length_app, length_replicate, length_take. lia. Qed.

Lemma bytes_of_byte s : Forall is_byte (bytes_of s).
Proof.
  unfold bytes_of. apply Forall_forall. intros b (c & <- & _)%list_elem_of_In%in_map_iff.
  unfold code, is_byte. pose proof (N_ascii_bounded c). lia.
Qed.

Lemma copy_string_byte n s : Forall is_byte (copy_string n s).
Proof.
  unfold copy_string. apply Forall_app. split; [apply Forall_take, bytes_of_byte|].
  apply Forall_replicate_intro. unfold is_byte. lia.
Qed.

Section laws.
Context `{GoPlatform}.

Lemma sunspec_Init_wf r r' : Init r = inl r' → register_wf r'.
Proof. unfold Init, register_wf. destruct (data_type_count _) eqn:E; [|done]. by intros [= <-]. Qed.

Lemma Bytes_fits r v sc :
  register_wf r → fits r v →
  ∃ bs, Bytes r v sc = Returns (inl bs) ∧ Forall is_byte bs ∧ Z.of_nat (length bs) = 2 * Count r.
Proof.
  intros Hwf Hv. unfold Bytes, fits in *.
  destruct (data_type_format _ _ Hwf) as [k scaled Hi Hs Hn|Hd Hn|m Hi Hs Ho Hn].
  - rewrite Hi. assert (one_of ["string8"; "string16"] (DataType r) = false) as Hno.
    { unfold string_size in Hs. simpl. destruct (String.eqb (DataType r) "string8"); [done|].
      by destruct (String.eqb (DataType r) "string16"). }
    destruct v as [|f|s]; [rewrite Hno| |by rewrite Hs in Hv];
      (eexists; split; [done|]; split; [apply be_encode_byte|]);
      unfold write_int; rewrite be_encode_length; lia.
  - rewrite Hd in Hv |- *. rewrite Hn. simpl in *.
    destruct v as [|f|s]; [..|done]; (eexists; split; [done|]; split; [apply be_encode_byte|]);
      unfold write_f32; by rewrite be_encode_length.
  - rewrite Hi, Hs. destruct v as [|f|s]; [rewrite Ho|by rewrite Hs in Hv|];
      (eexists; split; [done|]; split; [apply copy_string_byte|]); by rewrite copy_string_length.
Qed.

Lemma Value_enough r data sc :
  register_wf r → string_size (DataType r) = None → 2 * Count r ≤ Z.of_nat (length data) →
  ∃ v, Value r (Some data) sc = inl v.
Proof.
  intros Hwf Hs Hl. unfold Value, read_int, read_f32.
  destruct (data_type_format _ _ Hwf) as [k scaled Hi _ Hn|Hd Hn|m Hi Hs' Ho Hn]; [..|congruence].
  - rewrite Hi, read_full_ok by lia. by eexists.
  - rewrite Hd, Hn in *. simpl. rewrite read_full_ok by lia. by eexists.
Qed.

Lemma sunspec_Value_short r data sc :
  register_wf r → Z.of_nat (length data) < 2 * Count r → ∃ e, Value r (Some data) sc = inr e.
Proof.
  intros Hwf Hl. unfold Value, read_int, read_f32.
  destruct (data_type_format _ _ Hwf) as [k scaled Hi _ Hn|Hd Hn|m Hi Hs' Ho Hn].
  - rewrite Hi. destruct (read_full_short data (int_bytes k)) as [e ->]; [lia|by eexists].
  - rewrite Hd, Hn in *. simpl. destruct (read_full_short data 4) as [e ->]; [lia|by eexists].
  - rewrite Hi. destruct (String.eqb_spec (DataType r) "float32") as [E|]; [by rewrite E in Hs'|].
    by eexists.
Qed.

Lemma Value_string r data sc :
  string_size (DataType r) ≠ None → register_wf r → ∃ e, Value r (Some data) sc = inr e.
Proof.
  intros Hs Hwf. unfold Value.
  destruct (data_type_format _ _ Hwf) as [k scaled Hi Hs' Hn|Hd Hn|m Hi Hs' Ho Hn]; [done|by rewrite Hd in Hs|].
  rewrite Hi. destruct (String.eqb_spec (DataType r) "float32") as [E|]; [by rewrite E in Hs'|].
  by eexists.
Qed.

(** Unscaled values. *)
Definition unscaled (r : Register) (scaled : bool) : Prop := scaled = false ∨ Scaling r = f64_0.

Lemma power_0 r up : Scaling r = f64_0 → power r f64_0 up = f64_1.
Proof. intros Hs. unfold power. rewrite Hs. simpl. destruct up; apply math_Pow10_0. Qed.

Lemma Bytes_int r k scaled z :
  int_format (DataType r) = Some (k, scaled) → unscaled r scaled →
  Z.abs z < 2 ^ 53 → in_range k z →
  Bytes r (AFloat (f64_of_Z z)) f64_0 = Returns (inl (write_int k z)).
Proof.
  intros Hi Hu Hz Hr. unfold Bytes. rewrite Hi.
  destruct scaled; [destruct Hu as [?|Hu]; [done|]; rewrite (power_0 r false Hu), fmul_1_r
    by (by apply f64_of_Z_valid)|]; by rewrite conv_of_Z.
Qed.

Lemma Value_int r k scaled z rest :
  int_format (DataType r) = Some (k, scaled) → unscaled r scaled →
  Z.abs z < 2 ^ 53 → in_range k z →
  Value r (Some (write_int k z ++ rest)) f64_0 = inl (f64_of_Z z).
Proof.
  intros Hi Hu Hz Hr. unfold Value. rewrite Hi, (read_write_int k z rest Hr). simpl.
  destruct scaled; [destruct Hu as [?|Hu]; [done|]; rewrite (power_0 r true Hu), fmul_1_r
    by (by apply f64_of_Z_valid)|]; done.
Qed.
End laws.

(** ** Properties *)

(** C22: the codec of SunSpec registers.  A register that [Init] accepts encodes
    every value its data type can hold in its count of words and panics on a
    value of the other kind; a number register decodes any data that is long
    enough, a string register none; and a number that is not scaled and fits the
    data type comes back from its own encoding unchanged. *)
Theorem sunspec_codec `{GoPlatform} r0 r :
  Init r0 = inl r →
  (∀ v sc, fits r v →
     ∃ bs, Bytes r v sc = Returns (inl bs) ∧ Z.of_nat (length bs) = 2 * Count r) ∧
  (∀ v sc, ¬ fits r v → Bytes r v sc = Panics PanicTypeAssert) ∧
  (∀ data sc, (∃ v, Value r (Some data) sc = inl v) ↔
     string_size (DataType r) = None ∧ 2 * Count r ≤ Z.of_nat (length data)) ∧
  (∀ k scaled z rest, int_format (DataType r) = Some (k, scaled) → unscaled r scaled →
     Z.abs z < 2 ^ 53 → in_range k z →
     ∃ bs, Bytes r (AFloat (f64_of_Z z)) f64_0 = Returns (inl bs) ∧
       Value r (Some (bs ++ rest)) f64_0 = inl (f64_of_Z z)) ∧
  (∀ f rest, DataType r = "float32" → valid32 f → is_nan f = false →
     ∃ bs, Bytes r (AFloat (f64_of_f32 f)) f64_0 = Returns (inl bs) ∧
       Value r (Some (bs ++ rest)) f64_0 = inl (f64_of_f32 f)).
Proof.
  intros Hi%sunspec_Init_wf. split_and!.
  - intros v sc Hv. destruct (Bytes_fits r v sc Hi Hv) as (bs & ? & _ & ?). eauto.
  - intros v sc Hv. unfold Bytes, fits in *.
    destruct (data_type_format _ _ Hi) as [k scaled Hf Hs _|Hd _|m Hf Hs _ _].
    + rewrite Hf. destruct v; [by destruct Hv|by destruct Hv|done].
    + rewrite Hd in Hv |- *. destruct v; [by destruct Hv|by destruct Hv|done].
    + rewrite Hf, Hs. destruct v; [by destruct Hv|done|]. destruct Hv. by rewrite Hs.
  - intros data sc. split; [|by intros [? ?]; apply Value_enough]. intros [v Hv].
    destruct (string_size (DataType r)) eqn:Hs.
    + destruct (Value_string r data sc) as [e He]; [by rewrite Hs|done|congruence].
    + split; [done|]. destruct (Z.le_gt_cases (2 * Count r) (Z.of_nat (length data))); [done|].
      destruct (sunspec_Value_short r data sc Hi) as [e He]; [lia|congruence].
  - intros k scaled z rest Hf Hu Hz Hr. exists (write_int k z).
    split; [by apply (Bytes_int r k scaled)|by apply (Value_int r k scaled)].
  - intros f rest Hd Hv Hn. unfold Bytes, Value. rewrite Hd. simpl. eexists. split; [done|].
    rewrite f32_roundtrip by done. by rewrite read_write_f32.
Qed.

Lemma sunspec_codec_witness :
  ∃ r bs, Init (new_Register "acc32" "WH" 103) = inl r ∧
    @Bytes amd64 r (AFloat (f64_of_Z 70000)) f64_0 = Returns (inl bs) ∧
    @Value amd64 r (Some (bs ++ [9])) f64_0 = inl (f64_of_Z 70000).
Proof.
  destruct (Init (new_Register "acc32" "WH" 103)) as [r|e] eqn:Hi; [|done].
  destruct (@sunspec_codec amd64 _ r Hi) as (_ & _ & _ & Hint & _).
  injection Hi as <-.
  destruct (Hint U32 true 70000 [9] eq_refl (or_intror eq_refl) ltac:(lia) ltac:(by split))
    as (bs & Hb & Hv).
  exists (set_Scaling f64_0 (set_Count 2 (new_Register "acc32" "WH" 103))), bs.
  split; [reflexivity|]. split; [exact Hb|exact Hv].
Defined.
