(* ===== verification/Schema.v ===== *)
(** * sunspec/common: the model files

    The models of SunSpec are JSON files embedded in the program.  Their types come
    with methods [UnmarshalJSON] that check what a file says: members that have to
    be there, the words of an enumeration, the range of the number of a model; what
    is missing gets a default.  [GetModelSchema] reads a file; what the server and
    the client use of it is the interface [Schemas], which it is an instance of.
    ([common/types.go], [common/schema.go]) *)

From S2P Require Import Prelude GoFloat Json JsonMethods SunSpecRegister.
From stdpp Require Import pretty.
#[local] Open Scope Z_scope.

(** ** types.go: enumerations *)

Definition enum_UnmarshalJSON (enumValues : list string) (j : json) : result string :=
  match d_string j "" with
  | (_, Some e) => inr e
  | (v, None) =>
      if one_of enumValues v then inl v
      else inr (Errorf "invalid value (expected one of %#v): %#v")
  end.

Definition GroupType := string.
Definition enumValues_GroupType : list string := ["group"; "sync"].
Definition GroupType_UnmarshalJSON : json → result GroupType :=
  enum_UnmarshalJSON enumValues_GroupType.

Definition PointAccess := string.
Definition enumValues_PointAccess : list string := ["R"; "RW"].
Definition PointAccess_UnmarshalJSON : json → result PointAccess :=
  enum_UnmarshalJSON enumValues_PointAccess.

Definition PointMandatory := string.
Definition enumValues_PointMandatory : list string := ["M"; "O"].
Definition PointMandatory_UnmarshalJSON : json → result PointMandatory :=
  enum_UnmarshalJSON enumValues_PointMandatory.

Definition PointStatic := string.
Definition enumValues_PointStatic : list string := ["D"; "S"].
Definition PointStatic_UnmarshalJSON : json → result PointStatic :=
  enum_UnmarshalJSON enumValues_PointStatic.

Definition PointType := string.
Definition enumValues_PointType : list string :=
  ["int16"; "int32"; "int64"; "raw16"; "uint16"; "uint32"; "uint64"; "acc16"; "acc32"; "acc64";
   "bitfield16"; "bitfield32"; "bitfield64"; "enum16"; "enum32"; "float32"; "float64"; "string";
   "sf"; "pad"; "ipaddr"; "ipv6addr"; "eui48"; "sunssf"; "count"].
Definition PointType_UnmarshalJSON : json → result PointType :=
  enum_UnmarshalJSON enumValues_PointType.

(** ** Symbols *)

Record Symbol := mk_Symbol {
  Symbol_Comments : list string;
  Symbol_Desc : option string;
  Symbol_Detail : option string;
  Symbol_Label : option string;
  Symbol_Name : string;
  Symbol_Notes : option string;
  Symbol_Value : value;
}.

Definition zero_Symbol : Symbol := mk_Symbol [] None None None "" None VNull.

Definition set_Symbol_Comments (v : list string) (x : Symbol) : Symbol :=
  let 'mk_Symbol _ b c d e f g := x in
  mk_Symbol v b c d e f g.
Definition set_Symbol_Desc (v : option string) (x : Symbol) : Symbol :=
  let 'mk_Symbol a _ c d e f g := x in
  mk_Symbol a v c d e f g.
Definition set_Symbol_Detail (v : option string) (x : Symbol) : Symbol :=
  let 'mk_Symbol a b _ d e f g := x in
  mk_Symbol a b v d e f g.
Definition set_Symbol_Label (v : option string) (x : Symbol) : Symbol :=
  let 'mk_Symbol a b c _ e f g := x in
  mk_Symbol a b c v e f g.
Definition set_Symbol_Name (v : string) (x : Symbol) : Symbol :=
  let 'mk_Symbol a b c d _ f g := x in
  mk_Symbol a b c d v f g.
Definition set_Symbol_Notes (v : option string) (x : Symbol) : Symbol :=
  let 'mk_Symbol a b c d e _ g := x in
  mk_Symbol a b c d e v g.
Definition set_Symbol_Value (v : value) (x : Symbol) : Symbol :=
  let 'mk_Symbol a b c d e f _ := x in
  mk_Symbol a b c d e f v.

Definition Symbol_fields : list (string * undec Symbol) :=
  [("comments", u_field (saves (d_slice d_string "")) Symbol_Comments set_Symbol_Comments);
   ("desc", u_field (saves (d_ptr d_string "")) Symbol_Desc set_Symbol_Desc);
   ("detail", u_field (saves (d_ptr d_string "")) Symbol_Detail set_Symbol_Detail);
   ("label", u_field (saves (d_ptr d_string "")) Symbol_Label set_Symbol_Label);
   ("name", u_field (saves d_string) Symbol_Name set_Symbol_Name);
   ("notes", u_field (saves (d_ptr d_string "")) Symbol_Notes set_Symbol_Notes);
   ("value", u_field (saves d_value) Symbol_Value set_Symbol_Value)].

Definition Symbol_UnmarshalJSON : json → result Symbol :=
  unmarshal_struct "Symbol" ["name"; "value"] Symbol_fields zero_Symbol (λ _ plain, plain).

(** ** Points *)

Record Point := mk_Point {
  Point_Access : PointAccess;
  Point_Comments : list string;
  Point_Count : option Z;
  Point_Desc : option string;
  Point_Detail : option string;
  Point_Label : option string;
  Point_Mandatory : PointMandatory;
  Point_Name : string;
  Point_Notes : option string;
  Point_Sf : value;
  Point_Size : Z;
  Point_Static : PointStatic;
  Point_Symbols : list Symbol;
  Point_Type : PointType;
  Point_Units : option string;
  Point_Value : value;
}.

Definition zero_Point : Point := mk_Point "" [] None None None None "" "" None VNull 0 "" [] ""
  None VNull.

Definition set_Point_Access (v : PointAccess) (x : Point) : Point :=
  let 'mk_Point _ b c d e f g h i j k l m n o p := x in
  mk_Point v b c d e f g h i j k l m n o p.
Definition set_Point_Comments (v : list string) (x : Point) : Point :=
  let 'mk_Point a _ c d e f g h i j k l m n o p := x in
  mk_Point a v c d e f g h i j k l m n o p.
Definition set_Point_Count (v : option Z) (x : Point) : Point :=
  let 'mk_Point a b _ d e f g h i j k l m n o p := x in
  mk_Point a b v d e f g h i j k l m n o p.
Definition set_Point_Desc (v : option string) (x : Point) : Point :=
  let 'mk_Point a b c _ e f g h i j k l m n o p := x in
  mk_Point a b c v e f g h i j k l m n o p.
Definition set_Point_Detail (v : option string) (x : Point) : Point :=
  let 'mk_Point a b c d _ f g h i j k l m n o p := x in
  mk_Point a b c d v f g h i j k l m n o p.
Definition set_Point_Label (v : option string) (x : Point) : Point :=
  let 'mk_Point a b c d e _ g h i j k l m n o p := x in
  mk_Point a b c d e v g h i j k l m n o p.
Definition set_Point_Mandatory (v : PointMandatory) (x : Point) : Point :=
  let 'mk_Point a b c d e f _ h i j k l m n o p := x in
  mk_Point a b c d e f v h i j k l m n o p.
Definition set_Point_Name (v : string) (x : Point) : Point :=
  let 'mk_Point a b c d e f g _ i j k l m n o p := x in
  mk_Point a b c d e f g v i j k l m n o p.
Definition set_Point_Notes (v : option string) (x : Point) : Point :=
  let 'mk_Point a b c d e f g h _ j k l m n o p := x in
  mk_Point a b c d e f g h v j k l m n o p.
Definition set_Point_Sf (v : value) (x : Point) : Point :=
  let 'mk_Point a b c d e f g h i _ k l m n o p := x in
  mk_Point a b c d e f g h i v k l m n o p.
Definition set_Point_Size (v : Z) (x : Point) : Point :=
  let 'mk_Point a b c d e f g h i j _ l m n o p := x in
  mk_Point a b c d e f g h i j v l m n o p.
Definition set_Point_Static (v : PointStatic) (x : Point) : Point :=
  let 'mk_Point a b c d e f g h i j k _ m n o p := x in
  mk_Point a b c d e f g h i j k v m n o p.
Definition set_Point_Symbols (v : list Symbol) (x : Point) : Point :=
  let 'mk_Point a b c d e f g h i j k l _ n o p := x in
  mk_Point a b c d e f g h i j k l v n o p.
Definition set_Point_Type (v : PointType) (x : Point) : Point :=
  let 'mk_Point a b c d e f g h i j k l m _ o p := x in
  mk_Point a b c d e f g h i j k l m v o p.
Definition set_Point_Units (v : option string) (x : Point) : Point :=
  let 'mk_Point a b c d e f g h i j k l m n _ p := x in
  mk_Point a b c d e f g h i j k l m n v p.
Definition set_Point_Value (v : value) (x : Point) : Point :=
  let 'mk_Point a b c d e f g h i j k l m n o _ := x in
  mk_Point a b c d e f g h i j k l m n o v.

Definition Point_fields : list (string * undec Point) :=
  [("access", u_field (calls PointAccess_UnmarshalJSON) Point_Access set_Point_Access);
   ("comments", u_field (saves (d_slice d_string "")) Point_Comments set_Point_Comments);
   ("count", u_field (saves (d_ptr d_int 0)) Point_Count set_Point_Count);
   ("desc", u_field (saves (d_ptr d_string "")) Point_Desc set_Point_Desc);
   ("detail", u_field (saves (d_ptr d_string "")) Point_Detail set_Point_Detail);
   ("label", u_field (saves (d_ptr d_string "")) Point_Label set_Point_Label);
   ("mandatory", u_field (calls PointMandatory_UnmarshalJSON) Point_Mandatory set_Point_Mandatory);
   ("name", u_field (saves d_string) Point_Name set_Point_Name);
   ("notes", u_field (saves (d_ptr d_string "")) Point_Notes set_Point_Notes);
   ("sf", u_field (saves d_value) Point_Sf set_Point_Sf);
   ("size", u_field (saves d_int) Point_Size set_Point_Size);
   ("static", u_field (calls PointStatic_UnmarshalJSON) Point_Static set_Point_Static);
   ("symbols", u_field (u_slice (calls Symbol_UnmarshalJSON) zero_Symbol) Point_Symbols set_Point_Symbols);
   ("type", u_field (calls PointType_UnmarshalJSON) Point_Type set_Point_Type);
   ("units", u_field (saves (d_ptr d_string "")) Point_Units set_Point_Units);
   ("value", u_field (saves d_value) Point_Value set_Point_Value)].

(** The defaults: [if v, ok := raw["access"]; !ok || v == nil { plain.Access = "R" }]. *)
Definition Point_defaults (raw : option (gmap string value)) (plain : Point) : Point :=
  let plain := if absent raw "access" then set_Point_Access "R" plain else plain in
  let plain := if absent raw "mandatory" then set_Point_Mandatory "O" plain else plain in
  if absent raw "static" then set_Point_Static "D" plain else plain.

Definition Point_UnmarshalJSON : json → result Point :=
  unmarshal_struct "Point" ["name"; "size"; "type"] Point_fields zero_Point Point_defaults.

(** ** Groups *)

#[warnings="-register-all"]
Inductive Group := mk_Group {
  Group_Comments : list string;
  Group_Count : value;
  Group_Desc : option string;
  Group_Detail : option string;
  Group_Groups : list Group;
  Group_Label : option string;
  Group_Name : string;
  Group_Notes : option string;
  Group_Points : list Point;
  Group_Type : GroupType;
}.

Definition zero_Group : Group := mk_Group [] VNull None None [] None "" None [] "".

Definition set_Group_Comments (v : list string) (x : Group) : Group :=
  let 'mk_Group _ b c d e f g h i j := x in
  mk_Group v b c d e f g h i j.
Definition set_Group_Count (v : value) (x : Group) : Group :=
  let 'mk_Group a _ c d e f g h i j := x in
  mk_Group a v c d e f g h i j.
Definition set_Group_Desc (v : option string) (x : Group) : Group :=
  let 'mk_Group a b _ d e f g h i j := x in
  mk_Group a b v d e f g h i j.
Definition set_Group_Detail (v : option string) (x : Group) : Group :=
  let 'mk_Group a b c _ e f g h i j := x in
  mk_Group a b c v e f g h i j.
Definition set_Group_Groups (v : list Group) (x : Group) : Group :=
  let 'mk_Group a b c d _ f g h i j := x in
  mk_Group a b c d v f g h i j.
Definition set_Group_Label (v : option string) (x : Group) : Group :=
  let 'mk_Group a b c d e _ g h i j := x in
  mk_Group a b c d e v g h i j.
Definition set_Group_Name (v : string) (x : Group) : Group :=
  let 'mk_Group a b c d e f _ h i j := x in
  mk_Group a b c d e f v h i j.
Definition set_Group_Notes (v : option string) (x : Group) : Group :=
  let 'mk_Group a b c d e f g _ i j := x in
  mk_Group a b c d e f g v i j.
Definition set_Group_Points (v : list Point) (x : Group) : Group :=
  let 'mk_Group a b c d e f g h _ j := x in
  mk_Group a b c d e f g h v j.
Definition set_Group_Type (v : GroupType) (x : Group) : Group :=
  let 'mk_Group a b c d e f g h i _ := x in
  mk_Group a b c d e f g h i v.

Definition Group_fields (Group_UnmarshalJSON : json → result Group) : list (string * undec Group) :=
  [("comments", u_field (saves (d_slice d_string "")) Group_Comments set_Group_Comments);
   ("count", u_field (saves d_value) Group_Count set_Group_Count);
   ("desc", u_field (saves (d_ptr d_string "")) Group_Desc set_Group_Desc);
   ("detail", u_field (saves (d_ptr d_string "")) Group_Detail set_Group_Detail);
   ("groups", u_field (u_slice (calls Group_UnmarshalJSON) zero_Group) Group_Groups set_Group_Groups);
   ("label", u_field (saves (d_ptr d_string "")) Group_Label set_Group_Label);
   ("name", u_field (saves d_string) Group_Name set_Group_Name);
   ("notes", u_field (saves (d_ptr d_string "")) Group_Notes set_Group_Notes);
   ("points", u_field (u_slice (calls Point_UnmarshalJSON) zero_Point) Group_Points set_Group_Points);
   ("type", u_field (calls GroupType_UnmarshalJSON) Group_Type set_Group_Type)].

Definition Group_defaults (raw : option (gmap string value)) (plain : Group) : Group :=
  if absent raw "count" then set_Group_Count (VNumber (f64_of_Z 1)) plain else plain.

Definition Group_body (Group_UnmarshalJSON : json → result Group) : json → result Group :=
  unmarshal_struct "Group" ["name"; "type"] (Group_fields Group_UnmarshalJSON) zero_Group
    Group_defaults.

(** Groups contain groups: the recursion is on the depth of the document. *)
Fixpoint depth (j : json) : nat :=
  match j with
  | JArr l => S (list_max (map depth l))
  | JObj l => S (list_max (map (λ kv, depth kv.2) l))
  | _ => 1%nat
  end.

Fixpoint Group_UnmarshalJSON_at (n : nat) (j : json) : result Group :=
  match n with
  | O => inr type_error
  | S n => Group_body (Group_UnmarshalJSON_at n) j
  end.

Definition Group_UnmarshalJSON (j : json) : result Group := Group_UnmarshalJSON_at (depth j) j.

(** ** Models *)

Record SchemaJson := mk_SchemaJson {
  SchemaJson_Comments : list string;
  SchemaJson_Desc : option string;
  SchemaJson_Detail : option string;
  SchemaJson_Group : Group;
  SchemaJson_Id : Z;
  SchemaJson_Label : option string;
  SchemaJson_Notes : option string;
}.

Definition zero_SchemaJson : SchemaJson := mk_SchemaJson [] None None zero_Group 0 None None.

Definition set_SchemaJson_Comments (v : list string) (x : SchemaJson) : SchemaJson :=
  let 'mk_SchemaJson _ b c d e f g := x in
  mk_SchemaJson v b c d e f g.
Definition set_SchemaJson_Desc (v : option string) (x : SchemaJson) : SchemaJson :=
  let 'mk_SchemaJson a _ c d e f g := x in
  mk_SchemaJson a v c d e f g.
Definition set_SchemaJson_Detail (v : option string) (x : SchemaJson) : SchemaJson :=
  let 'mk_SchemaJson a b _ d e f g := x in
  mk_SchemaJson a b v d e f g.
Definition set_SchemaJson_Group (v : Group) (x : SchemaJson) : SchemaJson :=
  let 'mk_SchemaJson a b c _ e f g := x in
  mk_SchemaJson a b c v e f g.
Definition set_SchemaJson_Id (v : Z) (x : SchemaJson) : SchemaJson :=
  let 'mk_SchemaJson a b c d _ f g := x in
  mk_SchemaJson a b c d v f g.
Definition set_SchemaJson_Label (v : option string) (x : SchemaJson) : SchemaJson :=
  let 'mk_SchemaJson a b c d e _ g := x in
  mk_SchemaJson a b c d e v g.
Definition set_SchemaJson_Notes (v : option string) (x : SchemaJson) : SchemaJson :=
  let 'mk_SchemaJson a b c d e f _ := x in
  mk_SchemaJson a b c d e f v.

Definition SchemaJson_fields : list (string * undec SchemaJson) :=
  [("comments", u_field (saves (d_slice d_string "")) SchemaJson_Comments set_SchemaJson_Comments);
   ("desc", u_field (saves (d_ptr d_string "")) SchemaJson_Desc set_SchemaJson_Desc);
   ("detail", u_field (saves (d_ptr d_string "")) SchemaJson_Detail set_SchemaJson_Detail);
   ("group", u_field (calls Group_UnmarshalJSON) SchemaJson_Group set_SchemaJson_Group);
   ("id", u_field (saves d_int) SchemaJson_Id set_SchemaJson_Id);
   ("label", u_field (saves (d_ptr d_string "")) SchemaJson_Label set_SchemaJson_Label);
   ("notes", u_field (saves (d_ptr d_string "")) SchemaJson_Notes set_SchemaJson_Notes)].

Definition SchemaJson_UnmarshalJSON (j : json) : result SchemaJson :=
  try plain := unmarshal_struct "SchemaJson" ["group"; "id"] SchemaJson_fields zero_SchemaJson
    (λ _ plain, plain) j in
  if 65535 <? SchemaJson_Id plain then inr (Errorf "field %s: must be <= %v")
  else if 1 >? SchemaJson_Id plain then inr (Errorf "field %s: must be >= %v")
  else inl plain.

(** ** schema.go *)

(** The embedded files: of each its syntax tree, [None] if it is not JSON. *)
Class ModelFiles := { ReadFile : string → result (option json) }.

Section files.
Context `{ModelFiles}.

(** [fmt.Sprintf("models/json/model_%d.json", id)] *)
Definition model_path (id : Z) : string := "models/json/model_" +:+ pretty id +:+ ".json".

Definition GetModelSchema (id : Z) : result SchemaJson :=
  try schema := wrapf "reading model %d schema: %w"
    (ReadFile (model_path id)) in
  wrapf "unmarshaling model %d schema: %w"
    match schema with
    | None => inr (Errorf "json: syntax error")
    | Some j => SchemaJson_UnmarshalJSON j
    end.

(** ** What the server and the client use of a model *)

(** The types a value of [interface{}] has after decoding: never an [int]. *)
Definition scale_of (v : value) : scale_factor :=
  match v with
  | VNull => SfNil
  | VNumber f => SfFloat f
  | VString s => SfString s
  | _ => SfOther
  end.

Definition schema_point (p : Point) : SchemaPoint :=
  mk_SchemaPoint (Point_Name p) (Point_Type p) (Point_Size p) (scale_of (Point_Sf p)) (Point_Access p).

#[export] Instance file_schemas : Schemas := {|
  SunSpecRegister.GetModelSchema id :=
    try model := GetModelSchema id in
    inl (map schema_point (Group_Points (SchemaJson_Group model)));
|}.
End files.

(** ** The documents that are taken *)

Definition valid_Symbol : json → Prop := is_object ["name"; "value"]
  [("comments", is_list is_text); ("desc", is_text); ("detail", is_text); ("label", is_text);
   ("name", is_text); ("notes", is_text); ("value", λ j, in_range j = true)].

Definition valid_Point : json → Prop := is_object ["name"; "size"; "type"]
  [("access", is_text_of enumValues_PointAccess); ("comments", is_list is_text);
   ("count", is_int); ("desc", is_text); ("detail", is_text); ("label", is_text);
   ("mandatory", is_text_of enumValues_PointMandatory); ("name", is_text); ("notes", is_text);
   ("sf", λ j, in_range j = true); ("size", is_int); ("static", is_text_of enumValues_PointStatic);
   ("symbols", is_list valid_Symbol); ("type", is_text_of enumValues_PointType);
   ("units", is_text); ("value", λ j, in_range j = true)].

Definition group_members (valid_Group : json → Prop) : list (string * (json → Prop)) :=
  [("comments", is_list is_text); ("count", λ j, in_range j = true); ("desc", is_text);
   ("detail", is_text); ("groups", is_list valid_Group); ("label", is_text); ("name", is_text);
   ("notes", is_text); ("points", is_list valid_Point); ("type", is_text_of enumValues_GroupType)].

(** The least set of documents that is closed under this: a group whose members are
    as they should be, its groups being of the set. *)
Inductive valid_Group (j : json) : Prop :=
| valid_Group_intro (G : json → Prop) :
    (∀ g, G g → valid_Group g) → is_object ["name"; "type"] (group_members G) j → valid_Group j.

Definition schema_members : list (string * (json → Prop)) :=
  [("comments", is_list is_text); ("desc", is_text); ("detail", is_text); ("group", valid_Group);
   ("id", is_int); ("label", is_text); ("notes", is_text)].

(** The number of a model: the last member of the name that is not [null]. *)
Definition id_step (z : Z) (kv : string * json) : Z :=
  match find_field (map (λ p, (p.1, p.1)) schema_members) kv.1, kv.2 with
  | Some "id"%string, JInt neg n => signed neg n
  | _, _ => z
  end.

Definition document_id (j : json) : Z :=
  match j with JObj l => foldl id_step 0 l | _ => 0 end.

Definition valid_SchemaJson (j : json) : Prop :=
  is_object ["group"; "id"] schema_members j ∧ 1 ≤ document_id j ≤ 65535.

Lemma enum_UnmarshalJSON_decides values j :
  one_of values "" = false → (∃ x, enum_UnmarshalJSON values j = inl x) ↔ is_text_of values j.
Proof.
  intros H0. unfold enum_UnmarshalJSON. destruct j; simpl; rewrite ?H0; try naive_solver.
  rewrite <- one_of_In. destruct (one_of values s); naive_solver.
Qed.

Lemma decides_enum values : one_of values "" = false →
  Decides (calls (enum_UnmarshalJSON values)) (is_text_of values).
Proof.
  intros H0. eapply decides_iff; [apply _|]. intros j. by apply enum_UnmarshalJSON_decides.
Qed.

#[export] Instance decides_GroupType :
  Decides (calls GroupType_UnmarshalJSON) (is_text_of enumValues_GroupType).
Proof. by apply decides_enum. Qed.
#[export] Instance decides_PointAccess :
  Decides (calls PointAccess_UnmarshalJSON) (is_text_of enumValues_PointAccess).
Proof. by apply decides_enum. Qed.
#[export] Instance decides_PointMandatory :
  Decides (calls PointMandatory_UnmarshalJSON) (is_text_of enumValues_PointMandatory).
Proof. by apply decides_enum. Qed.
#[export] Instance decides_PointStatic :
  Decides (calls PointStatic_UnmarshalJSON) (is_text_of enumValues_PointStatic).
Proof. by apply decides_enum. Qed.
#[export] Instance decides_PointType :
  Decides (calls PointType_UnmarshalJSON) (is_text_of enumValues_PointType).
Proof. by apply decides_enum. Qed.

#[export] Instance decides_Symbol : Decides (calls Symbol_UnmarshalJSON) valid_Symbol.
Proof.
  eapply decides_iff; [apply _|]. intros j. apply unmarshal_struct_decides.
  unfold Symbol_fields. apply _.
Qed.

#[export] Instance decides_Point : Decides (calls Point_UnmarshalJSON) valid_Point.
Proof.
  eapply decides_iff; [apply _|]. intros j. apply unmarshal_struct_decides.
  unfold Point_fields. apply _.
Qed.

Lemma Group_body_decides m j :
  (∃ g, Group_body m j = inl g) ↔ is_object ["name"; "type"] (group_members (λ j, ∃ g, m j = inl g)) j.
Proof. apply unmarshal_struct_decides. unfold Group_fields, group_members. apply _. Qed.

(** *** Groups in groups *)

Lemma u_elems_ext {A} (f g : undec A) zero l :
  Forall (λ j, ∀ x, f j x = g j x) l → u_elems f zero l = u_elems g zero l.
Proof. induction 1 as [|j l Hj Hl IH]; simpl; [done|]. by rewrite Hj, IH. Qed.

Lemma list_max_In n l : In n l → (n ≤ list_max l)%nat.
Proof. induction l as [|m l IH]; simpl; [done|]. intros [->|Hn]; [lia|]. apply IH in Hn. lia. Qed.

Lemma Group_body_ext m m' j :
  (∀ g, (depth g < depth j)%nat → m g = m' g) → Group_body m j = Group_body m' j.
Proof.
  intros Hm. unfold Group_body, unmarshal_struct, unmarshal_in, u_struct.
  destruct j as [| | | | | |l]; try done.
  enough (∀ x, u_fields (Group_fields m) l x = u_fields (Group_fields m') l x) as Hl
    by by rewrite Hl.
  assert (Forall (λ kv, ∀ g, (depth g < depth kv.2)%nat → m g = m' g) l) as Hlt.
  { apply List.Forall_forall. intros kv Hkv g Hg. apply Hm. simpl.
    apply (in_map (λ kv, depth kv.2)), list_max_In in Hkv. simpl in *. lia. }
  clear Hm. induction Hlt as [|[k j] l Hj Hl IH]; intros x; simpl; [done|]. simpl in Hj.
  assert (Forall2 (λ f g : string * undec Group, f.1 = g.1 ∧ ∀ x, f.2 j x = g.2 j x)
            (Group_fields m) (Group_fields m')) as Hfs.
  { repeat (constructor; [split; [done|]; intros y|]); simpl; try done.
    unfold u_field. f_equal. destruct j as [| | | | |gs|]; try done. simpl. apply u_elems_ext.
    apply List.Forall_forall. intros g Hg y'. unfold calls. rewrite Hj; [done|].
    simpl. apply (in_map depth), list_max_In in Hg. lia. }
  destruct (find_field_Forall2 (λ f g : undec Group, ∀ x, f j x = g j x) _ _ k Hfs)
    as [f g Hfg|]; [|done].
  rewrite Hfg. destruct (g j x) as [y|]; [|done]. simpl. by rewrite IH.
Qed.

Lemma Group_fuel n n' j : (depth j ≤ n)%nat → (depth j ≤ n')%nat →
  Group_UnmarshalJSON_at n j = Group_UnmarshalJSON_at n' j.
Proof.
  revert n' j. induction n as [|n IH]; intros [|n'] j Hn Hn';
    [done|by destruct j; simpl in Hn; lia|by destruct j; simpl in Hn'; lia|].
  simpl. apply Group_body_ext. intros g Hg. apply IH; lia.
Qed.

(** The depth of the document is enough. *)
Lemma Group_UnmarshalJSON_eq j : Group_UnmarshalJSON j = Group_body Group_UnmarshalJSON j.
Proof.
  unfold Group_UnmarshalJSON at 1. destruct (depth j) as [|n] eqn:Hn; [by destruct j|]. simpl.
  apply Group_body_ext. intros g Hg. apply Group_fuel; lia.
Qed.

Lemma is_object_mono required ps ps' j :
  Forall2 (λ p p' : string * (json → Prop), p.1 = p'.1 ∧ ∀ j, p.2 j → p'.2 j) ps ps' →
  is_object required ps j → is_object required ps' j.
Proof.
  intros Hps. destruct j as [| | | | | |l]; try done. intros (Hr & Hin & Hl). split_and!; try done.
  eapply Forall_impl; [exact Hl|]. intros [k j]. unfold member_ok. simpl.
  destruct (find_field_Forall2 (λ P P' : json → Prop, ∀ j, P j → P' j) ps ps' k Hps); naive_solver.
Qed.

Lemma group_members_mono (G G' : json → Prop) j :
  (∀ g, G g → G' g) → is_object ["name"; "type"] (group_members G) j →
  is_object ["name"; "type"] (group_members G') j.
Proof.
  intros HG. apply is_object_mono. unfold group_members.
  repeat (constructor; [split; [done|]; simpl; try done|]); [|done].
  intros [| | | | |gs|] H; try done. eapply Forall_impl; [exact H|done].
Qed.

Lemma Group_UnmarshalJSON_decides j : (∃ g, Group_UnmarshalJSON j = inl g) ↔ valid_Group j.
Proof.
  split.
  - unfold Group_UnmarshalJSON. generalize (depth j). intros n. revert j.
    induction n as [|n IH]; intros j; [naive_solver|]. simpl. rewrite Group_body_decides. intros Hj.
    exact (valid_Group_intro j _ IH Hj).
  - induction 1 as [j G _ IH Hj]. rewrite Group_UnmarshalJSON_eq. apply Group_body_decides.
    by apply (group_members_mono G).
Qed.

#[export] Instance decides_Group : Decides (calls Group_UnmarshalJSON) valid_Group.
Proof. eapply decides_iff; [apply _|]. exact Group_UnmarshalJSON_decides. Qed.

(** *** The number of a model *)

(** What the decoder of field [name] does to the number. *)
Definition sets_id (d : undec SchemaJson) (name : string) : Prop :=
  ∀ k j x y, find_field (map (λ p, (p.1, p.1)) schema_members) k = Some name →
    d j x = inl (y, None) → SchemaJson_Id y = id_step (SchemaJson_Id x) (k, j).

Lemma schema_fields_id :
  Forall2 (λ f p : string * _, f.1 = p.1 ∧ sets_id f.2 p.2) SchemaJson_fields
    (map (λ p, (p.1, p.1)) schema_members).
Proof.
  unfold SchemaJson_fields. simpl.
  repeat (constructor; [split; [done|]; intros k j [] y Hk; unfold id_step; cbn [fst snd];
    rewrite Hk; clear Hk; unfold u_field, saves, calls; simpl|]); try done.
  all: try (destruct (d_slice _ _ _ _)); try (destruct (d_ptr _ _ _ _));
    try (destruct (Group_UnmarshalJSON _)); simpl; try done;
    try (intros Hy; by simplify_eq/=).
  destruct j as [| |neg n| | | |]; simpl; try (by intros [= <-]); try done.
  fold (signed neg n). case_match; [|done]. by intros [= <-].
Qed.

Lemma u_fields_id l x y :
  u_fields SchemaJson_fields l x = inl (y, None) →
  SchemaJson_Id y = foldl id_step (SchemaJson_Id x) l.
Proof.
  revert x. induction l as [|[k j] l IH]; intros x; simpl; [by intros [= <-]|].
  pose proof (find_field_Forall2 sets_id _ _ k schema_fields_id) as Hk.
  inversion Hk as [d name Hd Hf Hname|Hf Hname].
  - destruct (d j x) as [[a e]|] eqn:Ha; [|done]. simpl.
    destruct (u_fields SchemaJson_fields l a) as [[b e']|] eqn:Hb; [|done].
    intros [= <- [-> ->]%first_error_None]. rewrite (IH a Hb). f_equal.
    by apply (Hd k j x a).
  - intros Hl. rewrite (IH x Hl). f_equal. unfold id_step. simpl. by rewrite <- Hname.
Qed.

(** A document is taken exactly if it is as the schema says. *)
Lemma schema_accepts j :
  (∃ m, SchemaJson_UnmarshalJSON j = inl m) ↔ valid_SchemaJson j.
Proof.
  unfold SchemaJson_UnmarshalJSON, valid_SchemaJson.
  assert (DecidesAll SchemaJson_fields schema_members) as Hd
    by (unfold SchemaJson_fields, schema_members; apply _).
  rewrite <- (unmarshal_struct_decides "SchemaJson" _ SchemaJson_fields zero_SchemaJson
    (λ _ plain, plain) schema_members j).
  assert (∀ m, unmarshal_struct "SchemaJson" ["group"; "id"] SchemaJson_fields zero_SchemaJson
    (λ _ plain, plain) j = inl m → SchemaJson_Id m = document_id j) as Hid.
  { unfold unmarshal_struct, unmarshal_in, unmarshal_raw. intros m.
    destruct j as [| | | | | |l]; try done; [by intros [= <-]|].
    unfold d_map. destruct (d_members _ _ _ _) as [raw [e|]]; [done|]. cbn [result_bind].
    destruct (require _ _ _); [|done]. simpl.
    destruct (u_fields SchemaJson_fields l zero_SchemaJson) as [[x [e|]]|] eqn:Hl; try done.
    intros [= <-]. exact (u_fields_id l _ x Hl). }
  destruct (unmarshal_struct _ _ _ _ _ _) as [m|]; simpl; [|naive_solver].
  rewrite (Hid m eq_refl). split.
  - destruct (Z.ltb_spec 65535 (document_id j)); [naive_solver|].
    rewrite Z.gtb_ltb. destruct (Z.ltb_spec (document_id j) 1); [naive_solver|]. split; [eauto|lia].
  - intros [_ [H1 H2]]. rewrite (proj2 (Z.ltb_ge 65535 _)), Z.gtb_ltb, (proj2 (Z.ltb_ge _ 1)) by lia.
    eauto.
Qed.

(** ** What is read *)

Lemma u_field_inl {A B} (d : undec B) (get : A → B) set j x y :
  u_field d get set j x = inl y → ∃ v e, d j (get x) = inl (v, e) ∧ y = (set v x, e).
Proof.
  unfold u_field. destruct (d j (get x)) as [[v e]|]; [|done]. intros [= <-]. eauto.
Qed.

Lemma calls_enum_inl values j x (y : string * option error) :
  calls (enum_UnmarshalJSON values) j x = inl y → In y.1 values.
Proof.
  unfold calls, enum_UnmarshalJSON. destruct (d_string j "") as [v [e|]]; [done|].
  destruct (one_of values v) eqn:Hv; [|done]. intros [= <-]. by apply one_of_In.
Qed.

Lemma u_elems_all {A} (m : json → result A) (P : A → Prop) zero l y :
  Forall (λ j, ∀ x, m j = inl x → P x) l → u_elems (calls m) zero l = inl y → Forall P y.1.
Proof.
  intros Hl. revert y. induction Hl as [|j l Hj Hl IH]; intros y; simpl; [by intros [= <-]; constructor|].
  unfold calls at 1. destruct (m j) as [x|]; [|done]. simpl.
  destruct (u_elems (calls m) zero l) as [z|]; [|done]. intros [= <-].
  constructor; [by apply Hj|by apply IH].
Qed.

(** A struct that was read without an error, and the raw members it was read from. *)
Lemma unmarshal_struct_inl {A} what required (fs : list (string * undec A)) zero finish j x :
  unmarshal_struct what required fs zero finish j = inl x →
  (j = JNull ∧ x = finish None zero) ∨
  (∃ l raw plain, j = JObj l ∧ u_fields fs l zero = inl (plain, None) ∧ x = finish (Some raw) plain ∧
    Forall (λ k, In k (map fst l)) required ∧
    ∀ k, raw !! k = value_of <$> last_member k l).
Proof.
  unfold unmarshal_struct, unmarshal_raw, unmarshal_in.
  destruct j as [| | | | | |l]; try done.
  - simpl. destruct (require _ _ _); [|done]. intros [= <-]. by left.
  - cbn [d_map from_option]. destruct (d_members_value l ∅) as (m & -> & Hm).
    destruct (forallb _ _); [|done]. cbn [result_bind].
    destruct (require what required (Some m)) as [[]|] eqn:Hr; [|done]. simpl.
    destruct (u_fields fs l zero) as [[y [e|]]|] eqn:Hl; try done. intros [= <-].
    right. exists l, m, y. split_and!; try done.
    apply require_ok in Hr. eapply Forall_impl; [exact Hr|]. intros k. rewrite last_member_In.
    simpl. rewrite Hm. by destruct (last_member k l).
Qed.

(** A point as the rest of the program may rely on it; [null] makes one, too. *)
Definition null_Point : Point := Point_defaults None zero_Point.

Definition typed_Point (p : Point) : Prop :=
  (p = null_Point ∨ In (Point_Type p) enumValues_PointType) ∧
  In (Point_Access p) enumValues_PointAccess ∧
  In (Point_Mandatory p) enumValues_PointMandatory ∧
  In (Point_Static p) enumValues_PointStatic.

Definition null_Group : Group := Group_defaults None zero_Group.

Inductive typed_Group (g : Group) : Prop :=
| typed_Group_intro :
    g = null_Group ∨ In (Group_Type g) enumValues_GroupType →
    Forall typed_Point (Group_Points g) → (∀ g', In g' (Group_Groups g) → typed_Group g') →
    typed_Group g.

Definition typed_SchemaJson (m : SchemaJson) : Prop :=
  1 ≤ SchemaJson_Id m ≤ 65535 ∧ typed_Group (SchemaJson_Group m).

(** An enumeration of a point is empty or one of its words while the fields are read,
    and one of its words once its member was. *)
Ltac keep_field :=
  let x := fresh "x" in let Hx := fresh "Hx" in
  let v := fresh "v" in let e := fresh "e" in let Hv := fresh "Hv" in
  intros ? x ? Hx (v & e & Hv & ->)%u_field_inl; destruct x; simpl in Hx |- *;
  first [assumption | right; exact (calls_enum_inl _ _ _ _ Hv) | exact (calls_enum_inl _ _ _ _ Hv)].

Definition fields_keep {A} (Q : A → Prop) (fs : list (string * undec A)) : Prop :=
  Forall (λ f, ∀ j x y, Q x → f.2 j x = inl y → Q y.1) fs.

Lemma reads_enum {A} (fs : list (string * undec A)) (get : A → string) values k d l zero plain :
  fields_keep (λ x, get x = "" ∨ In (get x) values) fs →
  fields_keep (λ x, In (get x) values) fs →
  find_field fs k = Some d → (∀ j x y, d j x = inl (y, None) → In (get y) values) →
  get zero = "" → u_fields fs l zero = inl (plain, None) →
  In k (map fst l) → In (get plain) values.
Proof.
  intros HQ HR Hk Hd H0 Hl Hin.
  apply (u_fields_reaches (λ x, get x = "" ∨ In (get x) values) (λ x, In (get x) values)
    fs l zero plain k d); try done; [by eauto|by left].
Qed.

Lemma absent_false raw l k :
  (∀ n, raw !! n = value_of <$> last_member n l) → absent (Some raw) k = false → In k (map fst l).
Proof.
  intros Hraw Ha. apply last_member_In. unfold absent in Ha. simpl in Ha. rewrite Hraw in Ha.
  by destruct (last_member k l).
Qed.

Ltac keep_fields :=
  unfold fields_keep; repeat (apply Forall_cons; split; [keep_field|]); by apply Forall_nil.

Ltac reads_enum_by k :=
  lazymatch goal with H : u_fields ?fs ?l ?zero = inl (?plain, None) |- In (?get ?plain) ?values =>
    eapply (reads_enum fs get values k _ l zero plain); [| |reflexivity| |reflexivity|exact H|];
    [keep_fields|keep_fields
    |intros ? [] ? (v & e & Hv & [= -> <-])%u_field_inl; exact (calls_enum_inl _ _ _ _ Hv)|]
  end.

Lemma Point_typed j p : Point_UnmarshalJSON j = inl p → typed_Point p.
Proof.
  intros [(-> & ->)|(l & raw & plain & -> & Hl & -> & Hreq & Hraw)]%unmarshal_struct_inl.
  { split; [by left|]. simpl. tauto. }
  assert (In (Point_Type plain) enumValues_PointType) as Ht.
  { reads_enum_by "type". rewrite !Forall_cons in Hreq. tauto. }
  assert (absent (Some raw) "access" = false → In (Point_Access plain) enumValues_PointAccess) as Ha.
  { intros Hab. reads_enum_by "access". by eapply absent_false. }
  assert (absent (Some raw) "mandatory" = false →
    In (Point_Mandatory plain) enumValues_PointMandatory) as Hm.
  { intros Hab. reads_enum_by "mandatory". by eapply absent_false. }
  assert (absent (Some raw) "static" = false → In (Point_Static plain) enumValues_PointStatic) as Hs.
  { intros Hab. reads_enum_by "static". by eapply absent_false. }
  clear Hl. destruct plain. unfold typed_Point, Point_defaults.
  destruct (absent _ "access"), (absent _ "mandatory"), (absent _ "static");
    (split; [by right|]); split_and!;
    first [exact (Ha eq_refl) | exact (Hm eq_refl) | exact (Hs eq_refl)
          | by left | by right; left].
Qed.

Lemma Point_elems_typed j old ps e :
  u_slice (calls Point_UnmarshalJSON) zero_Point j old = inl (ps, e) →
  Forall typed_Point old → Forall typed_Point ps.
Proof.
  destruct j as [| | | | |l|]; simpl; try (by intros [= <- <-]).
  intros Hl _. apply (u_elems_all Point_UnmarshalJSON typed_Point zero_Point l (ps, e)); [|done].
  apply Forall_true. intros j x. apply Point_typed.
Qed.

Lemma Group_typed j g : Group_UnmarshalJSON j = inl g → typed_Group g.
Proof.
  unfold Group_UnmarshalJSON. generalize (depth j). intros n. revert j g.
  induction n as [|n IH]; intros j g; [done|]. simpl.
  intros [(-> & ->)|(l & raw & plain & -> & Hl & -> & Hreq & Hraw)]%unmarshal_struct_inl.
  { constructor; [by left|constructor|done]. }
  assert (In (Group_Type plain) enumValues_GroupType) as Ht.
  { reads_enum_by "type". rewrite !Forall_cons in Hreq. tauto. }
  assert (Forall typed_Point (Group_Points plain) ∧ Forall typed_Group (Group_Groups plain)) as [Hp Hg].
  { apply (u_fields_keeps (λ g, Forall typed_Point (Group_Points g) ∧ Forall typed_Group (Group_Groups g))
      (Group_fields (Group_UnmarshalJSON_at n)) l zero_Group (plain, None)); [|by split; constructor|done].
    repeat (apply Forall_cons; split; [intros i x y [Hp Hg] (v & e & Hv & ->)%u_field_inl;
      destruct x; simpl in Hp, Hg |- *; try done|]); [| |by apply Forall_nil].
    - split; [done|]. destruct i as [| | | | |gs|]; simpl in Hv; simplify_eq/=; try done.
      apply (u_elems_all (Group_UnmarshalJSON_at n) typed_Group zero_Group gs (v, e)); [|done].
      apply Forall_true. exact IH.
    - split; [|done]. by apply (Point_elems_typed i Group_Points0 v e). }
  rewrite List.Forall_forall in Hg.
  unfold Group_defaults. destruct (absent _ "count"), plain;
    (apply typed_Group_intro; [right; exact Ht|exact Hp|exact Hg]).
Qed.

(** What is read. *)
Lemma schema_typed `{ModelFiles} id m : GetModelSchema id = inl m → typed_SchemaJson m.
Proof.
  unfold GetModelSchema. destruct (wrapf _ (ReadFile _)) as [[j|]|]; [|done|done]. cbn [result_bind].
  unfold SchemaJson_UnmarshalJSON.
  destruct (unmarshal_struct _ _ _ _ _ _) as [x|] eqn:Hx; [|done]. simpl.
  destruct (Z.ltb_spec 65535 (SchemaJson_Id x)); [done|]. rewrite Z.gtb_ltb.
  destruct (Z.ltb_spec (SchemaJson_Id x) 1); [done|]. intros [= <-]. split; [lia|].
  apply unmarshal_struct_inl in Hx as [(-> & ->)|(l & raw & plain & -> & Hl & -> & Hreq & _)]; [done|].
  apply (u_fields_reaches (λ _, True) (λ m, typed_Group (SchemaJson_Group m))
    SchemaJson_fields l zero_SchemaJson plain "group"
    (u_field (calls Group_UnmarshalJSON) SchemaJson_Group set_SchemaJson_Group));
    [| |reflexivity| | |exact I|exact Hl].
  - by apply Forall_true.
  - repeat (apply Forall_cons; split; [intros j y z Hy (v & e & Hv & ->)%u_field_inl;
      destruct y; simpl in Hy |- *; try exact Hy|]); [|by apply Forall_nil].
    unfold calls in Hv. simpl in Hv. destruct (Group_UnmarshalJSON j) as [g|] eqn:Hg; [|done].
    injection Hv as <- _. by apply (Group_typed j).
  - intros j [] z _ (v & e & Hv & [= -> <-])%u_field_inl. simpl.
    unfold calls in Hv. destruct (Group_UnmarshalJSON j) as [g|] eqn:Hg; [|done].
    injection Hv as <-. by apply (Group_typed j).
  - rewrite Forall_cons in Hreq. tauto.
Qed.

(** C13: a model file is taken exactly if it is as the schema says: the members that
    are required are there, at every depth of groups, and every member a field
    knows, up to the case of its name, has a value of its type; only a text can be
    one of an enumeration, so [null] is refused there, although the code has
    defaults for it.  Of what is read the number of the model is between 1 and
    65535, and at every depth the groups have a type of the schema, the points a
    type, an access and flags of the schema; only [null] makes a group or a point
    without a type.  A file that is not there or not JSON is an error. *)
Theorem model_files_checked `{ModelFiles} id :
  match ReadFile (model_path id) with
  | inl (Some j) =>
      ((∃ m, GetModelSchema id = inl m) ↔ valid_SchemaJson j) ∧
      (∀ m, GetModelSchema id = inl m → typed_SchemaJson m)
  | _ => ∃ e, GetModelSchema id = inr e
  end.
Proof.
  pose proof (schema_typed id) as Ht. unfold GetModelSchema in *.
  destruct (ReadFile (model_path id)) as [[j|]|e]; simpl in *; [|by eexists|by eexists].
  split; [|exact Ht]. rewrite <- schema_accepts.
  destruct (SchemaJson_UnmarshalJSON j); simpl; [by split; eexists|].
  by split; intros [m Hm].
Qed.

(** What the other files rely on. *)
Lemma file_schemas_typed `{ModelFiles} id ps :
  SunSpecRegister.GetModelSchema id = inl ps →
  Forall (λ p, (PType p = "" ∨ In (PType p) enumValues_PointType) ∧
    In (Access p) enumValues_PointAccess ∧ ∀ z, Sf p ≠ SfInt z) ps.
Proof.
  simpl. destruct (GetModelSchema id) as [m|] eqn:Hm; [|done]. intros [= <-].
  apply schema_typed in Hm as [_ Hm]. inversion Hm as [_ Hps _].
  rewrite Forall_map. eapply Forall_impl; [exact Hps|].
  intros p (Ht & Ha & _). simpl. split_and!; [|exact Ha|by destruct (Point_Sf p)].
  destruct Ht as [->|Ht]; [by left|by right].
Qed.

(** ** Examples *)

Definition point_json (name ty : string) (size : N) (more : list (string * json)) : json :=
  JObj ([("name", JStr name); ("size", JInt false size)] ++ more ++ [("type", JStr ty)]).

Definition model_json (id : N) (name : string) (points : list json) : json :=
  JObj [("group", JObj [("label", JStr name); ("name", JStr name); ("type", JStr "group");
          ("points", JArr ([point_json "ID" "uint16" 1 [("mandatory", JStr "M"); ("static", JStr "S");
                              ("value", JInt false id)];
                            point_json "L" "uint16" 1 [("mandatory", JStr "M"); ("static", JStr "S")]]
                           ++ points))]);
        ("id", JInt false id)].

(** In the style of the files of the SunSpec alliance. *)
Definition common_json : json := model_json 1 "common"
  [point_json "Mn" "string" 16 [("desc", JStr "Manufacturer")]; point_json "Vr" "string" 8 [];
   point_json "DA" "uint16" 1 []; point_json "Pad" "pad" 1 []].

Definition inverter_json (id : N) : json := model_json id "inverter"
  [point_json "W" "int16" 1 [("sf", JStr "W_SF"); ("units", JStr "W")]; point_json "W_SF" "sunssf" 1 [];
   point_json "WH" "acc32" 2 [("sf", JStr "WH_SF")]; point_json "WH_SF" "sunssf" 1 []].

Definition example_files : ModelFiles := {| ReadFile path :=
  if String.eqb path "models/json/model_1.json" then inl (Some common_json)
  else if String.eqb path "models/json/model_101.json" then inl (Some (inverter_json 101))
  else if String.eqb path "models/json/model_103.json" then inl (Some (inverter_json 103))
  else if String.eqb path "models/json/model_64001.json" then
    inl (Some (model_json 64001 "vendor" [point_json "T" "int16" 1 [("sf", JInt true 1)]]))
  else inr (Sentinel "file does not exist") |}.

Lemma model_files_checked_witness :
  valid_SchemaJson (inverter_json 101) ∧
  ∃ m, @GetModelSchema example_files 101 = inl m ∧ SchemaJson_Id m = 101 ∧ typed_SchemaJson m.
Proof.
  destruct (@model_files_checked example_files 101) as [Hacc Htyped].
  destruct (@GetModelSchema example_files 101) as [m|] eqn:Hm; [|vm_compute in Hm; discriminate].
  split; [apply Hacc; exists m; reflexivity|].
  exists m. split; [reflexivity|]. split; [|exact (Htyped m eq_refl)].
  vm_compute in Hm. injection Hm as <-. reflexivity.
Defined.

(** [null] is refused where the code has a default for it. *)
Example null_access_refused :
  Point_UnmarshalJSON (point_json "W" "int16" 1 [("access", JNull)])
  = inr (Errorf "invalid value (expected one of %#v): %#v").
Proof. vm_compute. reflexivity. Qed.

(** A member whose name differs in case is decoded, but does not count as there. *)
Example access_by_case :
  match Point_UnmarshalJSON (point_json "W" "int16" 1 [("Access", JStr "RW")]) with
  | inl p => Point_Access p
  | inr _ => ""
  end = "R".
Proof. vm_compute. reflexivity. Qed.

Example null_points_pass :
  Point_UnmarshalJSON JNull = inl null_Point ∧ Point_Type null_Point = "".
Proof. vm_compute. done. Qed.
