(* ===== verification/SunSpecServer.v ===== *)
(** * sunspec/server: the SunSpec server module

    A SunSpec server answers the registers of its models over Modbus, function
    codes 3 and 16.  The maps [registers] (by address) and [points] (by name)
    hold pointers to the same registers, and the three registers that frame the
    models are global variables: the registers live in a store, [heap], and the
    maps hold locations. *)

From S2P Require Import Prelude GoFloat GoText GoBytes Etree Json Msgbus SunSpecRegister.

(** The exceptions of the Modbus library that the handlers return. *)
Inductive Exception := Success | IllegalDataAddress | SlaveDeviceFailure.

Definition response : Type := list Z * Exception.

Record SunSpecServer := mk_SunSpecServer {
  heap : list Register;
  pullEndpoint : string;
  pubEndpoint : string;
  pusher : bus;
  name : string;
  endpoint : string;
  registers : gmap Z nat;
  points : gmap string nat;
  tags : gmap string any;
}.

(** The locations of the global variables of [common]. *)
Definition loc_Identifier : nat := 0.
Definition loc_End : nat := 1.
Definition loc_EndLength : nat := 2.
Definition globals : list Register := [IdentifierRegister; EndRegister; EndRegisterLength].

Definition New (name : string) : SunSpecServer :=
  mk_SunSpecServer globals "" "" (mk_bus [] 0 (λ _, true)) name "" ∅ ∅ ∅.

Definition set_heap (v : list Register) (s : SunSpecServer) : SunSpecServer :=
  mk_SunSpecServer v (pullEndpoint s) (pubEndpoint s) (pusher s) (name s) (endpoint s)
    (registers s) (points s) (tags s).
Definition set_pullEndpoint (v : string) (s : SunSpecServer) : SunSpecServer :=
  mk_SunSpecServer (heap s) v (pubEndpoint s) (pusher s) (name s) (endpoint s)
    (registers s) (points s) (tags s).
Definition set_pubEndpoint (v : string) (s : SunSpecServer) : SunSpecServer :=
  mk_SunSpecServer (heap s) (pullEndpoint s) v (pusher s) (name s) (endpoint s)
    (registers s) (points s) (tags s).
Definition set_pusher (v : bus) (s : SunSpecServer) : SunSpecServer :=
  mk_SunSpecServer (heap s) (pullEndpoint s) (pubEndpoint s) v (name s) (endpoint s)
    (registers s) (points s) (tags s).
Definition set_endpoint (v : string) (s : SunSpecServer) : SunSpecServer :=
  mk_SunSpecServer (heap s) (pullEndpoint s) (pubEndpoint s) (pusher s) (name s) v
    (registers s) (points s) (tags s).
Definition set_registers (v : gmap Z nat) (s : SunSpecServer) : SunSpecServer :=
  mk_SunSpecServer (heap s) (pullEndpoint s) (pubEndpoint s) (pusher s) (name s) (endpoint s)
    v (points s) (tags s).
Definition set_points (v : gmap string nat) (s : SunSpecServer) : SunSpecServer :=
  mk_SunSpecServer (heap s) (pullEndpoint s) (pubEndpoint s) (pusher s) (name s) (endpoint s)
    (registers s) v (tags s).
Definition set_tags (v : gmap string any) (s : SunSpecServer) : SunSpecServer :=
  mk_SunSpecServer (heap s) (pullEndpoint s) (pubEndpoint s) (pusher s) (name s) (endpoint s)
    (registers s) (points s) v.

(** [this.registers[addr] = p] and [p.field = v]. *)
Definition put_register {R} (addr : Z) (l : nat) : go SunSpecServer R () :=
  modify (λ s, set_registers (<[addr := l]> (registers s)) s).

Definition update_register {R} (l : nat) (f : Register → Register) : go SunSpecServer R () :=
  modify (λ s, set_heap (alter f l (heap s)) s).

(** The pointer to a new register. *)
Definition alloc {R} (r : Register) : go SunSpecServer R nat :=
  s ← get;
  _ ← modify (set_heap (heap s ++ [r]));
  mret (length (heap s)).

Section configure.
Context `{Etree} `{Schemas}.

(** ** Configuration *)

(** The register of a point of model [id]. *)
Definition point_register (id length : Z) (p : SchemaPoint) : result Register :=
  let r := new_Register (point_data_type p) (PName p) id in
  let r := if String.eqb (PName p) "ID" then set_InternalValue (f64_of_Z id) r else r in
  let r := if String.eqb (PName p) "L" then set_InternalValue (f64_of_Z length) r else r in
  try r := match Sf p with
    | SfNil => inl r
    | SfInt sf => inl (set_Scaling (f64_of_Z sf) r)
    | SfFloat sf => inl (set_Scaling sf r)
    | SfString sf => inl (set_ScaleRegister sf r)
    | SfOther => inr (Errorf "unknown type when parsing scaling factor for %s")
    end in
  wrapf "initializing register %d: %w" (Init r).

(** [for _, p := range model.Group.Points], with the address it reaches. *)
Fixpoint configure_points (id length : Z) (ps : list SchemaPoint) (addr : Z)
  : go SunSpecServer (option error) Z :=
  match ps with
  | [] => mret addr
  | p :: ps' =>
    match point_register id length p with
    | inr e => return_ (Some e)
    | inl r =>
      l ← alloc r;
      _ ← put_register addr l;
      _ ← modify (λ s, set_points (<[PName p := l]> (points s)) s);
      configure_points id length ps' (addr + Size p)
    end
  end.

(** The value a child element of [<model>] gives a point. *)
Definition configure_value (addr : Z) (child : Element) : go SunSpecServer (option error) () :=
  s ← get;
  match points s !! ETag child with
  | None => return_ (Some (Errorf "no SunSpec point named %s in model %d"))
  | Some l =>
    r ← eval (heap s !! l) PanicNil;
    _ ← (if HasPrefix (DataType r) "string" then
           update_register l (set_InternalString (Text child))
         else match ParseFloat (Text child) with
         | (val, None) => update_register l (set_InternalValue val)
         | (_, Some _) =>
           _ ← modify (λ s, set_tags (<[Text child := AFloat f64_0]> (tags s)) s);
           update_register l (set_Tag (Text child))
         end);
    put_register addr l
  end.

(** [case "model"]: the model's number and the address it reaches. *)
Definition configure_model (child : Element) (addr : Z) : go SunSpecServer (option error) (Z * Z) :=
  match SelectAttr child "id" with
  | None => return_ (Some (Errorf "missing 'id' attribute for SunSpec model"))
  | Some attr =>
    match Atoi attr with
    | (_, Some e) => return_ (Some (Wrapf "parsing model ID %s: %w" e))
    | (id, None) =>
      match GetModelSchema id with
      | inr e => return_ (Some (Wrapf "getting schema for model %d: %w" e))
      | inl ps =>
        addr' ← configure_points id (GetModelLength ps) ps addr;
        _ ← range (ChildElements child) (configure_value addr');
        mret (id, addr')
      end
    end
  end.

Fixpoint configure_children (l : list Element) (addr : Z) (model1 : bool)
  : go SunSpecServer (option error) (Z * bool) :=
  match l with
  | [] => mret (addr, model1)
  | child :: l' =>
    if String.eqb (ETag child) "pull-endpoint" then
      _ ← modify (set_pullEndpoint (Text child)); configure_children l' addr model1
    else if String.eqb (ETag child) "pub-endpoint" then
      _ ← modify (set_pubEndpoint (Text child)); configure_children l' addr model1
    else if String.eqb (ETag child) "endpoint" then
      _ ← modify (set_endpoint (Text child)); configure_children l' addr model1
    else if String.eqb (ETag child) "model" then
      m ← configure_model child addr;
      configure_children l' m.2 (if m.1 =? 1 then true else model1)
    else configure_children l' addr model1
  end.

Definition Configure (e : Element) : go SunSpecServer (option error) (option error) :=
  _ ← put_register 40000 loc_Identifier;
  r ← configure_children (ChildElements e) 40002 false;
  _ ← put_register r.1 loc_End;
  _ ← put_register (r.1 + 1) loc_EndLength;
  if negb r.2 then mret (Some (Errorf "SunSpec Model 1 not configured as first model"))
  else mret None.
End configure.

(** ** The handlers *)

Section handlers.
Context `{GoPlatform}.

(** The lookups both loops start with: the register and its scaling. *)
Definition register_at (addr : Z) : go SunSpecServer response (nat * Register) :=
  s ← get;
  match registers s !! addr with
  | None => return_ ([], IllegalDataAddress)
  | Some l => r ← eval (heap s !! l) PanicNil; mret (l, r)
  end.

Definition scaling_of (r : Register) : go SunSpecServer response float64 :=
  if String.eqb (ScaleRegister r) "" then mret f64_0 else
  s ← get;
  match points s !! ScaleRegister r with
  | None => return_ ([], SlaveDeviceFailure)
  | Some l => p ← eval (heap s !! l) PanicNil; mret (InternalValue p)
  end.

(** [this.tags[r.Tag]]: nil when the tag is not in the map. *)
Definition tag_value (s : SunSpecServer) (tag : string) : any := default ANil (tags s !! tag).

Fixpoint read_loop (fuel : nat) (addr stop size : Z) (data : list Z)
  : go SunSpecServer response (Z * list Z) :=
  match fuel with
  | O => nofuel
  | S fuel' =>
    if addr <? stop then
      lr ← register_at addr;
      let r := lr.2 in
      scaling ← scaling_of r;
      s ← get;
      buf ← call (Bytes r (tag_value s (Tag r)) scaling);
      match buf with
      | inr _ => return_ ([], SlaveDeviceFailure)
      | inl buf => read_loop fuel' (addr + Count r) stop (size + Count r * 2) (data ++ buf)
      end
    else mret (size, data)
  end.

Definition readHoldingRegisters (data : slice) : go SunSpecServer response response :=
  start ← eval (uint16_at data 0) PanicBounds;
  count ← eval (uint16_at data 2) PanicBounds;
  r ← read_loop (S (Z.to_nat count)) start (start + count) 0 [];
  mret (r.1 mod 256 :: r.2, Success).

(** The loop of [writeHoldingRegisters] advances neither [addr] nor the offset
    [b] into the data: its fuel is a parameter. *)
Fixpoint write_loop (fuel : nat) (data : slice) (addr stop b : Z) (updates : list Point)
  : go SunSpecServer response (list Point) :=
  match fuel with
  | O => nofuel
  | S fuel' =>
    if addr <? stop then
      lr ← register_at addr;
      let '(l, r) := lr : nat * Register in
      scaling ← scaling_of r;
      d ← eval (slice_expr data b (b + Count r * 2)) PanicBounds;
      match Value r (Some (vis d)) scaling with
      | inr _ => return_ ([], SlaveDeviceFailure)
      | inl v =>
        updates ← (if String.eqb (Tag r) "" then
                     _ ← update_register l (set_InternalValue v);
                     _ ← put_register addr l;
                     mret updates
                   else mret (updates ++ [mk_Point (Tag r) v 0]));
        write_loop fuel' data addr stop b updates
      end
    else mret updates
  end.

Definition publish (updates : list Point) : go SunSpecServer response () :=
  s ← get;
  match NewEnvelope (name s) (mk_Update updates "" "") with
  | inr _ => return_ ([], SlaveDeviceFailure)
  | inl env =>
    match Push "RUNTIME" env (pusher s) with
    | (b, None) => modify (set_pusher b)
    | (b, Some _) => _ ← modify (set_pusher b); return_ ([], SlaveDeviceFailure)
    end
  end.

Definition writeHoldingRegisters (fuel : nat) (data : slice) : go SunSpecServer response response :=
  start ← eval (uint16_at data 0) PanicBounds;
  count ← eval (uint16_at data 2) PanicBounds;
  updates ← write_loop fuel data start (start + count) 5 [];
  _ ← (if (0 <? length updates)%nat then publish updates else mret ());
  r ← eval (slice_expr data 0 4) PanicBounds;
  mret (vis r, Success).

(** Only the tags the configuration names are kept. *)
Definition set_point (point : Point) : go SunSpecServer () () :=
  s ← get;
  match tags s !! Point_Tag point with
  | Some _ => modify (λ s, set_tags (<[Point_Tag point := AFloat (Point_Value point)]> (tags s)) s)
  | None => mret ()
  end.

Definition handleMsgBusStatus (env : Envelope) : go SunSpecServer () () :=
  s ← get;
  if String.eqb (Sender env) (name s) then return_ () else
  let '(status, e) := Envelope_Status env in
  let not_status :=
    match e with Some e => errors_Is e "not a Status message" | None => false end in
  if not_status then return_ () else
  range (Measurements status) set_point.
End handlers.

(** ** Specification vocabulary *)

(** What the configuration establishes and everything else keeps. *)
Record server_ok (s : SunSpecServer) : Prop := {
  ok_registers a l : registers s !! a = Some l → ∃ r, heap s !! l = Some r;
  ok_points n l : points s !! n = Some l →
    ∃ r, heap s !! l = Some r ∧ Name r = n ∧ (3 ≤ l)%nat;
  ok_heap l r : heap s !! l = Some r →
    register_wf r ∧ (string_size (DataType r) ≠ None → Tag r = "");
  ok_tags t v : tags s !! t = Some v → ∃ f, v = AFloat f;
  ok_globals l r : globals !! l = Some r → heap s !! l = Some r;
}.

(** The scaling of a register: zero, or the internal value of the point it
    names, if there is one. *)
Definition scale_of (s : SunSpecServer) (r : Register) : option float64 :=
  if String.eqb (ScaleRegister r) "" then Some f64_0
  else l ← points s !! ScaleRegister r; InternalValue <$> heap s !! l.

(** The words a register answers. *)
Definition encoding `{GoPlatform} (s : SunSpecServer) (r : Register) : list Z :=
  match Bytes r (tag_value s (Tag r)) (default f64_0 (scale_of s r)) with
  | Returns (inl bs) => bs
  | _ => []
  end.

Definition register_on (s : SunSpecServer) (a : Z) : option Register :=
  l ← registers s !! a; heap s !! l.

(** The registers a read of the addresses [a, stop) answers, and the exception
    that ends it, if any. *)
Inductive reads (s : SunSpecServer) (stop : Z) : Z → list Register → option Exception → Prop :=
| reads_end a : stop ≤ a → reads s stop a [] None
| reads_missing a :
    a < stop → register_on s a = None → reads s stop a [] (Some IllegalDataAddress)
| reads_unscaled a r :
    a < stop → register_on s a = Some r → scale_of s r = None →
    reads s stop a [] (Some SlaveDeviceFailure)
| reads_register a r rs e :
    a < stop → register_on s a = Some r → scale_of s r ≠ None →
    reads s stop (a + Count r) rs e → reads s stop a (r :: rs) e.

Definition words (rs : list Register) : Z := foldr (λ r n, Count r + n) 0 rs.

(** The header of a request. *)
Definition header (data : slice) (start count : Z) : Prop :=
  uint16_at data 0 = Some start ∧ uint16_at data 2 = Some count.

(** The fields of a register that the configuration fixes when it makes it, and
    the changes of the store it makes later: the values of registers named ID
    and L stay, unless the document sets them. *)
Definition same_point (r r' : Register) : Prop :=
  DataType r' = DataType r ∧ Name r' = Name r ∧ Model r' = Model r ∧ Count r' = Count r ∧
  Scaling r' = Scaling r ∧ ScaleRegister r' = ScaleRegister r.

(** A point takes at least a word; a point whose size is the count of its data
    type; and the length of points. *)
Definition spaced (p : SchemaPoint) : Prop := 1 ≤ Size p.
Definition sized (p : SchemaPoint) : Prop := data_type_count (point_data_type p) = Some (Size p).

Definition total (ps : list SchemaPoint) : Z := foldr (λ p n, Size p + n) 0 ps.

(** The points of a model have their registers at consecutive addresses from
    [a], as they were made, up to the values and tags that the document gives
    to others than ID and L, and are entered by name; those named ID and L hold
    the number and the length of the model. *)
Fixpoint placed (s : SunSpecServer) (id len : Z) (ps : list SchemaPoint) (a : Z) : Prop :=
  match ps with
  | [] => True
  | p :: ps' =>
    (∃ r0 r, point_register id len p = inl r0 ∧ register_on s a = Some r ∧ same_point r0 r ∧
       (PName p = "ID" ∨ PName p = "L" → r = r0) ∧ is_Some (points s !! PName p) ∧
       (PName p = "ID" → InternalValue r = f64_of_Z id) ∧
       (PName p = "L" → InternalValue r = f64_of_Z len)) ∧
    placed s id len ps' (a + Size p)
  end.

(** Models at consecutive addresses from [a] to [b]. *)
Fixpoint laid_out (s : SunSpecServer) (a : Z) (ms : list (Z * list SchemaPoint)) (b : Z)
  : Prop :=
  match ms with
  | [] => a = b
  | (id, ps) :: ms' => placed s id (GetModelLength ps) ps a ∧ laid_out s (a + total ps) ms' b
  end.

Definition model_elements `{Etree} (e : Element) : list Element :=
  List.filter (λ c, String.eqb (ETag c) "model") (ChildElements e).

(** The model that an element names. *)
Definition names_model `{Etree} `{Schemas} (c : Element) (m : Z * list SchemaPoint) : Prop :=
  (∃ attr, SelectAttr c "id" = Some attr ∧ Atoi attr = (m.1, None)) ∧ GetModelSchema m.1 = inl m.2.

(** The points of the models that a document names take at least a word each. *)
Definition spaced_models `{Etree} `{Schemas} (l : list Element) : Prop :=
  Forall (λ c, ∀ m, names_model c m → Forall spaced m.2) l.

(** No value element of a model is empty or names the points ID and L. *)
Definition plain_value `{Etree} (c : Element) : Prop :=
  Text c ≠ "" ∧ ETag c ≠ "ID" ∧ ETag c ≠ "L".

(** ** Lemmas *)

Lemma string_prefix dt n :
  data_type_count dt = Some n → HasPrefix dt "string" = true ↔ string_size dt ≠ None.
Proof.
  intros Hn. pose proof (data_type_known dt n Hn) as Hin. unfold data_types in Hin. simpl in Hin.
  repeat destruct Hin as [Hin|Hin]; [..|done]; subst dt; by vm_compute.
Qed.

Section reading.
Context `{GoPlatform}.

Lemma register_on_ok s a r :
  server_ok s → register_on s a = Some r →
  ∃ l, registers s !! a = Some l ∧ heap s !! l = Some r ∧ register_wf r ∧
    (string_size (DataType r) ≠ None → Tag r = "").
Proof.
  intros Hok. unfold register_on. destruct (registers s !! a) as [l|] eqn:Hl; [|done].
  simpl. intros Hr. destruct (ok_heap s Hok l r Hr). eauto.
Qed.

Lemma register_at_spec s a :
  server_ok s →
  ∃ l, register_at a s = (s, match register_on s a with
                             | Some r => Next (l, r)
                             | None => Return ([], IllegalDataAddress)
                             end).
Proof.
  intros Hok. unfold register_at, register_on. go_unfold.
  destruct (registers s !! a) as [l|] eqn:Hl; [|by exists 0%nat].
  destruct (ok_registers s Hok a l Hl) as [r Hr]. exists l. simpl. by rewrite Hr.
Qed.

Lemma scaling_of_spec s r :
  server_ok s →
  scaling_of r s = (s, match scale_of s r with
                       | Some sc => Next sc
                       | None => Return ([], SlaveDeviceFailure)
                       end).
Proof.
  intros Hok. unfold scaling_of, scale_of. destruct (String.eqb (ScaleRegister r) ""); [done|].
  go_unfold. destruct (points s !! ScaleRegister r) as [l|] eqn:Hl; [|done].
  destruct (ok_points s Hok _ l Hl) as (p & Hp & _). simpl. by rewrite Hp.
Qed.

(** Every register of a server has a value that fits it, unless the empty name
    is a tag. *)
Lemma tag_fits s a r :
  server_ok s → tags s !! "" = None → register_on s a = Some r → fits r (tag_value s (Tag r)).
Proof.
  intros Hok Ht Hr. destruct (register_on_ok s a r Hok Hr) as (l & _ & _ & _ & Hs).
  unfold tag_value, fits.
  destruct (tags s !! Tag r) as [v|] eqn:Hv; [|done]. simpl.
  destruct (ok_tags s Hok _ v Hv) as [f ->].
  destruct (string_size (DataType r)); [|done]. rewrite Hs in Hv by done. congruence.
Qed.

Lemma encoding_ok s a r sc :
  server_ok s → tags s !! "" = None → register_on s a = Some r → scale_of s r = Some sc →
  Bytes r (tag_value s (Tag r)) sc = Returns (inl (encoding s r)) ∧
  Z.of_nat (length (encoding s r)) = 2 * Count r.
Proof.
  intros Hok Ht Hr Hsc. destruct (register_on_ok s a r Hok Hr) as (l & _ & _ & Hwf & _).
  destruct (Bytes_fits r (tag_value s (Tag r)) sc Hwf (tag_fits s a r Hok Ht Hr))
    as (bs & Hb & _ & Hlen).
  unfold encoding. rewrite Hsc. change (default f64_0 (Some sc)) with sc. by rewrite Hb.
Qed.

Lemma count_pos s a r : server_ok s → register_on s a = Some r → 1 ≤ Count r ≤ 16.
Proof.
  intros Hok Hr. destruct (register_on_ok s a r Hok Hr) as (l & _ & _ & Hwf & _).
  by apply (data_type_count_range (DataType r)).
Qed.

Lemma reads_exist s stop : server_ok s → ∀ a, ∃ rs e, reads s stop a rs e.
Proof.
  intros Hok a. remember (Z.to_nat (stop - a)) as n eqn:Hn. revert a Hn.
  induction (lt_wf n) as [n _ IH]. intros a ->.
  destruct (Z.le_gt_cases stop a); [by eexists _, _; constructor|].
  destruct (register_on s a) as [r|] eqn:Hr; [|by eexists _, _; apply reads_missing; [lia|]].
  destruct (scale_of s r) as [sc|] eqn:Hsc; [|by eexists _, _; eapply reads_unscaled; [lia|..]].
  pose proof (count_pos s a r Hok Hr).
  edestruct (IH (Z.to_nat (stop - (a + Count r)))) as (rs & e & Hrs); [lia|reflexivity|].
  exists (r :: rs), e. eapply reads_register; [lia|done|congruence|done].
Qed.

Lemma read_loop_spec s stop fuel a size data rs e :
  server_ok s → tags s !! "" = None → (Z.to_nat (stop - a) < fuel)%nat → reads s stop a rs e →
  read_loop fuel a stop size data s =
    (s, match e with
        | None => Next (size + 2 * words rs, data ++ flat_map (encoding s) rs)
        | Some ex => Return ([], ex)
        end).
Proof.
  intros Hok Ht Hf Hr. revert fuel size data Hf.
  induction Hr as [a Ha|a Ha Hr|a r Ha Hr Hsc|a r rs e Ha Hr Hsc Hrs IH]; intros [|fuel] size data Hf;
    try lia; cbn [read_loop].
  - destruct (Z.ltb_spec a stop); [lia|]. simpl. by rewrite Z.add_0_r, app_nil_r.
  - destruct (Z.ltb_spec a stop); [|lia].
    destruct (register_at_spec s a Hok) as [l Hat]. rewrite Hr in Hat.
    by erewrite bind_return by exact Hat.
  - destruct (Z.ltb_spec a stop); [|lia].
    destruct (register_at_spec s a Hok) as [l Hat]. rewrite Hr in Hat.
    erewrite bind_next by exact Hat. cbn [snd].
    pose proof (scaling_of_spec s r Hok) as Hs. rewrite Hsc in Hs.
    by erewrite bind_return by exact Hs.
  - destruct (Z.ltb_spec a stop); [|lia].
    destruct (register_at_spec s a Hok) as [l Hat]. rewrite Hr in Hat.
    erewrite bind_next by exact Hat. cbn [snd].
    pose proof (scaling_of_spec s r Hok) as Hs.
    destruct (scale_of s r) as [sc|] eqn:Esc; [|done].
    erewrite bind_next by exact Hs. destruct (encoding_ok s a r sc Hok Ht Hr Esc) as [Hb _].
    erewrite bind_next by done. rewrite Hb. erewrite bind_next by done. cbv beta iota.
    pose proof (count_pos s a r Hok Hr).
    rewrite IH by lia. destruct e; [done|].
    change (words (r :: rs)) with (Count r + words rs). cbn [flat_map]. rewrite app_assoc.
    by replace (size + Count r * 2 + 2 * words rs) with (size + 2 * (Count r + words rs)) by lia.
Qed.

Lemma readHoldingRegisters_spec s data start count rs e :
  server_ok s → tags s !! "" = None → header data start count → 0 ≤ count →
  reads s (start + count) start rs e →
  run (readHoldingRegisters data) s =
    (s, Returns match e with
                | None => (2 * words rs mod 256 :: flat_map (encoding s) rs, Success)
                | Some ex => ([], ex)
                end).
Proof.
  intros Hok Ht [Hs Hc] Hcount Hr. unfold run, readHoldingRegisters.
  rewrite Hs, Hc. do 2 erewrite bind_next by done.
  pose proof (read_loop_spec s (start + count) (S (Z.to_nat count)) start 0 [] rs e Hok Ht ltac:(lia) Hr) as Hl.
  destruct e as [ex|]; [by erewrite bind_return by exact Hl|by erewrite bind_next by exact Hl].
Qed.

Lemma registers_encoding_length s stop a rs e :
  server_ok s → tags s !! "" = None → reads s stop a rs e →
  Z.of_nat (length (flat_map (encoding s) rs)) = 2 * words rs.
Proof.
  intros Hok Ht. induction 1 as [| | |a r rs e Ha Hr Hsc Hrs IH]; [done|done|done|].
  destruct (scale_of s r) as [sc|] eqn:Esc; [|done].
  destruct (encoding_ok s a r sc Hok Ht Hr Esc) as [_ Hl].
  change (words (r :: rs)) with (Count r + words rs). simpl. rewrite length_app. lia.
Qed.
End reading.

Section writing.
Context `{GoPlatform}.

(** The loop of a write finds what it needs in [s]: a number register of [n]
    words at [a], and the register of its scaling. *)
Definition writable (s : SunSpecServer) (a n : Z) : Prop :=
  ∃ l r, registers s !! a = Some l ∧ heap s !! l = Some r ∧
    register_wf r ∧ string_size (DataType r) = None ∧ Count r = n ∧
    (ScaleRegister r = "" ∨ ∃ l' p, points s !! ScaleRegister r = Some l' ∧ heap s !! l' = Some p).

Lemma writable_update s a n l r v :
  writable s a n → registers s !! a = Some l → heap s !! l = Some r →
  writable (set_registers (<[a := l]> (registers s))
             (set_heap (alter (set_InternalValue v) l (heap s)) s)) a n.
Proof.
  intros (l0 & r0 & Hl0 & Hr0 & Hwf & Hs & Hn & Hsc) Hl Hr.
  assert (l0 = l) as -> by congruence. assert (r0 = r) as -> by congruence.
  exists l, (set_InternalValue v r). simpl. rewrite lookup_insert_eq, list_lookup_alter_eq, Hr.
  split_and!; try done. destruct Hsc as [?|(l' & p & Hp & Hh)]; [by left|right]. exists l'.
  destruct (decide (l' = l)) as [->|Hne].
  - eexists. split; [done|]. by rewrite list_lookup_alter_eq, Hr.
  - exists p. split; [done|]. by rewrite list_lookup_alter_ne.
Qed.

Lemma writable_scaling s a n l r :
  writable s a n → registers s !! a = Some l → heap s !! l = Some r →
  ∃ sc, scaling_of r s = (s, Next sc).
Proof.
  intros (l0 & r0 & Hl0 & Hr0 & _ & _ & _ & Hsc) Hl Hr.
  assert (l0 = l) as -> by congruence. assert (r0 = r) as -> by congruence. unfold scaling_of.
  destruct Hsc as [->|(l' & p & Hp & Hh)]; [by eexists|].
  destruct (String.eqb (ScaleRegister r) ""); [by eexists|]. go_unfold. rewrite Hp, Hh. by eexists.
Qed.

(** Whatever the fuel, the loop uses it up. *)
Lemma write_loop_diverges fuel data a stop b n :
  a < stop → 0 ≤ b → b + 2 * n ≤ slice_cap data →
  ∀ s updates, writable s a n → (write_loop fuel data a stop b updates s).2 = NoFuel.
Proof.
  intros Ha Hb Hcap. induction fuel as [|fuel IH]; intros s updates Hw; [done|].
  pose proof Hw as (l & r & Hl & Hr & Hwf & Hs & Hn & _).
  pose proof (data_type_count_range _ _ Hwf).
  destruct (writable_scaling s a n l r Hw Hl Hr) as [sc Hsc].
  cbn [write_loop]. destruct (Z.ltb_spec a stop); [|lia].
  erewrite bind_next by (unfold register_at; go_unfold; by rewrite Hl, Hr). cbv beta iota.
  erewrite bind_next by exact Hsc.
  assert (Hd : ∃ d, slice_expr data b (b + Count r * 2) = Some d ∧ length (vis d) = Z.to_nat (2 * n)).
  { unfold slice_expr. unfold slice_cap in *.
    destruct (Z.leb_spec 0 b), (Z.leb_spec b (b + Count r * 2)),
      (Z.leb_spec (b + Count r * 2) (Z.of_nat (length (vis data ++ spare data)))); try lia.
    eexists. split; [done|]. simpl. rewrite length_take, length_drop. lia. }
  destruct Hd as (d & Hd & Hlen). rewrite Hd. erewrite bind_next by done.
  destruct (Value_enough r (vis d) sc Hwf Hs) as [v Hv]; [lia|]. rewrite Hv.
  destruct (String.eqb (Tag r) "").
  - erewrite bind_next by (unfold update_register, put_register; go_unfold; done).
    apply IH. by apply (writable_update s a n l r v).
  - erewrite bind_next by done. by apply IH.
Qed.

Lemma register_on_writable s a r sc :
  server_ok s → register_on s a = Some r → string_size (DataType r) = None →
  scale_of s r = Some sc → writable s a (Count r).
Proof.
  intros Hok Hr Hs Hsc. destruct (register_on_ok s a r Hok Hr) as (l & Hl & Hh & Hwf & _).
  exists l, r. split_and!; try done. unfold scale_of in Hsc.
  destruct (String.eqb_spec (ScaleRegister r) ""); [by left|right].
  destruct (points s !! ScaleRegister r) as [l'|] eqn:Hp; [|done]. simpl in Hsc.
  destruct (heap s !! l') as [p|] eqn:Hh'; [|done]. eauto.
Qed.

(** The first iteration on the other registers. *)
Lemma write_loop_refused fuel data a stop b s :
  server_ok s → a < stop → 0 ≤ b →
  (∀ r, register_on s a = Some r → string_size (DataType r) ≠ None ∨ scale_of s r = None) →
  (∀ r, register_on s a = Some r → b + 2 * Count r ≤ slice_cap data) →
  write_loop (S fuel) data a stop b [] s = (s, Return ([],
    match register_on s a with Some _ => SlaveDeviceFailure | None => IllegalDataAddress end)).
Proof.
  intros Hok Ha Hb Hr Hcap. cbn [write_loop]. destruct (Z.ltb_spec a stop); [|lia].
  destruct (register_at_spec s a Hok) as [l Hat].
  destruct (register_on s a) as [r|] eqn:Hon; [|by erewrite bind_return by exact Hat].
  erewrite bind_next by exact Hat. cbv beta iota.
  pose proof (scaling_of_spec s r Hok) as Hsc.
  destruct (scale_of s r) as [sc|] eqn:Esc; [|by erewrite bind_return by exact Hsc].
  erewrite bind_next by exact Hsc.
  destruct (Hr r eq_refl) as [Hs|?]; [|congruence]. specialize (Hcap r eq_refl).
  destruct (register_on_ok s a r Hok Hon) as (_ & _ & _ & Hwf & _).
  pose proof (data_type_count_range _ _ Hwf).
  unfold slice_expr.
  destruct (Z.leb_spec 0 b), (Z.leb_spec b (b + Count r * 2)),
    (Z.leb_spec (b + Count r * 2) (slice_cap data)); try lia. cbn [andb].
  erewrite bind_next by done. cbv beta iota.
  match goal with |- context [Value r (Some ?d) sc] =>
    destruct (Value_string r d sc Hs Hwf) as [e ->] end. done.
Qed.
End writing.

(** *** Status messages *)

Lemma server_ok_tags s t v :
  server_ok s → server_ok (set_tags (<[t := AFloat v]> (tags s)) s).
Proof.
  intros [H1 H2 H3 H4 H5]. split; simpl; try done.
  intros t' v' [[_ <-]|[_ Hv]]%lookup_insert_Some; eauto.
Qed.

(** A message changes the values of tags that exist, and nothing else. *)
Definition same_server (s s' : SunSpecServer) : Prop :=
  heap s' = heap s ∧ registers s' = registers s ∧ points s' = points s ∧ name s' = name s ∧
  dom (tags s') = dom (tags s) ∧ (server_ok s → server_ok s').

#[export] Instance same_server_preorder : PreOrder same_server.
Proof.
  split; [by intros s|]. unfold same_server.
  intros s1 s2 s3 (? & ? & ? & ? & ? & ?) (? & ? & ? & ? & ? & ?).
  split_and!; try congruence; auto.
Qed.

Lemma set_point_same p s : ∃ s', same_server s s' ∧ set_point p s = (s', Next ()).
Proof.
  unfold set_point. go_unfold. destruct (tags s !! Point_Tag p) as [v|] eqn:Ht; [|by exists s].
  eexists. split; [|done]. split_and!; try done.
  - simpl. apply dom_insert_lookup_L. by eexists.
  - by apply server_ok_tags.
Qed.

Lemma set_points_same ps s : ∃ s', same_server s s' ∧ range ps set_point s = (s', Next ()).
Proof.
  revert s. induction ps as [|p ps IH]; intros s; [by exists s|]. cbn [range].
  destruct (set_point_same p s) as (s1 & Hs1 & H1). destruct (IH s1) as (s2 & Hs2 & H2).
  exists s2. split; [by transitivity s1|]. by erewrite bind_next by exact H1.
Qed.

Lemma status_same env s :
  same_server s (run (handleMsgBusStatus env) s).1 ∧ (run (handleMsgBusStatus env) s).2 = Returns ().
Proof.
  unfold run, handleMsgBusStatus. go_unfold.
  destruct (String.eqb (Sender env) (name s)); [done|].
  destruct (Envelope_Status env) as [st e].
  destruct (match e with Some _ => _ | None => _ end); [done|].
  destruct (set_points_same (Measurements st) s) as (s' & Hs & Heq). by rewrite Heq.
Qed.

(** *** Configuration *)

(** A configuration step ends, with an error if it returns early, and keeps the
    server well-formed. *)
Definition cfg {A} (m : go SunSpecServer (option error) A) : Prop := ∀ s, server_ok s →
  match m s with
  | (s', Next _) => server_ok s'
  | (s', Return o) => server_ok s' ∧ o ≠ None
  | _ => False
  end.

Lemma cfg_ret {A} (a : A) : cfg (mret a).
Proof. by intros s. Qed.

Lemma cfg_error {A} e : cfg (return_ (A:=A) (Some e)).
Proof. by intros s. Qed.

Lemma cfg_bind {A B} (m : go SunSpecServer (option error) A) (k : A → go SunSpecServer (option error) B) :
  cfg m → (∀ a, cfg (k a)) → cfg (m ≫= k).
Proof.
  intros Hm Hk s Hs. specialize (Hm s Hs). unfold mbind, go_bind.
  destruct (m s) as [s' [a|o| |]]; try done. by apply Hk.
Qed.

Lemma cfg_modify f : (∀ s, server_ok s → server_ok (f s)) → cfg (modify f).
Proof. intros Hf s Hs. by apply Hf. Qed.

Lemma cfg_range {A} (l : list A) body : (∀ x, cfg (body x)) → cfg (range l body).
Proof. intros Hb. induction l; [apply cfg_ret|]. apply cfg_bind; auto. Qed.

#[export] Hint Resolve cfg_ret cfg_error cfg_bind cfg_modify cfg_range : go.

Lemma ok_put_register a l s :
  server_ok s → is_Some (heap s !! l) → server_ok (set_registers (<[a := l]> (registers s)) s).
Proof.
  intros [H1 H2 H3 H4 H5] [r Hr]. split; simpl; try done.
  intros a' l' [[_ <-]|[_ Hl]]%lookup_insert_Some; eauto.
Qed.

Lemma lookup_globals l : is_Some (globals !! l) ↔ (l < 3)%nat.
Proof. by rewrite lookup_lt_is_Some. Qed.

Lemma ok_heap_size s : server_ok s → (3 ≤ length (heap s))%nat.
Proof. intros Hok. apply (lookup_lt_Some _ 2 EndRegisterLength). by apply ok_globals. Qed.

(** Making the register of a point and entering it in both maps. *)
Definition add_point (a : Z) (n : string) (r : Register) (s : SunSpecServer) : SunSpecServer :=
  let l := length (heap s) in
  set_points (<[n := l]> (points s))
    (set_registers (<[a := l]> (registers s)) (set_heap (heap s ++ [r]) s)).

Lemma ok_add_point a r s :
  server_ok s → register_wf r → Tag r = "" → server_ok (add_point a (Name r) r s).
Proof.
  intros Hok Hwf Ht. pose proof (ok_heap_size s Hok) as Hsz. destruct Hok as [H1 H2 H3 H4 H5].
  assert (Hnew : (heap s ++ [r]) !! length (heap s) = Some r) by (by rewrite list_lookup_middle).
  assert (Hold : ∀ l r', heap s !! l = Some r' → (heap s ++ [r]) !! l = Some r')
    by (intros; by apply lookup_app_l_Some).
  split; simpl.
  - intros a' l [[_ <-]|[_ Hl]]%lookup_insert_Some; [eauto|].
    destruct (H1 a' l Hl) as [r' Hr']. eauto.
  - intros n l [[<- <-]|[_ Hl]]%lookup_insert_Some; [eauto 6|].
    destruct (H2 n l Hl) as (r' & Hr' & ? & ?). eauto 6.
  - intros l r' Hr'. apply lookup_app_Some in Hr' as [Hr'|[_ Hr']]; [by apply (H3 l)|].
    apply list_lookup_singleton_Some in Hr' as [_ <-]. by split.
  - done.
  - intros l r' Hr'. apply Hold. by apply H5.
Qed.

Lemma ok_update n l f s :
  server_ok s → points s !! n = Some l →
  (∀ r, same_point r (f r)) →
  (∀ r, heap s !! l = Some r → Tag (f r) = Tag r ∨ string_size (DataType r) = None) →
  server_ok (set_heap (alter f l (heap s)) s).
Proof.
  intros Hok Hn Hf Htag. destruct (ok_points s Hok n l Hn) as (r0 & Hr0 & Hname & Hl3).
  destruct Hok as [H1 H2 H3 H4 H5].
  assert (Hh : ∀ x r, heap s !! x = Some r →
    ∃ r', alter f l (heap s) !! x = Some r' ∧ same_point r r').
  { intros x r Hr. destruct (decide (x = l)) as [->|Hne].
    - exists (f r). rewrite list_lookup_alter_eq, Hr. split; [done|apply Hf].
    - exists r. rewrite list_lookup_alter_ne by done. by split. }
  split; simpl.
  - intros a' x Hx. destruct (H1 a' x Hx) as [r Hr]. destruct (Hh x r Hr) as (r' & ? & _). eauto.
  - intros n' x Hx. destruct (H2 n' x Hx) as (r & Hr & Hnm & ?).
    destruct (Hh x r Hr) as (r' & Hr' & (_ & Hn' & _)). exists r'. split_and!; [done|congruence|done].
  - intros x r' Hr'. destruct (decide (x = l)) as [->|Hne].
    + rewrite list_lookup_alter_eq, Hr0 in Hr'. simpl in Hr'. injection Hr' as <-.
      destruct (H3 l r0 Hr0) as [Hwf Ht].
      destruct (Hf r0) as (Hd & _ & _ & Hc & _). unfold register_wf. rewrite Hd, Hc.
      split; [exact Hwf|]. intros Hstr. destruct (Htag r0 Hr0) as [->|?]; [auto|done].
    + rewrite list_lookup_alter_ne in Hr' by done. by apply (H3 x).
  - done.
  - intros x r Hr. assert (x < 3)%nat by (apply lookup_globals; eauto).
    rewrite list_lookup_alter_ne by lia. by apply H5.
Qed.

(** How the store changes while models from address [a] on are configured. *)
Record grows (a : Z) (s s' : SunSpecServer) : Prop := {
  grows_registers x : x < a → registers s' !! x = registers s !! x;
  grows_heap l r : heap s !! l = Some r →
    ∃ r', heap s' !! l = Some r' ∧ same_point r r' ∧ (Name r = "ID" ∨ Name r = "L" → r' = r);
  grows_points n : is_Some (points s !! n) → is_Some (points s' !! n);
  grows_name : name s' = name s;
  grows_pusher : pusher s' = pusher s;
  grows_empty : tags s !! "" = None → tags s' !! "" = None;
}.

#[export] Instance same_point_preorder : PreOrder same_point.
Proof. split; [by intros r|]. unfold same_point. intros r1 r2 r3. intuition congruence. Qed.

#[export] Instance grows_preorder a : PreOrder (grows a).
Proof.
  split; [intros s; split; eauto; intros l r Hr; by exists r|].
  intros s1 s2 s3 [R1 H1 M1 N1 P1 T1] [R2 H2 M2 N2 P2 T2].
  split; [intros x Hx; by rewrite R2, R1| |auto|congruence|congruence|auto].
  intros l r Hr. destruct (H1 l r Hr) as (r1 & Hr1 & Hs1 & Hk1).
  destruct (H2 l r1 Hr1) as (r2 & Hr2 & Hs2 & Hk2).
  exists r2. split_and!; [done|by transitivity r1|]. intros Hn.
  rewrite (Hk1 Hn) in *. auto.
Qed.

Lemma grows_weaken a b s s' : b ≤ a → grows a s s' → grows b s s'.
Proof. intros Hb [R H M N P T]. split; try done. intros x Hx. apply R. lia. Qed.

Lemma grows_put_register a x l s : a ≤ x → grows a s (set_registers (<[x := l]> (registers s)) s).
Proof.
  intros Hx. split; simpl; try done.
  - intros y Hy. by rewrite lookup_insert_ne by lia.
  - intros l' r Hr. by exists r.
Qed.

Lemma grows_add_point a x n r s : a ≤ x → grows a s (add_point x n r s).
Proof.
  intros Hx. split; simpl; try done.
  - intros y Hy. by rewrite lookup_insert_ne by lia.
  - intros l' r' Hr. exists r'. split; [by apply lookup_app_l_Some|done].
  - intros n' Hn'. destruct (decide (n = n')) as [->|Hne];
      [rewrite lookup_insert_eq; by eexists|by rewrite lookup_insert_ne].
Qed.

Lemma grows_update a n l f s :
  server_ok s → points s !! n = Some l → n ≠ "ID" → n ≠ "L" → (∀ r, same_point r (f r)) →
  grows a s (set_heap (alter f l (heap s)) s).
Proof.
  intros Hok Hn Hid Hl Hf. destruct (ok_points s Hok n l Hn) as (r0 & Hr0 & Hname & _).
  split; simpl; try done. intros x r Hr. destruct (decide (x = l)) as [->|Hne].
  - exists (f r). rewrite list_lookup_alter_eq, Hr. split_and!; [done|done|].
    assert (r0 = r) as -> by congruence. intros [?|?]; congruence.
  - exists r. by rewrite list_lookup_alter_ne.
Qed.

Section configuration.
Context `{Etree} `{Schemas}.

Lemma point_register_ok id len p r :
  point_register id len p = inl r →
  register_wf r ∧ Name r = PName p ∧ DataType r = point_data_type p ∧ Tag r = "" ∧
  InternalValue r = (if String.eqb (PName p) "L" then f64_of_Z len
                     else if String.eqb (PName p) "ID" then f64_of_Z id else f64_0) ∧
  (Sf p = SfNil ∨ (∃ sf, Sf p = SfString sf) → Scaling r = f64_0) ∧
  ScaleRegister r = match Sf p with SfString sf => sf | _ => "" end.
Proof.
  unfold point_register.
  set (r0 := if String.eqb (PName p) "L" then _ else _).
  assert (Hr0 : Name r0 = PName p ∧ DataType r0 = point_data_type p ∧ Tag r0 = "" ∧
    Scaling r0 = f64_0 ∧ ScaleRegister r0 = "" ∧
    InternalValue r0 = (if String.eqb (PName p) "L" then f64_of_Z len
                        else if String.eqb (PName p) "ID" then f64_of_Z id else f64_0)).
  { subst r0. by destruct (String.eqb (PName p) "L"), (String.eqb (PName p) "ID"). }
  clearbody r0. destruct Hr0 as (Hn & Hd & Ht & Hs & Hsr & Hv).
  assert (Hi : ∀ r1, Name r1 = Name r0 → DataType r1 = DataType r0 → Tag r1 = Tag r0 →
    InternalValue r1 = InternalValue r0 → wrapf "initializing register %d: %w" (Init r1) = inl r →
    register_wf r ∧ Name r = PName p ∧ DataType r = point_data_type p ∧ Tag r = "" ∧
    InternalValue r = InternalValue r0 ∧ Scaling r = SFabs (Scaling r1) ∧
    ScaleRegister r = ScaleRegister r1).
  { intros r1 Hn1 Hd1 Ht1 Hv1. destruct (Init r1) as [r'|] eqn:Hi; [|done]. intros [= <-].
    pose proof (sunspec_Init_wf _ _ Hi) as Hwf. unfold Init in Hi.
    destruct (data_type_count (DataType r1)); [|done]. injection Hi as <-. simpl in *.
    split_and!; [exact Hwf|congruence..]. }
  rewrite <- Hv. destruct (Sf p); cbn [result_bind]; try done;
    (intros Hr; apply Hi in Hr as (? & ? & ? & ? & ? & Hsc & Hsr'); try done; split_and!; try done);
    try (by rewrite Hsr'); intros Hcase; rewrite Hsc; simpl; try (by rewrite Hs);
    by destruct Hcase as [?|[? ?]].
Qed.

Lemma configure_points_cons id len p ps a s :
  configure_points id len (p :: ps) a s =
  match point_register id len p with
  | inr e => (s, Return (Some e))
  | inl r => configure_points id len ps (a + Size p) (add_point a (PName p) r s)
  end.
Proof. cbn [configure_points]. by destruct (point_register id len p). Qed.

Lemma cfg_configure_points id len ps a : cfg (configure_points id len ps a).
Proof.
  revert a. induction ps as [|p ps IH]; intros a s Hs; [done|]. rewrite configure_points_cons.
  destruct (point_register id len p) as [r|e] eqn:Hr; [|done].
  destruct (point_register_ok _ _ _ _ Hr) as (Hwf & Hn & _ & Ht & _).
  apply IH. rewrite <- Hn. by apply ok_add_point.
Qed.

Lemma cfg_configure_value a child : cfg (configure_value a child).
Proof.
  intros s Hs. unfold configure_value. go_unfold.
  destruct (points s !! ETag child) as [l|] eqn:Hl; [|done].
  destruct (ok_points s Hs _ l Hl) as (r & Hr & Hn & _). rewrite Hr.
  destruct (ok_heap s Hs l r Hr) as [Hwf _].
  assert (Hput : ∀ s', server_ok s' → is_Some (heap s' !! l) →
    server_ok (set_registers (<[a := l]> (registers s')) s')) by (intros; by apply ok_put_register).
  pose proof (string_prefix _ _ Hwf) as Hpre.
  destruct (HasPrefix (DataType r) "string").
  - unfold update_register, put_register. go_unfold. apply Hput; [|simpl; rewrite list_lookup_alter_eq, Hr; by eexists].
    apply (ok_update (ETag child)); [done|done|done|by left].
  - assert (string_size (DataType r) = None) as Hnum
      by (destruct (string_size (DataType r)) eqn:E; [exfalso; by assert (false = true) by (by apply Hpre)|done]).
    destruct (ParseFloat (Text child)) as [v [e|]]; unfold update_register, put_register; go_unfold;
      (apply Hput; [|simpl; rewrite list_lookup_alter_eq, Hr; by eexists]).
    + apply (ok_update (ETag child) l _ (set_tags _ s)); simpl;
        [by apply server_ok_tags|done|done|]. intros r' Hr'. right. congruence.
    + apply (ok_update (ETag child)); [done|done|done|by left].
Qed.

Lemma cfg_configure_model child a : cfg (configure_model child a).
Proof.
  unfold configure_model. destruct (SelectAttr child "id"); [|auto with go].
  destruct (Atoi _) as [id [e|]]; [auto with go|]. destruct (GetModelSchema id); [|auto with go].
  apply cfg_bind; [apply cfg_configure_points|]. intros a'. apply cfg_bind; [|auto with go].
  apply cfg_range. intros x. apply cfg_configure_value.
Qed.

Lemma cfg_configure_children l a m1 : cfg (configure_children l a m1).
Proof.
  revert a m1. induction l as [|c l IH]; intros a m1; [apply cfg_ret|]. cbn [configure_children].
  repeat match goal with
  | |- cfg (if ?b then _ else _) => destruct b
  | |- cfg (modify _ ≫= _) => apply cfg_bind;
      [apply cfg_modify; intros s [H1' H2' H3' H4' H5']; by split|intros _]
  | |- cfg (configure_model _ _ ≫= _) => apply cfg_bind; [apply cfg_configure_model|intros m]
  end; apply IH.
Qed.

(** *** A successful configuration *)

Lemma sized_pos p : sized p → 1 ≤ Size p.
Proof. intros Hp. apply (data_type_count_range _ _ Hp). Qed.

Lemma sized_spaced ps : Forall sized ps → Forall spaced ps.
Proof. intros Hps. eapply Forall_impl; [exact Hps|]. apply sized_pos. Qed.

Lemma total_spaced ps : Forall spaced ps → 0 ≤ total ps.
Proof.
  unfold spaced. induction 1 as [|p ps Hp _ IH]; [done|].
  change (total (p :: ps)) with (Size p + total ps). lia.
Qed.

Lemma total_nonneg ps : Forall sized ps → 0 ≤ total ps.
Proof. intros Hps. by apply total_spaced, sized_spaced. Qed.

Lemma register_on_grows a b s s' r :
  grows b s s' → a < b → register_on s a = Some r →
  ∃ r', register_on s' a = Some r' ∧ same_point r r' ∧ (Name r = "ID" ∨ Name r = "L" → r' = r).
Proof.
  intros [Hr Hh _ _ _ _] Ha. unfold register_on. rewrite Hr by done.
  destruct (registers s !! a) as [l|]; [|done]. simpl. intros Hl. eauto.
Qed.

Lemma placed_grows id len ps a b s s' :
  grows b s s' → Forall spaced ps → a + total ps ≤ b →
  placed s id len ps a → placed s' id len ps a.
Proof.
  intros Hg Hsz. revert a. induction Hsz as [|p ps Hp Hps IH]; intros a Hb; [done|].
  change (total (p :: ps)) with (Size p + total ps) in Hb.
  unfold spaced in Hp. pose proof (total_spaced ps Hps). cbn [placed].
  intros [(r0 & r & Hr0 & Hr & Hs & Hk & Hnm & Hid & Hl) Hrest]. split; [|by apply IH; [lia|]].
  destruct (register_on_grows a b s s' r Hg ltac:(lia) Hr) as (r' & Hr' & Hs' & Hk').
  destruct (point_register_ok _ _ _ _ Hr0) as (_ & Hn0 & _).
  assert (PName p = "ID" ∨ PName p = "L" → r' = r) as Hsame
    by (intros Hn; apply Hk'; destruct Hs as (_ & -> & _); by rewrite Hn0).
  exists r0, r'. split_and!; [done|done|by transitivity r| |by apply (grows_points _ _ _ Hg)|..];
    intros Hn; rewrite Hsame by tauto; auto.
Qed.

Lemma configure_points_spec id len ps a s s' a' :
  Forall spaced ps → configure_points id len ps a s = (s', Next a') →
  a' = a + total ps ∧ grows a s s' ∧ placed s' id len ps a.
Proof.
  intros Hsz. revert a s. induction Hsz as [|p ps Hp Hps IH]; intros a s Hrun.
  { injection Hrun as <- <-. split; [simpl; lia|]. by split. }
  rewrite configure_points_cons in Hrun.
  destruct (point_register id len p) as [r|e] eqn:Hr; [|done].
  destruct (IH _ _ Hrun) as (-> & Hg & Hpl). unfold spaced in Hp.
  change (total (p :: ps)) with (Size p + total ps). split; [lia|].
  assert (grows a s (add_point a (PName p) r s)) as Hg0 by (by apply grows_add_point).
  split; [etransitivity; [exact Hg0|apply (grows_weaken (a + Size p)); [lia|done]]|].
  cbn [placed]. split; [|done].
  assert (register_on (add_point a (PName p) r s) a = Some r) as Hon.
  { unfold register_on, add_point. simpl. rewrite lookup_insert_eq. simpl.
    by rewrite list_lookup_middle. }
  destruct (register_on_grows a _ _ _ r Hg ltac:(lia) Hon) as (r' & Hr' & Hs & Hk).
  destruct (point_register_ok _ _ _ _ Hr) as (_ & Hn0 & _ & _ & Hv & _). rewrite Hn0 in Hk.
  exists r, r'. split_and!; [done|done|done|exact Hk| |..].
  - apply (grows_points _ _ _ Hg). unfold add_point. simpl. rewrite lookup_insert_eq. by eexists.
  - intros Hn. rewrite Hk by tauto. by rewrite Hv, Hn.
  - intros Hn. rewrite Hk by tauto. by rewrite Hv, Hn.
Qed.

Lemma configure_value_spec a child s s' :
  server_ok s → plain_value child → configure_value a child s = (s', Next ()) → grows a s s'.
Proof.
  intros Hok (Htext & Hid & Hl) Hrun. unfold configure_value in Hrun. go_unfold.
  destruct (points s !! ETag child) as [l|] eqn:Hp; [|done].
  destruct (ok_points s Hok _ l Hp) as (r & Hr & _). rewrite Hr in Hrun.
  assert (Hup : ∀ f, (∀ r, same_point r (f r)) → grows a s (set_heap (alter f l (heap s)) s))
    by (intros f; by apply (grows_update a (ETag child))).
  assert (Hput : ∀ s1, grows a s s1 → grows a s (set_registers (<[a := l]> (registers s1)) s1))
    by (intros s1 H1'; etransitivity; [exact H1'|by apply grows_put_register]).
  destruct (HasPrefix (DataType r) "string"); [|destruct (ParseFloat (Text child)) as [v [e|]]];
    unfold update_register, put_register in Hrun; go_unfold; injection Hrun as <-;
    (match goal with |- grows _ _ (set_registers _ ?s1) => apply (Hput s1) end);
    try by apply Hup.
  destruct (Hup (set_Tag (Text child)) ltac:(done)) as [G1 G2 G3 G4 G5 G6]. split; simpl; try done.
  intros He. by rewrite lookup_insert_ne.
Qed.

Lemma configure_values_spec a l s s' :
  server_ok s → Forall plain_value l → range l (configure_value a) s = (s', Next ()) → grows a s s'.
Proof.
  intros Hok Hl. revert s Hok. induction Hl as [|c l Hc Hl IH]; intros s Hok Hrun.
  { by injection Hrun as <-. }
  cbn [range] in Hrun. unfold mbind, go_bind in Hrun.
  pose proof (cfg_configure_value a c s Hok) as Hok1.
  destruct (configure_value a c s) as [s1 [[]| | |]] eqn:Hv; try done.
  transitivity s1; [by apply (configure_value_spec a c)|by apply IH].
Qed.

Lemma configure_model_spec c a s s' m :
  server_ok s → Forall plain_value (ChildElements c) → (∀ m, names_model c m → Forall spaced m.2) →
  configure_model c a s = (s', Next m) →
  ∃ ps, names_model c (m.1, ps) ∧ m.2 = a + total ps ∧ grows a s s' ∧
    placed s' m.1 (GetModelLength ps) ps a.
Proof.
  intros Hok Hplain Hsp Hrun. unfold configure_model in Hrun.
  destruct (SelectAttr c "id") as [attr|] eqn:Ha; [|done].
  destruct (Atoi attr) as [id [e|]] eqn:Hat; [done|].
  destruct (GetModelSchema id) as [ps|e] eqn:Hps; [|done].
  assert (names_model c (id, ps)) as Hnm by (split; eauto). pose proof (Hsp _ Hnm : Forall spaced ps) as Hsz.
  unfold mbind, go_bind in Hrun.
  pose proof (cfg_configure_points id (GetModelLength ps) ps a s Hok) as Hok1.
  destruct (configure_points id (GetModelLength ps) ps a s) as [s1 [a'| | |]] eqn:Hp; try done.
  destruct (configure_points_spec _ _ _ _ _ _ _ Hsz Hp) as (-> & Hg & Hpl).
  destruct (range (ChildElements c) (configure_value (a + total ps)) s1) as [s2 [[]| | |]] eqn:Hv; try done.
  injection Hrun as <- <-. exists ps. simpl.
  pose proof (configure_values_spec _ _ _ _ Hok1 Hplain Hv) as Hg2.
  pose proof (total_spaced ps Hsz).
  split_and!; [exact Hnm|done| |by eapply placed_grows].
  transitivity s1; [done|]. apply (grows_weaken (a + total ps)); [lia|done].
Qed.

Lemma laid_out_grows a ms b c s s' :
  grows c s s' → b ≤ c → Forall (λ m : Z * list SchemaPoint, Forall spaced m.2) ms →
  laid_out s a ms b → laid_out s' a ms b ∧ a ≤ b.
Proof.
  intros Hg Hbc Hsz. revert a. induction Hsz as [|[id ps] ms Hps Hsz IH]; intros a; simpl.
  { intros ->. split; [done|lia]. }
  intros [Hp Hl]. destruct (IH _ Hl) as [IH1 IH2]. simpl in Hps. pose proof (total_spaced ps Hps).
  split; [split; [eapply placed_grows; eauto; lia|done]|lia].
Qed.

Lemma named_spaced l ms :
  spaced_models l → Forall2 names_model l ms → Forall (λ m : Z * list SchemaPoint, Forall spaced m.2) ms.
Proof. intros Hsp H2. induction H2; inversion Hsp; subst; constructor; auto. Qed.

Lemma grows_settings a f s :
  (∀ s, heap (f s) = heap s ∧ registers (f s) = registers s ∧ points (f s) = points s ∧
        name (f s) = name s ∧ pusher (f s) = pusher s ∧ tags (f s) = tags s) →
  grows a s (f s).
Proof.
  intros Hf. destruct (Hf s) as (Hh & Hr & Hm & Hn & Hp & Ht).
  split; rewrite ?Hh, ?Hr, ?Hm, ?Hn, ?Hp, ?Ht; try done. intros l r Hl. by exists r.
Qed.

Lemma configure_models_spec l a m1 s s' r :
  server_ok s → Forall (λ c, ETag c = "model" → Forall plain_value (ChildElements c)) l →
  spaced_models (List.filter (λ c, String.eqb (ETag c) "model") l) →
  configure_children l a m1 s = (s', Next r) →
  ∃ ms, Forall2 names_model (List.filter (λ c, String.eqb (ETag c) "model") l) ms ∧
    grows a s s' ∧ laid_out s' a ms r.1 ∧ a ≤ r.1 ∧
    r.2 = m1 || existsb (λ m, m.1 =? 1) ms.
Proof.
  intros Hok Hl. revert a m1 s Hok. induction Hl as [|c l Hc Hl IH]; intros a m1 s Hok Hsp Hrun.
  { injection Hrun as <- <-. exists []. split_and!; simpl; first [done|lia|by rewrite orb_false_r]. }
  cbn [configure_children] in Hrun.
  assert (Hother : ∀ f, String.eqb (ETag c) "model" = false →
    (∀ s, heap (f s) = heap s ∧ registers (f s) = registers s ∧ points (f s) = points s ∧
          name (f s) = name s ∧ pusher (f s) = pusher s ∧ tags (f s) = tags s) →
    configure_children l a m1 (f s) = (s', Next r) →
    ∃ ms, Forall2 names_model (List.filter (λ c, String.eqb (ETag c) "model") (c :: l)) ms ∧
      grows a s s' ∧ laid_out s' a ms r.1 ∧ a ≤ r.1 ∧ r.2 = m1 || existsb (λ m, m.1 =? 1) ms).
  { intros f Hm Hf Hrun'. simpl in Hsp. rewrite Hm in Hsp.
    destruct (IH a m1 (f s)) as (ms & H2 & Hg & Hlay & Hle & Hr); [|done|done|].
    - destruct (Hf s) as (Hh & Hr & Hp & _ & _ & Ht). destruct Hok as [O1 O2 O3 O4 O5].
      split; rewrite ?Hh, ?Hr, ?Hp, ?Ht; done.
    - exists ms. simpl. rewrite Hm. split_and!; try done. transitivity (f s); [|done].
      by apply grows_settings. }
  destruct (String.eqb_spec (ETag c) "pull-endpoint") as [E|_].
  { apply (Hother (set_pullEndpoint (Text c))); [by rewrite E|done|done]. }
  destruct (String.eqb_spec (ETag c) "pub-endpoint") as [E|_].
  { apply (Hother (set_pubEndpoint (Text c))); [by rewrite E|done|done]. }
  destruct (String.eqb_spec (ETag c) "endpoint") as [E|_].
  { apply (Hother (set_endpoint (Text c))); [by rewrite E|done|done]. }
  destruct (String.eqb_spec (ETag c) "model") as [E|E].
  2: { by apply (Hother id). }
  simpl in Hsp. rewrite (proj2 (String.eqb_eq _ _) E) in Hsp.
  pose proof (Forall_inv Hsp) as Hsp1. pose proof (Forall_inv_tail Hsp) as Hsp2. cbv beta in Hsp1.
  unfold mbind, go_bind in Hrun. pose proof (cfg_configure_model c a s Hok) as Hok1.
  destruct (configure_model c a s) as [s1 [m| | |]] eqn:Hm; try done.
  destruct (configure_model_spec c a s s1 m Hok (Hc E) Hsp1 Hm) as (ps & Hnm & Hm2 & Hg & Hpl).
  destruct (IH _ _ _ Hok1 Hsp2 Hrun) as (ms & H2 & Hg2 & Hlay & Hle & Hr).
  pose proof (Hsp1 _ Hnm) as Hsz. simpl in Hsz. pose proof (total_spaced ps Hsz).
  rewrite Hm2 in Hg2, Hlay, Hle. exists ((m.1, ps) :: ms). split_and!.
  - simpl. rewrite (proj2 (String.eqb_eq _ _) E). by constructor.
  - transitivity s1; [done|]. apply (grows_weaken (a + total ps)); [lia|done].
  - simpl. split; [|done]. eapply placed_grows; eauto. lia.
  - lia.
  - rewrite Hr. simpl. destruct (m.1 =? 1); [by rewrite orb_true_r|done].
Qed.

Lemma server_ok_New nm : server_ok (New nm).
Proof.
  split; simpl; try done.
  intros l r Hr. do 3 (destruct l as [|l]; [injection Hr as <-; by split|]). done.
Qed.

(** The two ends of a configuration. *)
Definition framed (s : SunSpecServer) : SunSpecServer :=
  set_registers (<[40000 := loc_Identifier]> (registers s)) s.
Definition terminated (b : Z) (s : SunSpecServer) : SunSpecServer :=
  let s1 := set_registers (<[b := loc_End]> (registers s)) s in
  set_registers (<[b + 1 := loc_EndLength]> (registers s1)) s1.

Lemma Configure_unfold e s :
  Configure e s =
  match configure_children (ChildElements e) 40002 false (framed s) with
  | (s1, Next r) =>
    (terminated r.1 s1,
     Next (if r.2 then None else Some (Errorf "SunSpec Model 1 not configured as first model")))
  | (s1, Return o) => (s1, Return o)
  | (s1, Panic p) => (s1, Panic p)
  | (s1, NoFuel) => (s1, NoFuel)
  end.
Proof.
  unfold Configure. erewrite bind_next by (unfold put_register; go_unfold; reflexivity).
  unfold mbind at 1, go_bind at 1. fold (framed s).
  destruct (configure_children (ChildElements e) 40002 false (framed s)) as [s1 [r|o| |]]; try done.
  do 2 erewrite bind_next by (unfold put_register; go_unfold; reflexivity). by destruct r.2.
Qed.

Lemma ok_framed s : server_ok s → server_ok (framed s).
Proof.
  intros Hok. pose proof (ok_heap_size s Hok).
  apply ok_put_register; [done|]. apply lookup_lt_is_Some. unfold loc_Identifier. lia.
Qed.

Lemma ok_terminated b s : server_ok s → server_ok (terminated b s).
Proof.
  intros Hok. pose proof (ok_heap_size s Hok). apply ok_put_register; [apply ok_put_register; [done|]|].
  - apply lookup_lt_is_Some. unfold loc_End. lia.
  - apply (lookup_lt_is_Some (heap s)). unfold loc_EndLength. lia.
Qed.

Lemma grows_terminated b s : grows b s (terminated b s).
Proof.
  etransitivity; [by apply (grows_put_register b b loc_End)|].
  apply grows_put_register. lia.
Qed.

Lemma cfg_Configure e : cfg (Configure e).
Proof.
  intros s Hok. rewrite Configure_unfold.
  pose proof (cfg_configure_children (ChildElements e) 40002 false _ (ok_framed s Hok)) as Hc.
  destruct (configure_children _ _ _ (framed s)) as [s1 [r|o| |]]; try done. by apply ok_terminated.
Qed.

Lemma sunspec_Configure_ends e s :
  server_ok s → (∃ o, (run (Configure e) s).2 = Returns o) ∧ server_ok (run (Configure e) s).1.
Proof.
  intros Hok. pose proof (cfg_Configure e s Hok) as Hc. unfold run.
  destruct (Configure e s) as [s' [o|o| |]]; simpl in *; try done; [eauto|].
  destruct Hc. eauto.
Qed.

(** The layout a successful configuration leaves. *)
Lemma Configure_layout e nm s :
  Forall (λ c, ETag c = "model" → Forall plain_value (ChildElements c)) (ChildElements e) →
  spaced_models (model_elements e) →
  run (Configure e) (New nm) = (s, Returns None) →
  ∃ ms b, Forall2 names_model (model_elements e) ms ∧ laid_out s 40002 ms b ∧ 40002 ≤ b ∧
    Exists (λ m, m.1 = 1) ms ∧ register_on s 40000 = Some IdentifierRegister ∧
    register_on s b = Some EndRegister ∧ register_on s (b + 1) = Some EndRegisterLength ∧
    tags s !! "" = None ∧ pusher s = mk_bus [] 0 (λ _, true).
Proof.
  intros Hplain Hsp Hrun. unfold run in Hrun. rewrite Configure_unfold in Hrun.
  pose proof (ok_framed _ (server_ok_New nm)) as Hok0.
  pose proof (cfg_configure_children (ChildElements e) 40002 false _ Hok0) as Hok1.
  destruct (configure_children (ChildElements e) 40002 false (framed (New nm)))
    as [s1 [r|o| |]] eqn:Hr; [|by destruct Hok1 as [_ Ho]; injection Hrun as _ ->|done|done].
  destruct (configure_models_spec _ _ _ _ _ _ Hok0 Hplain Hsp Hr) as (ms & H2 & Hg & Hlay & Hle & Hm1).
  destruct (r.2) eqn:Er; simpl in Hrun; [|done]. injection Hrun as <-.
  exists ms, r.1. pose proof (grows_terminated r.1 s1) as Hg2.
  assert (Hglob : ∀ l g, globals !! l = Some g → heap s1 !! l = Some g) by apply (ok_globals s1 Hok1).
  split_and!; try done.
  - destruct (laid_out_grows 40002 ms r.1 r.1 _ _ Hg2 ltac:(lia)) as [Hl _]; [|exact Hlay|exact Hl].
    by eapply named_spaced.
  - symmetry in Hm1. apply existsb_exists in Hm1 as (m & Hin & Hm). apply Exists_exists.
    exists m. split; [by apply list_elem_of_In|by apply Z.eqb_eq].
  - unfold register_on, terminated. simpl. rewrite !lookup_insert_ne by lia.
    rewrite (grows_registers _ _ _ Hg) by lia. simpl. by apply Hglob.
  - unfold register_on, terminated. simpl. rewrite lookup_insert_ne, lookup_insert_eq by lia.
    simpl. by apply Hglob.
  - unfold register_on, terminated. simpl. rewrite lookup_insert_eq. simpl. by apply Hglob.
  - simpl. by apply (grows_empty _ _ _ Hg).
  - simpl. by rewrite (grows_pusher _ _ _ Hg).
Qed.
End configuration.

(** *** The empty tag *)

Section empty_tag.
Context `{Etree} `{Schemas}.

Definition no_empty_tag (s s' : SunSpecServer) : Prop := tags s !! "" = None → tags s' !! "" = None.

#[export] Instance no_empty_tag_preorder : PreOrder no_empty_tag.
Proof. unfold no_empty_tag. split; [by intros s|]. intros s1 s2 s3. tauto. Qed.

Lemma configure_points_tags id len ps a s : tags (configure_points id len ps a s).1 = tags s.
Proof.
  revert a s. induction ps as [|p ps IH]; intros a s; [done|]. rewrite configure_points_cons.
  destruct (point_register id len p); [|done]. by rewrite IH.
Qed.

Lemma configure_value_no_empty a c : Text c ≠ "" → keeps no_empty_tag (configure_value a c).
Proof.
  intros Hc s He. unfold configure_value. go_unfold.
  destruct (points s !! ETag c) as [l|]; [|done]. simpl. destruct (heap s !! l) as [r|]; [|done]. simpl.
  unfold update_register, put_register. go_unfold.
  destruct (HasPrefix (DataType r) "string"); [done|].
  destruct (ParseFloat (Text c)) as [v [e|]]; [|done]. simpl. by rewrite lookup_insert_ne.
Qed.

Lemma configure_model_no_empty a c :
  Forall (λ v, Text v ≠ "") (ChildElements c) → keeps no_empty_tag (configure_model c a).
Proof.
  intros Hc. unfold configure_model. destruct (SelectAttr c "id"); [|auto with go].
  destruct (Atoi _) as [id [e|]]; [auto with go|]. destruct (GetModelSchema id) as [ps|e]; [|auto with go].
  apply keeps_bind; [typeclasses eauto|intros s0; unfold no_empty_tag; by rewrite configure_points_tags|].
  intros a'. apply keeps_bind; [typeclasses eauto| |auto with go].
  apply keeps_range_Forall; [typeclasses eauto|].
  eapply Forall_impl; [exact Hc|]. intros v. apply configure_value_no_empty.
Qed.

Lemma configure_children_no_empty l a m1 :
  Forall (λ c, ETag c = "model" → Forall (λ v, Text v ≠ "") (ChildElements c)) l →
  keeps no_empty_tag (configure_children l a m1).
Proof.
  intros Hl. revert a m1. induction Hl as [|c l Hc _ IH]; intros a m1; [apply keeps_ret; typeclasses eauto|].
  cbn [configure_children].
  destruct (String.eqb_spec (ETag c) "model") as [E|E];
    repeat match goal with
    | |- keeps _ (if ?b then _ else _) => destruct b
    | |- keeps _ (modify _ ≫= _) =>
        apply keeps_bind; [typeclasses eauto|apply keeps_modify; by intros ? ?|intros _]
    | |- keeps _ (configure_model _ _ ≫= _) =>
        apply keeps_bind; [typeclasses eauto|by apply configure_model_no_empty, Hc|intros m]
    end; apply IH.
Qed.

Lemma Configure_no_empty e nm :
  Forall (λ c, ETag c = "model" → Forall (λ v, Text v ≠ "") (ChildElements c)) (ChildElements e) →
  tags (run (Configure e) (New nm)).1 !! "" = None.
Proof.
  intros He. apply (run_keeps no_empty_tag (Configure e) (New nm)); [|done].
  unfold Configure. repeat (apply keeps_bind; [typeclasses eauto|
    first [apply keeps_modify; by intros ? ?|by apply configure_children_no_empty]|intros ?]).
  destruct (negb _); auto with go.
Qed.
End empty_tag.

(** The life of a configured server: status messages in any order. *)
Inductive server_step : SunSpecServer → SunSpecServer → Prop :=
| step_status env s : server_step s (run (handleMsgBusStatus env) s).1.

Lemma server_steps_same s s' : rtc server_step s s' → same_server s s'.
Proof.
  induction 1 as [s|s1 s2 s3 [env s] _ IH]; [done|].
  etransitivity; [apply status_same|exact IH].
Qed.

Lemma tags_empty s s' : same_server s s' → tags s !! "" = None → tags s' !! "" = None.
Proof.
  intros (_ & _ & _ & _ & Hd & _) Ht. apply not_elem_of_dom. rewrite Hd. by apply not_elem_of_dom.
Qed.

(** A model whose points have the name [n] takes it over. *)
Lemma configure_points_captures id len ps a s s' a' n :
  server_ok s → configure_points id len ps a s = (s', Next a') →
  n ≠ "ID" → n ≠ "L" → In n (map PName ps) ∨ (∃ l r, points s !! n = Some l ∧ heap s !! l = Some r ∧
    InternalValue r = f64_0) →
  ∃ l r, points s' !! n = Some l ∧ heap s' !! l = Some r ∧ InternalValue r = f64_0.
Proof.
  intros Hok Hrun Hid Hl. revert a s Hok Hrun.
  induction ps as [|p ps IH]; intros a s Hok Hrun Hn.
  { injection Hrun as <- <-. by destruct Hn. }
  rewrite configure_points_cons in Hrun.
  destruct (point_register id len p) as [r|e] eqn:Hr; [|done].
  destruct (point_register_ok _ _ _ _ Hr) as (Hwf & Hname & _ & Ht & Hv & _).
  apply (IH _ _ (eq_ind _ (λ x, server_ok (add_point a x r s)) (ok_add_point a r s Hok Hwf Ht) _ Hname) Hrun).
  destruct (List.in_dec String.string_dec n (map PName ps)) as [Hin|Hin]; [by left|right].
  destruct (decide (PName p = n)) as [<-|Hne].
  - exists (length (heap s)), r. unfold add_point. simpl.
    rewrite lookup_insert_eq, list_lookup_middle by done. split_and!; [done|done|].
    rewrite Hv. apply String.eqb_neq in Hid as ->. by apply String.eqb_neq in Hl as ->.
  - destruct Hn as [[?|?]|(l & r' & Hp & Hh & Hv')]; [done|done|]. exists l, r'.
    unfold add_point. simpl. rewrite lookup_insert_ne by done.
    split_and!; [done|by apply lookup_app_l_Some|done].
Qed.

(** ** Properties *)

(** C14: what a SunSpec configuration means.  Whatever the document, [Configure]
    ends with nil or an error.  If every point of the models that the document
    names takes at least a word, no value element is empty or names ID or L, and
    the result is nil, then model 1 is among the models, the well-known
    identifier is at 40000, the points of the models of the document have their
    registers from 40002 on, in order, each where the size of the one before it
    ends, the points called ID and L holding the number and the length of their
    model, and the end marker follows the last model. *)
Theorem sunspec_layout `{Etree} `{Schemas} nm e :
  let r := run (Configure e) (New nm) in
  (∃ o, r.2 = Returns o) ∧ server_ok r.1 ∧
  (spaced_models (model_elements e) →
   Forall (λ c, ETag c = "model" → Forall plain_value (ChildElements c)) (ChildElements e) →
   r.2 = Returns None →
   ∃ ms b, Forall2 names_model (model_elements e) ms ∧ Exists (λ m, m.1 = 1) ms ∧
     laid_out r.1 40002 ms b ∧ register_on r.1 40000 = Some IdentifierRegister ∧
     register_on r.1 b = Some EndRegister ∧ register_on r.1 (b + 1) = Some EndRegisterLength).
Proof.
  intros r. destruct (sunspec_Configure_ends e (New nm) (server_ok_New nm)) as [He Hok].
  split_and!; [done|done|]. intros Hs Hp Hr.
  destruct (Configure_layout e nm r.1 Hp Hs) as (ms & b & ? & ? & _ & ? & ? & ? & ? & _).
  { fold r. by rewrite <- Hr, <- surjective_pairing. }
  by exists ms, b.
Qed.

(** C19: reads of a SunSpec server.  A server configured from a document without
    empty value elements, after any status messages, answers every read request: it ends, changes nothing, and the
    answer is the encodings of the registers from the start address on, two
    bytes a word, as many as the request covers; or an illegal address if it
    runs into a gap, or a device failure if a register names a scale factor
    that is no point. *)
Theorem sunspec_server_reads `{GoPlatform} `{Etree} `{Schemas} nm e s data start count :
  Forall (λ c, ETag c = "model" → Forall (λ v, Text v ≠ "") (ChildElements c)) (ChildElements e) →
  rtc server_step (run (Configure e) (New nm)).1 s →
  header data start count → 0 ≤ count →
  ∃ rs ex, reads s (start + count) start rs ex ∧
    run (readHoldingRegisters data) s =
      (s, Returns match ex with
                  | None => (2 * words rs mod 256 :: flat_map (encoding s) rs, Success)
                  | Some x => ([], x)
                  end) ∧
    Z.of_nat (length (flat_map (encoding s) rs)) = 2 * words rs.
Proof.
  intros Hp Hsteps Hh Hc. set (s0 := (run (Configure e) (New nm)).1) in *.
  pose proof (Configure_no_empty e nm Hp : tags s0 !! "" = None) as Ht.
  pose proof (server_steps_same _ _ Hsteps) as Hsame.
  pose proof (tags_empty _ _ Hsame Ht) as Ht'.
  destruct Hsame as (_ & _ & _ & _ & _ & Hok).
  specialize (Hok (proj2 (sunspec_Configure_ends e (New nm) (server_ok_New nm)))).
  destruct (reads_exist s (start + count) Hok start) as (rs & ex & Hrs). exists rs, ex.
  split_and!; [done|by apply (readHoldingRegisters_spec s data start count)|by eapply registers_encoding_length].
Qed.

(** C21: no write of a number register ever ends.  The loop of the write handler
    does not advance, so on every server a write request with data for a number
    register whose scale factor exists runs forever, whatever the fuel; a write
    to no register is refused, a write to a string register or to one without
    its scale factor fails. *)
Theorem sunspec_write_diverges `{GoPlatform} s data start count :
  server_ok s → header data start count → 0 < count →
  (∀ r, register_on s start = Some r → 5 + 2 * Count r ≤ slice_cap data) →
  match register_on s start with
  | None => ∀ fuel, run (writeHoldingRegisters (S fuel) data) s = (s, Returns ([], IllegalDataAddress))
  | Some r =>
    if decide (string_size (DataType r) = None ∧ scale_of s r ≠ None)
    then ∀ fuel, (run (writeHoldingRegisters fuel data) s).2 = Loops
    else ∀ fuel, run (writeHoldingRegisters (S fuel) data) s = (s, Returns ([], SlaveDeviceFailure))
  end.
Proof.
  intros Hok [Hs Hc] Hcount Hcap.
  assert (Hrefused : (∀ r, register_on s start = Some r →
      string_size (DataType r) ≠ None ∨ scale_of s r = None) →
    ∀ fuel, run (writeHoldingRegisters (S fuel) data) s = (s, Returns ([],
      match register_on s start with Some _ => SlaveDeviceFailure | None => IllegalDataAddress end))).
  { intros Hr fuel. unfold run, writeHoldingRegisters. rewrite Hs, Hc.
    do 2 erewrite bind_next by done.
    erewrite bind_return by (apply write_loop_refused; done || lia). done. }
  destruct (register_on s start) as [r|] eqn:Hr; [|by apply Hrefused].
  destruct (decide _) as [[Hstr Hsc]|Hn].
  - intros fuel. destruct (scale_of s r) as [sc|] eqn:Esc; [|done].
    pose proof (write_loop_diverges fuel data start (start + count) 5 (Count r) ltac:(lia) ltac:(lia)
      (Hcap r eq_refl) s [] (register_on_writable s start r sc Hok Hr Hstr Esc)) as Hd.
    unfold run, writeHoldingRegisters. rewrite Hs, Hc. do 2 erewrite bind_next by done.
    unfold mbind, go_bind. by destruct (write_loop _ _ _ _ _ _ s) as [s' [?|?|?|]].
  - apply Hrefused. intros r' [= <-]. destruct (string_size (DataType r)); [by left|right].
    destruct (scale_of s r); [|done]. by destruct Hn.
Qed.

(** One empty value element breaks every string.  A number point that the
    document leaves empty gets the empty tag; every register without a tag then
    reads that tag, and a read of a string register panics. *)
Theorem empty_value_breaks_strings `{GoPlatform} s data start count r v sc :
  server_ok s → header data start count → 0 < count →
  register_on s start = Some r → string_size (DataType r) ≠ None → scale_of s r = Some sc →
  tags s !! "" = Some v →
  run (readHoldingRegisters data) s = (s, Panics PanicTypeAssert).
Proof.
  intros Hok [Hs Hc] Hcount Hr Hstr Hsc Ht. unfold run, readHoldingRegisters. rewrite Hs, Hc.
  do 2 erewrite bind_next by done. cbn [read_loop].
  destruct (Z.ltb_spec start (start + count)); [|lia].
  destruct (register_at_spec s start Hok) as [l Hat]. rewrite Hr in Hat.
  pose proof (scaling_of_spec s r Hok) as Hsc'. rewrite Hsc in Hsc'.
  destruct (register_on_ok s start r Hok Hr) as (_ & _ & _ & Hwf & Htag).
  destruct (ok_tags s Hok _ v Ht) as [f ->].
  assert (Bytes r (tag_value s (Tag r)) sc = Panics PanicTypeAssert) as Hb.
  { unfold tag_value. rewrite Htag, Ht by done. simpl. unfold Bytes.
    destruct (data_type_format _ _ Hwf) as [k scaled Hi Hs' Hn|Hd Hn|m Hi Hs' Ho Hn];
      [done|by rewrite Hd in Hstr|by rewrite Hi, Hs']. }
  unfold mbind, go_bind. rewrite Hat. cbn [snd]. rewrite Hsc'. unfold get. by rewrite Hb.
Qed.

(** Scale factors leak between models.  Points are entered by name only, so
    configuring a model with a point [n] makes [n] name that point, which is zero
    until the document sets it, for the registers of every model. *)
Theorem later_model_rescales id len ps a s s' a' r n :
  server_ok s → configure_points id len ps a s = (s', Next a') →
  ScaleRegister r = n → n ≠ "" → n ≠ "ID" → n ≠ "L" → In n (map PName ps) →
  scale_of s' r = Some f64_0.
Proof.
  intros Hok Hrun Hsr Hne Hid Hl Hin.
  destruct (configure_points_captures id len ps a s s' a' n Hok Hrun Hid Hl (or_introl Hin))
    as (l & r' & Hp & Hh & Hv).
  unfold scale_of. rewrite Hsr, Hp. apply String.eqb_neq in Hne as ->. simpl. by rewrite Hh, <- Hv.
Qed.

(** *** Examples *)

(** Two models in the style of the SunSpec ones: common (1) and inverter (101). *)
Definition pt (name ty : string) (size : Z) (sf : scale_factor) : SchemaPoint :=
  mk_SchemaPoint name ty size sf "R".

Definition example_model (id : Z) : result (list SchemaPoint) :=
  let head := [pt "ID" "uint16" 1 SfNil; pt "L" "uint16" 1 SfNil] in
  if id =? 1 then
    inl (head ++ [pt "Mn" "string" 16 SfNil; pt "Vr" "string" 8 SfNil; pt "DA" "uint16" 1 SfNil;
                  pt "Pad" "pad" 1 SfNil])
  else if (id =? 101) || (id =? 103) then
    inl (head ++ [pt "W" "int16" 1 (SfString "W_SF"); pt "W_SF" "sunssf" 1 SfNil;
                  pt "WH" "acc32" 2 (SfString "WH_SF"); pt "WH_SF" "sunssf" 1 SfNil])
  else inr (Sentinel "file does not exist").

#[export] Instance example_schemas : Schemas := {| GetModelSchema := example_model |}.

Definition model_elem (id : string) (values : list xml) : xml := Elem "model" [("id", id)] "" values.

Definition example_config : xml :=
  Elem "sunspec" [("mode", "server")] ""
    [leaf "endpoint" "127.0.0.1:502";
     model_elem "1" [leaf "Mn" "Patria Security"; leaf "Vr" "1.0"; leaf "DA" "1"];
     model_elem "101" [leaf "W" "inverter.kW"; leaf "W_SF" "-1"; leaf "WH" "7200"; leaf "WH_SF" "0"]].

Definition example_run : SunSpecServer * outcome (option error) :=
  run (@Configure xml_etree example_schemas example_config) (New "sunspec-server").

Definition example_server : SunSpecServer := example_run.1.

Lemma example_spaced l : @spaced_models xml_etree example_schemas l.
Proof.
  apply Forall_true. intros c [id ps] [_ Hps]. simpl in *. unfold example_model in Hps.
  destruct (id =? 1); [|destruct ((id =? 101) || (id =? 103)); [|done]]; injection Hps as <-;
    by repeat constructor.
Qed.

Lemma example_plain :
  Forall (λ c, @ETag xml_etree c = "model" → Forall plain_value (@ChildElements xml_etree c))
    (@ChildElements xml_etree example_config).
Proof. repeat constructor; simpl; done. Qed.

Lemma sunspec_layout_witness :
  ∃ ms b, Forall2 (@names_model xml_etree example_schemas) (@model_elements xml_etree example_config) ms ∧
    laid_out example_server 40002 ms b ∧ register_on example_server b = Some EndRegister.
Proof.
  destruct (@sunspec_layout xml_etree example_schemas "sunspec-server" example_config)
    as (_ & _ & Hl).
  destruct (Hl (example_spaced _) example_plain ltac:(vm_compute; reflexivity))
    as (ms & b & Hms & _ & Hlay & _ & Hend & _).
  exists ms, b. split; [exact Hms|]. split; [exact Hlay|exact Hend].
Defined.

(** Reading the header of model 101 and its power, 480 W at a scale of -1. *)
Lemma sunspec_server_reads_witness :
  ∃ s, rtc (@server_step) example_server s ∧
    run (@readHoldingRegisters amd64 (request 40030 3 [])) s =
      (s, Returns ([6; 0; 101; 0; 5; 18; 192], Success)) ∧
    ∃ rs ex, reads s (40030 + 3) 40030 rs ex.
Proof.
  set (env := mk_Envelope "v1" "Status" (Some {["sender" := "io"]})
    (Some (JObj [("measurements", JArr [JObj [("tag", JStr "inverter.kW"); ("value", JInt false 480)]])]))).
  set (s := (run (handleMsgBusStatus env) example_server).1).
  assert (rtc server_step example_server s) as Hs by (apply rtc_once, step_status).
  exists s. split; [exact Hs|]. split; [vm_compute; reflexivity|].
  destruct (@sunspec_server_reads amd64 xml_etree example_schemas "sunspec-server" example_config s
    (request 40030 3 []) 40030 3 ltac:(repeat constructor; simpl; done) Hs
    (conj eq_refl eq_refl) ltac:(lia)) as (rs & ex & Hrs & _).
  exists rs, ex. exact Hrs.
Defined.

Lemma example_server_ok : server_ok example_server.
Proof. apply (@sunspec_Configure_ends xml_etree example_schemas example_config), server_ok_New. Qed.

Lemma sunspec_write_diverges_witness :
  (run (@writeHoldingRegisters amd64 1000 (request 40032 1 [2; 0; 5])) example_server).2 = Loops.
Proof.
  pose proof (@sunspec_write_diverges amd64 example_server (request 40032 1 [2; 0; 5]) 40032 1
    example_server_ok (conj eq_refl eq_refl) ltac:(lia)) as Hd.
  assert (∃ r, register_on example_server 40032 = Some r ∧ Count r = 1 ∧
    string_size (DataType r) = None ∧ scale_of example_server r ≠ None) as (r & Hr & Hn & Hs & Hsc).
  { eexists. split; [vm_compute; reflexivity|]. split_and!; vm_compute; [reflexivity|reflexivity|discriminate]. }
  rewrite Hr in Hd. destruct (decide _) as [_|Hnot] in Hd; [|exfalso; apply Hnot; by split].
  apply Hd. intros r' [= <-]. rewrite Hn. vm_compute. discriminate.
Defined.

Definition bad_config : xml :=
  Elem "sunspec" [("mode", "server")] "" [model_elem "1" [leaf "Mn" "Patria Security"; leaf "DA" ""]].

Definition bad_server : SunSpecServer :=
  (run (@Configure xml_etree example_schemas bad_config) (New "sunspec-server")).1.

Lemma empty_value_breaks_strings_witness :
  (run (@Configure xml_etree example_schemas bad_config) (New "sunspec-server")).2 = Returns None ∧
  run (@readHoldingRegisters amd64 (request 40004 16 [])) bad_server = (bad_server, Panics PanicTypeAssert).
Proof.
  split; [vm_compute; reflexivity|].
  assert (∃ r, register_on bad_server 40004 = Some r ∧ string_size (DataType r) ≠ None ∧
    scale_of bad_server r = Some f64_0) as (r & Hr & Hs & Hsc).
  { eexists. split; [vm_compute; reflexivity|]. split; vm_compute; [discriminate|reflexivity]. }
  apply (@empty_value_breaks_strings amd64 bad_server (request 40004 16 []) 40004 16 r (AFloat f64_0) f64_0);
    [apply (@sunspec_Configure_ends xml_etree example_schemas bad_config), server_ok_New
    |split; reflexivity|lia|exact Hr|exact Hs|exact Hsc|vm_compute; reflexivity].
Defined.

(** After a model 103 the power of model 101 is no longer scaled by its own
    factor, -1. *)
Lemma later_model_rescales_witness :
  ∃ r, register_on example_server 40032 = Some r ∧
    scale_of example_server r = Some (f64_of_Z (-1)) ∧
    ∃ s' a', configure_points 103 5 (match example_model 103 with inl ps => ps | _ => [] end) 40037
        example_server = (s', Next a') ∧
      scale_of s' r = Some f64_0.
Proof.
  eexists. split; [vm_compute; reflexivity|]. split; [vm_compute; reflexivity|].
  eexists _, _. split; [vm_compute; reflexivity|].
  eapply (later_model_rescales 103 5
    (match example_model 103 with inl ps => ps | _ => [] end) 40037 example_server _ _ _ "W_SF"
    example_server_ok); [vm_compute; reflexivity|vm_compute; reflexivity|discriminate..|vm_compute; tauto].
Defined.
