(* ===== verification/SunSpecClient.v ===== *)
(** * sunspec/client: the SunSpec client module

    The client finds the models of a SunSpec device over Modbus: it confirms the
    identifier, then walks from model to model by their lengths until the end
    marker, and reads the points of each; later it reads them again every
    period.  The Modbus library is the parameter [ModbusLib] of
    [modbus/client].  The order in which [range] meets the entries of a map is
    an argument, and an answer of the library is taken to have no spare
    capacity.  ([client/client.go], [client/util.go]) *)

From S2P Require Import Prelude GoFloat GoText GoBytes Etree Json Msgbus.
From S2P Require Import SunSpecRegister.
From S2P Require ModbusSettings.
From S2P Require ModbusClient SunSpecServer.
Import ModbusClient (ModbusLib, Client, NewClient, ReadHoldingRegisters, WriteMultipleRegisters,
  TCPClientHandler, bus_endpoint).

(** ** util.go *)

Section util.
Context `{GoPlatform} `{ModbusLib} `{Schemas}.

Definition confirmIdentifier (c : Client) : Client * option error :=
  let '(c, body) := ReadHoldingRegisters 40000 (wrap U16 (Count IdentifierRegister)) c in
  (c, match wrapf "reading identifier: %w" body with
      | inr e => Some e
      | inl body =>
        match wrapf "parsing identifier: %w" (Value IdentifierRegister (Some body) f64_0) with
        | inr e => Some e
        | inl identifier =>
          if negb (feqb identifier SunSpecIdentifier)
          then Some (Errorf "invalid identifier provided by remote device") else None
        end
      end).

(** [d[lo:hi]] of an answer. *)
Definition part (d : list Z) (lo hi : Z) : option (list Z) := vis <$> slice_expr (slice_of d) lo hi.

(** The register [nextModel] reads both words with. *)
Definition generic_register : result Register := Init (new_Register "uint16" "" 0).

(** The number and the length of the model at [a]. *)
Definition nextModel (c : Client) (a : Z) : Client * outcome (result (Z * Z)) :=
  match wrapf "initializing generic model register %d: %w" generic_register with
  | inr e => (c, Returns (inr e))
  | inl r =>
    let '(c, d) := ReadHoldingRegisters (wrap U16 a) 2 c in
    (c, match wrapf "reading model ID and length: %w" d with
        | inr e => Returns (inr e)
        | inl d =>
          match part d 0 2 with
          | None => Panics PanicBounds
          | Some d1 =>
            match wrapf "parsing model ID: %w" (Value r (Some d1) f64_0) with
            | inr e => Returns (inr e)
            | inl m =>
              match part d 2 4 with
              | None => Panics PanicBounds
              | Some d2 =>
                Returns (try l := wrapf "parsing model length: %w" (Value r (Some d2) f64_0) in
                         inl (conv I64 m, conv I64 l))
              end
            end
          end
        end)
  end.

(** The register of a point at byte [pos] of the data of model [m] at [a]. *)
Definition model_register (m a pos : Z) (p : SchemaPoint) : result Register :=
  let r := new_Register (point_data_type p) (PName p) m in
  let r := if String.eqb (Access p) "RW" then set_Addr (a + pos) r else r in
  try r := match Sf p with
    | SfNil => inl r
    | SfInt sf => inl (set_Scaling (f64_of_Z sf) r)
    | SfString sf => inl (set_ScaleRegister sf r)
    | _ => inr (Errorf "unknown type when parsing scaling factor for %s")
    end in
  wrapf "initializing %s register: %w" (Init r).

Fixpoint model_registers (m a pos : Z) (d : list Z) (ps : list SchemaPoint)
  (regs : gmap string Register) : outcome (result (gmap string Register)) :=
  match ps with
  | [] => Returns (inl regs)
  | p :: ps' =>
    match model_register m a pos p with
    | inr e => Returns (inr e)
    | inl r =>
      match part d pos (pos + Size p * 2) with
      | None => Panics PanicBounds
      | Some raw =>
        model_registers m a (pos + Size p * 2) d ps' (<[PName p := set_Raw raw r]> regs)
      end
    end
  end.

Definition modelData (c : Client) (m a l : Z) : Client * outcome (result (gmap string Register)) :=
  let '(c, d) := ReadHoldingRegisters (wrap U16 a) (wrap U16 l) c in
  (c, match wrapf "reading Model %d data: %w" d with
      | inr e => Returns (inr e)
      | inl d =>
        match wrapf "getting Model %d schema: %w" (GetModelSchema m) with
        | inr e => Returns (inr e)
        | inl ps => model_registers m a 0 d (drop 2 ps) ∅
        end
      end).
End util.

(** ** client.go *)

Section client.
Context `{GoPlatform} `{ModbusLib} `{Schemas}.

Record SunSpecClient := mk_SunSpecClient {
  pullEndpoint : string;
  pubEndpoint : string;
  name : string;
  id : Z;
  endpoint : string;
  period : Z;
  pusher : bus;
  client : option Client;
  Order : list Z;
  Settings : gmap Z (Z * Z);        (* the start address and the length *)
  points : gmap string Register;
}.

Definition New (name : string) : SunSpecClient :=
  mk_SunSpecClient "" "" name 0 "" 5000000000 (mk_bus [] 0 (λ _, true)) None [] ∅ ∅.

Definition set_pullEndpoint (v : string) (s : SunSpecClient) : SunSpecClient :=
  mk_SunSpecClient v (pubEndpoint s) (name s) (id s) (endpoint s) (period s) (pusher s)
    (client s) (Order s) (Settings s) (points s).
Definition set_pubEndpoint (v : string) (s : SunSpecClient) : SunSpecClient :=
  mk_SunSpecClient (pullEndpoint s) v (name s) (id s) (endpoint s) (period s) (pusher s)
    (client s) (Order s) (Settings s) (points s).
Definition set_endpoint (v : string) (s : SunSpecClient) : SunSpecClient :=
  mk_SunSpecClient (pullEndpoint s) (pubEndpoint s) (name s) (id s) v (period s) (pusher s)
    (client s) (Order s) (Settings s) (points s).
Definition set_period (v : Z) (s : SunSpecClient) : SunSpecClient :=
  mk_SunSpecClient (pullEndpoint s) (pubEndpoint s) (name s) (id s) (endpoint s) v (pusher s)
    (client s) (Order s) (Settings s) (points s).
Definition set_pusher (v : bus) (s : SunSpecClient) : SunSpecClient :=
  mk_SunSpecClient (pullEndpoint s) (pubEndpoint s) (name s) (id s) (endpoint s) (period s) v
    (client s) (Order s) (Settings s) (points s).
Definition set_client (v : Client) (s : SunSpecClient) : SunSpecClient :=
  mk_SunSpecClient (pullEndpoint s) (pubEndpoint s) (name s) (id s) (endpoint s) (period s)
    (pusher s) (Some v) (Order s) (Settings s) (points s).
Definition set_models (o : list Z) (m : gmap Z (Z * Z)) (s : SunSpecClient) : SunSpecClient :=
  mk_SunSpecClient (pullEndpoint s) (pubEndpoint s) (name s) (id s) (endpoint s) (period s)
    (pusher s) (client s) o m (points s).
Definition set_points (v : gmap string Register) (s : SunSpecClient) : SunSpecClient :=
  mk_SunSpecClient (pullEndpoint s) (pubEndpoint s) (name s) (id s) (endpoint s) (period s)
    (pusher s) (client s) (Order s) (Settings s) v.

Definition configure_child `{Etree} (child : Element) : go SunSpecClient (option error) () :=
  if String.eqb (ETag child) "pull-endpoint" then modify (set_pullEndpoint (Text child))
  else if String.eqb (ETag child) "pub-endpoint" then modify (set_pubEndpoint (Text child))
  else if String.eqb (ETag child) "endpoint" then modify (set_endpoint (Text child))
  else if String.eqb (ETag child) "period" then
    match ParseDuration (Text child) with
    | inl d => modify (set_period d)
    | inr _ =>
      _ ← modify (set_period 0);
      return_ (Some (Errorf "invalid period '%s' provided for %s"))
    end
  else mret ().

Definition Configure `{Etree} (e : Element) : go SunSpecClient (option error) (option error) :=
  _ ← range (ChildElements e) configure_child;
  mret None.

(** The lookup of a scale factor; [None] where the code logs and goes on with
    the next register. *)
Definition scaling_of (s : SunSpecClient) (r : Register) : option float64 :=
  if String.eqb (ScaleRegister r) "" then Some f64_0
  else InternalValue <$> points s !! ScaleRegister r.

(** [for name, reg := range data] *)
Fixpoint process_loop {R} (order : list (string * Register)) (pts : list Point)
  : go SunSpecClient R (list Point) :=
  match order with
  | [] => mret pts
  | (n, reg) :: order' =>
    _ ← modify (λ s, set_points (<[n := reg]> (points s)) s);
    if HasPrefix (DataType reg) "string" then process_loop order' pts
    else if one_of ["pad"; "sunssf"] (DataType reg) then process_loop order' pts
    else
      s ← get;
      match scaling_of s reg with
      | None => process_loop order' pts
      | Some scaling =>
        match Value reg (Raw reg) scaling with
        | inr _ => process_loop order' pts
        | inl value => process_loop order' (pts ++ [mk_Point n value 0])
        end
      end
  end.

Definition connected (this : SunSpecClient) (pts : list Point) : Point :=
  mk_Point (name this +:+ ".connected") (if (0 <? length pts)%nat then f64_1 else f64_0) 0.

Definition process (order : list (string * Register)) : go SunSpecClient (option error) (option error) :=
  pts ← process_loop order [];
  s ← get;
  match NewEnvelope (name s) (mk_Status (pts ++ [connected s pts])) with
  | inr e => return_ (Some (Wrapf "creating status message: %w" e))
  | inl env =>
    match Push "RUNTIME" env (pusher s) with
    | (b, None) => _ ← modify (set_pusher b); mret None
    | (b, Some e) =>
      _ ← modify (set_pusher b); return_ (Some (Wrapf "sending status message: %w" e))
    end
  end.

(** A call of another method of the module. *)
Definition sub {R A} (m : go SunSpecClient A A) : go SunSpecClient R A := λ s,
  match run m s with
  | (s', Returns a) => (s', Next a)
  | (s', Panics p) => (s', Panic p)
  | (s', Loops) => (s', NoFuel)
  end.

(** A function of util.go on the connection. *)
Definition on_client {R A} (f : Client → Client * A) : go SunSpecClient R A :=
  s ← get;
  c ← eval (client s) PanicNil;
  let '(c', a) := f c in
  _ ← modify (set_client c');
  mret a.

(** The loop of [Run] that finds the models; [orders] gives the order of each
    iteration over a map. *)
Fixpoint discover (fuel : nat) (orders : nat → gmap string Register → list (string * Register))
  (addr : Z) (model1 : bool) : go SunSpecClient (option error) () :=
  match fuel with
  | O => nofuel
  | S fuel' =>
    next ← on_client (λ c, nextModel c addr);
    next ← call next;
    match next with
    | inr e => return_ (Some (Wrapf "getting next from SunSpec device %s: %w" e))
    | inl (id, length) =>
      if negb model1 && negb (id =? 1)
      then return_ (Some (Errorf "remote SunSpec device missing required Model 1"))
      else if id =? conv I64 (InternalValue EndRegister) then mret ()
      else
        let addr := addr + 2 in
        _ ← modify (λ s, set_models (Order s ++ [id]) (<[id := (addr, length)]> (Settings s)) s);
        data ← on_client (λ c, modelData c id addr length);
        data ← call data;
        match data with
        | inr e => return_ (Some (Wrapf "reading Model %d data from SunSpec device %s: %w" e))
        | inl data =>
          err ← sub (process (orders fuel' data));
          match err with
          | Some e => return_ (Some (Wrapf "processing Model %d data: %w" e))
          | None => discover fuel' orders (addr + length) true
          end
        end
    end
  end.

(** The points printed at the end of [Run]. *)
Fixpoint report_points (ps : list SchemaPoint) : go SunSpecClient (option error) () :=
  match ps with
  | [] => mret ()
  | p :: ps' =>
    s ← get;
    r ← eval (points s !! PName p) PanicNil;
    if HasPrefix (DataType r) "string" then
      match String_ r (Raw r) with
      | inr e => return_ (Some (Wrapf "parsing string value for SunSpec point: %w" e))
      | inl _ => report_points ps'
      end
    else match scaling_of s r with
    | None => report_points ps'
    | Some scaling =>
      match Value r (Raw r) scaling with
      | inr e => return_ (Some (Wrapf "parsing value for SunSpec point: %w" e))
      | inl _ => report_points ps'
      end
    end
  end.

Definition report_model (id : Z) : go SunSpecClient (option error) () :=
  match GetModelSchema id with
  | inr e => return_ (Some (Wrapf "getting schema for model %d: %w" e))
  | inl ps => report_points (drop 2 ps)
  end.

(** [Run], up to the goroutines it starts. *)
Definition Run (fuel : nat) (orders : nat → gmap string Register → list (string * Register))
  : go SunSpecClient (option error) (option error) :=
  _ ← modify (λ s, set_client (NewClient (TCPClientHandler (endpoint s) (id s mod 256))) s);
  err ← on_client confirmIdentifier;
  match err with
  | Some e => return_ (Some (Wrapf "confirming SunSpec identifier from SunSpec device %s: %w" e))
  | None =>
    _ ← discover fuel orders 40002 false;
    s ← get;
    _ ← range (Order s) report_model;
    mret None
  end.

(** One model in a period of the goroutine of [Run]: without data [process] gets
    the nil map. *)
Definition poll_model (order : gmap string Register → list (string * Register)) (id : Z)
  : go SunSpecClient () () :=
  s ← get;
  let '(addr, length) := default (0, 0) (Settings s !! id) in
  data ← on_client (λ c, modelData c id addr length);
  data ← call data;
  _ ← sub (process (order (match data with inl regs => regs | inr _ => ∅ end)));
  mret ().

Definition poll (order : gmap string Register → list (string * Register)) : go SunSpecClient () () :=
  s ← get; range (Order s) (poll_model order).

Definition write_point (point : Point) : go SunSpecClient () () :=
  s ← get;
  match points s !! Point_Tag point with
  | None => mret ()
  | Some reg =>
    if Addr reg =? 0 then mret () else
    match scaling_of s reg with
    | None => mret ()
    | Some scaling =>
      data ← call (Bytes reg (AFloat (Point_Value point)) scaling);
      match data with
      | inr _ => mret ()
      | inl data =>
        _ ← on_client (WriteMultipleRegisters (wrap U16 (Addr reg)) (wrap U16 (Count reg)) data);
        mret ()
      end
    end
  end.

Definition handleMsgBusUpdate (env : Envelope) : go SunSpecClient () () :=
  s ← get;
  if String.eqb (Sender env) (name s) then return_ () else
  match Envelope_Update env with
  | (_, Some _) => return_ ()
  | (update, None) => range (Updates update) write_point
  end.
End client.
Arguments SunSpecClient {_}.

(** ** Specification vocabulary *)

(** A register that [modelData] made and filled: its own value is zero, and it
    has the bytes of its count of words. *)
Definition filled (r : Register) : Prop :=
  register_wf r ∧ InternalValue r = f64_0 ∧
  ∃ raw, Raw r = Some raw ∧ Z.of_nat (length raw) = 2 * Count r.

(** Numbers of at most 32 bits, and strings. *)
Definition small_type (dt : string) : Prop :=
  string_size dt ≠ None ∨ ∃ k scaled, int_format dt = Some (k, scaled) ∧ int_bits k ≤ 32.

(** A point as most are: its size is that of its data type, a small one, and its
    scale factor, if any, is another point. *)
Definition simple (p : SchemaPoint) : Prop :=
  SunSpecServer.sized p ∧ small_type (point_data_type p) ∧
  (Sf p = SfNil ∨ ∃ sf, Sf p = SfString sf).

(** ** Lemmas *)

Section laws.
Context `{GoPlatform} `{ModbusLib} `{Schemas}.

Lemma part_ok d lo hi :
  0 ≤ lo → lo ≤ hi → hi ≤ Z.of_nat (length d) →
  part d lo hi = Some (take (Z.to_nat (hi - lo)) (drop (Z.to_nat lo) d)).
Proof.
  intros Hlo Hle Hhi. unfold part, slice_expr, slice_cap, slice_of. simpl. rewrite app_nil_r.
  destruct (Z.leb_spec 0 lo), (Z.leb_spec lo hi), (Z.leb_spec hi (Z.of_nat (length d))); try lia.
  done.
Qed.

Lemma part_panics d lo hi : Z.of_nat (length d) < hi → part d lo hi = None.
Proof.
  intros Hhi. unfold part, slice_expr, slice_cap, slice_of. simpl. rewrite app_nil_r.
  destruct (Z.leb_spec hi (Z.of_nat (length d))); [lia|]. by rewrite andb_false_r.
Qed.

Lemma model_register_ok m a pos p r :
  model_register m a pos p = inl r →
  register_wf r ∧ Name r = PName p ∧ DataType r = point_data_type p ∧ InternalValue r = f64_0 ∧
  Addr r = (if String.eqb (Access p) "RW" then a + pos else 0) ∧
  ScaleRegister r = match Sf p with SfString sf => sf | _ => "" end ∧
  (Sf p = SfNil ∨ (∃ sf, Sf p = SfString sf) → Scaling r = f64_0).
Proof.
  unfold model_register.
  set (r0 := if String.eqb (Access p) "RW" then _ else _).
  assert (Hr0 : Name r0 = PName p ∧ DataType r0 = point_data_type p ∧ InternalValue r0 = f64_0 ∧
    Addr r0 = (if String.eqb (Access p) "RW" then a + pos else 0) ∧ ScaleRegister r0 = "" ∧
    Scaling r0 = f64_0) by (subst r0; by destruct (String.eqb (Access p) "RW")).
  clearbody r0. destruct Hr0 as (Hn & Hd & Hv & Ha & Hsr & Hs).
  assert (Hi : ∀ r1, wrapf "initializing %s register: %w" (Init r1) = inl r →
    register_wf r ∧ Name r = Name r1 ∧ DataType r = DataType r1 ∧ InternalValue r = InternalValue r1 ∧
    Addr r = Addr r1 ∧ ScaleRegister r = ScaleRegister r1 ∧ Scaling r = SFabs (Scaling r1)).
  { intros r1. destruct (Init r1) as [r'|] eqn:Hi; [|done]. intros [= <-].
    pose proof (sunspec_Init_wf _ _ Hi) as Hwf. unfold Init in Hi.
    destruct (data_type_count (DataType r1)); [|done]. injection Hi as <-. by split_and!. }
  destruct (Sf p); cbn [result_bind]; try done;
    (intros Hr; apply Hi in Hr as (Hwf & Hn1 & Hd1 & Hv1 & Ha1 & Hsr1 & Hs1); simpl in *;
     split_and!; first [done|congruence|idtac]).
  - intros _. by rewrite Hs1, Hs.
  - by intros [?|[? ?]].
  - intros _. by rewrite Hs1, Hs.
Qed.

Lemma model_register_sized m a pos p :
  SunSpecServer.sized p → Sf p = SfNil ∨ (∃ sf, Sf p = SfString sf) →
  ∃ r, model_register m a pos p = inl r.
Proof.
  intros Hsz Hsf. unfold model_register, Init. unfold SunSpecServer.sized in Hsz.
  destruct Hsf as [->|[sf ->]], (String.eqb (Access p) "RW"); simpl; rewrite Hsz; by eexists.
Qed.

(** The data of a model, cut at the sizes of its points. *)
Lemma model_registers_ok m a d ps :
  Forall (λ p, SunSpecServer.sized p ∧ (Sf p = SfNil ∨ ∃ sf, Sf p = SfString sf)) ps →
  ∀ pos regs, 0 ≤ pos → pos + 2 * SunSpecServer.total ps ≤ Z.of_nat (length d) →
  ∃ regs', model_registers m a pos d ps regs = Returns (inl regs') ∧
    (∀ n r, regs' !! n = Some r → regs !! n = Some r ∨
       ∃ p, In p ps ∧ n = PName p ∧ filled r ∧ DataType r = point_data_type p ∧ Scaling r = f64_0) ∧
    (∀ n, In n (map PName ps) ∨ is_Some (regs !! n) → is_Some (regs' !! n)).
Proof.
  induction 1 as [|p ps [Hsz Hsf] Hps IH]; intros pos regs Hpos Hlen.
  { exists regs. split_and!; [done|auto|]. intros n [[]|?]. done. }
  change (SunSpecServer.total (p :: ps)) with (Size p + SunSpecServer.total ps) in Hlen.
  assert (Forall SunSpecServer.sized ps) as Hsz' by (eapply Forall_impl; [exact Hps|by intros ? []]).
  pose proof (SunSpecServer.total_nonneg ps Hsz'). pose proof (SunSpecServer.sized_pos p Hsz).
  cbn [model_registers].
  destruct (model_register_sized m a pos p Hsz Hsf) as [r Hr]. rewrite Hr.
  destruct (model_register_ok _ _ _ _ _ Hr) as (Hwf & Hn & Hd & Hv & _ & _ & Hs).
  assert (Count r = Size p) as Hc.
  { unfold register_wf in Hwf. unfold SunSpecServer.sized in Hsz. rewrite Hd in Hwf. congruence. }
  rewrite part_ok by lia.
  set (raw := take _ _). assert (Z.of_nat (length raw) = 2 * Count r) as Hraw.
  { subst raw. rewrite length_take, length_drop. lia. }
  destruct (IH (pos + Size p * 2) (<[PName p := set_Raw raw r]> regs)) as (regs' & Hrun & H1' & H2');
    [lia|lia|].
  exists regs'. split_and!; [done| |].
  - intros n r' Hr'. destruct (H1' n r' Hr') as [Hold|(p' & Hin & ? & ? & ? & ?)].
    + apply lookup_insert_Some in Hold as [[<- <-]|[_ Hold]]; [right|by left].
      exists p. split_and!; [by left|done| |done|].
      * split_and!; [done|done|]. by exists raw.
      * by apply Hs.
    + right. exists p'. split_and!; [by right|done..].
  - intros n [[<-|Hin]|Hn']; apply H2'.
    + right. rewrite lookup_insert_eq. by eexists.
    + by left.
    + right. destruct (decide (PName p = n)) as [<-|Hne];
        [rewrite lookup_insert_eq; by eexists|by rewrite lookup_insert_ne].
Qed.

(** A device whose data are shorter than the schema brings the client down. *)
Lemma model_registers_short m a d ps :
  Forall (λ p, SunSpecServer.sized p ∧ (Sf p = SfNil ∨ ∃ sf, Sf p = SfString sf)) ps →
  ∀ pos regs, 0 ≤ pos → pos ≤ Z.of_nat (length d) → Z.of_nat (length d) < pos + 2 * SunSpecServer.total ps →
  model_registers m a pos d ps regs = Panics PanicBounds.
Proof.
  induction 1 as [|p ps [Hsz Hsf] Hps IH]; intros pos regs Hpos Hle Hlen.
  { unfold SunSpecServer.total in Hlen. simpl in Hlen. lia. }
  change (SunSpecServer.total (p :: ps)) with (Size p + SunSpecServer.total ps) in Hlen.
  pose proof (SunSpecServer.sized_pos p Hsz). cbn [model_registers].
  destruct (model_register_sized m a pos p Hsz Hsf) as [r Hr]. rewrite Hr.
  destruct (Z.le_gt_cases (pos + Size p * 2) (Z.of_nat (length d))).
  - rewrite part_ok by lia. apply IH; lia.
  - by rewrite part_panics by lia.
Qed.
End laws.

Section process_laws.
Context `{GoPlatform} {L : ModbusLib}.

(** The points the client keeps have the value zero of their own: nothing stores
    the value that was read. *)
Definition points_zero (s : SunSpecClient) : Prop :=
  ∀ n r, points s !! n = Some r → InternalValue r = f64_0.

Lemma scaling_of_zero s r sc : points_zero s → scaling_of s r = Some sc → sc = f64_0.
Proof.
  intros Hz. unfold scaling_of. destruct (String.eqb (ScaleRegister r) ""); [by intros [= <-]|].
  destruct (points s !! ScaleRegister r) as [p|] eqn:Hp; [|done]. intros [= <-]. by eapply Hz.
Qed.

(** The points map after a pass over [order]. *)
Definition entered (order : list (string * Register)) (m : gmap string Register) : gmap string Register :=
  foldl (λ m nr, <[nr.1 := nr.2]> m) m order.

Lemma points_zero_entered order s :
  points_zero s → Forall (λ nr, InternalValue nr.2 = f64_0) order →
  points_zero (set_points (entered order (points s)) s).
Proof.
  intros Hz Ho. unfold points_zero in *. simpl. revert Hz. generalize (points s) as m.
  induction Ho as [|[n r] order Hr Ho IH]; intros m Hz; [done|]. apply IH.
  intros n' r' [[_ <-]|[_ Hr']]%lookup_insert_Some; [done|eauto].
Qed.

Lemma process_loop_spec {R} order : ∀ s pts,
  points_zero s → Forall (λ nr, InternalValue nr.2 = f64_0) order →
  ∃ new, process_loop (R:=R) order pts s =
      (set_points (entered order (points s)) s, Next (pts ++ new)) ∧
    ∀ pt, pt ∈ new → ∃ r, (Point_Tag pt, r) ∈ order ∧ HasPrefix (DataType r) "string" = false ∧
      one_of ["pad"; "sunssf"] (DataType r) = false ∧ Value r (Raw r) f64_0 = inl (Point_Value pt).
Proof.
  induction order as [|[n r] order IH]; intros s pts Hz Ho.
  { exists []. rewrite app_nil_r. split; [destruct s; done|]. by intros pt Hpt%elem_of_nil. }
  pose proof (Forall_cons_1 _ _ _ Ho) as [Hr Ho']. simpl in Hr.
  set (s1 := set_points (<[n := r]> (points s)) s).
  assert (Hz1 : points_zero s1)
    by (apply (points_zero_entered [(n, r)] s); [done|by constructor]).
  cbn [process_loop]. erewrite bind_next by reflexivity. fold s1.
  assert (Hskip : ∃ new, process_loop (R:=R) order pts s1 =
      (set_points (entered ((n, r) :: order) (points s)) s, Next (pts ++ new)) ∧
    ∀ pt, pt ∈ new → ∃ r0, (Point_Tag pt, r0) ∈ (n, r) :: order ∧
      HasPrefix (DataType r0) "string" = false ∧
      one_of ["pad"; "sunssf"] (DataType r0) = false ∧ Value r0 (Raw r0) f64_0 = inl (Point_Value pt)).
  { destruct (IH s1 pts Hz1 Ho') as (new & Hrun & Hnew). exists new. split; [exact Hrun|].
    intros pt Hpt. destruct (Hnew pt Hpt) as (r0 & ? & ?). exists r0. split; [by right|done]. }
  destruct (HasPrefix (DataType r) "string") eqn:Hstr; [exact Hskip|].
  destruct (one_of ["pad"; "sunssf"] (DataType r)) eqn:Hpad; [exact Hskip|].
  erewrite bind_next by reflexivity.
  destruct (scaling_of s1 r) as [sc|] eqn:Hsc; [|exact Hskip].
  rewrite (scaling_of_zero s1 r sc Hz1 Hsc).
  destruct (Value r (Raw r) f64_0) as [v|e] eqn:Hv; [|exact Hskip].
  destruct (IH s1 (pts ++ [mk_Point n v 0]) Hz1 Ho') as (new & Hrun & Hnew).
  exists (mk_Point n v 0 :: new). split; [by rewrite Hrun, <- app_assoc|].
  intros pt [->|Hpt]%elem_of_cons.
  - exists r. split_and!; [by left|done..].
  - destruct (Hnew pt Hpt) as (r0 & ? & ?). exists r0. split; [by right|done].
Qed.

(** A number of at most 32 bits that is not scaled is finite. *)
Lemma Value_small r :
  filled r → small_type (DataType r) → HasPrefix (DataType r) "string" = false → Scaling r = f64_0 →
  ∃ v, Value r (Raw r) f64_0 = inl v ∧ is_finite v = true.
Proof.
  intros (Hwf & _ & raw & Hraw & Hlen) Hsmall Hpre Hs.
  pose proof (SunSpecServer.string_prefix _ _ Hwf) as Hp.
  destruct Hsmall as [Hstr|(k & scaled & Hi & Hk)]; [apply Hp in Hstr; congruence|].
  rewrite Hraw. unfold Value. rewrite Hi.
  destruct (data_type_format _ _ Hwf) as [k' sc' Hi' _ Hn|Hd _|m Hi' _ _ _]; [|by rewrite Hd in Hi|congruence].
  assert (k' = k) as -> by congruence. unfold read_int. rewrite read_full_ok by lia. simpl.
  set (z := wrap k (be_decode (take (int_bytes k) raw))).
  assert (Hz : Z.abs z < 2 ^ 53).
  { pose proof (wrap_range k (be_decode (take (int_bytes k) raw))) as [Hlo Hhi]. fold z in Hlo, Hhi.
    destruct k; simpl in *; unfold int_min, int_max in *; simpl in *; lia. }
  eexists. split; [done|].
  destruct scaled; [rewrite (power_0 r true Hs), fmul_1_r by (by apply f64_of_Z_valid)|];
    by apply f64_of_Z_finite.
Qed.

(** A pass over good registers publishes and ends. *)
Lemma process_ok order s :
  points_zero s → (∀ n, send_ok (pusher s) n = true) →
  Forall (λ nr : string * Register, filled nr.2 ∧ small_type (DataType nr.2) ∧ Scaling nr.2 = f64_0) order →
  ∃ s', run (process order) s = (s', Returns None) ∧ points_zero s' ∧
    (∀ n, send_ok (pusher s') n = true) ∧ points s' = entered order (points s) ∧
    client s' = client s ∧ Order s' = Order s ∧ Settings s' = Settings s ∧ name s' = name s.
Proof.
  intros Hz Hsend Ho.
  assert (Ho' : Forall (λ nr : string * Register, InternalValue nr.2 = f64_0) order)
    by (eapply Forall_impl; [exact Ho|]; by intros ? [(_ & ? & _) _]).
  destruct (process_loop_spec (R:=option error) order s [] Hz Ho') as (new & Hrun & Hnew).
  set (s1 := set_points (entered order (points s)) s) in *. simpl in Hrun.
  assert (Hfin : finite_points (new ++ [connected s1 new])).
  { apply Forall_app. split.
    - apply Forall_forall. intros pt Hpt. destruct (Hnew pt Hpt) as (r & Hin & Hpre & _ & Hv).
      pose proof (proj1 (Forall_forall _ _) Ho _ Hin) as (Hf & Hsm & Hs). simpl in *.
      destruct (Value_small r Hf Hsm Hpre Hs) as (v & Hv' & Hfin). congruence.
    - constructor; [|done]. unfold connected. simpl. by destruct (0 <? length new)%nat. }
  destruct (NewEnvelope_ok (name s1) (mk_Status (new ++ [connected s1 new]))) as [env Henv]; [exact Hfin|].
  unfold run, process. erewrite bind_next by exact Hrun. erewrite bind_next by reflexivity.
  rewrite Henv, Push_spec. assert (send_ok (pusher s1) (sends (pusher s1)) = true) as -> by apply Hsend.
  go_unfold. eexists. split; [reflexivity|]. split_and!; try done.
  by apply points_zero_entered.
Qed.
End process_laws.

Lemma points_zero_New `{ModbusLib} nm : points_zero (New nm).
Proof. intros n r Hr. done. Qed.

Lemma entered_lookup order m n :
  NoDup (order.*1) →
  entered order m !! n = match (list_to_map order : gmap string Register) !! n with
                         | Some r => Some r
                         | None => m !! n
                         end.
Proof.
  revert m. induction order as [|[n' r] order IH]; intros m Hnd; [done|].
  apply NoDup_cons in Hnd as [Hnot Hnd]. cbn [entered foldl]. change (foldl _ _ order) with (entered order (<[n' := r]> m)).
  rewrite IH by done. simpl. destruct (decide (n' = n)) as [->|Hne].
  - rewrite (not_elem_of_list_to_map_1 order n Hnot), !lookup_insert_eq. done.
  - by rewrite !lookup_insert_ne by done.
Qed.

(** A pass in any order over a map of registers. *)
Lemma entered_perm order data m n :
  order ≡ₚ map_to_list data →
  entered order m !! n = match (data : gmap string Register) !! n with Some r => Some r | None => m !! n end.
Proof.
  intros Hp. assert (NoDup (order.*1)) as Hnd
    by (rewrite (fmap_Permutation fst _ _ Hp); apply NoDup_fst_map_to_list).
  rewrite entered_lookup by done.
  rewrite (list_to_map_proper order (map_to_list data) Hnd Hp), list_to_map_to_list. done.
Qed.

(** ** Properties *)

Section properties.
Context `{GoPlatform} `{ModbusLib} `{Schemas}.

Lemma model_registers_keeps m a d ps : ∀ pos regs regs' n,
  model_registers m a pos d ps regs = Returns (inl regs') → ~ In n (map PName ps) →
  regs' !! n = regs !! n.
Proof.
  induction ps as [|p ps IH]; intros pos regs regs' n Hrun Hn; [by injection Hrun as <-|].
  cbn [model_registers] in Hrun. destruct (model_register m a pos p) as [r|]; [|done].
  destruct (part d pos (pos + Size p * 2)) as [raw|]; [|done].
  rewrite (IH _ _ _ n Hrun) by (intros ?; apply Hn; by right).
  apply lookup_insert_ne. intros <-. apply Hn. by left.
Qed.

Lemma model_registers_zero m a d ps : ∀ pos regs regs',
  model_registers m a pos d ps regs = Returns (inl regs') →
  (∀ n r, regs !! n = Some r → InternalValue r = f64_0) →
  ∀ n r, regs' !! n = Some r → InternalValue r = f64_0.
Proof.
  induction ps as [|p ps IH]; intros pos regs regs' Hrun Hz; [by injection Hrun as <-|].
  cbn [model_registers] in Hrun. destruct (model_register m a pos p) as [r|] eqn:Hr; [|done].
  destruct (part d pos (pos + Size p * 2)) as [raw|]; [|done].
  apply (IH _ _ _ Hrun). intros n r' [[_ <-]|[_ Hr']]%lookup_insert_Some; [|eauto].
  by destruct (model_register_ok _ _ _ _ _ Hr) as (_ & _ & _ & Hv & _).
Qed.

(** The client ignores scale factors.  The value of a scale factor register
    is never stored, so whatever data a device answers and whatever the order of
    the pass, every value the client publishes is the one of the raw data at
    scale factor zero, also for a register that names a scale factor. *)
Theorem sunspec_scale_ignored s c c' m a l data order :
  points_zero s → modelData c m a l = (c', Returns (inl data)) → order ≡ₚ map_to_list data →
  ∃ pts, process_loop (R:=option error) order [] s = (set_points (entered order (points s)) s, Next pts) ∧
    points_zero (set_points (entered order (points s)) s) ∧
    ∀ pt, pt ∈ pts → ∃ r, data !! Point_Tag pt = Some r ∧ Value r (Raw r) f64_0 = inl (Point_Value pt).
Proof.
  intros Hz Hdata Hperm. unfold modelData in Hdata.
  destruct (ReadHoldingRegisters (wrap U16 a) (wrap U16 l) c) as [c1 [d|e]]; [|done]. simpl in Hdata.
  destruct (GetModelSchema m) as [ps|e]; [|done]. simpl in Hdata. injection Hdata as _ Hrun.
  assert (Ho : Forall (λ nr : string * Register, InternalValue nr.2 = f64_0) order).
  { apply Forall_forall. intros [n r] Hin. rewrite Hperm in Hin. apply elem_of_map_to_list in Hin.
    by apply (model_registers_zero _ _ _ _ _ _ _ Hrun ltac:(done) n). }
  destruct (process_loop_spec (R:=option error) order s [] Hz Ho) as (new & Hp & Hnew).
  exists new. split; [done|]. split; [by apply points_zero_entered|].
  intros pt Hpt. destruct (Hnew pt Hpt) as (r & Hin & _ & _ & Hv). exists r. split; [|done].
  rewrite Hperm in Hin. by apply elem_of_map_to_list in Hin.
Qed.

(** The address of a writable point is wrong.  [modelData] adds the offset of
    the point in bytes to the address of the model's data, where the point is at
    its offset in words: a point after [n] words is written [n] words too far. *)
Theorem rw_address_doubled m a d before p after data r :
  Forall SunSpecServer.sized (before ++ p :: after) →
  model_registers m a 0 d (before ++ p :: after) ∅ = Returns (inl data) →
  ~ In (PName p) (map PName after) → Access p = "RW" → data !! PName p = Some r →
  Addr r = (a + SunSpecServer.total before) + SunSpecServer.total before.
Proof.
  intros Hsz Hrun Hn Hrw Hr.
  assert (Hgen : ∀ bs pos regs, Forall SunSpecServer.sized bs →
    model_registers m a pos d (bs ++ p :: after) regs = Returns (inl data) →
    Addr r = a + pos + 2 * SunSpecServer.total bs).
  { intros bs. induction bs as [|b bs IH]; intros pos regs Hbs Hm.
    - cbn [app model_registers] in Hm.
      destruct (model_register m a pos p) as [r0|] eqn:Hr0; [|done].
      destruct (part d pos (pos + Size p * 2)) as [raw|]; [|done].
      rewrite (model_registers_keeps _ _ _ _ _ _ _ (PName p) Hm Hn), lookup_insert_eq in Hr.
      injection Hr as <-. destruct (model_register_ok _ _ _ _ _ Hr0) as (_ & _ & _ & _ & Ha & _).
      simpl. rewrite Ha, Hrw. simpl. lia.
    - apply Forall_cons in Hbs as [Hb Hbs]. cbn [app model_registers] in Hm.
      destruct (model_register m a pos b) as [r0|]; [|done].
      destruct (part d pos (pos + Size b * 2)) as [raw|]; [|done].
      rewrite (IH _ _ Hbs Hm).
      change (SunSpecServer.total (b :: bs)) with (Size b + SunSpecServer.total bs). lia. }
  apply Forall_app in Hsz as [Hb _]. rewrite (Hgen before 0 ∅ Hb Hrun). lia.
Qed.

(** A device can bring the client down.  If the data a device answers for a
    model are shorter than the schema of the model says, which is so as soon as
    the length the device reports is too small, reading the model panics. *)
Theorem short_model_panics c m a l c1 d ps :
  GetModelSchema m = inl ps →
  Forall (λ p, SunSpecServer.sized p ∧ (Sf p = SfNil ∨ ∃ sf, Sf p = SfString sf)) (drop 2 ps) →
  ReadHoldingRegisters (wrap U16 a) (wrap U16 l) c = (c1, inl d) →
  Z.of_nat (length d) < 2 * SunSpecServer.total (drop 2 ps) →
  modelData c m a l = (c1, Panics PanicBounds).
Proof.
  intros Hps Hsz Hread Hlen. unfold modelData. rewrite Hread. simpl. rewrite Hps. simpl.
  f_equal. apply model_registers_short; [done|lia|lia|lia].
Qed.
(** *** Updates *)

(** The points that can be written are numbers. *)
Definition writes_numbers (s : SunSpecClient) : Prop :=
  ∀ tag r, points s !! tag = Some r → Addr r ≠ 0 → register_wf r ∧ string_size (DataType r) = None.

(** The request a write of a point makes of the device, if it makes one. *)
Definition write_request (s : SunSpecClient) (tag : string) (v : float64) (c : Client) : Client :=
  match points s !! tag with
  | None => c
  | Some r =>
    if Addr r =? 0 then c else
    match scaling_of s r with
    | None => c
    | Some sc =>
      match Bytes r (AFloat v) sc with
      | Returns (inl bs) => (WriteMultipleRegisters (wrap U16 (Addr r)) (wrap U16 (Count r)) bs c).1
      | _ => c
      end
    end
  end.

Lemma sunspec_write_point p s c :
  client s = Some c → writes_numbers s →
  write_point p s = (set_client (write_request s (Point_Tag p) (Point_Value p) c) s, Next ()).
Proof.
  intros Hc Hn. unfold write_point, write_request. go_unfold.
  assert (s = set_client c s) as Hid by (destruct s; simpl in *; by subst).
  destruct (points s !! Point_Tag p) as [r|] eqn:Hr; [|by rewrite <- Hid].
  destruct (Z.eqb_spec (Addr r) 0) as [Ha|Ha]; [by rewrite <- Hid|].
  destruct (scaling_of s r) as [sc|]; [|by rewrite <- Hid].
  destruct (Hn _ _ Hr Ha) as [Hwf Hs].
  destruct (Bytes_fits r (AFloat (Point_Value p)) sc Hwf Hs) as (bs & -> & _).
  unfold on_client. go_unfold. rewrite Hc. by destruct (WriteMultipleRegisters _ _ _ _).
Qed.

Lemma sunspec_update_returns env s c :
  client s = Some c → writes_numbers s →
  ∃ c', run (handleMsgBusUpdate env) s = (set_client c' s, Returns ()).
Proof.
  intros Hc Hn. assert (s = set_client c s) as Hid by (destruct s; simpl in *; by subst).
  unfold run, handleMsgBusUpdate. go_unfold.
  destruct (String.eqb (Sender env) (name s)); [exists c; by rewrite <- Hid|].
  destruct (Envelope_Update env) as [u [e|]]; [exists c; by rewrite <- Hid|].
  assert (∀ ps c, ∃ c', range ps write_point (set_client c s) = (set_client c' s, Next ())) as Hl.
  { intros ps. induction ps as [|p ps IH]; intros c0; [by exists c0|]. cbn [range].
    erewrite bind_next by (by apply sunspec_write_point). apply IH. }
  rewrite Hid. destruct (Hl (Updates u) c) as [c' ->]. by exists c'.
Qed.

(** An update brings the client down if its tag is that of a text the device lets
    be written: the value of an update is a number. *)
Theorem text_update_panics s tag r sc v sender env :
  points s !! tag = Some r → Addr r ≠ 0 → register_wf r → string_size (DataType r) ≠ None →
  scaling_of s r = Some sc → sender ≠ name s → valid64 v →
  carries sender (mk_Update [mk_Point tag v 0] "" "") env →
  (run (handleMsgBusUpdate env) s).2 = Panics PanicTypeAssert.
Proof.
  intros Hr Ha Hwf Hstr Hsc Hs Hv Henv.
  destruct Henv as [HS Hu].
  unfold run, handleMsgBusUpdate. go_unfold. rewrite HS, (Hu : Envelope_Update env = _). apply String.eqb_neq in Hs as ->.
  cbn [Updates range]. unfold write_point. go_unfold. cbn [Point_Tag Point_Value]. rewrite Hr.
  apply Z.eqb_neq in Ha as ->. rewrite Hsc. unfold Bytes.
  destruct (data_type_format _ _ Hwf) as [k scaled Hi Hn _|Hd _|m Hi Hm _ _]; [done|by rewrite Hd in Hstr|].
  by rewrite Hi, Hm.
Qed.
End properties.

(** *** Examples *)

(** A device whose first model, 101, is one word short: W at -1, its scale
    factor, and nothing else. *)
#[local] Instance short_device : ModbusLib := {|
  Client := ();
  NewClient _ := ();
  ModbusClient.ReadCoils _ _ c := (c, inl []);
  ModbusClient.ReadDiscreteInputs _ _ c := (c, inl []);
  ModbusClient.ReadInputRegisters _ _ c := (c, inl []);
  ReadHoldingRegisters a n c := (c, inl (take (Z.to_nat (2 * n)) [18; 192; 255; 255; 0; 0; 28; 32; 0; 0]));
  ModbusClient.WriteSingleCoil _ _ c := (c, inl []);
  WriteMultipleRegisters _ _ _ c := (c, inl []);
|}.

Definition inverter_points : list SchemaPoint :=
  match SunSpecServer.example_model 101 with inl ps => ps | inr _ => [] end.

Lemma inverter_points_simple : Forall simple inverter_points.
Proof.
  repeat (apply List.Forall_cons; [split_and!; [reflexivity| |]|]); [..|by apply List.Forall_nil].
  all: first [ right; by eexists _, _ | left; done | right; by eexists | idtac ].
Qed.

Lemma short_answer :
  @ReadHoldingRegisters short_device (wrap U16 40032) (wrap U16 4) ()
    = ((), inl [18; 192; 255; 255; 0; 0; 28; 32]) ∧
  Z.of_nat (length [18; 192; 255; 255; 0; 0; 28; 32])
    < 2 * SunSpecServer.total (drop 2 inverter_points) ∧
  Forall (λ p, SunSpecServer.sized p ∧ (Sf p = SfNil ∨ ∃ sf, Sf p = SfString sf))
    (drop 2 inverter_points).
Proof.
  split; [vm_compute; reflexivity|]. split; [vm_compute; reflexivity|].
  apply Forall_drop. eapply Forall_impl; [apply inverter_points_simple|]. by intros p (? & _ & ?).
Qed.

Lemma short_model_panics_witness :
  @modelData short_device SunSpecServer.example_schemas () 101 40032 4 = ((), Panics PanicBounds).
Proof.
  destruct short_answer as (Hread & Hlen & Hps).
  exact (@short_model_panics short_device SunSpecServer.example_schemas () 101 40032 4 ()
    [18; 192; 255; 255; 0; 0; 28; 32] inverter_points eq_refl Hps Hread Hlen).
Defined.

(** W and its scale factor, -1: the client publishes the raw 4800 for 480. *)
Definition inverter_data : gmap string Register :=
  match (@modelData short_device SunSpecServer.example_schemas () 101 40032 5).2 with
  | Returns (inl data) => data
  | _ => ∅
  end.

Lemma inverter_data_read :
  @modelData short_device SunSpecServer.example_schemas () 101 40032 5
    = ((), Returns (inl inverter_data)).
Proof. vm_compute. reflexivity. Qed.

Lemma sunspec_scale_ignored_witness :
  (∃ r, inverter_data !! "W" = Some r ∧ ScaleRegister r = "W_SF" ∧
     Value (H:=amd64) r (Raw r) f64_0 = inl (f64_of_Z 4800)) ∧
  ∃ pts,
    (process_loop (H:=amd64) (R:=option error) (map_to_list inverter_data) [] (New "sunspec-client")).2 = Next pts ∧
    ∀ pt, pt ∈ pts → ∃ r, inverter_data !! Point_Tag pt = Some r ∧
      Value (H:=amd64) r (Raw r) f64_0 = inl (Point_Value pt).
Proof.
  split; [eexists; split; [vm_compute; reflexivity|]; split; vm_compute; reflexivity|].
  destruct (@sunspec_scale_ignored amd64 short_device SunSpecServer.example_schemas (New "sunspec-client")
    () () 101 40032 5 inverter_data (map_to_list inverter_data) (points_zero_New _) inverter_data_read
    (Permutation_refl _)) as (pts & Hp & _ & Hv).
  exists pts. split; [exact (f_equal snd Hp)|exact Hv].
Defined.

(** A writable point after W and its scale factor is at 40034 and written at
    40036. *)
Definition rw_points : list SchemaPoint :=
  [SunSpecServer.pt "W" "int16" 1 SfNil; SunSpecServer.pt "W_SF" "sunssf" 1 SfNil;
   mk_SchemaPoint "WMax" "uint16" 1 SfNil "RW"].

Lemma rw_address_doubled_witness :
  ∃ data r, model_registers 101 40032 0 [18; 192; 255; 255; 0; 9] rw_points ∅ = Returns (inl data) ∧
    data !! "WMax" = Some r ∧ Addr r = 40036.
Proof.
  destruct (model_registers 101 40032 0 [18; 192; 255; 255; 0; 9] rw_points ∅) as [[data|]| |] eqn:Hm;
    [|vm_compute in Hm; discriminate..].
  assert (is_Some (data !! "WMax")) as [r Hr].
  { vm_compute in Hm. injection Hm as <-. vm_compute. by eexists. }
  exists data, r. split; [reflexivity|]. split; [exact Hr|].
  apply (rw_address_doubled 101 40032 [18; 192; 255; 255; 0; 9]
    [SunSpecServer.pt "W" "int16" 1 SfNil; SunSpecServer.pt "W_SF" "sunssf" 1 SfNil]
    (mk_SchemaPoint "WMax" "uint16" 1 SfNil "RW") [] data r); [|exact Hm|by intros []|reflexivity|exact Hr].
  by repeat constructor.
Defined.

(** A text that a model lets be written. *)
Definition text_register : Register := mk_Register "string8" "Addr" 12 8 f64_0 "" "" f64_0 "" None 40080.

Definition text_client : @SunSpecClient short_device :=
  @mk_SunSpecClient short_device "" "" "meter" 1 ":502" 0 (mk_bus [] 0 (λ _, true)) (Some ()) [] ∅
    {[ "Addr" := text_register ]}.

Lemma text_update_panics_witness :
  ∃ env, NewEnvelope "logic" (mk_Update [mk_Point "Addr" f64_1 0] "" "") = inl env ∧
    (run (@handleMsgBusUpdate amd64 short_device (wire env)) text_client).2 = Panics PanicTypeAssert.
Proof.
  destruct (NewEnvelope "logic" (mk_Update [mk_Point "Addr" f64_1 0] "" "")) as [env|e] eqn:Henv;
    [|discriminate Henv].
  exists env. split; [done|].
  eapply (@text_update_panics amd64 short_device text_client "Addr" text_register f64_0 f64_1 "logic");
    [reflexivity|discriminate|reflexivity|discriminate|reflexivity|discriminate|reflexivity|].
  exact (update_arrives "logic" "Addr" f64_1 env eq_refl Henv).
Defined.
