(* ===== verification/SunSpecLink.v ===== *)
(** * A SunSpec client connected to a SunSpec server

    As for Modbus, the two modules meet over the Modbus library: [Connection]
    states what its read function does, and the theorems are about
    [sunspec/client] discovering the models of a server that [sunspec/server]
    configured from a document. *)

From S2P Require Import Prelude GoFloat GoText GoBytes Etree Json Msgbus.
From S2P Require Import SunSpecRegister SunSpecServer.
From S2P Require ModbusClient SunSpecClient.
Import ModbusClient (ModbusLib, Client, NewClient, ReadHoldingRegisters, TCPClientHandler).
Import SunSpecClient (SunSpecClient, nextModel, modelData, discover, process, confirmIdentifier,
  simple, filled, small_type, points_zero, entered).

(** The data of a response after its byte count, or an error. *)
Definition answer (out : outcome response) : result (list Z) :=
  match out with
  | Returns (_ :: data, Success) => inl data
  | _ => inr (Sentinel "modbus: exception")
  end.

Class Connection `{GoPlatform} (L : ModbusLib) := {
  peer : Client → SunSpecServer;
  ReadHoldingRegisters_peer a n c : 0 ≤ a < 65536 → 1 ≤ n ≤ 125 →
    peer (ReadHoldingRegisters a n c).1 = (run (readHoldingRegisters (request a n [])) (peer c)).1 ∧
    (ReadHoldingRegisters a n c).2 = answer (run (readHoldingRegisters (request a n [])) (peer c)).2;
}.

(** ** Specification vocabulary *)

(** The first two points of a model are its number and its length. *)
Definition headed (ps : list SchemaPoint) : Prop :=
  ∃ a1 a2 rest, ps = mk_SchemaPoint "ID" "uint16" 1 SfNil a1 :: mk_SchemaPoint "L" "uint16" 1 SfNil a2 :: rest.

(** A model the client can read: it starts with its number and its length, its
    other points are simple, fit one request, and name scale factors among
    themselves; the number is no end marker. *)
Record deliverable (m : Z * list SchemaPoint) : Prop := {
  deliverable_id : 0 ≤ m.1 < 65535;
  deliverable_head : headed m.2;
  deliverable_simple : Forall simple (drop 2 m.2);
  deliverable_length : 1 ≤ GetModelLength m.2 ≤ 125;
  deliverable_scale p sf : In p (drop 2 m.2) → Sf p = SfString sf → In sf (map PName m.2);
}.

(** What the client knows about models at [a] when it has found them. *)
Fixpoint found (a : Z) (ms : list (Z * list SchemaPoint)) (acc : gmap Z (Z * Z)) : gmap Z (Z * Z) :=
  match ms with
  | [] => acc
  | (id, ps) :: ms' => found (a + total ps) ms' (<[id := (a + 2, GetModelLength ps)]> acc)
  end.

(** A server as its configuration and any status messages leave it. *)
Record serving (s : SunSpecServer) : Prop := {
  serving_ok : server_ok s;
  serving_tags : tags s !! "" = None;
}.

(** ** Lemmas *)

Lemma total_length ps : headed ps → total ps = 2 + GetModelLength ps.
Proof.
  intros (a1 & a2 & rest & ->). unfold GetModelLength. cbn [drop].
  assert (Hf : ∀ l acc, foldl (λ length p, length + Size p) acc l = acc + total l).
  { induction l as [|p l IH]; intros acc; [unfold total; simpl; lia|]. cbn [foldl]. rewrite IH.
    change (total (p :: l)) with (Size p + total l). lia. }
  rewrite Hf, drop_0. unfold total. cbn [foldr Size]. lia.
Qed.

Lemma drop_total ps : headed ps → total (drop 2 ps) = GetModelLength ps.
Proof.
  intros Hh. pose proof (total_length ps Hh) as Ht. destruct Hh as (a1 & a2 & rest & ->).
  cbn [drop]. rewrite drop_0. unfold total in *. cbn [foldr Size] in Ht. lia.
Qed.

Section link.
Context `{GoPlatform} {L : ModbusLib} `{!Connection L} `{Schemas}.

(** A read that covers registers to their end is answered with their words. *)
Lemma read_answered c a n rs :
  serving (peer c) → reads (peer c) (a + n) a rs None → 0 ≤ a < 65536 → 1 ≤ n ≤ 125 →
  ∃ c1, ReadHoldingRegisters a n c = (c1, inl (flat_map (encoding (peer c)) rs)) ∧ peer c1 = peer c.
Proof.
  intros [Hok Ht] Hr Ha Hn. destruct (ReadHoldingRegisters_peer a n c Ha Hn) as [Hp Hans].
  rewrite (readHoldingRegisters_spec (peer c) _ a n rs None Hok Ht
    (uint16_at_request a n [] Ha ltac:(lia)) ltac:(lia) Hr) in Hp, Hans.
  destruct (ReadHoldingRegisters a n c) as [c1 ans]. simpl in *. subst ans. eauto.
Qed.

(** A register that stands for a constant: no tag, no scale factor. *)
Definition constant (k : int_kind) (r : Register) (v : Z) : Prop :=
  int_format (DataType r) = Some (k, true) ∧ Tag r = "" ∧ ScaleRegister r = "" ∧ Scaling r = f64_0 ∧
  InternalValue r = f64_of_Z v.

Lemma constant_encoding s r k v :
  tags s !! "" = None → constant k r v → Z.abs v < 2 ^ 53 → in_range k v →
  scale_of s r = Some f64_0 ∧ encoding s r = write_int k v.
Proof.
  intros Ht (Hd & Htag & Hsr & Hs & Hv) Hb Hr.
  assert (Hsc : scale_of s r = Some f64_0) by (unfold scale_of; by rewrite Hsr).
  split; [done|]. unfold encoding. rewrite Hsc. unfold tag_value. rewrite Htag, Ht.
  change (default ANil None) with ANil. change (default f64_0 (Some f64_0)) with f64_0.
  assert (one_of ["string8"; "string16"] (DataType r) = false) as Hstr.
  { destruct (one_of ["string8"; "string16"] (DataType r)) eqn:Ho; [|done].
    apply one_of_In in Ho as [Ho|[Ho|[]]]; by rewrite <- Ho in Hd. }
  assert (Bytes r ANil f64_0 = Bytes r (AFloat (f64_of_Z v)) f64_0) as Heq
    by (unfold Bytes; by rewrite Hstr, Hv).
  by rewrite Heq, (Bytes_int r k true v Hd (or_intror Hs) Hb Hr).
Qed.

Definition word_of (r : Register) (v : Z) : Prop :=
  constant U16 r v ∧ Count r = 1 ∧ 0 ≤ v < 65536.

Lemma word_encoding s r v :
  tags s !! "" = None → word_of r v → scale_of s r = Some f64_0 ∧ encoding s r = write_int U16 v.
Proof.
  intros Ht (Hc & _ & Hv). apply (constant_encoding s r U16 v Ht Hc); [lia|].
  unfold in_range, int_min, int_max. simpl. lia.
Qed.

(** Two such registers, as [nextModel] reads them. *)
Lemma nextModel_pair c a r1 r2 v1 v2 :
  serving (peer c) → 0 ≤ a → a + 1 < 65536 →
  register_on (peer c) a = Some r1 → register_on (peer c) (a + 1) = Some r2 →
  word_of r1 v1 → word_of r2 v2 →
  ∃ c1, nextModel c a = (c1, Returns (inl (v1, v2))) ∧ peer c1 = peer c.
Proof.
  intros Hsrv Ha Ha1 Hr1 Hr2 Hw1 Hw2.
  destruct (word_encoding (peer c) r1 v1 (serving_tags _ Hsrv) Hw1) as [Hs1 He1].
  destruct (word_encoding (peer c) r2 v2 (serving_tags _ Hsrv) Hw2) as [Hs2 He2].
  destruct Hw1 as (_ & Hc1 & Hv1), Hw2 as (_ & Hc2 & Hv2).
  assert (reads (peer c) (a + 2) a [r1; r2] None) as Hreads.
  { eapply reads_register; [lia|done|by rewrite Hs1|]. rewrite Hc1.
    eapply reads_register; [lia|done|by rewrite Hs2|]. rewrite Hc2.
    apply reads_end. lia. }
  destruct (read_answered c a 2 _ Hsrv Hreads ltac:(lia) ltac:(lia)) as (c1 & Hread & Hp).
  exists c1. split; [|done]. unfold nextModel.
  destruct SunSpecClient.generic_register as [g|] eqn:Hg; [|done].
  assert (int_format (DataType g) = Some (U16, true) ∧ unscaled g true) as [Hgi Hgu].
  { injection Hg as <-. split; [done|by right]. }
  cbn [wrapf]. rewrite (wrap_id U16 a) by (unfold in_range, int_min, int_max; simpl; lia).
  rewrite Hread. cbn [flat_map]. rewrite He1, He2, app_nil_r. cbn [wrapf result_bind].
  assert (Hlen : length (write_int U16 v1 ++ write_int U16 v2) = 4%nat)
    by (rewrite length_app; unfold write_int; by rewrite !be_encode_length).
  rewrite !SunSpecClient.part_ok by lia.
  change (Z.to_nat (2 - 0)) with 2%nat. change (Z.to_nat 0) with 0%nat.
  change (Z.to_nat (4 - 2)) with 2%nat. change (Z.to_nat 2) with 2%nat.
  assert (Hrange : ∀ v, 0 ≤ v < 65536 → in_range U16 v)
    by (intros v Hv; unfold in_range, int_min, int_max; simpl; lia).
  assert (Hv : ∀ v, 0 ≤ v < 65536 → Value g (Some (write_int U16 v)) f64_0 = inl (f64_of_Z v)).
  { intros v Hv. pose proof (Value_int g U16 true v [] Hgi Hgu ltac:(lia) (Hrange v Hv)) as Hi.
    by rewrite app_nil_r in Hi. }
  rewrite drop_0, take_app_length' by (unfold write_int; by rewrite be_encode_length).
  rewrite (Hv v1 Hv1). cbn [wrapf].
  rewrite drop_app_length' by (unfold write_int; by rewrite be_encode_length).
  rewrite take_ge by (unfold write_int; by rewrite be_encode_length).
  rewrite (Hv v2 Hv2). cbn [wrapf result_bind].
  rewrite !conv_of_Z; [done|lia|unfold in_range, int_min, int_max; simpl; lia|lia|
    unfold in_range, int_min, int_max; simpl; lia].
Qed.

(** *** A model of the server *)

Lemma placed_points s id len ps a n :
  placed s id len ps a → In n (map PName ps) → is_Some (points s !! n).
Proof.
  revert a. induction ps as [|p ps IH]; [done|]; intros a [Hp Hps] Hin.
  destruct Hin as [<-|Hin]; [|by eapply IH]. by destruct Hp as (? & ? & _ & _ & _ & _ & ? & _).
Qed.

Lemma placed_reads s id len ps : ∀ a,
  server_ok s → Forall sized ps → placed s id len ps a →
  (∀ p sf, In p ps → Sf p = SfString sf → is_Some (points s !! sf)) →
  ∃ rs, reads s (a + total ps) a rs None ∧ words rs = total ps.
Proof.
  intros a Hok Hsz. revert a. induction Hsz as [|p ps Hp Hps IH]; intros a Hpl Hsf.
  { exists []. split; [|done]. apply reads_end. unfold total. simpl. lia. }
  change (total (p :: ps)) with (Size p + total ps).
  pose proof (sized_pos p Hp). pose proof (total_nonneg ps Hps).
  destruct Hpl as [(r0 & r & Hr0 & Hr & Hs & _) Hpl].
  destruct (IH _ Hpl) as (rs & Hrs & Hw); [intros ? ? ?; apply Hsf; by right|].
  destruct (point_register_ok _ _ _ _ Hr0) as (Hwf & _ & Hdt & _ & _ & _ & Hsr).
  destruct Hs as (_ & _ & _ & Hc & _ & Hsr').
  assert (Count r = Size p) as Hsize.
  { unfold register_wf, sized in *. rewrite Hdt in Hwf. congruence. }
  exists (r :: rs). rewrite <- Hsize in *. split.
  - eapply reads_register; [lia|done| |by replace (a + (Count r + total ps)) with (a + Count r + total ps) by lia].
    unfold scale_of. rewrite Hsr', Hsr. destruct (Sf p) as [| | |sf|] eqn:Ep; try done.
    destruct (String.eqb sf ""); [done|]. destruct (Hsf p sf (or_introl eq_refl) Ep) as [l Hl].
    destruct (ok_points s Hok sf l Hl) as (r' & Hr' & _). rewrite Hl. simpl. by rewrite Hr'.
  - change (words (r :: rs)) with (Count r + words rs). lia.
Qed.

(** The number and the length of a model, where the client looks for them. *)
Lemma nextModel_placed c id ps a :
  serving (peer c) → placed (peer c) id (GetModelLength ps) ps a → deliverable (id, ps) →
  0 ≤ a → a + 1 < 65536 →
  ∃ c1, nextModel c a = (c1, Returns (inl (id, GetModelLength ps))) ∧ peer c1 = peer c.
Proof.
  intros Hsrv Hpl [Hid Hh _ Hlen _] Ha Ha1. simpl in *.
  set (len := GetModelLength ps) in *. clearbody len. destruct Hh as (a1 & a2 & rest & ->).
  destruct Hpl as [(r1 & r1' & Hp1 & Hr1 & _ & Hk1 & _) [(r2 & r2' & Hp2 & Hr2 & _ & Hk2 & _) _]].
  specialize (Hk1 (or_introl eq_refl)). specialize (Hk2 (or_intror eq_refl)). subst r1' r2'.
  injection Hp1 as <-. injection Hp2 as <-.
  eapply nextModel_pair; try done; unfold word_of; split_and!; done || lia.
Qed.

Definition good (r : Register) : Prop := filled r ∧ small_type (DataType r) ∧ Scaling r = f64_0.

(** The data of a model. *)
Lemma modelData_placed c id ps a :
  serving (peer c) → GetModelSchema id = inl ps → placed (peer c) id (GetModelLength ps) ps a →
  deliverable (id, ps) → 0 ≤ a → a + 2 < 65536 →
  ∃ c1 data, modelData c id (a + 2) (GetModelLength ps) = (c1, Returns (inl data)) ∧ peer c1 = peer c ∧
    map_Forall (λ _, good) data ∧ ∀ n, In n (map PName (drop 2 ps)) → is_Some (data !! n).
Proof.
  intros Hsrv Hps Hpl [Hid Hh Hsimple Hlen Hscale] Ha Ha2. simpl in *.
  assert (Forall sized (drop 2 ps)) as Hsz by (eapply Forall_impl; [exact Hsimple|by intros ? []]).
  assert (placed (peer c) id (GetModelLength ps) (drop 2 ps) (a + 2)) as Hpl2.
  { clear -Hpl Hh. destruct Hh as (a1 & a2 & rest & ->). destruct Hpl as [_ [_ Hpl]].
    cbn [drop]. rewrite drop_0. by replace (a + 2) with (a + 1 + 1) by lia. }
  destruct (placed_reads (peer c) id _ _ _ (serving_ok _ Hsrv) Hsz Hpl2) as (rs & Hrs & Hw).
  { intros p sf Hin Hsf. by eapply placed_points, Hscale. }
  rewrite (drop_total ps Hh) in Hrs, Hw.
  destruct (read_answered c (a + 2) (GetModelLength ps) rs Hsrv Hrs ltac:(lia) ltac:(lia)) as (c1 & Hread & Hp).
  pose proof (registers_encoding_length _ _ _ _ _ (serving_ok _ Hsrv) (serving_tags _ Hsrv) Hrs) as Hl.
  destruct (SunSpecClient.model_registers_ok id (a + 2) (flat_map (encoding (peer c)) rs) (drop 2 ps))
    with (pos := 0) (regs := (∅ : gmap string Register)) as (data & Hdata & Hgood & Hall).
  { eapply Forall_impl; [exact Hsimple|]. by intros p (? & _ & ?). }
  { lia. } { rewrite (drop_total ps Hh). lia. }
  exists c1, data. split_and!; [|done| |intros n Hn; apply Hall; by left].
  - unfold modelData. rewrite !wrap_id by (unfold in_range, int_min, int_max; simpl; lia).
    rewrite Hread. cbn [wrapf]. rewrite Hps. cbn [wrapf]. by rewrite Hdata.
  - intros n r Hr. destruct (Hgood n r Hr) as [?|(p & Hin & _ & Hf & Hd & Hs)]; [done|].
    split_and!; [done| |done]. rewrite Hd.
    apply list_elem_of_In in Hin. by apply (proj1 (Forall_forall _ _) Hsimple p Hin).
Qed.

(** *** The client *)

(** A client connected to [srv] that knows only good registers. *)
Record reading (srv : SunSpecServer) (s : SunSpecClient) : Prop := {
  reading_client : ∃ c, SunSpecClient.client s = Some c ∧ peer c = srv;
  reading_good : map_Forall (λ _, good) (SunSpecClient.points s);
  reading_sends n : send_ok (SunSpecClient.pusher s) n = true;
}.

Lemma reading_zero srv s : reading srv s → SunSpecClient.points_zero s.
Proof. intros Hr n r Hn. by apply (reading_good _ _ Hr n r Hn). Qed.

(** The points of the models the client has found. *)
Definition known (s : SunSpecClient) (ms : list (Z * list SchemaPoint)) : Prop :=
  Forall (λ m : Z * list SchemaPoint, ∀ n, In n (map PName (drop 2 m.2)) → is_Some (SunSpecClient.points s !! n)) ms.

Lemma on_client_reading {A} f (a : A) srv s c c1 :
  reading srv s → SunSpecClient.client s = Some c → f c = (c1, a) → peer c1 = srv →
  SunSpecClient.on_client (R:=option error) f s = (SunSpecClient.set_client c1 s, Next a) ∧
  reading srv (SunSpecClient.set_client c1 s).
Proof.
  intros [_ Hg Hsend] Hc Hf Hp. split; [unfold SunSpecClient.on_client; go_unfold; by rewrite Hc, Hf|].
  split; [by exists c1|done|done].
Qed.

Lemma Value_good r : good r → HasPrefix (DataType r) "string" = false →
  ∃ v, Value r (Raw r) f64_0 = inl v.
Proof. intros (Hf & Hs & Hsc) Hp. destruct (SunSpecClient.Value_small r Hf Hs Hp Hsc) as (v & ? & _). eauto. Qed.

(** A pass over the data of a model. *)
Lemma process_reading srv s order data :
  reading srv s → map_Forall (λ _, good) data → order ≡ₚ map_to_list data →
  ∃ s', SunSpecClient.sub (R:=option error) (process order) s = (s', Next None) ∧ reading srv s' ∧
    SunSpecClient.Order s' = SunSpecClient.Order s ∧ SunSpecClient.Settings s' = SunSpecClient.Settings s ∧
    ∀ n, is_Some (SunSpecClient.points s !! n) ∨ is_Some (data !! n) → is_Some (SunSpecClient.points s' !! n).
Proof.
  intros Hr Hdata Hperm.
  assert (Forall (λ nr : string * Register, good nr.2) order) as Ho.
  { apply Forall_forall. intros [n r] Hin. rewrite Hperm in Hin. by eapply Hdata, elem_of_map_to_list. }
  destruct (SunSpecClient.process_ok order s (reading_zero _ _ Hr) (reading_sends _ _ Hr) Ho)
    as (s' & Hrun & _ & Hsend & Hpts & Hc & Hord & Hset & _).
  assert (∀ n, SunSpecClient.points s' !! n = match data !! n with Some r => Some r | None => SunSpecClient.points s !! n end) as Hl
    by (intros n; rewrite Hpts; by apply SunSpecClient.entered_perm).
  exists s'. split; [unfold SunSpecClient.sub; by rewrite Hrun|]. split_and!; try done.
  - split; [rewrite Hc; apply (reading_client _ _ Hr)| |done].
    intros n r. rewrite Hl. destruct (data !! n) as [r'|] eqn:Hn.
    + intros [= <-]. by apply (Hdata n).
    + apply (reading_good _ _ Hr).
  - intros n Hn. rewrite Hl. destruct (data !! n); [by eexists|]. destruct Hn as [?|[? ?]]; done.
Qed.

(** The report at the end of [Run]. *)
Lemma report_points_ok srv s ps :
  reading srv s → (∀ n, In n (map PName ps) → is_Some (SunSpecClient.points s !! n)) →
  SunSpecClient.report_points ps s = (s, Next ()).
Proof.
  intros Hr. induction ps as [|p ps IH]; intros Hn; [done|]. cbn [SunSpecClient.report_points].
  assert (SunSpecClient.report_points ps s = (s, Next ())) as Hrest by (apply IH; intros; apply Hn; by right).
  destruct (Hn (PName p) (or_introl eq_refl)) as [r Hp].
  erewrite bind_next by reflexivity. rewrite Hp. erewrite bind_next by reflexivity.
  pose proof (reading_good _ _ Hr _ _ Hp) as Hgood.
  destruct (HasPrefix (DataType r) "string") eqn:Hstr.
  - destruct Hgood as [(Hwf & _ & raw & Hraw & _) _]. rewrite Hraw.
    pose proof (proj1 (SunSpecServer.string_prefix _ _ Hwf) Hstr) as Hs. unfold String_.
    assert (one_of ["string8"; "string16"] (DataType r) = true) as ->; [|done].
    unfold string_size in Hs. apply one_of_In. simpl.
    destruct (String.eqb_spec (DataType r) "string8"); [auto|].
    destruct (String.eqb_spec (DataType r) "string16"); [auto|done].
  - destruct (SunSpecClient.scaling_of s r) as [sc|] eqn:Hsc; [|done].
    rewrite (SunSpecClient.scaling_of_zero s r sc (reading_zero _ _ Hr) Hsc).
    by destruct (Value_good r Hgood Hstr) as [v ->].
Qed.

Lemma report_ok srv s ms :
  reading srv s → known s ms → Forall (λ m : Z * list SchemaPoint, GetModelSchema m.1 = inl m.2) ms →
  range (map fst ms) SunSpecClient.report_model s = (s, Next ()).
Proof.
  intros Hr. induction 1 as [|[id ps] ms Hk _ IH]; intros Hs; [done|].
  apply Forall_cons in Hs as [Hps Hs]. cbn [map range].
  assert (SunSpecClient.report_model id s = (s, Next ())) as Hm.
  { unfold SunSpecClient.report_model. simpl in Hps. rewrite Hps. by eapply report_points_ok. }
  erewrite bind_next by exact Hm. by apply IH.
Qed.

Lemma confirm_identifier c :
  serving (peer c) → register_on (peer c) 40000 = Some IdentifierRegister →
  ∃ c1, confirmIdentifier c = (c1, None) ∧ peer c1 = peer c.
Proof.
  intros Hsrv Hid.
  assert (Hconst : constant U32 IdentifierRegister 1400204883) by (by split_and!).
  assert (Hran : in_range U32 1400204883) by (unfold in_range, int_min, int_max; simpl; lia).
  destruct (constant_encoding (peer c) _ _ _ (serving_tags _ Hsrv) Hconst ltac:(lia) Hran) as [Hsc Henc].
  assert (reads (peer c) (40000 + 2) 40000 [IdentifierRegister] None) as Hreads.
  { eapply reads_register; [lia|done|by rewrite Hsc|]. apply reads_end. unfold IdentifierRegister. simpl. lia. }
  destruct (read_answered c 40000 2 _ Hsrv Hreads ltac:(lia) ltac:(lia)) as (c1 & Hread & Hp).
  exists c1. split; [|done]. unfold confirmIdentifier.
  change (wrap U16 (Count IdentifierRegister)) with 2. rewrite Hread. cbn [flat_map wrapf].
  rewrite Henc, (Value_int IdentifierRegister U32 true _ [] ) by (done || (by right) || lia). done.
Qed.

(** *** The walk over the models *)

Section walk.
Context (srv : SunSpecServer) (Hsrv : serving srv)
  (orders : nat → gmap string Register → list (string * Register))
  (Horders : ∀ n m, orders n m ≡ₚ map_to_list m).

Lemma laid_out_le a ms b : laid_out srv a ms b → Forall deliverable ms → a ≤ b.
Proof.
  intros Hl Hd. revert a Hl. induction Hd as [|[id ps] ms [_ Hh _ Hlen _] _ IH]; intros a Hl; simpl in Hl; [lia|].
  destruct Hl as [_ Hl]. pose proof (total_length ps Hh). specialize (IH _ Hl). simpl in *. lia.
Qed.

(** One round of the loop: the next model is found, read and processed. *)
Lemma discover_model fuel a id ps m1 s :
  reading srv s → placed srv id (GetModelLength ps) ps a → deliverable (id, ps) →
  GetModelSchema id = inl ps → 0 ≤ a → a + 2 < 65536 → m1 = true ∨ id = 1 →
  ∃ s', discover (S fuel) orders a m1 s = discover fuel orders (a + total ps) true s' ∧ reading srv s' ∧
    SunSpecClient.Order s' = SunSpecClient.Order s ++ [id] ∧
    SunSpecClient.Settings s' = <[id := (a + 2, GetModelLength ps)]> (SunSpecClient.Settings s) ∧
    ∀ n, is_Some (SunSpecClient.points s !! n) ∨ In n (map PName (drop 2 ps)) →
      is_Some (SunSpecClient.points s' !! n).
Proof.
  intros Hr Hpl Hd Hps Ha Ha2 Hm1. destruct (reading_client _ _ Hr) as (c & Hc & Hp). rewrite <- Hp in Hpl, Hsrv.
  destruct (nextModel_placed c id ps a Hsrv Hpl Hd Ha ltac:(lia)) as (c1 & Hnext & Hp1).
  destruct (on_client_reading (λ c, nextModel c a) _ srv s c c1 Hr Hc Hnext ltac:(congruence)) as [Hrun1 Hr1].
  set (s1 := SunSpecClient.set_client c1 s) in *.
  set (s2 := SunSpecClient.set_models (SunSpecClient.Order s1 ++ [id])
    (<[id := (a + 2, GetModelLength ps)]> (SunSpecClient.Settings s1)) s1).
  assert (reading srv s2) as Hr2 by (destruct Hr1; by split).
  rewrite <- Hp1 in Hpl, Hsrv.
  destruct (modelData_placed c1 id ps a Hsrv Hps Hpl Hd Ha Ha2) as (c2 & data & Hdata & Hp2 & Hgood & Hin).
  destruct (on_client_reading (λ c, modelData c id (a + 2) (GetModelLength ps)) _ srv s2 c1 c2 Hr2 eq_refl Hdata
    ltac:(congruence)) as [Hrun2 Hr3].
  destruct (process_reading srv _ (orders fuel data) data Hr3 Hgood (Horders fuel data))
    as (s' & Hproc & Hr' & Hord & Hset & Hpts).
  exists s'. split_and!; [|done|done|done|].
  - cbn [discover]. erewrite bind_next by exact Hrun1. erewrite bind_next by reflexivity. cbv beta iota zeta.
    assert (negb m1 && negb (id =? 1) = false) as ->.
    { destruct Hm1 as [->| ->]; [done|]. by rewrite andb_false_r. }
    assert (conv I64 (InternalValue EndRegister) = 65535) as ->.
    { change (InternalValue EndRegister) with (f64_of_Z 65535).
      apply conv_of_Z; [lia|unfold in_range, int_min, int_max; simpl; lia]. }
    pose proof (deliverable_id _ Hd) as Hid. simpl in Hid.
    destruct (Z.eqb_spec id 65535); [lia|].
    erewrite bind_next by reflexivity. fold s2.
    erewrite bind_next by exact Hrun2. erewrite bind_next by reflexivity.
    cbv beta iota. erewrite bind_next by exact Hproc.
    by rewrite (total_length ps (deliverable_head _ Hd)), Z.add_assoc.
  - intros n [Hn|Hn]; apply Hpts; [by left|right; by apply Hin].
Qed.

(** The end marker ends the loop. *)
Lemma discover_end fuel b s :
  reading srv s → register_on srv b = Some EndRegister → register_on srv (b + 1) = Some EndRegisterLength →
  0 ≤ b → b + 1 < 65536 →
  ∃ s', discover (S fuel) orders b true s = (s', Next ()) ∧ reading srv s' ∧
    SunSpecClient.Order s' = SunSpecClient.Order s ∧ SunSpecClient.Settings s' = SunSpecClient.Settings s ∧
    SunSpecClient.points s' = SunSpecClient.points s.
Proof.
  intros Hr He Hl Hb Hb1. destruct (reading_client _ _ Hr) as (c & Hc & Hp). rewrite <- Hp in He, Hl, Hsrv.
  destruct (nextModel_pair c b EndRegister EndRegisterLength 65535 0) as (c1 & Hnext & Hp1);
    [done|done|done|done|done|by split_and!|by split_and!|].
  destruct (on_client_reading (λ c, nextModel c b) _ srv s c c1 Hr Hc Hnext ltac:(congruence)) as [Hrun1 Hr1].
  exists (SunSpecClient.set_client c1 s). split_and!; try done. cbn [discover].
  erewrite bind_next by exact Hrun1. erewrite bind_next by reflexivity. cbn [negb andb].
  assert (conv I64 (InternalValue EndRegister) = 65535) as ->; [|done].
  change (InternalValue EndRegister) with (f64_of_Z 65535).
  apply conv_of_Z; [lia|unfold in_range, int_min, int_max; simpl; lia].
Qed.

Lemma discover_spec ms b : ∀ fuel a m1 s,
  reading srv s → (length ms < fuel)%nat → laid_out srv a ms b → Forall deliverable ms →
  Forall (λ m : Z * list SchemaPoint, GetModelSchema m.1 = inl m.2) ms →
  register_on srv b = Some EndRegister → register_on srv (b + 1) = Some EndRegisterLength →
  0 ≤ a → b + 1 < 65536 → m1 = true ∨ (∃ ps ms', ms = (1, ps) :: ms') →
  ∃ s', discover fuel orders a m1 s = (s', Next ()) ∧ reading srv s' ∧
    SunSpecClient.Order s' = SunSpecClient.Order s ++ map fst ms ∧
    SunSpecClient.Settings s' = found a ms (SunSpecClient.Settings s) ∧
    known s' ms ∧ ∀ n, is_Some (SunSpecClient.points s !! n) → is_Some (SunSpecClient.points s' !! n).
Proof.
  induction ms as [|[id ps] ms IH]; intros [|fuel] a m1 s Hr Hf Hl Hd Hs He Hel Ha Hb Hm1; try (simpl in Hf; lia).
  - simpl in Hl. subst b. destruct Hm1 as [->|(? & ? & ?)]; [|done].
    destruct (discover_end fuel a s Hr He Hel Ha Hb) as (s' & Hrun & Hr' & Hord & Hset & Hpts).
    exists s'. rewrite app_nil_r, Hord, Hset, Hpts. by split_and!; [..|constructor|].
  - apply Forall_cons in Hd as [Hd Hds]. apply Forall_cons in Hs as [Hs Hss]. destruct Hl as [Hpl Hl].
    pose proof (laid_out_le _ _ _ Hl Hds). pose proof (total_length ps (deliverable_head _ Hd)) as Ht.
    pose proof (deliverable_length _ Hd). cbn [fst snd length] in *.
    destruct (discover_model fuel a id ps m1 s Hr Hpl Hd Hs Ha ltac:(lia)) as (s1 & Hrun & Hr1 & Hord1 & Hset1 & Hin1).
    { destruct Hm1 as [?|(? & ? & [= -> -> ->])]; auto. }
    destruct (IH fuel (a + total ps) true s1) as (s' & Hrun' & Hr' & Hord & Hset & Hk & Hkeep);
      [done|lia|done|done|done|done|done|lia|done|by left|].
    exists s'. rewrite Hrun. split_and!; [done|done| | | |auto].
    + by rewrite Hord, Hord1, <- app_assoc.
    + by rewrite Hset, Hset1.
    + constructor; [|done]. auto.
Qed.
End walk.
End link.

(** ** Properties *)

Lemma placed_same s s' id len ps a : same_server s s' → placed s id len ps a → placed s' id len ps a.
Proof.
  intros (Hh & Hr & Hp & _). revert a. induction ps as [|p ps IH]; [done|]. intros a.
  cbn [placed]. unfold register_on. rewrite Hh, Hr, Hp. intros [? ?]. auto.
Qed.

Lemma laid_out_same s s' a ms b : same_server s s' → laid_out s a ms b → laid_out s' a ms b.
Proof.
  intros Hs. revert a. induction ms as [|[id ps] ms IH]; [done|]. intros a [Hp Hl].
  split; [by eapply placed_same|auto].
Qed.

Definition extent (ms : list (Z * list SchemaPoint)) : Z := foldr (λ m n, total m.2 + n) 0 ms.

Lemma laid_out_extent s a ms b : laid_out s a ms b → b = a + extent ms.
Proof.
  revert a. induction ms as [|[id ps] ms IH]; intros a Hl; simpl in Hl; [unfold extent; simpl; lia|].
  destruct Hl as [_ Hl]. apply IH in Hl.
  change (extent ((id, ps) :: ms)) with (total ps + extent ms). lia.
Qed.

Lemma names_model_unique `{Etree} `{Schemas} cs ms ms' :
  Forall2 names_model cs ms → Forall2 names_model cs ms' → ms = ms'.
Proof.
  intros H1. revert ms'. induction H1 as [|c [id ps] cs ms [(at1 & Ha & Hi) Hs] _ IH]; intros ms' H2.
  { by apply Forall2_nil_inv_l in H2 as ->. }
  apply Forall2_cons_inv_l in H2 as ([id' ps'] & ms2 & [(at2 & Ha' & Hi') Hs'] & H2 & ->).
  simpl in *. assert (at1 = at2) as -> by congruence. assert (id = id') as -> by congruence.
  f_equal; [congruence|auto].
Qed.

Lemma deliverable_spaced m : deliverable m → Forall spaced m.2.
Proof.
  intros [_ (a1 & a2 & rest & ->) Hs _ _]. simpl in Hs. unfold spaced.
  do 2 (constructor; [simpl; lia|]). eapply Forall_impl; [exact Hs|]. intros p [Hp _]. by apply sized_pos.
Qed.

(** The models a client can read are spaced. *)
Lemma deliverable_spaced_models `{Etree} `{Schemas} cs ms :
  Forall2 names_model cs ms → Forall deliverable ms → spaced_models cs.
Proof.
  intros H2. induction H2 as [|c m cs ms Hm H2 IH]; intros Hd; [constructor|].
  inversion Hd as [|? ? Hdm Hdms]; subst. constructor; [|by apply IH].
  intros m' Hm'. assert ([m] = [m']) as [= <-] by (eapply (names_model_unique [c]); by constructor).
  by apply deliverable_spaced.
Qed.

(** Nothing of what the client learns is set by its configuration. *)
Definition same_knowledge `{ModbusLib} (s s' : SunSpecClient) : Prop :=
  SunSpecClient.Order s' = SunSpecClient.Order s ∧ SunSpecClient.Settings s' = SunSpecClient.Settings s ∧
  SunSpecClient.points s' = SunSpecClient.points s ∧ SunSpecClient.pusher s' = SunSpecClient.pusher s.

#[export] Instance same_knowledge_preorder `{ModbusLib} : PreOrder same_knowledge.
Proof. split; [by intros s|]. unfold same_knowledge. intros s1 s2 s3. intuition congruence. Qed.

Lemma client_configure_keeps `{GoPlatform} `{ModbusLib} `{Etree} e (s : SunSpecClient) :
  same_knowledge s (run (SunSpecClient.Configure e) s).1.
Proof.
  apply (run_keeps same_knowledge), keeps_bind; [typeclasses eauto| |auto with go].
  apply keeps_range; [typeclasses eauto|]. intros child. unfold SunSpecClient.configure_child.
  repeat match goal with |- context [if ?b then _ else _] => destruct b end; auto with go;
    [apply keeps_modify; by intros..|].
  destruct (ParseDuration (Text child)); [by apply keeps_modify|].
  apply keeps_bind; [typeclasses eauto|by apply keeps_modify|auto with go].
Qed.

Lemma client_starts `{GoPlatform} {L : ModbusLib} `{!Connection L} c s :
  same_knowledge (SunSpecClient.New "") s → reading (peer c) (SunSpecClient.set_client c s).
Proof.
  intros (_ & _ & Hp & Hb). split; [by exists c| |].
  - intros n r. simpl. by rewrite Hp.
  - intros n. simpl. by rewrite Hb.
Qed.

(** C10: a client finds the models of a server.  Against a server configured from
    any plain document whose models a client can read, the first of them model
    1, and that fit the address space, after any status messages and whatever
    the order of its passes over maps, a configured client ends its discovery
    without an error: it knows the models of the document in their order, where
    the server put them and how long they are, and all their points; the server
    is as before. *)
Theorem sunspec_discovery `{GoPlatform} {L : ModbusLib} `{!Connection L} `{Etree} `{Schemas}
    nm e srv ms nmc ec fuel orders :
  let s := (run (SunSpecClient.Configure ec) (SunSpecClient.New nmc)).1 in
  Forall (λ c, ETag c = "model" → Forall plain_value (ChildElements c)) (ChildElements e) →
  (run (Configure e) (New nm)).2 = Returns None →
  rtc server_step (run (Configure e) (New nm)).1 srv →
  Forall2 names_model (model_elements e) ms → Forall deliverable ms → (∃ ps ms', ms = (1, ps) :: ms') →
  40002 + extent ms ≤ 65534 →
  peer (NewClient (TCPClientHandler (SunSpecClient.endpoint s) (SunSpecClient.id s mod 256))) = srv →
  (∀ n m, orders n m ≡ₚ map_to_list m) → (length ms < fuel)%nat →
  ∃ s' c, run (SunSpecClient.Run fuel orders) s = (s', Returns None) ∧
    SunSpecClient.Order s' = map fst ms ∧ SunSpecClient.Settings s' = found 40002 ms ∅ ∧ known s' ms ∧
    SunSpecClient.client s' = Some c ∧ peer c = srv.
Proof.
  intros s Hplain Hret Hsteps Hms Hdel Hm1 Hext Hpeer Hord Hfuel.
  set (s0 := (run (Configure e) (New nm)).1) in *.
  destruct (Configure_layout e nm s0 Hplain (deliverable_spaced_models _ _ Hms Hdel)) as (ms' & b & Hms' & Hlay & _ & _ & Hid & Hend & Hend' & Ht & _).
  { subst s0. by rewrite <- Hret, <- surjective_pairing. }
  rewrite (names_model_unique _ _ _ Hms' Hms) in Hlay. clear ms' Hms'.
  pose proof (server_steps_same _ _ Hsteps) as Hsame.
  pose proof (laid_out_same _ _ _ _ _ Hsame Hlay) as Hlay'. pose proof (laid_out_extent _ _ _ _ Hlay) as Hb.
  assert (serving srv) as Hsrv.
  { split; [|by eapply tags_empty]. apply Hsame, sunspec_Configure_ends, server_ok_New. }
  assert (Hon : ∀ a, register_on srv a = register_on s0 a)
    by (intros a; unfold register_on; by destruct Hsame as (-> & -> & _)).
  rewrite <- Hon in Hid, Hend, Hend'. set (c0 := NewClient _) in Hpeer.
  pose proof (client_configure_keeps ec (SunSpecClient.New nmc)) as Hk. fold s in Hk.
  pose proof (client_starts c0 s Hk) as Hr0. rewrite Hpeer in Hr0.
  set (s1 := SunSpecClient.set_client c0 s) in *.
  destruct (confirm_identifier c0) as (c1 & Hconf & Hp1); [by rewrite Hpeer..|].
  destruct (on_client_reading confirmIdentifier None srv s1 c0 c1 Hr0 eq_refl Hconf ltac:(congruence)) as [Hrun1 Hr1].
  destruct (discover_spec srv Hsrv orders Hord ms b fuel 40002 false _ Hr1 Hfuel Hlay' Hdel)
    as (s' & Hrun & Hr' & Ho & Hset & Hknown & _); [|done|done|lia|lia|by right|].
  { clear -Hms. induction Hms as [|? ? ? ? [_ ?]]; by constructor. }
  destruct Hk as (Ho0 & Hs0 & _). simpl in Ho, Hset. rewrite Ho0 in Ho. rewrite Hs0 in Hset.
  destruct (reading_client _ _ Hr') as (c & Hc & Hpc). exists s', c. split_and!; try done.
  unfold run, SunSpecClient.Run. erewrite bind_next by reflexivity. fold c0 s1.
  erewrite bind_next by exact Hrun1. cbv beta iota. erewrite bind_next by exact Hrun.
  erewrite bind_next by reflexivity. rewrite Ho.
  erewrite bind_next; [reflexivity|]. eapply report_ok; [exact Hr'|exact Hknown|].
  clear -Hms. induction Hms as [|? ? ? ? [_ ?]]; by constructor.
Qed.

(** *** Example *)

(** A library that hands every request to the server at once. *)
Definition exchange (a n : Z) (c : SunSpecServer) : SunSpecServer * result (list Z) :=
  let r := run (@readHoldingRegisters amd64 (request a n [])) c in (r.1, answer r.2).

#[local] Instance wired (srv : SunSpecServer) : ModbusLib := {|
  Client := SunSpecServer;
  NewClient _ := srv;
  ModbusClient.ReadCoils _ _ c := (c, inl []);
  ModbusClient.ReadDiscreteInputs _ _ c := (c, inl []);
  ModbusClient.ReadInputRegisters _ _ c := (c, inl []);
  ReadHoldingRegisters := exchange;
  ModbusClient.WriteSingleCoil _ _ c := (c, inl []);
  ModbusClient.WriteMultipleRegisters _ _ _ c := (c, inl []);
|}.

#[local] Instance wired_connection srv : @Connection amd64 (wired srv).
Proof. refine {| peer := λ c : @Client (wired srv), (c : SunSpecServer) |}; done. Defined.

Definition example_models : list (Z * list SchemaPoint) :=
  [(1, match example_model 1 with inl ps => ps | inr _ => [] end);
   (101, match example_model 101 with inl ps => ps | inr _ => [] end)].

Lemma example_models_named :
  Forall2 (@names_model xml_etree example_schemas) (@model_elements xml_etree example_config) example_models.
Proof.
  assert (@model_elements xml_etree example_config =
    [model_elem "1" [leaf "Mn" "Patria Security"; leaf "Vr" "1.0"; leaf "DA" "1"];
     model_elem "101" [leaf "W" "inverter.kW"; leaf "W_SF" "-1"; leaf "WH" "7200"; leaf "WH_SF" "0"]])
    as -> by (vm_compute; reflexivity).
  unfold example_models. constructor; [|constructor; [|constructor]].
  - split; [exists "1"; split; vm_compute; reflexivity|reflexivity].
  - split; [exists "101"; split; vm_compute; reflexivity|reflexivity].
Qed.

Lemma example_simple p : In p (concat (map (λ m, drop 2 m.2) example_models)) → simple p.
Proof.
  intros Hin. simpl in Hin. repeat destruct Hin as [<-|Hin]; [..|done].
  all: split_and!; [reflexivity| |].
  all: first [left; vm_compute; discriminate|right; by eexists _, _|left; reflexivity|right; by eexists|idtac].
Qed.

Lemma example_deliverable : Forall deliverable example_models.
Proof.
  repeat apply List.Forall_cons; [..|apply List.Forall_nil].
  all: split;
    [simpl; lia|by eexists _, _, _
    |apply Forall_forall; intros p Hp%list_elem_of_In; apply example_simple; simpl in *; tauto
    |vm_compute; split; discriminate|].
  all: intros p sf Hin Hsf; simpl in Hin; repeat destruct Hin as [<-|Hin]; [..|done].
  all: first [discriminate|injection Hsf as <-; simpl; tauto].
Qed.

Lemma sunspec_discovery_witness :
  ∃ s', (run (@SunSpecClient.Run amd64 (wired example_server) example_schemas 3 (λ _, map_to_list))
    (SunSpecClient.New "sunspec-client")).1 = s' ∧
    SunSpecClient.Order s' = [1; 101] ∧
    SunSpecClient.Settings s' = {[ 1 := (40004, 26); 101 := (40032, 5) ]}.
Proof.
  destruct (@sunspec_discovery amd64 _ (wired_connection example_server) xml_etree example_schemas
    "sunspec-server" example_config example_server example_models "sunspec-client" (Elem "sunspec" [] "" [])
    3 (λ _, map_to_list) example_plain ltac:(vm_compute; reflexivity) ltac:(constructor)
    example_models_named example_deliverable ltac:(by eexists _, _) ltac:(vm_compute; discriminate) eq_refl
    ltac:(done) ltac:(simpl; lia)) as (s' & c & Hrun & Ho & Hset & _).
  exists s'. split; [exact (f_equal fst Hrun)|]. split; [exact Ho|].
  rewrite Hset. vm_compute. reflexivity.
Defined.
