(* ===== verification/SunSpecModels.v ===== *)
(** * The SunSpec modules and the model files

    What the server, the client and the discovery do with models that come from
    model files ([Schema.GetModelSchema]) rather than from any [Schemas]: the client
    cannot read a model with a numeric scale factor, which the server can be
    configured with; and a discovery of a server whose models are files. *)

From S2P Require Import Prelude GoFloat GoText GoBytes Etree Msgbus ModbusClient SunSpecRegister.
From S2P Require Import Json JsonMethods Schema SunSpecServer SunSpecClient SunSpecLink.
#[local] Open Scope Z_scope.

(** ** Numeric scale factors

    [encoding/json] makes a [float64] of a number, the client's type switch has a
    case for [int] only ([sunspec/client/util.go]). *)

Lemma model_registers_refuses `{GoPlatform} m a d ps :
  ∀ pos regs p f, In p ps → Sf p = SfFloat f →
  ∀ regs', model_registers m a pos d ps regs ≠ Returns (inl regs').
Proof.
  induction ps as [|q ps IH]; intros pos regs p f Hin Hf regs'; [done|]. cbn [model_registers].
  destruct (model_register m a pos q) as [r|] eqn:Hr; [|done].
  destruct (part _ _ _) as [raw|]; [|done].
  destruct Hin as [->|Hin]; [|by eapply IH].
  unfold model_register in Hr. rewrite Hf in Hr. by simpl in Hr.
Qed.

(** A model of which some point has a numeric scale factor is never read, whatever
    the device answers. *)
Theorem numeric_scale_unreadable `{GoPlatform} `{ModbusLib} `{ModelFiles} c id a l m p f :
  Schema.GetModelSchema id = inl m → In p (drop 2 (Group_Points (SchemaJson_Group m))) →
  Point_Sf p = VNumber f →
  ∀ regs, (modelData (H1:=file_schemas) c id a l).2 ≠ Returns (inl regs).
Proof.
  intros Hm Hp Hf regs. unfold modelData.
  destruct (ReadHoldingRegisters _ _ c) as [c' [d|e]]; [|done]. simpl. rewrite Hm. simpl.
  apply (model_registers_refuses _ _ _ _ _ _ (schema_point p) f); [|by simpl; rewrite Hf].
  rewrite skipn_map. by apply in_map.
Qed.

(** ** Models from files *)

(** The files of [Schema] hold the models of the examples. *)
Lemma example_files_models id ps :
  In (id, ps) example_models → @SunSpecRegister.GetModelSchema (@file_schemas example_files) id = inl ps.
Proof.
  intros [[= <- <-]|[[= <- <-]|[]]]; vm_compute; reflexivity.
Qed.

(** A point with the scale factor -1: the server takes the model, the client cannot. *)
Lemma numeric_scale_unreadable_witness :
  (∃ s, run (@SunSpecServer.Configure xml_etree (@file_schemas example_files)
     (Elem "sunspec" [("mode", "server")] ""
        [model_elem "1" []; model_elem "64001" [leaf "T" "21"]])) (SunSpecServer.New "sunspec-server")
     = (s, Returns None)) ∧
  ∀ c a l regs, (@modelData (wired example_server) (@file_schemas example_files) c 64001 a l).2
    ≠ Returns (inl regs).
Proof.
  split; [eexists; vm_compute; reflexivity|]. intros c a l.
  destruct (@Schema.GetModelSchema example_files 64001) as [m|] eqn:Hm; [|vm_compute in Hm; discriminate].
  assert (∃ p f, In p (drop 2 (Group_Points (SchemaJson_Group m))) ∧ Point_Sf p = VNumber f)
    as (p & f & Hp & Hf).
  { vm_compute in Hm. injection Hm as <-. by eexists _, _; split; [left|]. }
  exact (@numeric_scale_unreadable amd64 (wired example_server) example_files c 64001 a l m p f Hm Hp Hf).
Defined.
