(* ===== verification/Logic.v ===== *)
(** * logic: the logic module

    [logic.go]: configuration, the execution of the program, the periodic tick
    and the message bus handlers.  The expression language (antonmedv/expr) is a
    parameter: what it compiles and what a compiled line gives in an
    environment.  The lines may call random functions, so a run also depends on
    how many runs there were before. *)

From stdpp Require Import pretty.
From S2P Require Import Prelude GoFloat GoText Etree Json Msgbus.

(** A Go value of type [any]: its dynamic type and the value.  The types the
    module does not look into keep their name and whether [==] is defined. *)
Inductive value :=
| VNil
| VBool (b : bool)
| VInt (z : Z)
| VFloat (f : float64)
| VString (s : string)
| VFloats (l : list float64)
| VOther (type repr : string) (comparable : bool).

(** [a != b] on interface values: different dynamic types differ, equal types
    are compared, which panics for a type without equality. *)
Definition any_neq (a b : value) : option bool :=
  match a, b with
  | VNil, VNil => Some false
  | VBool x, VBool y => Some (negb (Bool.eqb x y))
  | VInt x, VInt y => Some (negb (x =? y))
  | VFloat x, VFloat y => Some (negb (feqb x y))
  | VString x, VString y => Some (negb (String.eqb x y))
  | VFloats _, VFloats _ => None
  | VOther t x c, VOther u y _ =>
      if String.eqb t u then if c then Some (negb (String.eqb x y)) else None else Some true
  | _, _ => Some true
  end.

Class Expr := {
  Program : Type;
  Compile : string → result Program;
  RunProgram : nat → option Program → gmap string value → result value;
}.

Abbreviation environment := (gmap string value).

Section expr.
Context `{Expr}.

Record Logic := mk_Logic {
  pullEndpoint : string;
  pubEndpoint : string;
  name : string;
  period : Z;
  program : gmap nat Program;
  order : list string;
  env : environment;
  variables : list string;
  tagToVar : gmap string string;
  varToTag : gmap string string;
  processUpdates : bool;
  locked : bool;           (* envMu *)
  runs : nat;              (* calls of expr.Run so far *)
  pusher : bus;
}.

Definition New (nm : string) : Logic :=
  mk_Logic "" "" nm 1000000000 ∅ [] ∅ [] ∅ ∅ false false 0 (mk_bus [] 0 (λ _, true)).

Definition set_pullEndpoint v (s : Logic) : Logic :=
  mk_Logic v (pubEndpoint s) (name s) (period s) (program s) (order s) (env s) (variables s)
    (tagToVar s) (varToTag s) (processUpdates s) (locked s) (runs s) (pusher s).
Definition set_pubEndpoint v (s : Logic) : Logic :=
  mk_Logic (pullEndpoint s) v (name s) (period s) (program s) (order s) (env s) (variables s)
    (tagToVar s) (varToTag s) (processUpdates s) (locked s) (runs s) (pusher s).
Definition set_period v (s : Logic) : Logic :=
  mk_Logic (pullEndpoint s) (pubEndpoint s) (name s) v (program s) (order s) (env s) (variables s)
    (tagToVar s) (varToTag s) (processUpdates s) (locked s) (runs s) (pusher s).
Definition set_program v (s : Logic) : Logic :=
  mk_Logic (pullEndpoint s) (pubEndpoint s) (name s) (period s) v (order s) (env s) (variables s)
    (tagToVar s) (varToTag s) (processUpdates s) (locked s) (runs s) (pusher s).
Definition set_order v (s : Logic) : Logic :=
  mk_Logic (pullEndpoint s) (pubEndpoint s) (name s) (period s) (program s) v (env s) (variables s)
    (tagToVar s) (varToTag s) (processUpdates s) (locked s) (runs s) (pusher s).
Definition set_env v (s : Logic) : Logic :=
  mk_Logic (pullEndpoint s) (pubEndpoint s) (name s) (period s) (program s) (order s) v (variables s)
    (tagToVar s) (varToTag s) (processUpdates s) (locked s) (runs s) (pusher s).
Definition set_variables v t2v v2t (s : Logic) : Logic :=
  mk_Logic (pullEndpoint s) (pubEndpoint s) (name s) (period s) (program s) (order s) (env s) v
    t2v v2t (processUpdates s) (locked s) (runs s) (pusher s).
Definition set_processUpdates v (s : Logic) : Logic :=
  mk_Logic (pullEndpoint s) (pubEndpoint s) (name s) (period s) (program s) (order s) (env s)
    (variables s) (tagToVar s) (varToTag s) v (locked s) (runs s) (pusher s).
Definition set_locked v (s : Logic) : Logic :=
  mk_Logic (pullEndpoint s) (pubEndpoint s) (name s) (period s) (program s) (order s) (env s)
    (variables s) (tagToVar s) (varToTag s) (processUpdates s) v (runs s) (pusher s).
Definition set_runs v (s : Logic) : Logic :=
  mk_Logic (pullEndpoint s) (pubEndpoint s) (name s) (period s) (program s) (order s) (env s)
    (variables s) (tagToVar s) (varToTag s) (processUpdates s) (locked s) v (pusher s).
Definition set_pusher v (s : Logic) : Logic :=
  mk_Logic (pullEndpoint s) (pubEndpoint s) (name s) (period s) (program s) (order s) (env s)
    (variables s) (tagToVar s) (varToTag s) (processUpdates s) (locked s) (runs s) v.

Definition assign {R} (x : string) (v : value) : go Logic R () :=
  modify (λ s, set_env (<[x := v]> (env s)) s).

(** ** Configure *)

Section configure.
Context `{GoPlatform} `{Etree}.

(** [this.program[i] = p; this.order[i] = left] *)
Definition set_line {R} (i : nat) (p : Program) (left : string) : go Logic R () :=
  modify (λ s, set_order (<[i := left]> (order s)) (set_program (<[i := p]> (program s)) s)).

Definition equals_sign : Ascii.ascii := Ascii.ascii_of_N 61.
Definition newline : Ascii.ascii := Ascii.ascii_of_N 10.

Definition configure_line (il : nat * string) : go Logic (option error) () :=
  let '(i, line) := il in
  if HasPrefix line "#" then mret () else
  match SplitN2 line equals_sign with
  | (l, None) =>
    let right := TrimSpace l in
    if HasPrefix right "sprintf" then
      match Compile right with
      | inr e => return_ (Some (Wrapf "compiling program code '%s': %w" e))
      | inl p => set_line i p ("sprintf" +:+ pretty (N.of_nat i))
      end
    else mret ()
  | (l, Some r) =>
    let left := TrimSpace l in
    let right := TrimSpace r in
    match Compile right with
    | inr e => return_ (Some (Wrapf "compiling program code '%s': %w" e))
    | inl p =>
      _ ← set_line i p left;
      s ← get;
      match env s !! left with
      | Some _ => mret ()
      | None => assign left (VFloat f64_0)
      end
    end
  end.

Definition configure_variable (v : Element) : go Logic (option error) () :=
  let tag := SelectAttrValue v "tag" (ETag v) in
  _ ← modify (λ s, set_variables (variables s ++ [ETag v]) (<[tag := ETag v]> (tagToVar s))
                     (<[ETag v := tag]> (varToTag s)) s);
  match ParseFloat (Text v) with
  | (val, None) => assign (ETag v) (VFloat val)
  | (_, Some _) =>
    match ParseBool (Text v) with
    | (val, None) => assign (ETag v) (VBool val)
    | (_, Some e) =>
      return_ (Some (Wrapf "unable to convert value for '%s' to bool or double: %w" e))
    end
  end.

Definition configure_child (child : Element) : go Logic (option error) () :=
  if String.eqb (ETag child) "pull-endpoint" then modify (set_pullEndpoint (Text child))
  else if String.eqb (ETag child) "pub-endpoint" then modify (set_pubEndpoint (Text child))
  else if String.eqb (ETag child) "period" then
    match ParseDuration (Text child) with
    | inl d => modify (set_period d)
    | inr e => _ ← modify (set_period 0);
               return_ (Some (Wrapf "invalid period duration '%s': %w" e))
    end
  else if String.eqb (ETag child) "program" then
    let lines := Split (Text child) newline in
    _ ← modify (set_order (replicate (length lines) ""));
    range (zip (seq 0 (length lines)) lines) configure_line
  else if String.eqb (ETag child) "variables" then
    range (ChildElements child) configure_variable
  else if String.eqb (ETag child) "process-updates" then
    match ParseBool (Text child) with
    | (val, None) => modify (set_processUpdates val)
    | (_, Some e) => return_ (Some (Wrapf "unable to convert value for '%s' to bool: %w" e))
    end
  else mret ().

Definition Configure (e : Element) : go Logic (option error) (option error) :=
  _ ← range (ChildElements e) configure_child;
  mret None.
End configure.

(** ** initEnv: the functions a program may call *)

(** The numbers [values], [sum] and [avg] see in their argument: names are
    looked up in the environment, what is not a number is skipped. *)
Definition number_of (v : value) : option float64 :=
  match v with VInt z => Some (f64_of_Z z) | VFloat f => Some f | _ => None end.

Definition argument_number (e : environment) (v : value) : option float64 :=
  match v with
  | VString x => e !! x ≫= number_of
  | _ => number_of v
  end.

Definition fn_values (e : environment) (vars : list value) : list float64 :=
  omap (argument_number e) vars.

Definition fn_sum (e : environment) (vars : list value) : float64 :=
  fold_left (λ sum v, match argument_number e v with Some f => fadd sum f | None => sum end)
    vars f64_0.

Definition fn_avg (e : environment) (vars : list value) : float64 :=
  let '(sum, count) :=
    fold_left (λ '(sum, count) v,
      match argument_number e v with
      | Some f => (fadd sum f, count + 1)
      | None => (sum, count)
      end) vars (f64_0, 0) in
  fdiv sum (f64_of_Z count).

Definition initEnv (s : Logic) : Logic :=
  let fn name type := <[name := VOther type name false]> in
  set_env
    (<["variables" := VOther "[]string" (String.concat " " (variables s)) false]>
    (fn "sprintf" "func(string, ...interface {}) string"
    (fn "avg" "func([]interface {}) float64"
    (fn "sum" "func([]interface {}) float64"
    (fn "values" "func([]interface {}) []float64"
    (fn "randBool" "func(float64) bool"
    (fn "randFloat" "func() float64"
    (fn "randInt" "func(int) float64" (env s))))))))) s.

(** ** execute *)

(** [expr.Run(this.program[i], this.env)] *)
Definition run_program {R} (i : nat) : go Logic R (result value) :=
  s ← get;
  _ ← modify (set_runs (S (runs s)));
  mret (RunProgram (runs s) (program s !! i) (env s)).

(** One round of the loop: the names added to [updated]. *)
Definition execute_line {R} (i : nat) (o : string) : go Logic R (list string) :=
  if String.eqb o "" then mret [] else
  res ← run_program i;
  match res with
  | inr _ => mret []
  | inl result =>
    if HasPrefix o "sprintf" then mret [] else
    s ← get;
    updated ← match varToTag s !! o with
      | None => mret []
      | Some _ =>
        neq ← eval (any_neq result (default VNil (env s !! o))) PanicExplicit;
        mret (if (neq : bool) then [o] else [])
      end;
    _ ← assign o result;
    mret updated
  end.

Fixpoint execute_loop {R} (l : list (nat * string)) : go Logic R (list string) :=
  match l with
  | [] => mret []
  | (i, o) :: l' =>
    u ← execute_line i o;
    us ← execute_loop l';
    mret (u ++ us)
  end.

Definition execute {R} : go Logic R (list string) :=
  s ← get;
  execute_loop (zip (seq 0 (length (order s))) (order s)).

(** ** The tick of [Run] *)

Definition point_value (v : option value) : float64 :=
  match v with
  | Some (VBool b) => if b then f64_1 else f64_0
  | Some (VInt z) => f64_of_Z z
  | Some (VFloat f) => f
  | _ => f64_0
  end.

(** [for _, o := range names { ... tags[tag] = point }].  Only [order] has empty
    names, which its loop skips; [updated] has none. *)
Fixpoint collect (names : list string) (e : environment) (v2t : gmap string string)
  (tags : gmap string Point) : gmap string Point :=
  match names with
  | [] => tags
  | o :: names' =>
    if String.eqb o "" then collect names' e v2t tags else
    match v2t !! o with
    | None => collect names' e v2t tags
    | Some tag => collect names' e v2t (<[tag := mk_Point tag (point_value (e !! o)) 0]> tags)
    end
  end.

(** [this.envMu.Lock()]: blocks for good when nobody is going to unlock.  A
    blocked goroutine, like an endless loop, never returns. *)
Definition lock {R} : go Logic R () :=
  s ← get;
  if locked s then nofuel else modify (set_locked true).
Definition unlock {R} : go Logic R () := modify (set_locked false).

(** Publishing contents: an error from [NewEnvelope] goes back to the [select]
    with [continue]; an error from [Push] is only logged. *)
Definition publish {T} `{IEnvelope T} (contents : T) : go Logic () () :=
  s ← get;
  match NewEnvelope (name s) contents with
  | inr _ => return_ ()
  | inl e => modify (set_pusher (Push "RUNTIME" e (pusher s)).1)
  end.

(** The two loops over the collected points range over a map: [ord1] and [ord2]
    are the orders they see. *)
Definition tick (ord1 ord2 : gmap string Point → list Point) : go Logic () () :=
  _ ← lock;
  updated ← execute;
  s ← get;
  let tags := collect (order s) (env s) (varToTag s) ∅ in
  _ ← (if (0 <? size tags)%nat then publish (mk_Status (ord1 tags)) else mret ());
  _ ← (if (0 <? length updated)%nat then
         let tags := collect updated (env s) (varToTag s) ∅ in
         if (0 <? size tags)%nat then publish (mk_Update (ord2 tags) "" "") else mret ()
       else mret ());
  unlock.

(** ** The message bus handlers *)

Definition set_points (ps : list Point) : go Logic () () :=
  range ps (λ point,
    s ← get;
    match tagToVar s !! Point_Tag point with
    | Some v => assign v (VFloat (Point_Value point))
    | None => mret ()
    end).

Definition handleMsgBusStatus (e : Envelope) : go Logic () () :=
  s ← get;
  if String.eqb (Sender e) (name s) then return_ () else
  match Envelope_Status e with
  | (_, Some _) => return_ ()
  | (status, None) =>
    _ ← lock;
    _ ← set_points (Measurements status);
    unlock
  end.

Definition handleMsgBusUpdate (e : Envelope) : go Logic () () :=
  s ← get;
  if String.eqb (Sender e) (name s) then return_ () else
  match Envelope_Update e with
  | (_, Some _) => return_ ()
  | (update, None) =>
    _ ← lock;
    _ ← set_points (Updates update);
    unlock
  end.
End expr.

(** ** Lemmas *)

Definition comparable (v : value) : Prop := any_neq v v ≠ None.

Lemma any_neq_comparable v w : comparable v → ∃ b, any_neq v w = Some b.
Proof.
  unfold comparable. destruct v as [| | | | | |t x c], w as [| | | | | |u y d]; simpl; eauto.
  - by intros [].
  - destruct c; [destruct (String.eqb t u); eauto|]. rewrite String.eqb_refl. by intros [].
Qed.

Lemma fold_left_omap {A B C} (f : A → option B) (g : C → B → C) l c :
  fold_left (λ c x, match f x with Some y => g c y | None => c end) l c
  = fold_left g (omap f l) c.
Proof.
  revert c. induction l as [|x l IH]; intros c; simpl; [done|]. rewrite IH.
  by destruct (f x).
Qed.

(** The three functions agree on what the numbers of their argument are. *)
Lemma fn_sum_values e vars : fn_sum e vars = fold_left fadd (fn_values e vars) f64_0.
Proof. apply fold_left_omap. Qed.

Lemma fn_avg_values e vars :
  fn_avg e vars = fdiv (fn_sum e vars) (f64_of_Z (Z.of_nat (length (fn_values e vars)))).
Proof.
  unfold fn_avg. rewrite fn_sum_values. unfold fn_values.
  assert (Hgen : ∀ sum count,
    fold_left (λ '(sum, count) v, match argument_number e v with
      | Some f => (fadd sum f, count + 1) | None => (sum, count) end) vars (sum, count)
    = (fold_left fadd (omap (argument_number e) vars) sum,
       count + Z.of_nat (length (omap (argument_number e) vars)))).
  { induction vars as [|v vars IH]; intros sum count; simpl; [by rewrite Z.add_0_r|].
    destruct (argument_number e v) as [f|]; rewrite IH; simpl;
      change (list_omap _ _ ?f ?l) with (omap f l); apply (f_equal2 pair); done || lia. }
  by rewrite Hgen.
Qed.

(** The last point for a tag wins in [collect]. *)
Definition maps_to (v2t : gmap string string) (tag o : string) : bool :=
  negb (String.eqb o "") && bool_decide (v2t !! o = Some tag).

Lemma collect_lookup names e v2t m tag :
  collect names e v2t m !! tag =
  match last (List.filter (maps_to v2t tag) names) with
  | Some o => Some (mk_Point tag (point_value (e !! o)) 0)
  | None => m !! tag
  end.
Proof.
  revert m. induction names as [|o names IH]; intros m; [done|]. simpl.
  unfold maps_to at 1. destruct (String.eqb o ""); simpl; [apply IH|].
  destruct (v2t !! o) as [t|] eqn:Ho; simpl.
  - rewrite IH. destruct (decide (t = tag)) as [->|Hne].
    + rewrite bool_decide_true by done. rewrite last_cons.
      destruct (last _); [done|]. by rewrite lookup_insert_eq.
    + rewrite bool_decide_false by congruence. destruct (last _); [done|].
      by rewrite lookup_insert_ne.
  - by rewrite IH.
Qed.

(** A list of points in the order a range over the map may see them. *)
Definition map_order (ord : gmap string Point → list Point) : Prop :=
  ∀ m, ord m ≡ₚ (map_to_list m).*2.

Lemma map_order_elem ord m p : map_order ord → p ∈ ord m ↔ ∃ t, m !! t = Some p.
Proof.
  intros Ho. rewrite (Ho m), list_elem_of_fmap. split.
  - intros ([t q] & -> & Hq). exists t. by apply elem_of_map_to_list.
  - intros [t Ht]. exists (t, p). split; [done|]. by apply elem_of_map_to_list.
Qed.

Lemma map_order_size ord m : map_order ord → length (ord m) = size m.
Proof.
  intros Ho. by rewrite (Ho m), length_fmap, length_map_to_list.
Qed.

Section laws.
Context `{Expr}.

(** What [execute] may change: the environment at the names [l], the count of
    runs, and nothing else. *)
Definition exec_frame (l : list string) (s s' : Logic) : Prop :=
  s' = set_env (env s') (set_runs (runs s') s) ∧
  (∀ x, x ∉ l → env s' !! x = env s !! x) ∧
  ∀ x, is_Some (env s !! x) → is_Some (env s' !! x).

#[local] Instance exec_frame_preorder l : PreOrder (exec_frame l).
Proof.
  split.
  - intros s. split; [by destruct s|done].
  - intros s1 s2 s3 (H1 & E1 & D1) (H2 & E2 & D2). split; [|split; [|auto]].
    2: { intros x Hx. by rewrite E2, E1. }
    rewrite H2 at 1. rewrite H1 at 1. by destruct s1.
Qed.

Lemma keeps_execute_line {R} l i o :
  o ∈ l → keeps (exec_frame l) (execute_line (R:=R) i o).
Proof.
  intros Ho s. unfold execute_line, run_program. destruct (String.eqb o ""); [reflexivity|].
  go_unfold. simpl.
  destruct (RunProgram _ _ _) as [v|]; [|by destruct s]. destruct (HasPrefix o "sprintf"); [by destruct s|].
  simpl. destruct (varToTag s !! o); [destruct (any_neq v _)|]; simpl; split; simpl;
    try (by destruct s); (split; [intros x Hx; try done; rewrite lookup_insert_ne; congruence|]);
    intros x Hx; try done; apply lookup_insert_is_Some'; by right.
Qed.

Lemma keeps_execute_loop {R} l lines :
  lines.*2 ⊆ l → keeps (exec_frame l) (execute_loop (R:=R) lines).
Proof.
  induction lines as [|[i o] lines IH]; intros Hl; simpl; [apply keeps_ret; apply _|].
  rewrite fmap_cons in Hl. apply keeps_bind; [apply _| |].
  - apply keeps_execute_line. apply Hl. by left.
  - intros u. apply keeps_bind; [apply _| |]; [|intros us; apply keeps_ret; apply _].
    apply IH. intros x Hx. apply Hl. by right.
Qed.

Lemma zip_seq_snd {A} (l : list A) n : (zip (seq n (length l)) l).*2 = l.
Proof. revert n. induction l as [|x l IH]; intros n; [done|]. simpl. f_equal. apply IH. Qed.

Lemma keeps_execute {R} s : exec_frame (order s) s ((execute (R:=R)) s).1.
Proof. unfold execute. apply keeps_execute_loop. by rewrite zip_seq_snd. Qed.

(** Values with an equality never make [execute] panic. *)
Definition comparable_results : Prop :=
  ∀ n p e v, RunProgram n p e = inl v → comparable v.

Definition updated_names (v2t : gmap string string) (names us : list string) : Prop :=
  Forall (λ u, u ∈ names ∧ u ≠ "" ∧ is_Some (v2t !! u)) us.

Lemma execute_line_total {R} i o s :
  comparable_results →
  ∃ s' us, execute_line (R:=R) i o s = (s', Next us) ∧ updated_names (varToTag s) [o] us.
Proof.
  intros Hc. unfold execute_line, run_program, updated_names.
  destruct (String.eqb_spec o ""); [by do 2 eexists|]. go_unfold. simpl.
  destruct (RunProgram _ _ _) as [v|] eqn:Hv; [|by do 2 eexists].
  destruct (HasPrefix o "sprintf"); [by do 2 eexists|]. simpl.
  destruct (varToTag s !! o) eqn:Ho; [|by do 2 eexists].
  destruct (any_neq_comparable v (default VNil (env s !! o)) (Hc _ _ _ _ Hv)) as [b ->].
  do 2 eexists. split; [done|]. destruct b; repeat constructor; [done|eauto].
Qed.

Lemma execute_loop_total {R} lines s :
  comparable_results →
  ∃ s' us, execute_loop (R:=R) lines s = (s', Next us) ∧ updated_names (varToTag s) (lines.*2) us.
Proof.
  intros Hc. revert s. induction lines as [|[i o] lines IH]; intros s;
    [exists s, []; split; [done|constructor]|].
  cbn [execute_loop]. destruct (execute_line_total (R:=R) i o s Hc) as (s1 & u & He & Hu).
  erewrite bind_next by exact He. destruct (IH s1) as (s2 & us & Hl & Hus).
  erewrite bind_next by exact Hl. exists s2, (u ++ us). split; [done|].
  apply Forall_app. split.
  { eapply Forall_impl; [exact Hu|]. intros u' (Hin & Hr). split; [|done].
    apply list_elem_of_singleton in Hin as ->. by left. }
  pose proof (keeps_execute_line (R:=R) [o] i o ltac:(by left) s) as [Hf _].
  rewrite He in Hf. cbn [fst] in Hf. rewrite Hf in Hus.
  eapply Forall_impl; [exact Hus|]. intros u' (Hin & Hr). split; [by right|exact Hr].
Qed.

(** Nothing is updated when every line gives the value its variable has. *)
Definition quiet (s : Logic) : Prop :=
  ∀ i o, order s !! i = Some o → o ≠ "" →
    ∃ v, env s !! o = Some v ∧ any_neq v v = Some false ∧
      ∀ n, RunProgram n (program s !! i) (env s) = inl v.

Lemma execute_line_quiet {R} i o s v :
  env s !! o = Some v → any_neq v v = Some false →
  (∀ n, RunProgram n (program s !! i) (env s) = inl v) →
  execute_line (R:=R) i o s = (s, Next []) ∨
  execute_line (R:=R) i o s = (set_runs (S (runs s)) s, Next []).
Proof.
  intros Ho Hv Hr. unfold execute_line, run_program.
  destruct (String.eqb o ""); [by left|]. right. go_unfold. simpl. rewrite Hr.
  destruct (HasPrefix o "sprintf"); [done|]. simpl. rewrite Ho. simpl. rewrite Hv.
  assert (<[o:=v]> (env s) = env s) as He by (by apply insert_id).
  by destruct (varToTag s !! o); simpl; unfold set_env; simpl; rewrite He.
Qed.

Lemma execute_quiet {R} s :
  quiet s → ∃ n, execute (R:=R) s = (set_runs n s, Next []).
Proof.
  intros Hq. unfold execute. go_unfold.
  assert (Hgen : ∀ lines m, (∀ i o, (i, o) ∈ lines → order s !! i = Some o) →
    ∃ n, execute_loop (R:=R) lines (set_runs m s) = (set_runs n s, Next [])).
  { induction lines as [|[i o] lines IH]; intros m Hl; [by exists m|]. cbn [execute_loop].
    assert (∃ m', execute_line (R:=R) i o (set_runs m s) = (set_runs m' s, Next [])) as [m' Hm'].
    { destruct (decide (o = "")) as [->|Hne]; [by exists m|].
      destruct (Hq i o (Hl i o ltac:(by left)) Hne) as (v & Hv & Heq & Hr).
      destruct (execute_line_quiet (R:=R) i o (set_runs m s) v Hv Heq Hr) as [He|He];
        rewrite He; eauto. }
    erewrite bind_next by exact Hm'. destruct (IH m') as [n Hn]; [intros; apply Hl; by right|].
    erewrite bind_next by exact Hn. by exists n. }
  destruct (Hgen (zip (seq 0 (length (order s))) (order s)) (runs s)) as [n Hn].
  - intros i o Hio. apply list_elem_of_lookup in Hio as [k Hk].
    apply lookup_zip_Some in Hk as [Hk1 Hk2]. apply lookup_seq in Hk1 as [-> _]. done.
  - exists n. rewrite <- Hn. by destruct s.
Qed.

Lemma publish_spec {T} `{IEnvelope T} (c : T) s :
  publish c s = match NewEnvelope (name s) c with
                | inl e => (set_pusher (Push "RUNTIME" e (pusher s)).1 s, Next ())
                | inr _ => (s, Return ())
                end.
Proof. unfold publish. go_unfold. by destruct (NewEnvelope (name s) c). Qed.

(** A published collection of points: one point per tag, for the last name
    that maps to it. *)
Definition reports (names : list string) (e : environment) (v2t : gmap string string)
  (ps : list Point) : Prop :=
  NoDup ps ∧
  ∀ p, p ∈ ps ↔ ∃ tag o, last (List.filter (maps_to v2t tag) names) = Some o ∧
    p = mk_Point tag (point_value (e !! o)) 0.

Lemma collect_tag names e v2t tag p :
  collect names e v2t ∅ !! tag = Some p →
  ∃ o, last (List.filter (maps_to v2t tag) names) = Some o ∧
       p = mk_Point tag (point_value (e !! o)) 0.
Proof. rewrite collect_lookup. destruct (last _) as [o|]; [|done]. intros [= <-]. eauto. Qed.

Lemma reports_collect ord names e v2t :
  map_order ord → reports names e v2t (ord (collect names e v2t ∅)).
Proof.
  intros Ho. split.
  - rewrite (Ho _). apply NoDup_fmap_2_strong; [|apply NoDup_map_to_list].
    intros [t1 p1] [t2 p2] H1%elem_of_map_to_list H2%elem_of_map_to_list. simpl. intros <-.
    apply collect_tag in H1 as (o1 & _ & H1). apply collect_tag in H2 as (o2 & _ & H2).
    rewrite H1 in H2. by injection H2 as ->.
  - intros p. rewrite map_order_elem by done. split.
    + intros [t Ht]. apply collect_tag in Ht as (o & Hl & Hp). eauto.
    + intros (t & o & Hl & ->). exists t. by rewrite collect_lookup, Hl.
Qed.

(** The published values of the variables the program assigns are numbers. *)
Definition finite_vars (names : list string) (e : environment) (v2t : gmap string string) : Prop :=
  ∀ o tag, o ∈ names → maps_to v2t tag o = true → is_finite (point_value (e !! o)) = true.

Lemma last_filter_elem {A} (f : A → bool) l x :
  last (List.filter f l) = Some x → x ∈ l ∧ f x = true.
Proof.
  intros Hl. apply last_Some_elem_of in Hl. apply list_elem_of_In, List.filter_In in Hl as [Hi Hf].
  split; [by apply list_elem_of_In|done].
Qed.

Lemma reports_finite names e v2t ps :
  finite_vars names e v2t → reports names e v2t ps → finite_points ps.
Proof.
  intros Hf [_ Hps]. apply Forall_forall. intros p Hp.
  apply Hps in Hp as (tag & o & Hl & ->). apply last_filter_elem in Hl as [Hin Hm]. simpl.
  by eapply Hf.
Qed.

(** Publishing a report of finite values: nothing when it is empty, else one
    message with the report. *)
Definition published {T} `{IEnvelope T} (mk : list Point → T) (names : list string)
  (e : environment) (s : Logic) (b : bus) : Prop :=
  (collect names e (varToTag s) ∅ = ∅ ∧ b = pusher s) ∨
  ∃ ps env, reports names e (varToTag s) ps ∧ ps ≠ [] ∧
    NewEnvelope (name s) (mk ps) = inl env ∧ b = (Push "RUNTIME" env (pusher s)).1.

Lemma publish_report {T} `{IEnvelopeLaws T} (mk : list Point → T) ord names e s :
  (∀ ps, finite_points ps → encodable (mk ps)) →
  map_order ord → finite_vars names e (varToTag s) →
  let tags := collect names e (varToTag s) ∅ in
  ∃ b, (if (0 <? size tags)%nat then publish (mk (ord tags)) else mret ()) s
         = (set_pusher b s, Next ()) ∧ published mk names e s b.
Proof.
  intros Henc Ho Hf tags. pose proof (reports_collect ord names e (varToTag s) Ho) as Hr.
  fold tags in Hr. destruct (Nat.ltb_spec 0 (size tags)) as [Hsz|Hsz].
  - rewrite publish_spec.
    destruct (proj2 (marshal_ok _) (Henc _ (reports_finite _ _ _ _ Hf Hr))) as [j Hj].
    unfold NewEnvelope, build_envelope. rewrite Hj. cbn [wrapf result_bind].
    eexists. split; [done|]. right. exists (ord tags). eexists. split_and!; [done| | |done].
    + intros He. rewrite <- (map_order_size ord tags Ho), He in Hsz. simpl in Hsz. lia.
    + unfold NewEnvelope, build_envelope. by rewrite Hj.
  - exists (pusher s). split; [by destruct s|]. left. split; [|done].
    apply map_size_empty_inv. fold tags. lia.
Qed.

Lemma finite_vars_sub names names' e v2t :
  names' ⊆ names → finite_vars names e v2t → finite_vars names' e v2t.
Proof. intros Hs Hf o tag Ho. eauto. Qed.

Lemma execute_total {R} s :
  comparable_results →
  ∃ s1 us, execute (R:=R) s = (s1, Next us) ∧
    exec_frame (order s) s s1 ∧ updated_names (varToTag s) (order s) us.
Proof.
  intros Hc. pose proof (keeps_execute (R:=R) s) as Hf.
  destruct (execute_loop_total (R:=R) (zip (seq 0 (length (order s))) (order s)) s Hc)
    as (s1 & us & He & Hu).
  rewrite zip_seq_snd in Hu. exists s1, us. unfold execute in *. go_unfold.
  rewrite He in *. done.
Qed.

(** *** What the program of a module means *)

(** Running the numbered lines from environment [e], with [n] runs before, leads
    to environment [e'] and count [n'], and the names [us] changed: every line
    with a name is run, in order, in the environment that the lines before it
    left; a line that fails or only prints leaves the environment as it is; any
    other gives its variable the result, and if the variable has a tag and the
    result differs from the value it had, it counts as changed. *)
Inductive evaluates (prog : gmap nat Program) (v2t : gmap string string) :
  list (nat * string) → environment → nat → environment → nat → list string → Prop :=
| eval_end e n : evaluates prog v2t [] e n e n []
| eval_no_line i ls e n e' n' us :
    evaluates prog v2t ls e n e' n' us → evaluates prog v2t ((i, "") :: ls) e n e' n' us
| eval_error i o ls e n e' n' us err :
    o ≠ "" → RunProgram n (prog !! i) e = inr err →
    evaluates prog v2t ls e (S n) e' n' us → evaluates prog v2t ((i, o) :: ls) e n e' n' us
| eval_print i o ls e n e' n' us v :
    o ≠ "" → RunProgram n (prog !! i) e = inl v → HasPrefix o "sprintf" = true →
    evaluates prog v2t ls e (S n) e' n' us → evaluates prog v2t ((i, o) :: ls) e n e' n' us
| eval_untagged i o ls e n e' n' us v :
    o ≠ "" → RunProgram n (prog !! i) e = inl v → HasPrefix o "sprintf" = false → v2t !! o = None →
    evaluates prog v2t ls (<[o := v]> e) (S n) e' n' us → evaluates prog v2t ((i, o) :: ls) e n e' n' us
| eval_changed i o ls e n e' n' us v :
    o ≠ "" → RunProgram n (prog !! i) e = inl v → HasPrefix o "sprintf" = false → is_Some (v2t !! o) →
    any_neq v (default VNil (e !! o)) = Some true →
    evaluates prog v2t ls (<[o := v]> e) (S n) e' n' us →
    evaluates prog v2t ((i, o) :: ls) e n e' n' (o :: us)
| eval_same i o ls e n e' n' us v :
    o ≠ "" → RunProgram n (prog !! i) e = inl v → HasPrefix o "sprintf" = false → is_Some (v2t !! o) →
    any_neq v (default VNil (e !! o)) = Some false →
    evaluates prog v2t ls (<[o := v]> e) (S n) e' n' us → evaluates prog v2t ((i, o) :: ls) e n e' n' us.

Lemma execute_loop_evaluates {R} lines s s' us :
  execute_loop (R:=R) lines s = (s', Next us) →
  evaluates (program s) (varToTag s) lines (env s) (runs s) (env s') (runs s') us.
Proof.
  revert s us. induction lines as [|[i o] lines IH]; intros s us Hrun.
  { injection Hrun as <- <-. constructor. }
  cbn [execute_loop] in Hrun. unfold mbind at 1, go_bind at 1 in Hrun.
  destruct (execute_line (R:=R) i o s) as [s1 [u| | |]] eqn:Hl; try done.
  unfold mbind at 1, go_bind at 1 in Hrun.
  destruct (execute_loop (R:=R) lines s1) as [s2 [us2| | |]] eqn:Hls; try done. injection Hrun as <- <-.
  apply IH in Hls. unfold execute_line, run_program in Hl.
  destruct (String.eqb_spec o "") as [->|Ho]; [injection Hl as <- <-; by constructor|].
  go_unfold. cbn [set_runs program env varToTag runs] in Hl.
  destruct (RunProgram (runs s) (program s !! i) (env s)) as [v|err] eqn:Hr;
    [|injection Hl as <- <-; by eapply eval_error].
  destruct (HasPrefix o "sprintf") eqn:Hp; [injection Hl as <- <-; by eapply eval_print|].
  simpl in Hl. destruct (varToTag s !! o) as [t|] eqn:Ht.
  - destruct (any_neq v (default VNil (env s !! o))) as [[]|] eqn:Hn; [..|done];
      simpl in Hl; injection Hl as <- <-; [eapply eval_changed|eapply eval_same]; eauto.
  - simpl in Hl. injection Hl as <- <-. by eapply eval_untagged.
Qed.

(** The numbered lines of a module. *)
Definition lines_of (s : Logic) : list (nat * string) := zip (seq 0 (length (order s))) (order s).

Lemma execute_evaluates {R} s s' us :
  execute (R:=R) s = (s', Next us) →
  evaluates (program s) (varToTag s) (lines_of s) (env s) (runs s) (env s') (runs s') us.
Proof. apply execute_loop_evaluates. Qed.

(** The tick after the program ran. *)
Lemma tick_after ord1 ord2 s s1 us :
  locked s = false → execute (R:=()) (set_locked true s) = (s1, Next us) →
  tick ord1 ord2 s =
  ((let tags := collect (order s1) (env s1) (varToTag s1) ∅ in
    _ ← (if (0 <? size tags)%nat then publish (mk_Status (ord1 tags)) else mret ());
    _ ← (if (0 <? length us)%nat then
           let tags := collect us (env s1) (varToTag s1) ∅ in
           if (0 <? size tags)%nat then publish (mk_Update (ord2 tags) "" "") else mret ()
         else mret ());
    unlock) s1).
Proof.
  intros Hl He. unfold tick. erewrite bind_next by (unfold lock; go_unfold; by rewrite Hl).
  erewrite bind_next by exact He. by erewrite bind_next by done.
Qed.

Lemma tick_finite ord1 ord2 s s1 us :
  map_order ord1 → map_order ord2 → locked s = false →
  execute (R:=()) (set_locked true s) = (s1, Next us) →
  updated_names (varToTag s1) (order s1) us →
  finite_vars (order s1) (env s1) (varToTag s1) →
  ∃ b b', published mk_Status (order s1) (env s1) s1 b ∧
    published (λ ps, mk_Update ps "" "") us (env s1) (set_pusher b s1) b' ∧
    run (tick ord1 ord2) s = (set_locked false (set_pusher b' s1), Returns ()).
Proof.
  intros H1 H2 Hl He Hu Hf.
  destruct (publish_report mk_Status ord1 (order s1) (env s1) s1) as (b & Hb & Hpb); [done..|].
  assert (finite_vars us (env s1) (varToTag s1)) as Hfu.
  { eapply finite_vars_sub; [|exact Hf]. intros u Hin.
    unfold updated_names in Hu. rewrite Forall_forall in Hu. by apply Hu. }
  destruct (publish_report (λ ps, mk_Update ps "" "") ord2 us (env s1) (set_pusher b s1))
    as (b' & Hb' & Hpb'); [done..|].
  exists b, b'. split_and!; [done|done|]. unfold run.
  erewrite tick_after by done. cbv zeta. erewrite bind_next by exact Hb.
  cbn [varToTag set_pusher] in Hb'.
  destruct us as [|u us']; simpl length; cbn [Nat.ltb Nat.leb].
  - erewrite bind_next by done. simpl in Hb'. injection Hb' as <-. done.
  - by erewrite bind_next by exact Hb'.
Qed.

Lemma tick_not_finite ord1 ord2 s s1 us tag p :
  map_order ord1 → locked s = false → execute (R:=()) (set_locked true s) = (s1, Next us) →
  collect (order s1) (env s1) (varToTag s1) ∅ !! tag = Some p →
  is_finite (Point_Value p) = false →
  run (tick ord1 ord2) s = (s1, Returns ()).
Proof.
  intros Ho Hl He Hp Hnf. unfold run. erewrite tick_after by done. cbv zeta.
  set (tags := collect (order s1) (env s1) (varToTag s1) ∅) in *.
  assert (p ∈ ord1 tags) as Hin by (apply map_order_elem; eauto).
  assert ((0 <? size tags)%nat = true) as ->.
  { apply Nat.ltb_lt. rewrite <- (map_order_size ord1) by done. destruct (ord1 tags); [|simpl; lia].
    by apply not_elem_of_nil in Hin. }
  assert (publish (mk_Status (ord1 tags)) s1 = (s1, Return ())) as Hpub.
  { rewrite publish_spec. unfold NewEnvelope, build_envelope.
    destruct (marshal (mk_Status (ord1 tags))) as [j|e] eqn:Hj; [|done].
    pose proof (marshal_ok (mk_Status (ord1 tags))) as Hm.
    assert (finite_points (ord1 tags)) as Hfin by (apply Hm; eauto).
    unfold finite_points in Hfin. rewrite Forall_forall in Hfin. specialize (Hfin p Hin). congruence. }
  by erewrite bind_return by exact Hpub.
Qed.
End laws.

(** *** The handlers *)

(** The value a list of points gives to a variable: the last one counts. *)
Definition assigned (t2v : gmap string string) (ps : list Point) (x : string) : option float64 :=
  Point_Value <$> last (List.filter (λ p, bool_decide (t2v !! Point_Tag p = Some x)) ps).

Section handlers.
Context `{Expr}.

Lemma set_points_spec ps s :
  ∃ e, set_points ps s = (set_env e s, Next ()) ∧
    ∀ x, e !! x = match assigned (tagToVar s) ps x with
                  | Some f => Some (VFloat f)
                  | None => env s !! x
                  end.
Proof.
  revert s. induction ps as [|p ps IH]; intros s.
  { exists (env s). split; [by destruct s|done]. }
  unfold set_points in *. cbn [range].
  destruct (tagToVar s !! Point_Tag p) as [v|] eqn:Hv.
  - destruct (IH (set_env (<[v:=VFloat (Point_Value p)]> (env s)) s)) as (e & He & Hx).
    exists e. split.
    + erewrite bind_next by (go_unfold; rewrite Hv; done). exact He.
    + intros x. rewrite Hx. unfold assigned. cbn [List.filter tagToVar env set_env].
      rewrite Hv. destruct (decide (v = x)) as [<-|Hne].
      * rewrite bool_decide_true, last_cons by done.
        destruct (last _); simpl; [done|]. by rewrite lookup_insert_eq.
      * rewrite bool_decide_false by congruence. destruct (last _); [done|].
        simpl. by rewrite lookup_insert_ne.
  - destruct (IH s) as (e & He & Hx). exists e. split.
    + erewrite bind_next by (go_unfold; rewrite Hv; done). exact He.
    + intros x. rewrite Hx. unfold assigned. cbn [List.filter].
      rewrite Hv. by rewrite bool_decide_false by done.
Qed.

(** The steps of a running module: ticks and messages, in any order. *)
Inductive logic_step : Logic → Logic → Prop :=
| step_tick ord1 ord2 s :
    map_order ord1 → map_order ord2 → logic_step s (run (tick ord1 ord2) s).1
| step_status e s : logic_step s (run (handleMsgBusStatus e) s).1
| step_update e s : logic_step s (run (handleMsgBusUpdate e) s).1.

Lemma lock_blocked {R} s : locked s = true → lock (R:=R) s = (s, NoFuel).
Proof. intros Hl. unfold lock. go_unfold. by rewrite Hl. Qed.

(** While the lock is held nothing runs. *)
Lemma blocked_run s :
  locked s = true →
  (∀ ord1 ord2, run (tick ord1 ord2) s = (s, Loops)) ∧
  (∀ e, run (handleMsgBusStatus e) s = (s, Loops) ∨ run (handleMsgBusStatus e) s = (s, Returns ())) ∧
  (∀ e, run (handleMsgBusUpdate e) s = (s, Loops) ∨ run (handleMsgBusUpdate e) s = (s, Returns ())).
Proof.
  intros Hl. split_and!.
  - intros ord1 ord2. unfold run, tick, mbind, go_bind. by rewrite lock_blocked.
  - intros e. unfold run, handleMsgBusStatus. erewrite bind_next by done.
    destruct (String.eqb _ _); [by right|]. destruct (Envelope_Status e) as [st [err|]]; [by right|].
    left. unfold mbind, go_bind. by rewrite lock_blocked.
  - intros e. unfold run, handleMsgBusUpdate. erewrite bind_next by done.
    destruct (String.eqb _ _); [by right|]. destruct (Envelope_Update e) as [st [err|]]; [by right|].
    left. unfold mbind, go_bind. by rewrite lock_blocked.
Qed.

Lemma blocked_steps s s' : locked s = true → rtc logic_step s s' → s' = s.
Proof.
  intros Hl Hs. induction Hs as [|s1 s2 s3 Hstep _ IH]; [done|].
  assert (s2 = s1) as ->; [|auto].
  destruct (blocked_run s1 Hl) as (Ht & Hst & Hu).
  destruct Hstep as [ord1 ord2 s1 _ _|e s1|e s1].
  - by rewrite Ht.
  - by destruct (Hst e) as [-> | ->].
  - by destruct (Hu e) as [-> | ->].
Qed.

(** A message from another module, decoded, when the lock is free. *)
Lemma status_run e st s :
  locked s = false → Sender e ≠ name s → Envelope_Status e = (st, None) →
  ∃ e', run (handleMsgBusStatus e) s = (set_env e' s, Returns ()) ∧
    ∀ x, e' !! x = match assigned (tagToVar s) (Measurements st) x with
                   | Some f => Some (VFloat f) | None => env s !! x end.
Proof.
  intros Hl Hn He. unfold run, handleMsgBusStatus. erewrite bind_next by done.
  apply String.eqb_neq in Hn. rewrite Hn, He.
  erewrite bind_next by (unfold lock; go_unfold; by rewrite Hl).
  destruct (set_points_spec (Measurements st) (set_locked true s)) as (e' & Hs & Hx).
  erewrite bind_next by exact Hs. exists e'. split; [|exact Hx].
  destruct s. simpl in *. by subst.
Qed.

Lemma update_run e u s :
  locked s = false → Sender e ≠ name s → Envelope_Update e = (u, None) →
  ∃ e', run (handleMsgBusUpdate e) s = (set_env e' s, Returns ()) ∧
    ∀ x, e' !! x = match assigned (tagToVar s) (Updates u) x with
                   | Some f => Some (VFloat f) | None => env s !! x end.
Proof.
  intros Hl Hn He. unfold run, handleMsgBusUpdate. erewrite bind_next by done.
  apply String.eqb_neq in Hn. rewrite Hn, He.
  erewrite bind_next by (unfold lock; go_unfold; by rewrite Hl).
  destruct (set_points_spec (Updates u) (set_locked true s)) as (e' & Hs & Hx).
  erewrite bind_next by exact Hs. exists e'. split; [|exact Hx].
  destruct s. simpl in *. by subst.
Qed.
End handlers.

(** *** Well-formed programs *)

(** Every line the tick runs was compiled, and the variable it assigns exists,
    unless it is only printed. *)
Definition program_wf `{Expr} (s : Logic) : Prop :=
  ∀ i o, order s !! i = Some o → o ≠ "" →
    is_Some (program s !! i) ∧ (HasPrefix o "sprintf" = true ∨ is_Some (env s !! o)).

(** A module that runs: its program is well-formed and the lock is free. *)
Definition sane `{Expr} (nm : string) (s : Logic) : Prop :=
  name s = nm ∧ locked s = false ∧ program_wf s.

Lemma prefix_app s t : String.prefix s (s +:+ t) = true.
Proof.
  induction s as [|c s IH]; [by destruct t|]. simpl.
  by destruct (Ascii.ascii_dec c c).
Qed.

Section config_laws.
Context `{Expr} `{GoPlatform} `{Etree}.

Definition stays_sane (s s' : Logic) : Prop := ∀ nm, sane nm s → sane nm s'.

#[local] Instance stays_sane_preorder : PreOrder stays_sane.
Proof. split; [by intros s nm|]. intros s1 s2 s3 H12 H23 nm Hs. auto. Qed.

Lemma assign_sane s x v : stays_sane s (set_env (<[x:=v]> (env s)) s).
Proof.
  intros nm (Hn & Hl & Hp). split_and!; [done|done|]. intros i o Ho Hne.
  destruct (Hp i o Ho Hne) as [Hc He]. split; [done|].
  destruct He as [He|He]; [by left|right]. apply lookup_insert_is_Some'. by right.
Qed.

Lemma same_program_sane s s' :
  name s' = name s → locked s' = locked s → order s' = order s → program s' = program s →
  env s' = env s → stays_sane s s'.
Proof.
  intros Hn Hl Ho Hp He nm (Hnm & Hlk & Hwf). split_and!; [congruence|congruence|].
  unfold program_wf. by rewrite Ho, Hp, He.
Qed.

(** A setting that touches neither. *)
Lemma setting_ok (f : Logic → Logic) :
  (∀ s, name (f s) = name s ∧ locked (f s) = locked s ∧ order (f s) = order s ∧
        program (f s) = program s ∧ env (f s) = env s) →
  keeps stays_sane (modify (R:=option error) f) ∧ ends (λ o, o ≠ None) (modify (R:=option error) f).
Proof.
  intros Hf. split; intros s; [|done]. destruct (Hf s) as (? & ? & ? & ? & ?).
  by apply same_program_sane.
Qed.

Lemma error_ok e :
  keeps stays_sane (return_ (A:=()) (Some e)) ∧
  ends (S:=Logic) (λ o : option error, o ≠ None) (return_ (A:=()) (Some e)).
Proof. split; intros s; [intros nm; done|done]. Qed.

Lemma skip_ok :
  keeps stays_sane (mret (M:=go Logic (option error)) ()) ∧
  ends (λ o, o ≠ None) (mret (M:=go Logic (option error)) ()).
Proof. split; intros s; [intros nm; done|done]. Qed.

(** A compiled line, with its variable in the environment. *)
Lemma line_sane s i p left e :
  (HasPrefix left "sprintf" = true ∨ is_Some (e !! left)) →
  (∀ x, is_Some (env s !! x) → is_Some (e !! x)) →
  stays_sane s (set_env e (set_order (<[i:=left]> (order s)) (set_program (<[i:=p]> (program s)) s))).
Proof.
  intros Hleft He nm (Hn & Hl & Hp). split_and!; [done|done|]. intros j o Ho Hne. simpl in *.
  destruct (decide (i = j)) as [<-|Hij].
  - rewrite lookup_insert_eq. split; [by eexists|].
    destruct (decide (i < length (order s))%nat) as [Hi|Hi].
    + rewrite list_lookup_insert_eq in Ho by done. by injection Ho as <-.
    + rewrite list_insert_ge in Ho by lia. apply lookup_lt_Some in Ho. lia.
  - rewrite lookup_insert_ne by done. rewrite list_lookup_insert_ne in Ho by done.
    destruct (Hp j o Ho Hne) as [Hc Hv]. split; [done|]. destruct Hv; auto.
Qed.

Lemma configure_line_ok il :
  keeps stays_sane (configure_line il) ∧ ends (λ o, o ≠ None) (configure_line il).
Proof.
  destruct il as [i line]. unfold configure_line.
  destruct (HasPrefix line "#"); [apply skip_ok|].
  destruct (SplitN2 line equals_sign) as [l [r|]].
  - destruct (Compile (TrimSpace r)) as [p|e]; [|apply error_ok].
    split; intros s; unfold set_line, assign; go_unfold; simpl.
    + destruct (env s !! TrimSpace l) as [v|] eqn:Hv; simpl.
      * pose proof (line_sane s i p (TrimSpace l) (env s)) as Hs. apply Hs; eauto.
      * pose proof (line_sane s i p (TrimSpace l) (<[TrimSpace l:=VFloat f64_0]> (env s))) as Hs.
        apply Hs; [right; apply lookup_insert_is_Some'; by left|].
        intros x Hx. apply lookup_insert_is_Some'. by right.
    + by destruct (env s !! TrimSpace l).
  - destruct (HasPrefix (TrimSpace l) "sprintf"); [|apply skip_ok].
    destruct (Compile (TrimSpace l)) as [p|e]; [|apply error_ok].
    split; intros s; [|done]. unfold set_line. go_unfold. simpl.
    pose proof (line_sane s i p ("sprintf" +:+ pretty (N.of_nat i)) (env s)) as Hs.
    apply Hs; [left; apply prefix_app|done].
Qed.

Lemma configure_variable_ok v :
  keeps stays_sane (configure_variable v) ∧ ends (λ o, o ≠ None) (configure_variable v).
Proof.
  unfold configure_variable. split.
  - apply keeps_bind; [apply _|by apply setting_ok|]. intros _.
    destruct (ParseFloat (Text v)) as [f [e|]]; [destruct (ParseBool (Text v)) as [b [e'|]]|];
      try apply error_ok; intros s; apply assign_sane.
  - apply ends_bind; [by intros s|]. intros _.
    destruct (ParseFloat (Text v)) as [f [e|]]; [destruct (ParseBool (Text v)) as [b [e'|]]|];
      by intros s.
Qed.

Lemma program_child_ok c :
  keeps stays_sane (configure_child c) ∧ ends (λ o, o ≠ None) (configure_child c).
Proof.
  unfold configure_child.
  destruct (String.eqb (ETag c) "pull-endpoint"); [by apply setting_ok|].
  destruct (String.eqb (ETag c) "pub-endpoint"); [by apply setting_ok|].
  destruct (String.eqb (ETag c) "period").
  { destruct (ParseDuration (Text c)) as [d|e]; [by apply setting_ok|]. split.
    - apply keeps_bind; [apply _|by apply setting_ok|intros _; apply error_ok].
    - apply ends_bind; [by apply setting_ok|intros _; apply error_ok]. }
  destruct (String.eqb (ETag c) "program").
  { split.
    - apply keeps_bind; [apply _| |].
      + intros s nm (Hn & Hl & Hp). split_and!; [done|done|]. intros i o Ho Hne. simpl in Ho.
        apply lookup_replicate in Ho as [-> _]. done.
      + intros _. apply keeps_range; [apply _|]. intros il. apply configure_line_ok.
    - apply ends_bind; [by intros s|]. intros _. apply ends_range. intros il. apply configure_line_ok. }
  destruct (String.eqb (ETag c) "variables").
  { split; [apply keeps_range; [apply _|]|apply ends_range]; intros v; apply configure_variable_ok. }
  destruct (String.eqb (ETag c) "process-updates"); [|apply skip_ok].
  destruct (ParseBool (Text c)) as [b [e|]]; [apply error_ok|by apply setting_ok].
Qed.

Lemma Configure_sane e nm :
  sane nm (run (Configure e) (New nm)).1 ∧ ∃ o, (run (Configure e) (New nm)).2 = Returns o.
Proof.
  assert (Hk : keeps stays_sane (range (ChildElements e) configure_child))
    by (apply keeps_range; [apply _|]; intros c; apply program_child_ok).
  assert (He : ends (λ o, o ≠ None) (range (ChildElements e) configure_child))
    by (apply ends_range; intros c; apply program_child_ok).
  specialize (Hk (New nm) nm). specialize (He (New nm)).
  assert (sane nm (New nm)) as Hnew by (split_and!; [done|done|]; intros i o Ho; done).
  specialize (Hk Hnew). unfold run, Configure, mbind, go_bind.
  destruct (range (ChildElements e) configure_child (New nm)) as [s1 [[]|o| |]]; simpl in *; eauto;
    done.
Qed.

Lemma initEnv_sane s nm : sane nm s → sane nm (initEnv s).
Proof.
  intros Hs. unfold initEnv.
  repeat match goal with
  | |- sane _ (set_env (<[?x := ?v]> ?e) s) =>
      apply (assign_sane (set_env e s) x v nm)
  end.
  by destruct s.
Qed.

(** A step preserves everything but the lock. *)
Lemma program_wf_env s e :
  program_wf s → (∀ x, is_Some (env s !! x) → is_Some (e !! x)) → program_wf (set_env e s).
Proof.
  intros Hp He i o Ho Hne. destruct (Hp i o Ho Hne) as [Hc Hv]. split; [done|].
  destruct Hv; auto.
Qed.
End config_laws.

(** *** What no step changes *)

Section steps.
Context `{Expr}.

Definition static (s s' : Logic) : Prop :=
  name s' = name s ∧ order s' = order s ∧ program s' = program s ∧
  tagToVar s' = tagToVar s ∧ varToTag s' = varToTag s ∧
  ∀ x, is_Some (env s !! x) → is_Some (env s' !! x).

#[local] Instance static_preorder : PreOrder static.
Proof.
  split; [by intros s; split_and!|]. unfold static. intros s1 s2 s3.
  intros (?&?&?&?&?&?) (?&?&?&?&?&?). split_and!; try congruence. auto.
Qed.

Lemma static_env s s' :
  s' = set_env (env s') (set_runs (runs s') s) →
  (∀ x, is_Some (env s !! x) → is_Some (env s' !! x)) → static s s'.
Proof. intros Hs' Hx. rewrite Hs'. by split_and!. Qed.

Lemma keeps_static_execute : keeps static (execute (R:=())).
Proof. intros s. destruct (keeps_execute (R:=()) s) as (He & _ & Hd). by apply static_env. Qed.

Lemma keeps_static_publish {T} `{IEnvelope T} (c : T) : keeps static (publish c).
Proof. intros s. rewrite publish_spec. by destruct (NewEnvelope (name s) c). Qed.

Lemma keeps_static_lock : keeps static (lock (R:=())).
Proof. intros s. unfold lock. go_unfold. by destruct (locked s). Qed.

Hint Resolve keeps_static_execute keeps_static_publish keeps_static_lock : go.

Lemma keeps_static_tick ord1 ord2 : keeps static (tick ord1 ord2).
Proof.
  unfold tick. apply keeps_bind; [apply _|auto with go|intros _].
  apply keeps_bind; [apply _|auto with go|intros us]. apply keeps_bind; [apply _|auto with go|intros s1].
  apply keeps_bind; [apply _|case_match; auto with go|intros _].
  apply keeps_bind; [apply _|repeat case_match; auto with go|intros _]. by intros s.
Qed.

Lemma static_handler e s :
  static s (run (handleMsgBusStatus e) s).1 ∧ static s (run (handleMsgBusUpdate e) s).1.
Proof.
  destruct (locked s) eqn:Hl.
  { destruct (blocked_run s Hl) as (_ & Hst & Hu).
    by destruct (Hst e) as [-> | ->], (Hu e) as [-> | ->]. }
  assert (Henv : ∀ e' ps, (∀ x, e' !! x = match assigned (tagToVar s) ps x with
      | Some f => Some (VFloat f) | None => env s !! x end) → static s (set_env e' s)).
  { intros e' ps Hx. apply static_env; [by destruct s|]. intros x. simpl. rewrite Hx.
    destruct (assigned _ _ _); eauto. }
  destruct (decide (Sender e = name s)) as [Hs|Hs].
  { apply String.eqb_eq in Hs. unfold run, handleMsgBusStatus, handleMsgBusUpdate. go_unfold.
    by rewrite Hs. }
  split.
  - destruct (Envelope_Status e) as [st [err|]] eqn:He.
    + unfold run, handleMsgBusStatus. go_unfold. apply String.eqb_neq in Hs. by rewrite Hs, He.
    + destruct (status_run e st s Hl Hs He) as (e' & -> & Hx). eauto.
  - destruct (Envelope_Update e) as [u [err|]] eqn:He.
    + unfold run, handleMsgBusUpdate. go_unfold. apply String.eqb_neq in Hs. by rewrite Hs, He.
    + destruct (update_run e u s Hl Hs He) as (e' & -> & Hx). eauto.
Qed.

Lemma logic_steps_static s s' : rtc logic_step s s' → static s s'.
Proof.
  induction 1 as [s|s1 s2 s3 Hstep _ IH]; [reflexivity|]. transitivity s2; [|done].
  destruct Hstep as [ord1 ord2 s1 _ _|e s1|e s1]; [|apply static_handler..].
  apply run_keeps, keeps_static_tick.
Qed.

Lemma static_wf s s' : static s s' → program_wf s → program_wf s'.
Proof.
  intros (_ & Ho & Hp & _ & _ & Hd) Hwf i o. rewrite Ho, Hp. intros Hi Hne.
  destruct (Hwf i o Hi Hne) as [Hc Hv]. split; [done|]. destruct Hv; auto.
Qed.
End steps.

(** ** Properties *)


(** A small expression language for the examples: a number, a variable, a mean
    of nothing, a list. *)
Definition example_run (n : nat) (p : option string) (e : environment) : result value :=
  match p with
  | None => inr (Errorf "program is nil")
  | Some code =>
    if String.eqb code "avg([])" then inl (VFloat (fn_avg e []))
    else if String.eqb code "values([1])" then inl (VFloats (fn_values e [VInt 1]))
    else match e !! code with
         | Some v => inl v
         | None => match ParseFloat code with
                   | (f, None) => inl (VFloat f)
                   | (_, Some err) => inr err
                   end
         end
  end.

Definition example_expr : Expr := {|
  Program := string;
  Compile code := if String.eqb code "" then inr (Errorf "unexpected token EOF") else inl code;
  RunProgram := example_run;
|}.

(** The same without the list. *)
Definition numbers_expr : Expr := {|
  Program := string;
  Compile code := inl code;
  RunProgram n p e :=
    match example_run n p e with
    | inl (VFloat f) => inl (VFloat f)
    | _ => inr (Errorf "not a number")
    end;
|}.

Definition points_of (m : gmap string Point) : list Point := (map_to_list m).*2.

Lemma points_of_order : map_order points_of.
Proof. intros m. reflexivity. Qed.

Definition one_line (E : Expr) (code : @Program E) : @Logic E :=
  @mk_Logic E "" "" "logic" 1000000000 {[ 0%nat := code ]} ["x"] {[ "x" := VFloat f64_0 ]} ["x"]
    {[ "tag-x" := "x" ]} {[ "x" := "tag-x" ]} false false 0 (mk_bus [] 0 (λ _, true)).


(** C15: a value that is not finite stops the module for good.  When the program
    gives a published variable a NaN or an infinity, the tick returns to its
    loop without sending anything and without releasing the lock; from then on
    no tick, no status and no update of another module ever gets past the lock,
    and the state never changes again. *)
Theorem nonfinite_tick_deadlocks `{Expr} ord1 ord2 s s1 us tag p :
  map_order ord1 → locked s = false → execute (R:=()) (set_locked true s) = (s1, Next us) →
  collect (order s) (env s1) (varToTag s) ∅ !! tag = Some p → is_finite (Point_Value p) = false →
  run (tick ord1 ord2) s = (s1, Returns ()) ∧ locked s1 = true ∧ pusher s1 = pusher s ∧
  ∀ s', rtc logic_step s1 s' →
    s' = s1 ∧ (∀ o1 o2, (run (tick o1 o2) s').2 = Loops) ∧
    (∀ e st, Sender e ≠ name s → Envelope_Status e = (st, None) →
       (run (handleMsgBusStatus e) s').2 = Loops) ∧
    (∀ e u, Sender e ≠ name s → Envelope_Update e = (u, None) →
       (run (handleMsgBusUpdate e) s').2 = Loops).
Proof.
  intros Ho Hl He Hp Hnf.
  pose proof (keeps_execute (R:=()) (set_locked true s)) as [Hs1 _]. rewrite He in Hs1.
  cbn [fst] in Hs1.
  assert (order s1 = order s ∧ varToTag s1 = varToTag s ∧ locked s1 = true ∧
    pusher s1 = pusher s ∧ name s1 = name s) as (Hor & Hv & Hl1 & Hpu & Hn) by (by rewrite Hs1).
  rewrite <- Hor, <- Hv in Hp.
  split_and!; [by eapply tick_not_finite|done|done|].
  intros s' Hsteps. apply blocked_steps in Hsteps as ->; [|done].
  destruct (blocked_run s1 Hl1) as (Ht & _). split_and!; [done|by intros; rewrite Ht| |].
  - intros e st Hne Hst. rewrite <- Hn in Hne. apply String.eqb_neq in Hne.
    unfold run, handleMsgBusStatus. go_unfold. rewrite Hne, Hst.
    unfold lock. go_unfold. by rewrite Hl1.
  - intros e u Hne Hst. rewrite <- Hn in Hne. apply String.eqb_neq in Hne.
    unfold run, handleMsgBusUpdate. go_unfold. rewrite Hne, Hst.
    unfold lock. go_unfold. by rewrite Hl1.
Qed.

(** The mean of an empty list is a NaN. *)
Lemma nonfinite_tick_deadlocks_witness :
  let s := one_line numbers_expr "avg([])" in
  ∃ s1, run (@tick numbers_expr points_of points_of) s = (s1, Returns ()) ∧
    @locked numbers_expr s1 = true ∧
    (run (@tick numbers_expr points_of points_of) s1).2 = Loops.
Proof.
  intros s.
  destruct (@execute numbers_expr () (@set_locked numbers_expr true s)) as [s1 c] eqn:He.
  assert (∃ us, c = Next us) as [us ->].
  { replace c with (@execute numbers_expr () (@set_locked numbers_expr true s)).2
      by (rewrite He; reflexivity). eexists. vm_compute. reflexivity. }
  destruct (@nonfinite_tick_deadlocks numbers_expr points_of points_of s s1 us "tag-x"
    (mk_Point "tag-x" S754_nan 0) points_of_order eq_refl He) as (Ht & Hl & _ & Hd).
  - replace s1 with (@execute numbers_expr () (@set_locked numbers_expr true s)).1
      by (rewrite He; reflexivity). vm_compute. reflexivity.
  - reflexivity.
  - exists s1. split; [exact Ht|]. split; [exact Hl|].
    exact (proj1 (proj2 (Hd s1 (rtc_refl _ _))) points_of points_of).
Defined.

(** Comparing two lists brings the module down.  A variable with a tag that
    a line sets to a list of numbers (as [values] gives) survives the first
    tick, where the list is compared with a number, but the next comparison is
    between two lists, which Go refuses with a panic. *)
Theorem list_variable_panics `{Expr} ord1 ord2 s x code l tag :
  locked s = false → order s = [x] → x ≠ "" → HasPrefix x "sprintf" = false →
  varToTag s !! x = Some tag → program s !! 0%nat = Some code →
  (∀ n e, RunProgram n (Some code) e = inl (VFloats l)) → env s !! x = Some (VFloat f64_0) →
  ∃ s', execute (R:=()) s = (s', Next [x]) ∧ env s' !! x = Some (VFloats l) ∧
    ∀ s'', env s'' !! x = Some (VFloats l) → order s'' = order s → program s'' = program s →
      varToTag s'' = varToTag s → locked s'' = false →
      (run (tick ord1 ord2) s'').2 = Panics PanicExplicit.
Proof.
  intros Hl Ho Hx Hsp Hv Hp Hr He. apply String.eqb_neq in Hx.
  exists (set_env (<[x:=VFloats l]> (env s)) (set_runs (S (runs s)) s)). split_and!.
  - unfold execute. go_unfold. rewrite Ho. cbn [length seq zip zip_with execute_loop].
    unfold execute_line, run_program. go_unfold. rewrite Hx, Hp, Hr, Hsp. simpl.
    by rewrite Hv, He.
  - simpl. apply lookup_insert_eq.
  - intros s'' He' Ho' Hp' Hv' Hl'. unfold run, tick, lock, execute. go_unfold. rewrite Hl'.
    cbn [order set_locked]. rewrite Ho', Ho. cbn [length seq zip zip_with execute_loop].
    unfold execute_line, run_program. go_unfold. rewrite Hx. cbn [program set_locked runs env set_runs].
    rewrite Hp', Hp, Hr, Hsp. simpl. by rewrite Hv', Hv, He'.
Qed.

Lemma list_variable_panics_witness :
  let s := one_line example_expr "values([1])" in
  ∃ s', @execute example_expr () s = (s', Next ["x"]) ∧
    (run (@tick example_expr points_of points_of) s').2 = Panics PanicExplicit.
Proof.
  intros s.
  destruct (@list_variable_panics example_expr points_of points_of s "x" "values([1])"
    [f64_1] "tag-x") as (s' & He & Henv & Hpanic); try reflexivity; [discriminate|].
  exists s'. split; [exact He|].
  assert (s' = (@execute example_expr () s).1) as Hs' by (rewrite He; reflexivity).
  apply Hpanic; [exact Henv|rewrite Hs'; reflexivity..].
Defined.

(** Messages reach the environment.  With the lock free, a status or an
    update from another module gives every variable whose tag it reports the
    last value reported for it, leaves all others as they are, changes nothing
    else and releases the lock; the module's own messages change nothing. *)
Theorem messages_set_env `{Expr} s e :
  locked s = false →
  (Sender e = name s → run (handleMsgBusStatus e) s = (s, Returns ()) ∧
                       run (handleMsgBusUpdate e) s = (s, Returns ())) ∧
  (∀ st, Sender e ≠ name s → Envelope_Status e = (st, None) →
     ∃ e', run (handleMsgBusStatus e) s = (set_env e' s, Returns ()) ∧
       ∀ x, e' !! x = match assigned (tagToVar s) (Measurements st) x with
                      | Some f => Some (VFloat f) | None => env s !! x end) ∧
  (∀ u, Sender e ≠ name s → Envelope_Update e = (u, None) →
     ∃ e', run (handleMsgBusUpdate e) s = (set_env e' s, Returns ()) ∧
       ∀ x, e' !! x = match assigned (tagToVar s) (Updates u) x with
                      | Some f => Some (VFloat f) | None => env s !! x end).
Proof.
  intros Hl. split_and!.
  - intros Hs. apply String.eqb_eq in Hs.
    unfold run, handleMsgBusStatus, handleMsgBusUpdate. go_unfold. by rewrite Hs.
  - intros st Hn He. by apply status_run.
  - intros u Hn He. by apply update_run.
Qed.

Definition tag_x_status : Envelope :=
  mk_Envelope "v1" ENVELOPE_STATUS (Some {["sender" := "io"]})
    (Some (JObj [("measurements", JArr [JObj [("tag", JStr "tag-x"); ("value", JInt false 7)]])])).

Lemma messages_set_env_witness :
  ∃ e', run (@handleMsgBusStatus numbers_expr tag_x_status) (one_line numbers_expr "1")
    = (@set_env numbers_expr e' (one_line numbers_expr "1"), Returns ()) ∧
    e' !! "x" = Some (VFloat (f64_of_Z 7)).
Proof.
  destruct (proj1 (proj2 (@messages_set_env numbers_expr (one_line numbers_expr "1") tag_x_status
    eq_refl)) (mk_Status [mk_Point "tag-x" (f64_of_Z 7) 0])) as (e' & Hrun & Hx);
    [discriminate|reflexivity|].
  exists e'. split; [exact Hrun|]. rewrite Hx. reflexivity.
Defined.

(** A configured module keeps its program.  From any document, and after
    any ticks and messages in any order, the name and the lines are still those
    of the configuration, every line that a tick runs was compiled, and every
    variable a line assigns exists. *)
Theorem configured_logic_invariant `{Expr} `{GoPlatform} `{Etree} nm e s :
  rtc logic_step (initEnv (run (Configure e) (New nm)).1) s →
  (∃ o, (run (Configure e) (New nm)).2 = Returns o) ∧
  name s = nm ∧ order s = order (run (Configure e) (New nm)).1 ∧
  program s = program (run (Configure e) (New nm)).1 ∧ program_wf s.
Proof.
  intros Hsteps. destruct (Configure_sane e nm) as [Hs Hends]. split; [done|].
  pose proof (initEnv_sane _ _ Hs) as (Hn & _ & Hwf).
  pose proof (logic_steps_static _ _ Hsteps) as Hst.
  split_and!; [by rewrite (proj1 Hst)|by rewrite (proj1 (proj2 Hst))
    |by rewrite (proj1 (proj2 (proj2 Hst)))|by eapply static_wf].
Qed.

Definition logic_config : xml :=
  Elem "logic" [("name", "logic")] ""
    [leaf "period" "500ms";
     leaf "program" "x = 2.5";
     Elem "variables" [] "" [Elem "x" [("tag", "tag-x")] "0" []]].

Lemma configured_logic_invariant_witness :
  ∃ s, rtc (@logic_step numbers_expr)
      (@initEnv numbers_expr (run (@Configure numbers_expr amd64 xml_etree logic_config)
        (@New numbers_expr "logic")).1) s ∧
    @name numbers_expr s = "logic" ∧ @program_wf numbers_expr s.
Proof.
  set (s0 := @initEnv numbers_expr _).
  assert (rtc (@logic_step numbers_expr) s0
    (run (@tick numbers_expr points_of points_of) s0).1) as Hs
    by (apply rtc_once, step_tick; apply points_of_order).
  eexists. split; [exact Hs|].
  destruct (@configured_logic_invariant numbers_expr amd64 xml_etree "logic" logic_config _ Hs)
    as (_ & Hn & _ & _ & Hwf).
  split; [exact Hn|exact Hwf].
Defined.

(** The three list functions agree.  [sum] adds, from zero and in order, the
    numbers [values] gives, and [avg] is their sum divided by how many they are;
    with no number at all the mean is a NaN. *)
Theorem list_functions e vars :
  fn_sum e vars = fold_left fadd (fn_values e vars) f64_0 ∧
  fn_avg e vars = fdiv (fn_sum e vars) (f64_of_Z (Z.of_nat (length (fn_values e vars)))) ∧
  (fn_values e vars = [] → is_nan (fn_avg e vars) = true).
Proof.
  split_and!; [apply fn_sum_values|apply fn_avg_values|].
  intros Hv. rewrite fn_avg_values, fn_sum_values, Hv. reflexivity.
Qed.

Lemma list_functions_witness : is_nan (fn_avg ∅ [VString "nope"; VBool true]) = true.
Proof. apply (proj2 (proj2 (list_functions ∅ [VString "nope"; VBool true]))). reflexivity. Defined.
