(* ===== verification/Cpu.v ===== *)
(** * cpu: the supervisor of the modules

    [execute.go]: starting, restarting and stopping the processes of the modules.
    [internal.go] and the module handlers of [api.go]: listing, enabling and
    disabling them.  Every goroutine of [StartModule] is a [supervisor] that
    moves by steps; the steps of the supervisors and the calls of the handlers
    interleave.  The processes, [exec.LookPath] and the process exits are outside:
    a parameter and events. *)

From S2P Require Import Prelude GoFloat GoText Etree Json Msgbus.

Record module := mk_module {
  m_ctx : option context;        (* None: the nil context *)
  m_name : string;
  path : string;
  args : list string;
  workDir : string;
  m_env : list string;
  canceler : option nat;         (* a channel; None: the nil channel *)
  initialized : bool;
}.

(** Where the goroutine of [StartModule] is: before [cmd.Start], before the
    channel is made, before the [select], in the [select] on the channel that
    [mod.canceler] was when it began ([None]: the nil channel, which is never
    ready), before [mod.canceler = nil], in the inner [select] after a cancellation
    or the end of the context, or returned. *)
Inductive phase :=
| Launching | Started | Made | Waiting (c : option nat) | Canceled | Disabling | Stopping | Exited.

(** Its process: none, running, or exited with a code that was not received. *)
Inductive process := NoProcess | Running | ExitedWith (code : Z).

Record supervisor := mk_supervisor { sup_mod : string; sup_phase : phase; sup_proc : process }.

(** The package state: the modules, the channels made so far (closed or not), the
    goroutines, whether the context is done, and the pusher. *)
Record cpu := mk_cpu {
  modules : gmap string module;
  chans : list bool;
  supervisors : list supervisor;
  ctx_done : bool;
  pusher : bus;
}.

Definition set_modules m (s : cpu) : cpu :=
  mk_cpu m (chans s) (supervisors s) (ctx_done s) (pusher s).
Definition set_chans c (s : cpu) : cpu :=
  mk_cpu (modules s) c (supervisors s) (ctx_done s) (pusher s).
Definition set_supervisors l (s : cpu) : cpu :=
  mk_cpu (modules s) (chans s) l (ctx_done s) (pusher s).
Definition set_pusher b (s : cpu) : cpu :=
  mk_cpu (modules s) (chans s) (supervisors s) (ctx_done s) b.
Definition set_canceler (c : option nat) (m : module) : module :=
  mk_module (m_ctx m) (m_name m) (path m) (args m) (workDir m) (m_env m) c (initialized m).

(** ** execute.go *)

(** [module.init] *)
Definition init {R} (ctx : option context) (m : module) : go cpu R module :=
  if initialized m then mret m else
  c ← eval ctx PanicNil;
  config ← MustConfigFile c;
  let path := ReplaceAll (path m) "{{config_file}}" config in
  match Split path (Ascii.ascii_of_N 32) with
  | [] => mret m                   (* Split is never empty *)
  | p :: rest =>
    mret (mk_module ctx (m_name m) p rest (workDir m) (m_env m) (canceler m) true)
  end.

(** The results and the errors of a control message. *)
Abbreviation answers := (gmap string json * gmap string string)%type.

Section lookpath.
Context (LookPath : string → bool).

(** [StartModule(ctx, mod)], up to the [go] statement.  The module is a pointer in
    the map already: what [init] set is seen there on every path. *)
Definition StartModule {R} (ctx : option context) (md : module) : go cpu R (option error) :=
  m ← init ctx md;
  _ ← modify (λ s, set_modules (<[m_name m := m]> (modules s)) s);
  if LookPath (path m) then
    _ ← modify (λ s, set_supervisors
          (supervisors s ++ [mk_supervisor (m_name m) Launching NoProcess]) s);
    mret None
  else mret (Some (Errorf ("module executable does not exist at " +:+ path m))).

(** What can happen to a supervisor. *)
Inductive sup_event :=
| EvStart (ok : bool)     (* cmd.Start *)
| EvMakeChan              (* mod.canceler = make(chan struct{}) *)
| EvSelect                (* select evaluates its channels, mod.canceler among them *)
| EvExit (code : Z)       (* the process ends *)
| EvWaitDone              (* <-wait *)
| EvCanceled              (* <-mod.canceler *)
| EvClear                 (* mod.canceler = nil *)
| EvCtxDone               (* <-ctx.Done() *)
| EvTimeout.              (* <-time.After(10s), then Kill *)

(** Receiving from a channel is possible once it is closed, from the nil channel never. *)
Definition closed (s : cpu) (o : option nat) : bool :=
  match o with Some c => bool_decide (chans s !! c = Some true) | None => false end.

Definition sup_move (i : nat) (sup : supervisor) (ev : sup_event) (s : cpu) : option cpu :=
  let put (ph : phase) (p : process) (s : cpu) : cpu :=
    set_supervisors (<[i := mk_supervisor (sup_mod sup) ph p]> (supervisors s)) s in
  let set_mod (c : option nat) (s : cpu) : cpu :=
    set_modules (alter (set_canceler c) (sup_mod sup) (modules s)) s in
  match sup_phase sup, ev, sup_proc sup with
  | Exited, _, _ => None
  | ph, EvExit code, Running => Some (put ph (ExitedWith code) s)
  | Launching, EvStart true, _ => Some (put Started Running s)
  | Launching, EvStart false, _ => Some (put Exited NoProcess s)
  | Started, EvMakeChan, p =>
    let c := length (chans s) in
    Some (put Made p (set_mod (Some c) (set_chans (chans s ++ [false]) s)))
  | Made, EvSelect, p => Some (put (Waiting (modules s !! sup_mod sup ≫= canceler)) p s)
  | Waiting _, EvWaitDone, ExitedWith code =>
    if code =? ExitNoRestart then Some (put Exited NoProcess s)
    else Some (put Launching NoProcess s)
  | Waiting o, EvCanceled, p =>
    if closed s o then Some (put Canceled p s) else None
  | Canceled, EvClear, p => Some (put Disabling p (set_mod None s))
  | Waiting _, EvCtxDone, p => if ctx_done s then Some (put Stopping p s) else None
  | (Disabling | Stopping), EvWaitDone, ExitedWith _ => Some (put Exited NoProcess s)
  | (Disabling | Stopping), EvTimeout, _ => Some (put Exited NoProcess s)
  | _, _, _ => None
  end.

Definition sup_step (i : nat) (ev : sup_event) (s : cpu) : option cpu :=
  sup ← supervisors s !! i; sup_move i sup ev s.

(** ** Enabling, disabling and listing *)

(** [close(mod.canceler)] of a channel that is not nil *)
Definition close {R} (c : nat) : go cpu R () :=
  s ← get;
  match chans s !! c with
  | Some false => modify (set_chans (<[c := true]> (chans s)))
  | _ => panic_ PanicCloseClosed
  end.

Definition state_of (m : module) : string :=
  match canceler m with None => "disabled" | Some _ => "enabled" end.

(** [for _, mod := range modules { results[mod.name] = ... }] *)
Definition list_modules (s : cpu) : gmap string string :=
  map_fold (λ _ m, <[m_name m := state_of m]>) ∅ (modules s).

(** An HTTP answer: status code and body. *)
Record http := mk_http { http_status : Z; http_body : body }.
Definition no_body (code : Z) : http := mk_http code (BText "").

(** [http.Error(w, text, code)] *)
Definition http_Error (text : string) (code : Z) : http := mk_http code (BText text).

Definition handleModules : go cpu http http :=
  s ← get;
  mret (mk_http 200 (BJson (enc_map enc_string (list_modules s)))).

Definition handleEnableModule (name : string) : go cpu http http :=
  s ← get;
  match modules s !! name with
  | None => mret (http_Error "module not found" 400)
  | Some md =>
    match canceler md with
    | Some _ => mret (http_Error "module already enabled" 400)
    | None =>
      err ← StartModule (m_ctx md) md;
      match err with
      | Some _ => return_ (http_Error "failed to enable module" 500)
      | None => mret (no_body 204)
      end
    end
  end.

Definition handleDisableModule (name : string) : go cpu http http :=
  s ← get;
  match modules s !! name with
  | None => mret (http_Error "module not found" 400)
  | Some md =>
    match canceler md with
    | None => mret (http_Error "module already disabled" 400)
    | Some c =>
      _ ← close c;
      mret (no_body 204)
    end
  end.

(** ** internal.go: the same over the message bus *)

Definition error_text (e : error) : string :=
  match e with Sentinel t | Errorf t | Wrapf t _ | ExitError _ t => t end.

Definition control_enable {R} (a : answers) (name : string) : go cpu R answers :=
  let '(results, errs) := a in
  s ← get;
  match modules s !! name with
  | None => mret (results, <[name := "does not exist"]> errs)
  | Some md =>
    match canceler md with
    | Some _ => mret (results, <[m_name md := "already enabled"]> errs)
    | None =>
      err ← StartModule (m_ctx md) md;
      match err with
      | None => mret (<[m_name md := JStr "enabled"]> results, errs)
      | Some e => mret (results, <[m_name md := error_text e]> errs)
      end
    end
  end.

Definition control_disable {R} (a : answers) (name : string) : go cpu R answers :=
  let '(results, errs) := a in
  s ← get;
  match modules s !! name with
  | None => mret (results, <[name := "does not exist"]> errs)
  | Some md =>
    match canceler md with
    | Some c => _ ← close c; mret (<[m_name md := JStr "disabled"]> results, errs)
    | None => mret (results, <[m_name md := "already disabled"]> errs)
    end
  end.

Fixpoint control_loop {R} (f : answers → string → go cpu R answers) (a : answers)
  (names : list string) : go cpu R answers :=
  match names with
  | [] => mret a
  | n :: names' => a' ← f a n; control_loop f a' names'
  end.

Definition internalHandler (msg : option json) : go cpu (option error) (option error) :=
  match ParseEnvelope msg with
  | inr e => return_ (Some (Wrapf "creating new envelope: %w" e))
  | inl env =>
    if negb (String.eqb (Kind env) ENVELOPE_MODULE_CONTROL) then mret None else
    match Envelope_ModuleControl env with
    | (_, Some e) =>
      if errors_Is e "not a ModuleControl message" then return_ None
      else return_ (Some (Wrapf "getting module controls from envelope: %w" e))
    | (control, None) =>
      if negb (String.eqb (MC_Recipient control) "") && negb (String.eqb (MC_Recipient control) "CPU")
      then return_ None
      else
        s ← get;
        let results : gmap string json :=
          if MC_List control then JStr <$> list_modules s else ∅ in
        a ← control_loop control_enable (results, ∅) (Enable control);
        a ← control_loop control_disable a (Disable control);
        if String.eqb (MC_Confirm control) "" then mret None else
        match NewEnvelope "CPU" (mk_Confirmation (MC_Confirm control) (Some a.1) (Some a.2)) with
        | inr e => return_ (Some (Wrapf "creating new confirmation envelope: %w" e))
        | inl env =>
          s ← get;
          let '(b, err) := Push "INTERNAL" env (pusher s) in
          _ ← modify (set_pusher b);
          match err with Some e => return_ (Some e) | None => mret None end
        end
    end
  end.

(** A step of the whole: a supervisor moves, or a handler is called (which may
    panic: there is no step out of that call then), or the context ends. *)
Inductive cpu_step : cpu → cpu → Prop :=
| cpu_sup i ev s s' : sup_step i ev s = Some s' → cpu_step s s'
| cpu_enable name s s' r : run (handleEnableModule name) s = (s', Returns r) → cpu_step s s'
| cpu_disable name s s' r : run (handleDisableModule name) s = (s', Returns r) → cpu_step s s'
| cpu_control msg s s' r : run (internalHandler msg) s = (s', Returns r) → cpu_step s s'
| cpu_ctx s : cpu_step s (mk_cpu (modules s) (chans s) (supervisors s) true (pusher s)).
End lookpath.

(** ** Lemmas *)

(** What requests that are served at the same time can do beyond that: a request
    may find out the state of a module, and act on it when the module has moved on.
    It then starts a goroutine for a module that has one, or closes a channel that
    was the module's when it looked. *)
Inductive cpu_race (LookPath : string → bool) : cpu → cpu → Prop :=
| race_step s s' : cpu_step LookPath s s' → cpu_race LookPath s s'
| race_start n m s s' err : modules s !! n = Some m →
    StartModule LookPath (R:=()) (m_ctx m) m s = (s', Next err) → cpu_race LookPath s s'
| race_close c s s' : close (R:=()) c s = (s', Next ()) → cpu_race LookPath s s'.

(** The invariant of the package state: the map is keyed by name, channels that
    are referred to exist, each belongs to one module: the one whose canceler it is
    and the one whose goroutines wait on it. *)
Record cpu_wf (s : cpu) : Prop := {
  wf_names n m : modules s !! n = Some m → m_name m = n;
  wf_canceler n m c : modules s !! n = Some m → canceler m = Some c → (c < length (chans s))%nat;
  wf_waiting i p c : supervisors s !! i = Some p → sup_phase p = Waiting (Some c) →
    (c < length (chans s))%nat;
  wf_waiters i j p q c : supervisors s !! i = Some p → supervisors s !! j = Some q →
    sup_phase p = Waiting (Some c) → sup_phase q = Waiting (Some c) → sup_mod p = sup_mod q;
  wf_owner n m i p c : modules s !! n = Some m → canceler m = Some c →
    supervisors s !! i = Some p → sup_phase p = Waiting (Some c) → sup_mod p = n;
  wf_one_module n n' m m' c : modules s !! n = Some m → modules s !! n' = Some m' →
    canceler m = Some c → canceler m' = Some c → n = n';
}.

(** Nobody can close the channel [c] any more. *)
Definition unreachable (c : nat) (s : cpu) : Prop :=
  chans s !! c = Some false ∧ ∀ n m, modules s !! n = Some m → canceler m ≠ Some c.

(** What every step does to channels and cancelers: channels are never reopened
    or dropped, and a canceler in the new state is an old one of the same
    module or a channel made by this step. *)
Record cpu_grows (s s' : cpu) : Prop := {
  grows_closed c : chans s !! c = Some true → chans s' !! c = Some true;
  grows_length : (length (chans s) ≤ length (chans s'))%nat;
  grows_open c : chans s !! c = Some false → chans s' !! c = Some false ∨
    ∃ n m, modules s !! n = Some m ∧ canceler m = Some c;
  grows_canceler n m' c : modules s' !! n = Some m' → canceler m' = Some c →
    (∃ m, modules s !! n = Some m ∧ canceler m = Some c) ∨ (length (chans s) ≤ c)%nat;
}.

#[export] Instance cpu_grows_preorder : PreOrder cpu_grows.
Proof.
  split; [intros s; split; eauto|]. intros s1 s2 s3 [A1 B1 C1 D1] [A2 B2 C2 D2]. split; [auto|lia| |].
  - intros c Hc. destruct (C1 c Hc) as [Ho|?]; [|by right].
    destruct (C2 c Ho) as [?|(n & m & Hm & Hcm)]; [by left|].
    destruct (D1 n m c Hm Hcm) as [(m0 & ? & ?)|Hl]; [right; eauto|].
    apply lookup_lt_Some in Hc. lia.
  - intros n m' c Hm' Hc. destruct (D2 n m' c Hm' Hc) as [(m & Hm & Hcm)|Hl]; [|right; lia].
    exact (D1 n m c Hm Hcm).
Qed.

Lemma unreachable_grows c s s' : cpu_grows s s' → unreachable c s → unreachable c s'.
Proof.
  intros [_ Hl Ho Hc] [Hopen Hno]. split.
  - destruct (Ho c Hopen) as [?|(n & m & Hm & Hcm)]; [done|]. by destruct (Hno n m Hm).
  - intros n m' Hm' Hcm'. destruct (Hc n m' c Hm' Hcm') as [(m & Hm & Hcm)|Hge].
    + by eapply Hno.
    + apply lookup_lt_Some in Hopen. lia.
Qed.

Section cpu_laws.
Context (LookPath : string → bool).

(** Modules that differ in what [init] sets only. *)
Lemma init_spec {R} ctx m (s : cpu) :
  (∃ m', init (R:=R) ctx m s = (s, Next m') ∧ m_name m' = m_name m ∧ canceler m' = canceler m) ∨
  (∃ p, init (R:=R) ctx m s = (s, Panic p)).
Proof.
  unfold init, MustConfigFile, ConfigFile. destruct (initialized m); [by left; exists m|].
  destruct ctx as [[config|]|]; go_unfold; [left|right; eauto..].
  destruct (Split _ _); eexists; (split; [done|done]).
Qed.

(** The state after [StartModule] of a module of the map. *)
Lemma StartModule_spec {R} ctx md (s : cpu) :
  modules s !! m_name md = Some md →
  (∃ m' err, m_name m' = m_name md ∧ canceler m' = canceler md ∧
     (StartModule LookPath (R:=R) ctx md s).2 = Next err ∧
     let s' := (StartModule LookPath (R:=R) ctx md s).1 in
     modules s' = <[m_name md := m']> (modules s) ∧ chans s' = chans s ∧ pusher s' = pusher s ∧
     supervisors s' = supervisors s ++
       (if err is Some _ then [] else [mk_supervisor (m_name md) Launching NoProcess])) ∨
  (∃ p, StartModule LookPath (R:=R) ctx md s = (s, Panic p)).
Proof.
  intros Hmd. unfold StartModule.
  destruct (init_spec (R:=R) ctx md s) as [(m' & Hi & Hn & Hc)|[p Hi]].
  - left. unfold mbind, go_bind. rewrite Hi. unfold modify, mret, go_ret.
    destruct (LookPath (path m')); exists m'; eexists; split_and!; simpl; try done;
      try (by rewrite Hn). by rewrite app_nil_r.
  - right. exists p. unfold mbind, go_bind. by rewrite Hi.
Qed.

(** A change that keeps names, cancelers and channels, and adds goroutines that
    wait on nothing, keeps the invariant. *)
Lemma wf_same_cancelers s s' :
  (∀ n m', modules s' !! n = Some m' → ∃ m, modules s !! n = Some m ∧
     m_name m' = m_name m ∧ canceler m' = canceler m) →
  length (chans s') = length (chans s) →
  (∀ i p c, supervisors s' !! i = Some p → sup_phase p = Waiting (Some c) →
     ∃ q, supervisors s !! i = Some q ∧ sup_phase q = Waiting (Some c) ∧ sup_mod q = sup_mod p) →
  cpu_wf s → cpu_wf s'.
Proof.
  intros Hm Hl Hs [W1 W2 W3 W4 W5 W6]. split.
  - intros n m' Hn. destruct (Hm n m' Hn) as (m & H0 & -> & _). eauto.
  - intros n m' c Hn Hc. destruct (Hm n m' Hn) as (m & H0 & _ & He). rewrite Hl. eapply W2; eauto.
    congruence.
  - intros i p c Hi Hp. destruct (Hs i p c Hi Hp) as (q & Hq & Hqp & _). rewrite Hl. eauto.
  - intros i j p q c Hi Hj Hp Hq. destruct (Hs i p c Hi Hp) as (p' & ? & ? & <-).
    destruct (Hs j q c Hj Hq) as (q' & ? & ? & <-). eauto.
  - intros n m' i p c Hn Hc Hi Hp. destruct (Hm n m' Hn) as (m & H0 & _ & He).
    destruct (Hs i p c Hi Hp) as (q & Hq & Hqp & <-). eapply W5; eauto. congruence.
  - intros n n' m' m'' c Hn Hn' Hc Hc'. destruct (Hm n m' Hn) as (m & H0 & _ & He).
    destruct (Hm n' m'' Hn') as (m0 & H1 & _ & He'). exact (W6 n n' m m0 c H0 H1 ltac:(congruence) ltac:(congruence)).
Qed.

Lemma grows_same s s' :
  (∀ n m', modules s' !! n = Some m' → ∃ m, modules s !! n = Some m ∧ canceler m' = canceler m) →
  chans s' = chans s → cpu_grows s s'.
Proof.
  intros Hm Hc. split; rewrite ?Hc; eauto.
  intros n m' c Hn Hcm. destruct (Hm n m' Hn) as (m & ? & He). left. exists m. split; congruence.
Qed.

(** Both at once: what the handlers do, one primitive at a time. *)
Definition good (s s' : cpu) : Prop := cpu_wf s → cpu_wf s' ∧ cpu_grows s s'.

#[local] Instance good_preorder : PreOrder good.
Proof.
  split; [intros s Hs; split; [done|reflexivity]|]. intros s1 s2 s3 H12 H23 H1.
  destruct (H12 H1) as [W2 G2]. destruct (H23 W2) as [W3 G3]. split; [done|by transitivity s2].
Qed.

Lemma StartModule_good {R} n md s :
  modules s !! n = Some md → good s (StartModule LookPath (R:=R) (m_ctx md) md s).1.
Proof.
  intros Hmd Hwf. pose proof (wf_names s Hwf n md Hmd) as Hn. rewrite <- Hn in Hmd.
  destruct (StartModule_spec (R:=R) (m_ctx md) md s Hmd) as
    [(m' & err & Hn' & Hc' & _ & Hms & Hch & _ & Hsup)|[p Hp]];
    [|rewrite Hp; split; [done|reflexivity]].
  assert (Hm : ∀ k m0, modules (StartModule LookPath (R:=R) (m_ctx md) md s).1 !! k = Some m0 →
    ∃ m, modules s !! k = Some m ∧ m_name m0 = m_name m ∧ canceler m0 = canceler m).
  { intros k m0. rewrite Hms. intros [[<- <-]|[Hne Hk]]%lookup_insert_Some; eauto. }
  split.
  - apply (wf_same_cancelers s); [exact Hm|by rewrite Hch| |done].
    intros i p c. rewrite Hsup. intros Hi Hp. exists p. split; [|done].
    destruct err; [by rewrite app_nil_r in Hi|].
    apply lookup_app_Some in Hi as [Hi|[_ Hi]]; [done|].
    apply list_lookup_singleton_Some in Hi as [_ <-]. done.
  - apply grows_same; [|done]. intros k m0 Hk. destruct (Hm k m0 Hk) as (m & ? & _ & ?). eauto.
Qed.

Lemma close_good {R} n md c s :
  modules s !! n = Some md → canceler md = Some c → good s (close (R:=R) c s).1.
Proof.
  intros Hmd Hc Hwf. unfold close. go_unfold. destruct (chans s !! c) as [[]|] eqn:Hch;
    try (split; [done|reflexivity]). cbn [fst].
  split.
  - apply (wf_same_cancelers s); [intros k m0 Hk; by exists m0|by simpl; rewrite length_insert| |done].
    intros i p c0 Hi Hp. by exists p.
  - split; simpl; rewrite ?length_insert; eauto.
    + intros c0 Hc0. rewrite list_lookup_insert_ne; [done|]. intros ->. congruence.
    + intros c0 Hc0. destruct (decide (c = c0)) as [->|Hne]; [right; eauto|].
      left. by rewrite list_lookup_insert_ne.
Qed.

Lemma handlers_good name s :
  good s (run (handleEnableModule LookPath name) s).1 ∧
  good s (run (handleDisableModule name) s).1.
Proof.
  unfold run, handleEnableModule, handleDisableModule. go_unfold.
  destruct (modules s !! name) as [md|] eqn:Hmd; [|done].
  destruct (canceler md) as [c|] eqn:Hc; (split; [try reflexivity|try reflexivity]).
  - pose proof (close_good (R:=http) name md c s Hmd Hc) as Hg.
    by destruct (close c s) as [s' [[]| | |]].
  - pose proof (StartModule_good (R:=http) name md s Hmd) as Hg.
    by destruct (StartModule LookPath (m_ctx md) md s) as [s' [[]| | |]].
Qed.

Lemma control_enable_good {R} a n : keeps good (control_enable LookPath (R:=R) a n).
Proof.
  intros s. destruct a as [results errs]. unfold control_enable. go_unfold.
  destruct (modules s !! n) as [md|] eqn:Hmd; [|reflexivity].
  destruct (canceler md) as [c|]; [reflexivity|].
  pose proof (StartModule_good (R:=R) n md s Hmd) as Hg.
  by destruct (StartModule LookPath (m_ctx md) md s) as [s' [[]| | |]].
Qed.

Lemma control_disable_good {R} a n : keeps good (control_disable (R:=R) a n).
Proof.
  intros s. destruct a as [results errs]. unfold control_disable. go_unfold.
  destruct (modules s !! n) as [md|] eqn:Hmd; [|reflexivity].
  destruct (canceler md) as [c|] eqn:Hc; [|reflexivity].
  pose proof (close_good (R:=R) n md c s Hmd Hc) as Hg.
  by destruct (close c s) as [s' [[]| | |]].
Qed.

Lemma control_loop_good {R} (f : answers → string → go cpu R answers) a names :
  (∀ a n, keeps good (f a n)) → keeps good (control_loop f a names).
Proof.
  intros Hf. revert a. induction names as [|n names IH]; intros a; simpl.
  - apply keeps_ret, _.
  - apply keeps_bind; [apply _|apply Hf|intros a'; apply IH].
Qed.

Lemma set_pusher_good b s : good s (set_pusher b s).
Proof.
  intros Hwf. split; [|apply grows_same; simpl; eauto].
  apply (wf_same_cancelers s); simpl; eauto.
Qed.

Lemma internalHandler_good msg s : good s (run (internalHandler LookPath msg) s).1.
Proof.
  apply run_keeps. unfold internalHandler.
  destruct (ParseEnvelope msg) as [env|e]; [|apply keeps_return, _].
  destruct (negb _); [apply keeps_ret, _|].
  destruct (Envelope_ModuleControl env) as [control [e|]];
    [destruct (errors_Is e _); apply keeps_return, _|].
  destruct (_ && _); [apply keeps_return, _|].
  apply keeps_bind; [apply _|apply keeps_get, _|intros s0].
  apply keeps_bind; [apply _|apply control_loop_good; intros; apply control_enable_good|intros a].
  apply keeps_bind; [apply _|apply control_loop_good; intros; apply control_disable_good|intros a'].
  destruct (String.eqb _ _); [apply keeps_ret, _|].
  destruct (NewEnvelope "CPU" _) as [env'|e]; [|apply keeps_return, _].
  apply keeps_bind; [apply _|apply keeps_get, _|intros s1].
  destruct (Push "INTERNAL" env' (pusher s1)) as [b [e|]];
    (apply keeps_bind; [apply _|apply keeps_modify, set_pusher_good|intros _]);
    [apply keeps_return, _|apply keeps_ret, _].
Qed.

(** *** The supervisors *)

(** A supervisor that moves without touching the modules or the channels, to a
    phase that waits on no new channel. *)
Lemma move_good s i p ph pr :
  supervisors s !! i = Some p → (∀ c, ph = Waiting (Some c) → sup_phase p = Waiting (Some c)) →
  good s (set_supervisors (<[i := mk_supervisor (sup_mod p) ph pr]> (supervisors s)) s).
Proof.
  intros Hi Hph Hwf. split; [|apply grows_same; simpl; eauto].
  apply (wf_same_cancelers s); simpl; [eauto|done| |done].
  intros j q c Hj Hq. destruct (decide (i = j)) as [<-|Hne].
  - rewrite list_lookup_insert_eq in Hj by (by eapply lookup_lt_Some). injection Hj as <-.
    simpl in *. exists p. auto.
  - rewrite list_lookup_insert_ne in Hj by done. eauto.
Qed.

(** [mod.canceler = nil] *)
Lemma clear_good n s : good s (set_modules (alter (set_canceler None) n (modules s)) s).
Proof.
  intros [W1 W2 W3 W4 W5 W6].
  assert (Hm : ∀ k m' , alter (set_canceler None) n (modules s) !! k = Some m' →
    ∃ m, modules s !! k = Some m ∧ m_name m' = m_name m ∧
      ∀ c, canceler m' = Some c → canceler m = Some c).
  { intros k m' Hk. destruct (decide (n = k)) as [<-|Hne].
    - rewrite lookup_alter_eq in Hk. destruct (modules s !! n) as [m|]; [|done].
      injection Hk as <-. by exists m.
    - rewrite lookup_alter_ne in Hk by done. eauto. }
  split.
  - split; simpl.
    + intros k m' Hk. destruct (Hm k m' Hk) as (m & ? & -> & _). eauto.
    + intros k m' c Hk Hc. destruct (Hm k m' Hk) as (m & ? & _ & He). eauto.
    + eauto.
    + eauto.
    + intros k m' i p c Hk Hc. destruct (Hm k m' Hk) as (m & ? & _ & He). eauto.
    + intros k k' m' m'' c Hk Hk' Hc Hc'. destruct (Hm k m' Hk) as (m & ? & _ & He).
      destruct (Hm k' m'' Hk') as (m0 & ? & _ & He'). eauto.
  - split; simpl; eauto. intros k m' c Hk Hc. destruct (Hm k m' Hk) as (m & ? & _ & He). eauto.
Qed.

(** The state after [mod.canceler = make(chan struct{})] of goroutine [i]. *)
Definition made_chan (i : nat) (p : supervisor) (pr : process) (s : cpu) : cpu :=
  let c := length (chans s) in
  set_supervisors (<[i := mk_supervisor (sup_mod p) Made pr]> (supervisors s))
    (set_modules (alter (set_canceler (Some c)) (sup_mod p) (modules s))
      (set_chans (chans s ++ [false]) s)).

Lemma made_chan_modules i p pr s k m' :
  modules (made_chan i p pr s) !! k = Some m' →
  ∃ m, modules s !! k = Some m ∧ m_name m' = m_name m ∧
    ((k = sup_mod p ∧ canceler m' = Some (length (chans s))) ∨ (k ≠ sup_mod p ∧ m' = m)).
Proof.
  simpl. intros Hk. destruct (decide (sup_mod p = k)) as [<-|Hne].
  - rewrite lookup_alter_eq in Hk. destruct (modules s !! sup_mod p) as [m|]; [|done].
    injection Hk as <-. exists m. auto.
  - rewrite lookup_alter_ne in Hk by done. exists m'. auto.
Qed.

Lemma made_chan_supervisors i p pr s j q d :
  cpu_wf s → supervisors s !! i = Some p →
  supervisors (made_chan i p pr s) !! j = Some q → sup_phase q = Waiting (Some d) →
  supervisors s !! j = Some q ∧ (d < length (chans s))%nat.
Proof.
  simpl. intros Hwf Hi Hj Hq. destruct (decide (i = j)) as [<-|Hne].
  - rewrite list_lookup_insert_eq in Hj by (by eapply lookup_lt_Some). by injection Hj as <-.
  - rewrite list_lookup_insert_ne in Hj by done. split; [done|].
    by eapply (wf_waiting s Hwf).
Qed.

Lemma made_chan_wf i p pr s : cpu_wf s → supervisors s !! i = Some p → cpu_wf (made_chan i p pr s).
Proof.
  intros Hwf Hi. pose proof (made_chan_modules i p pr s) as Hm.
  pose proof (λ j q d, made_chan_supervisors i p pr s j q d Hwf Hi) as Hs.
  assert (length (chans (made_chan i p pr s)) = S (length (chans s))) as Hl by (simpl; rewrite length_app; simpl; lia).
  destruct Hwf as [W1 W2 W3 W4 W5 W6]. split; rewrite ?Hl.
  - intros k m' Hk. destruct (Hm k m' Hk) as (m & ? & -> & _). eauto.
  - intros k m' d Hk Hd. destruct (Hm k m' Hk) as (m & Hk0 & _ & [[_ Hc]|[_ ->]]).
    + rewrite Hc in Hd. injection Hd as <-. lia.
    + pose proof (W2 k m d Hk0 Hd). lia.
  - intros j q d Hj Hq. destruct (Hs j q d Hj Hq) as [_ Hlt]. lia.
  - intros j k q r d Hj Hk Hq Hr. destruct (Hs j q d Hj Hq) as [Hj0 _].
    destruct (Hs k r d Hk Hr) as [Hk0 _]. eauto.
  - intros k m' j q d Hk Hd Hj Hq. destruct (Hs j q d Hj Hq) as [Hj0 Hlt].
    destruct (Hm k m' Hk) as (m & Hk0 & _ & [[-> Hc]|[Hkp ->]]); [|eauto].
    rewrite Hc in Hd. injection Hd as <-. lia.
  - intros k k' m' m'' d Hk Hk' Hd Hd'.
    destruct (Hm k m' Hk) as (m & Hk0 & _ & [[-> Hc]|[Hkp ->]]),
      (Hm k' m'' Hk') as (m0 & Hk0' & _ & [[-> Hc']|[Hkp' ->]]); [done| | |eauto].
    + pose proof (W2 k' m0 d Hk0' Hd'). rewrite Hc in Hd. injection Hd as <-. lia.
    + pose proof (W2 k m d Hk0 Hd). rewrite Hc' in Hd'. injection Hd' as <-. lia.
Qed.

(** [mod.canceler = make(chan struct{})] *)
Lemma make_chan_good s i p pr : supervisors s !! i = Some p → good s (made_chan i p pr s).
Proof.
  intros Hi Hwf. split; [by apply made_chan_wf|]. split; simpl.
  - intros d Hd. by apply lookup_app_l_Some.
  - rewrite length_app. lia.
  - intros d Hd. left. by apply lookup_app_l_Some.
  - intros k m' d Hk Hd.
    destruct (made_chan_modules i p pr s k m' Hk) as (m & Hk0 & _ & [[-> Hc]|[_ ->]]); [right|eauto].
    rewrite Hc in Hd. by injection Hd as <-.
Qed.

(** The beginning of the [select]: the goroutine waits on what its module has. *)
Lemma select_good s i p pr :
  supervisors s !! i = Some p →
  good s (set_supervisors (<[i := mk_supervisor (sup_mod p)
    (Waiting (modules s !! sup_mod p ≫= canceler)) pr]> (supervisors s)) s).
Proof.
  intros Hi Hwf. split; [|apply grows_same; simpl; eauto].
  destruct Hwf as [W1 W2 W3 W4 W5 W6].
  assert (Hs : ∀ j q c, <[i := mk_supervisor (sup_mod p) (Waiting (modules s !! sup_mod p ≫= canceler)) pr]>
      (supervisors s) !! j = Some q → sup_phase q = Waiting (Some c) →
    (sup_mod q = sup_mod p ∧ ∃ m, modules s !! sup_mod p = Some m ∧ canceler m = Some c) ∨
    supervisors s !! j = Some q).
  { intros j q c Hj Hq. destruct (decide (i = j)) as [<-|Hne].
    - rewrite list_lookup_insert_eq in Hj by (by eapply lookup_lt_Some). injection Hj as <-.
      simpl in *. injection Hq as Hq. destruct (modules s !! sup_mod p) as [m|]; [|done]. left. eauto.
    - rewrite list_lookup_insert_ne in Hj by done. by right. }
  split; simpl; try done.
  - intros j q c Hj Hq. destruct (Hs j q c Hj Hq) as [(_ & m & Hm & Hc)|Hj0]; eauto.
  - intros j k q r c Hj Hk Hq Hr.
    destruct (Hs j q c Hj Hq) as [(-> & m & Hm & Hc)|Hj0], (Hs k r c Hk Hr) as [(-> & m' & Hm' & Hc')|Hk0];
      eauto using eq_sym.
  - intros n m j q c Hm Hc Hj Hq. destruct (Hs j q c Hj Hq) as [(-> & m' & Hm' & Hc')|Hj0]; eauto.
Qed.

Lemma sup_step_good i ev s s' : sup_step i ev s = Some s' → good s s'.
Proof.
  unfold sup_step, sup_move. unfold mbind, option_bind.
  destruct (supervisors s !! i) as [p|] eqn:Hi; [|done].
  destruct (sup_phase p) as [| | |c| | | |] eqn:Hp; destruct ev as [[]| | |code| | | | |];
    destruct (sup_proc p) as [| |code'] eqn:Hpr; try done.
  all: try (intros [= <-]; first
    [ apply (move_good s i p); [done|by rewrite ?Hp]
    | by apply make_chan_good
    | by apply select_good
    | (transitivity (set_modules (alter (set_canceler None) (sup_mod p) (modules s)) s);
        [apply clear_good|]);
      apply (move_good (set_modules (alter (set_canceler None) (sup_mod p) (modules s)) s) i p);
      [done|by rewrite ?Hp] ]).
  all: match goal with |- context [if ?b then _ else _] => destruct b end; try done;
    intros [= <-]; (apply (move_good s i p); [done|by rewrite ?Hp]).
Qed.

Lemma foldl_none {A B} (f : A → B → option A) (evs : list B) :
  foldl (λ o e, o ≫= λ x, f x e) None evs = None.
Proof. by induction evs. Qed.

Lemma sup_steps_good i evs s s' :
  foldl (λ o e, o ≫= sup_step i e) (Some s) evs = Some s' → good s s'.
Proof.
  revert s. induction evs as [|ev evs IH]; intros s; simpl; [by intros [= <-]|].
  destruct (sup_step i ev s) as [s1|] eqn:Hs; [|by rewrite foldl_none].
  intros Hs'. transitivity s1; [by eapply sup_step_good|by apply IH].
Qed.

Lemma cpu_step_good s s' : cpu_step LookPath s s' → good s s'.
Proof.
  intros [i ev s0 s1 Hs|name s0 s1 r Hr|name s0 s1 r Hr|msg s0 s1 r Hr|s0].
  - by eapply sup_step_good.
  - pose proof (proj1 (handlers_good name s0)) as Hg. by rewrite Hr in Hg.
  - pose proof (proj2 (handlers_good name s0)) as Hg. by rewrite Hr in Hg.
  - pose proof (internalHandler_good msg s0) as Hg. by rewrite Hr in Hg.
  - intros Hwf. split; [by destruct Hwf; split|]. apply grows_same; eauto.
Qed.

Lemma cpu_steps_good s s' : rtc (cpu_step LookPath) s s' → good s s'.
Proof.
  induction 1 as [s|s1 s2 s3 Hs _ IH]; [reflexivity|].
  transitivity s2; [by apply cpu_step_good|done].
Qed.

(** What holds when requests are served at the same time, too. *)
Definition tame (s s' : cpu) : Prop :=
  cpu_wf s → cpu_wf s' ∧ ∀ c, chans s !! c = Some true → chans s' !! c = Some true.

#[local] Instance tame_preorder : PreOrder tame.
Proof.
  split; [intros s Hs; done|]. intros s1 s2 s3 H12 H23 H1.
  destruct (H12 H1) as [W2 G2]. destruct (H23 W2) as [W3 G3]. split; eauto.
Qed.

Lemma good_tame s s' : good s s' → tame s s'.
Proof. intros Hg Hwf. destruct (Hg Hwf) as [Hwf' Hgr]. split; [done|apply Hgr]. Qed.

Lemma close_tame c s : tame s (close (R:=()) c s).1.
Proof.
  intros Hwf. unfold close. go_unfold. destruct (chans s !! c) as [[]|] eqn:Hch; try done.
  cbn [fst]. split.
  - apply (wf_same_cancelers s); [intros k m0 Hk; by exists m0|by simpl; rewrite length_insert| |done].
    intros i p c0 Hi Hp. by exists p.
  - intros c0 Hc0. simpl. rewrite list_lookup_insert_ne; [done|]. intros ->. congruence.
Qed.

Lemma cpu_race_tame s s' : cpu_race LookPath s s' → tame s s'.
Proof.
  intros [s0 s1 Hs|n m s0 s1 err Hm Hs|c s0 s1 Hs].
  - by apply good_tame, cpu_step_good.
  - pose proof (StartModule_good (R:=()) n m s0 Hm) as Hg. rewrite Hs in Hg. by apply good_tame.
  - pose proof (close_tame c s0) as Hc. by rewrite Hs in Hc.
Qed.

Lemma cpu_races_tame s s' : rtc (cpu_race LookPath) s s' → tame s s'.
Proof.
  induction 1 as [s|s1 s2 s3 Hs _ IH]; [reflexivity|].
  transitivity s2; [by apply cpu_race_tame|done].
Qed.

Lemma list_modules_listed s n v : cpu_wf s → list_modules s !! n = Some v → is_Some (modules s !! n).
Proof.
  intros Hwf. unfold list_modules.
  assert (∀ k m, modules s !! k = Some m → m_name m = k) as Hn by apply (wf_names s Hwf).
  revert Hn. generalize (modules s). intros ms.
  apply (map_fold_weak_ind (λ (r : gmap string string) (ms : gmap string module),
    (∀ k m, ms !! k = Some m → m_name m = k) → r !! n = Some v → is_Some (ms !! n))); [done|].
  intros k m ms' r Hnone IH Hn Hr. rewrite (Hn k m) in Hr by apply lookup_insert_eq.
  destruct (decide (k = n)) as [->|Hne]; [rewrite lookup_insert_eq; by eexists|].
  rewrite lookup_insert_ne in Hr by done. rewrite lookup_insert_ne by done. apply IH; [|done].
  intros k1 m1 Hk1. apply Hn. rewrite lookup_insert_ne; [done|]. intros ->. congruence.
Qed.

Lemma list_modules_lookup s n m :
  cpu_wf s → modules s !! n = Some m → list_modules s !! n = Some (state_of m).
Proof.
  intros Hwf. unfold list_modules.
  assert (Hgen : ∀ ms : gmap string module, (∀ k x, ms !! k = Some x → m_name x = k) →
    ∀ k x, ms !! k = Some x →
    map_fold (λ _ m, <[m_name m := state_of m]>) (∅ : gmap string string) ms !! k
      = Some (state_of x)).
  { intros ms. apply (map_fold_weak_ind (λ (r : gmap string string) (ms : gmap string module),
      (∀ k x, ms !! k = Some x → m_name x = k) →
      ∀ k x, ms !! k = Some x → r !! k = Some (state_of x))); [done|].
    intros k0 x0 ms' r Hnone IH Hn k x Hx.
    rewrite (Hn k0 x0) by apply lookup_insert_eq.
    apply lookup_insert_Some in Hx as [[<- <-]|[Hne Hx]]; [by rewrite lookup_insert_eq|].
    rewrite lookup_insert_ne by done. apply IH; [|done].
    intros k1 x1 Hx1. apply Hn. rewrite lookup_insert_ne; [done|]. intros ->. congruence. }
  intros Hn. apply Hgen; [|done]. intros k x. apply (wf_names s Hwf).
Qed.

Lemma put_lookup {A} (l : list A) i x y : l !! i = Some x → <[i:=y]> l !! i = Some y.
Proof. intros Hi. apply list_lookup_insert_eq. by eapply lookup_lt_Some. Qed.

Lemma sup_step_at i p ev s :
  supervisors s !! i = Some p → sup_step i ev s = sup_move i p ev s.
Proof. intros Hp. unfold sup_step. by rewrite Hp. Qed.

Lemma sup_steps_cons i p ev evs s :
  supervisors s !! i = Some p →
  foldl (λ o e, o ≫= sup_step i e) (Some s) (ev :: evs)
  = foldl (λ o e, o ≫= sup_step i e) (sup_move i p ev s) evs.
Proof. intros Hp. cbn [foldl]. f_equal. by apply sup_step_at. Qed.

(** Enabling a disabled module that was started before. *)
Lemma enable_ok n m s :
  modules s !! n = Some m → m_name m = n → canceler m = None → initialized m = true →
  LookPath (path m) = true →
  run (handleEnableModule LookPath n) s =
    (set_supervisors (supervisors s ++ [mk_supervisor n Launching NoProcess])
      (set_modules (<[n := m]> (modules s)) s), Returns (no_body 204)).
Proof.
  intros Hm Hn Hc Hi Hp. unfold run, handleEnableModule, StartModule, init. go_unfold.
  by rewrite Hm, Hc, Hi, Hp, Hn.
Qed.

Lemma disable_ok n m c s :
  modules s !! n = Some m → canceler m = Some c → chans s !! c = Some false →
  run (handleDisableModule n) s = (set_chans (<[c := true]> (chans s)) s, Returns (no_body 204)).
Proof.
  intros Hm Hc Ho. unfold run, handleDisableModule, close. go_unfold. by rewrite Hm, Hc, Ho.
Qed.

Lemma disable_closed n m c s :
  modules s !! n = Some m → canceler m = Some c → chans s !! c ≠ Some false →
  run (handleDisableModule n) s = (s, Panics PanicCloseClosed).
Proof.
  intros Hm Hc Ho. unfold run, handleDisableModule, close. go_unfold. rewrite Hm, Hc.
  by destruct (chans s !! c) as [[]|].
Qed.
End cpu_laws.

#[export] Existing Instance good_preorder.

(** ** Properties *)

Section properties.
Context (LookPath : string → bool).

(** C17: the invariant of the supervisor.  Whatever the processes do and however
    the goroutines, the API calls and the control messages interleave, also if
    requests act on what a module was when they looked, modules stay keyed by their
    names, a channel belongs to one module, which all goroutines that wait on it and
    the module that has it are of, and a channel that was closed stays closed. *)
Theorem cpu_invariant s s' :
  cpu_wf s → rtc (cpu_race LookPath) s s' → cpu_wf s' ∧
  ∀ c, chans s !! c = Some true → chans s' !! c = Some true.
Proof. intros Hwf Hs. exact (cpu_races_tame LookPath s s' Hs Hwf). Qed.

(** The module API on every branch.  Enabling and disabling an unknown
    module, enabling one whose channel is not nil and disabling one whose channel
    is nil are refused and change nothing; disabling closes an open channel and
    panics on a closed one; enabling a module that was started before and whose
    executable is there starts one goroutine for it. *)
Theorem module_api n s :
  match modules s !! n with
  | None => run (handleEnableModule LookPath n) s = (s, Returns (http_Error "module not found" 400)) ∧
            run (handleDisableModule n) s = (s, Returns (http_Error "module not found" 400))
  | Some m =>
    match canceler m with
    | Some c =>
      run (handleEnableModule LookPath n) s
        = (s, Returns (http_Error "module already enabled" 400)) ∧
      run (handleDisableModule n) s =
        if bool_decide (chans s !! c = Some false)
        then (set_chans (<[c := true]> (chans s)) s, Returns (no_body 204))
        else (s, Panics PanicCloseClosed)
    | None =>
      run (handleDisableModule n) s = (s, Returns (http_Error "module already disabled" 400)) ∧
      (m_name m = n → initialized m = true → LookPath (path m) = true →
       run (handleEnableModule LookPath n) s =
         (set_supervisors (supervisors s ++ [mk_supervisor n Launching NoProcess])
           (set_modules (<[n := m]> (modules s)) s), Returns (no_body 204)))
    end
  end.
Proof.
  destruct (modules s !! n) as [m|] eqn:Hm.
  2: { unfold run, handleEnableModule, handleDisableModule. go_unfold. by rewrite Hm. }
  destruct (canceler m) as [c|] eqn:Hc.
  - split; [unfold run, handleEnableModule; go_unfold; by rewrite Hm, Hc|].
    case_bool_decide; [by eapply disable_ok|by eapply disable_closed].
  - split; [unfold run, handleDisableModule; go_unfold; by rewrite Hm, Hc|].
    intros Hn Hi Hp. by apply enable_ok.
Qed.

(** C18: disabling works.  When the goroutine of a running module waits on the
    module's open channel, a disable request makes the goroutine terminate the
    process; the module is then listed as disabled and, once the process is
    gone, whether by itself or killed, the goroutine has returned and the
    module can be enabled again. *)
Theorem disable_stops_module s n m c i ev :
  cpu_wf s → modules s !! n = Some m → canceler m = Some c → chans s !! c = Some false →
  initialized m = true → LookPath (path m) = true →
  supervisors s !! i = Some (mk_supervisor n (Waiting (Some c)) Running) →
  ev = [EvTimeout] ∨ (∃ code, ev = [EvExit code; EvWaitDone]) →
  ∃ s1 s2 s3 s4, run (handleDisableModule n) s = (s1, Returns (no_body 204)) ∧
    foldl (λ o e, o ≫= sup_step i e) (Some s1) [EvCanceled; EvClear] = Some s2 ∧
    list_modules s2 !! n = Some "disabled" ∧
    foldl (λ o e, o ≫= sup_step i e) (Some s2) ev = Some s3 ∧
    supervisors s3 !! i = Some (mk_supervisor n Exited NoProcess) ∧
    run (handleEnableModule LookPath n) s3 = (s4, Returns (no_body 204)) ∧
    last (supervisors s4) = Some (mk_supervisor n Launching NoProcess).
Proof.
  intros Hwf Hm Hc Ho Hi Hp Hs Hev.
  set (s1 := set_chans (<[c := true]> (chans s)) s).
  assert (H1 : run (handleDisableModule n) s = (s1, Returns (no_body 204)))
    by (by apply (disable_ok n m c)).
  set (s2 := set_supervisors (<[i := mk_supervisor n Disabling Running]> (supervisors s))
    (set_modules (alter (set_canceler None) n (modules s)) s1)).
  assert (H2 : foldl (λ o e, o ≫= sup_step i e) (Some s1) [EvCanceled; EvClear] = Some s2).
  { rewrite (sup_steps_cons i _ _ _ s1 Hs).
    cbn [sup_move sup_phase sup_proc sup_mod closed].
    rewrite bool_decide_true by (by eapply put_lookup).
    erewrite sup_steps_cons by (by eapply put_lookup). cbn [sup_move sup_phase sup_proc sup_mod foldl].
    unfold s2, set_supervisors, set_modules. simpl. by rewrite list_insert_insert_eq. }
  assert (Hwf2 : cpu_wf s2).
  { assert (Hg : good s s2); [|by apply Hg].
    transitivity s1; [|by eapply sup_steps_good].
    pose proof (proj2 (handlers_good LookPath n s)) as Hg. by rewrite H1 in Hg. }
  assert (Hm2 : modules s2 !! n = Some (set_canceler None m)).
  { simpl. by rewrite lookup_alter_eq, Hm. }
  assert (Hs2 : supervisors s2 !! i = Some (mk_supervisor n Disabling Running))
    by (by eapply put_lookup).
  set (s3 := set_supervisors (<[i := mk_supervisor n Exited NoProcess]> (supervisors s2)) s2).
  assert (H3 : foldl (λ o e, o ≫= sup_step i e) (Some s2) ev = Some s3).
  { destruct Hev as [->|[code ->]]; rewrite (sup_steps_cons i _ _ _ s2 Hs2); [done|].
    cbn [sup_move sup_phase sup_proc sup_mod].
    erewrite sup_steps_cons by (by eapply put_lookup). simpl. unfold s3, s2, set_supervisors. simpl.
    rewrite !list_insert_insert_eq. cbn [sup_move sup_phase sup_proc sup_mod].
    unfold set_supervisors. simpl. by rewrite list_insert_insert_eq. }
  eexists s1, s2, s3, _. split_and!; [done|done| |done| | |].
  - rewrite (list_modules_lookup s2 n _ Hwf2 Hm2). done.
  - by eapply put_lookup.
  - apply (enable_ok LookPath n (set_canceler None m)); [exact Hm2| |done|done|done].
    exact (wf_names s Hwf n m Hm).
  - simpl. apply last_snoc.
Qed.

(** Supervision.  A module whose process dies with any exit code but the
    one that asks for no restart is started again by the same goroutine, and is
    enabled again, on a new open channel. *)
Theorem crashed_module_restarts s n m c i code :
  modules s !! n = Some m → supervisors s !! i = Some (mk_supervisor n (Waiting c) Running) →
  code ≠ ExitNoRestart →
  ∃ s', foldl (λ o e, o ≫= sup_step i e) (Some s)
          [EvExit code; EvWaitDone; EvStart true; EvMakeChan; EvSelect] = Some s' ∧
    supervisors s' !! i = Some (mk_supervisor n (Waiting (Some (length (chans s)))) Running) ∧
    modules s' !! n = Some (set_canceler (Some (length (chans s))) m) ∧
    chans s' !! length (chans s) = Some false.
Proof.
  intros Hm Hs Hcode. apply Z.eqb_neq in Hcode.
  rewrite (sup_steps_cons i _ _ _ s Hs). cbn [sup_move sup_phase sup_proc sup_mod].
  erewrite sup_steps_cons by (by eapply put_lookup).
  cbn [sup_move sup_phase sup_proc sup_mod]. rewrite Hcode.
  do 3 (erewrite sup_steps_cons by (by repeat eapply put_lookup);
        cbn [sup_move sup_phase sup_proc sup_mod]).
  eexists. split; [done|]. simpl. rewrite lookup_alter_eq, Hm. split_and!.
  - by repeat eapply put_lookup.
  - done.
  - by rewrite list_lookup_middle.
Qed.

(** A module that asks for no restart cannot be used any more.  Its exit
    leaves its channel in place: it stays listed as enabled with no process and
    no goroutine, it cannot be enabled, one disable request is accepted without
    effect, and the next one closes the closed channel and panics, which over HTTP
    ends the request and in a control message the whole program. *)
Theorem no_restart_exit_sticks s n m c i :
  cpu_wf s → modules s !! n = Some m → canceler m = Some c → chans s !! c = Some false →
  supervisors s !! i = Some (mk_supervisor n (Waiting (Some c)) Running) →
  ∃ s1 s2, foldl (λ o e, o ≫= sup_step i e) (Some s) [EvExit ExitNoRestart; EvWaitDone] = Some s1 ∧
    supervisors s1 !! i = Some (mk_supervisor n Exited NoProcess) ∧
    list_modules s1 !! n = Some "enabled" ∧
    run (handleEnableModule LookPath n) s1
      = (s1, Returns (http_Error "module already enabled" 400)) ∧
    run (handleDisableModule n) s1 = (s2, Returns (no_body 204)) ∧
    list_modules s2 !! n = Some "enabled" ∧ supervisors s2 = supervisors s1 ∧
    run (handleDisableModule n) s2 = (s2, Panics PanicCloseClosed).
Proof.
  intros Hwf Hm Hc Ho Hs.
  set (s1 := set_supervisors (<[i := mk_supervisor n Exited NoProcess]> (supervisors s)) s).
  assert (H1 : foldl (λ o e, o ≫= sup_step i e) (Some s) [EvExit ExitNoRestart; EvWaitDone] = Some s1).
  { rewrite (sup_steps_cons i _ _ _ s Hs). cbn [sup_move sup_phase sup_proc sup_mod].
    erewrite sup_steps_cons by (by eapply put_lookup). cbn [sup_move sup_phase sup_proc sup_mod].
    rewrite Z.eqb_refl. cbn [foldl]. unfold s1, set_supervisors. simpl.
    by rewrite list_insert_insert_eq. }
  set (s2 := set_chans (<[c := true]> (chans s1)) s1).
  assert (H2 : run (handleDisableModule n) s1 = (s2, Returns (no_body 204)))
    by (by apply (disable_ok n m c)).
  assert (Hwf1 : cpu_wf s1).
  { assert (good s s1) as Hg; [|by apply Hg].
    apply (move_good s i (mk_supervisor n (Waiting (Some c)) Running)); [done|done]. }
  assert (Hwf2 : cpu_wf s2).
  { pose proof (proj2 (handlers_good LookPath n s1)) as Hg. rewrite H2 in Hg. by apply Hg. }
  assert (Hst : state_of m = "enabled") by (unfold state_of; by rewrite Hc).
  exists s1, s2. split_and!; [done|by eapply put_lookup| | |done| |done|].
  - by rewrite (list_modules_lookup s1 n m Hwf1 Hm), Hst.
  - unfold run, handleEnableModule. go_unfold. simpl. by rewrite Hm, Hc.
  - by rewrite (list_modules_lookup s2 n m Hwf2 Hm), Hst.
  - apply (disable_closed n m c); [done|done|]. simpl.
    rewrite (put_lookup _ _ _ true Ho). done.
Qed.

(** The steps of a goroutine up to its [select]. *)
Lemma enable_step s n m :
  modules s !! n = Some m → m_name m = n → canceler m = None → initialized m = true →
  LookPath (path m) = true →
  cpu_step LookPath s (set_supervisors (supervisors s ++ [mk_supervisor n Launching NoProcess]) s).
Proof.
  intros Hm Hn Hc Hi Hp. eapply cpu_enable. rewrite (enable_ok LookPath n m s Hm Hn Hc Hi Hp).
  unfold set_modules. rewrite insert_id by done. by destruct s.
Qed.

Definition moved (i : nat) (n : string) (ph : phase) (s : cpu) : cpu :=
  set_supervisors (<[i := mk_supervisor n ph Running]> (supervisors s)) s.

Lemma start_step s i n :
  supervisors s !! i = Some (mk_supervisor n Launching NoProcess) →
  cpu_step LookPath s (moved i n Started s).
Proof. intros Hl. apply (cpu_sup _ i (EvStart true)). by rewrite (sup_step_at _ _ _ _ Hl). Qed.

(** The module gets a new channel and the goroutine waits on it. *)
Definition listening (i : nat) (n : string) (s : cpu) : cpu :=
  moved i n (Waiting (Some (length (chans s)))) (made_chan i (mk_supervisor n Started Running) Running s).

Lemma listening_steps s i n m :
  supervisors s !! i = Some (mk_supervisor n Started Running) → modules s !! n = Some m →
  rtc (cpu_step LookPath) s (listening i n s).
Proof.
  intros Hl Hm. set (s1 := made_chan i (mk_supervisor n Started Running) Running s).
  assert (supervisors s1 !! i = Some (mk_supervisor n Made Running)) as H1 by (by eapply put_lookup).
  eapply rtc_l.
  { apply (cpu_sup _ i EvMakeChan). by rewrite (sup_step_at _ _ _ _ Hl). }
  apply rtc_once, (cpu_sup _ i EvSelect). fold s1. rewrite (sup_step_at _ _ _ _ H1).
  cbn [sup_move sup_phase sup_proc sup_mod].
  assert (modules s1 !! n = Some (set_canceler (Some (length (chans s))) m)) as ->
    by (simpl; by rewrite lookup_alter_eq, Hm).
  done.
Qed.

(** Two goroutines of the same module, step by step: both are launched, then the
    first makes its channel and waits on it, then the second. *)
Lemma double_enable_steps s n m :
  modules s !! n = Some m → m_name m = n → canceler m = None → initialized m = true →
  LookPath (path m) = true →
  let i := length (supervisors s) in
  ∃ s4, rtc (cpu_step LookPath) s (listening (S i) n (listening i n s4)) ∧
    modules s4 = modules s ∧ chans s4 = chans s ∧ length (supervisors s4) = S (S i).
Proof.
  intros Hm Hn Hc Hi Hp i. set (l := mk_supervisor n Launching NoProcess).
  set (s1 := set_supervisors (supervisors s ++ [l]) s).
  set (s2 := set_supervisors (supervisors s1 ++ [l]) s1).
  assert (supervisors s2 !! i = Some l) as L1.
  { simpl. rewrite <- app_assoc. simpl. by rewrite list_lookup_middle. }
  assert (length (supervisors s2) = S (S i)) as Hlen.
  { unfold s2, s1. cbn [supervisors set_supervisors]. rewrite !length_app. cbn [length]. unfold i. lia. }
  assert (supervisors s2 !! S i = Some l) as L2.
  { simpl. rewrite lookup_app_r; rewrite length_app; simpl; [|lia].
    by replace (S i - _)%nat with 0%nat by lia. }
  set (s3 := moved i n Started s2). set (s4 := moved (S i) n Started s3). exists s4.
  split; [|split_and!; [done|done|by simpl; rewrite !length_insert]].
  eapply rtc_l; [by eapply enable_step|]. eapply rtc_l; [by apply (enable_step s1 n m)|].
  eapply rtc_l; [by apply (start_step s2 i n)|]. fold s3.
  eapply rtc_l; [apply (start_step s3 (S i) n); simpl; by rewrite list_lookup_insert_ne by lia|].
  fold s4. transitivity (listening i n s4).
  - apply (listening_steps s4 i n m); [|done]. simpl. rewrite list_lookup_insert_ne by lia.
    by eapply put_lookup.
  - apply (listening_steps _ (S i) n (set_canceler (Some (length (chans s4))) m)); simpl.
    + rewrite !(list_lookup_insert_ne _ i (S i)) by lia. apply list_lookup_insert_eq.
      rewrite length_insert. change (S i < length (supervisors s2))%nat. lia.
    + by rewrite lookup_alter_eq, Hm.
Qed.

(** No request stops a goroutine that waits on a channel that cannot be reached. *)
Lemma unreachable_stuck c s s' :
  unreachable c s → cpu_wf s → rtc (cpu_step LookPath) s s' →
  chans s' !! c = Some false ∧
  ∀ j p, supervisors s' !! j = Some p → sup_phase p = Waiting (Some c) → sup_step j EvCanceled s' = None.
Proof.
  intros Hu Hwf Hs. destruct (cpu_steps_good LookPath s s' Hs Hwf) as [_ Hg].
  destruct (unreachable_grows c _ _ Hg Hu) as [Hopen _]. split; [done|].
  intros j p Hj Hp. rewrite (sup_step_at _ _ _ _ Hj). unfold sup_move, closed. rewrite Hp, Hopen.
  destruct (sup_proc p); by rewrite bool_decide_false.
Qed.

(** C20: two enable requests in a row can lose a process.  The module counts as
    disabled until its goroutine has made the channel, so a second request that
    comes first starts a second process.  If the first goroutine then begins to wait
    before the second makes its channel, which the module keeps, then from there on
    the channel of the first stays open whatever requests are served: it still ends
    with its process or with the context, but no request stops it. *)
Theorem double_enable_orphans s n m :
  cpu_wf s → modules s !! n = Some m → canceler m = None → initialized m = true →
  LookPath (path m) = true →
  let i := length (supervisors s) in let c := length (chans s) in
  ∃ s', rtc (cpu_step LookPath) s s' ∧
    supervisors s' !! i = Some (mk_supervisor n (Waiting (Some c)) Running) ∧
    supervisors s' !! S i = Some (mk_supervisor n (Waiting (Some (S c))) Running) ∧
    (∃ m', modules s' !! n = Some m' ∧ canceler m' = Some (S c)) ∧
    ∀ s'', rtc (cpu_step LookPath) s' s'' →
      chans s'' !! c = Some false ∧
      ∀ j p, supervisors s'' !! j = Some p → sup_phase p = Waiting (Some c) →
        sup_step j EvCanceled s'' = None.
Proof.
  intros Hwf Hm Hc Hi Hp i c. pose proof (wf_names s Hwf n m Hm) as Hn.
  destruct (double_enable_steps s n m Hm Hn Hc Hi Hp) as (s4 & Hrtc & Hms & Hch & Hlen).
  fold i in Hrtc, Hlen. set (s5 := listening i n s4) in *. set (s6 := listening (S i) n s5) in *.
  assert (length (chans s5) = S c) as Hl5
    by (simpl; rewrite Hch, length_app; simpl; unfold c; lia).
  assert (M6 : modules s6 !! n = Some (set_canceler (Some (S c)) m)).
  { change (modules s6) with (alter (set_canceler (Some (length (chans s5)))) n (modules s5)).
    rewrite Hl5. simpl. by rewrite !lookup_alter_eq, Hms, Hm. }
  assert (U6 : unreachable c s6).
  { split.
    - simpl. rewrite Hch, <- app_assoc. simpl. by rewrite list_lookup_middle.
    - intros k mk Hk Hck. destruct (decide (k = n)) as [->|Hne].
      + rewrite M6 in Hk. injection Hk as <-. simpl in Hck. injection Hck. lia.
      + simpl in Hk. rewrite !lookup_alter_ne, Hms in Hk by done.
        pose proof (wf_canceler s Hwf k mk c Hk Hck). unfold c in *. lia. }
  exists s6. split_and!; [done| | |by eexists|].
  - simpl. rewrite !(list_lookup_insert_ne _ (S i) i) by lia. rewrite Hch.
    apply list_lookup_insert_eq. rewrite length_insert. lia.
  - unfold s6, listening. rewrite Hl5.
    apply list_lookup_insert_eq. simpl. rewrite !length_insert. lia.
  - intros s'' Hs''. apply (unreachable_stuck c s6); [done| |done].
    by apply (cpu_steps_good LookPath s s6 Hrtc).
Qed.

(** A control message for the CPU that asks for a confirmation gets one on the
    internal topic, with its id and the results and errors of the two loops. *)
Lemma control_confirmed s sender list en dis id env s1 a1 s2 a2 :
  id ≠ "" → is_utf8 id = true → NewEnvelope sender (mk_ModuleControl list en dis "CPU" id) = inl env →
  control_loop (R:=option error) (control_enable LookPath) (if list then JStr <$> list_modules s else ∅, ∅)
    (map to_utf8 en) s = (s1, Next a1) →
  control_loop (R:=option error) control_disable a1 (map to_utf8 dis) s1 = (s2, Next a2) →
  send_ok (pusher s2) (sends (pusher s2)) = true →
  ∃ reply, run (internalHandler LookPath (Some (MarshalEnvelope env))) s
      = (set_pusher (mk_bus (sent (pusher s2) ++ [("INTERNAL", BJson (MarshalEnvelope reply))])
           (S (sends (pusher s2))) (send_ok (pusher s2))) s2, Returns None) ∧
    NewEnvelope "CPU" (mk_Confirmation id (Some a2.1) (Some a2.2)) = inl reply.
Proof.
  intros Hid Hu Hnew H1 H2 Hok. apply String.eqb_neq in Hid. apply is_utf8_eq in Hu.
  set (conf := mk_Confirmation id (Some a2.1) (Some a2.2)).
  destruct (NewEnvelope "CPU" conf) as [reply|e] eqn:Hr; [|done].
  pose proof (wire_contents sender (mk_ModuleControl list en dis "CPU" id) env I Hnew) as Hmc.
  unfold arrived, ModuleControl_laws in Hmc. cbn [MC_Recipient MC_List MC_Confirm Enable Disable] in Hmc.
  rewrite Hu in Hmc. change (to_utf8 "CPU") with "CPU" in Hmc.
  exists reply. split; [|done].
  unfold run, internalHandler. rewrite parse_marshal_envelope.
  rewrite (wire_Kind sender _ env Hnew). cbn [negb String.eqb Ascii.eqb Bool.eqb kind_of
    ModuleControl_IEnvelope ENVELOPE_MODULE_CONTROL].
  unfold Envelope_ModuleControl. rewrite Hmc. cbn [MC_Recipient MC_List MC_Confirm Enable Disable negb
    String.eqb Ascii.eqb Bool.eqb andb].
  erewrite bind_next by reflexivity. erewrite bind_next by exact H1. erewrite bind_next by exact H2.
  rewrite Hid. fold conf. rewrite Hr. go_unfold. by rewrite Push_spec, Hok.
Qed.
End properties.

(** *** Witnesses *)

Definition io_module : module := mk_module (Some (Some "/etc/ot-sim.xml")) "io" "ot-sim-io-module"
  ["/etc/ot-sim.xml"] "" [""] None true.

(** One module, disabled, or running under the first goroutine. *)
Definition idle_cpu : cpu := mk_cpu {[ "io" := io_module ]} [] [] false (mk_bus [] 0 (λ _, true)).
Definition busy_cpu : cpu := mk_cpu {[ "io" := set_canceler (Some 0%nat) io_module ]} [false]
  [mk_supervisor "io" (Waiting (Some 0%nat)) Running] false (mk_bus [] 0 (λ _, true)).

Lemma one_module_wf mo cs l :
  m_name mo = "io" → (∀ c, canceler mo = Some c → (c < length cs)%nat) →
  l = [] ∨ (∃ c p, l = [mk_supervisor "io" (Waiting (Some c)) p] ∧ (c < length cs)%nat) →
  cpu_wf (mk_cpu {[ "io" := mo ]} cs l false (mk_bus [] 0 (λ _, true))).
Proof.
  intros Hn Hc Hl.
  assert (Hs : ∀ i q, l !! i = Some q → i = 0%nat ∧ ∃ c p, q = mk_supervisor "io" (Waiting (Some c)) p ∧
    (c < length cs)%nat).
  { intros i q Hi. destruct Hl as [->|(c & p & -> & Hlt)]; [done|].
    apply list_lookup_singleton_Some in Hi as [-> <-]. eauto. }
  split; simpl.
  - intros n m [<- <-]%lookup_singleton_Some. done.
  - intros n m c [<- <-]%lookup_singleton_Some. auto.
  - intros i p c Hi Hp. destruct (Hs i p Hi) as (_ & c' & p' & -> & Hlt). simpl in Hp. by injection Hp as <-.
  - intros i j p q c Hi Hj _ _. destruct (Hs i p Hi) as (_ & ? & ? & -> & _).
    by destruct (Hs j q Hj) as (_ & ? & ? & -> & _).
  - intros n m i p c [<- <-]%lookup_singleton_Some _ Hi _.
    by destruct (Hs i p Hi) as (_ & c' & p' & -> & _).
  - intros n n' m m' c [<- _]%lookup_singleton_Some [<- _]%lookup_singleton_Some. done.
Qed.

Lemma idle_cpu_wf : cpu_wf idle_cpu.
Proof. apply one_module_wf; [done|done|by left]. Qed.

Lemma busy_cpu_wf : cpu_wf busy_cpu.
Proof.
  apply one_module_wf; [done|intros c [= <-]; simpl; lia|right].
  exists 0%nat, Running. split; [done|simpl; lia].
Qed.

Definition all_paths (p : string) : bool := true.

Lemma cpu_invariant_witness :
  let s' := (run (handleDisableModule "io") busy_cpu).1 in
  rtc (cpu_race all_paths) busy_cpu s' ∧ cpu_wf s'.
Proof.
  intros s'. assert (rtc (cpu_race all_paths) busy_cpu s') as Hs.
  { apply rtc_once, race_step, (cpu_disable all_paths "io" busy_cpu s' (no_body 204)). reflexivity. }
  split; [exact Hs|]. exact (proj1 (cpu_invariant all_paths busy_cpu s' busy_cpu_wf Hs)).
Defined.

Lemma module_api_witness :
  ∃ s', run (handleEnableModule all_paths "io") idle_cpu = (s', Returns (no_body 204)).
Proof.
  eexists. exact (proj2 (module_api all_paths "io" idle_cpu) eq_refl eq_refl eq_refl).
Defined.

Lemma disable_stops_module_witness :
  ∃ s1 s2, run (handleDisableModule "io") busy_cpu = (s1, Returns (no_body 204)) ∧
    foldl (λ o e, o ≫= sup_step 0 e) (Some s1) [EvCanceled; EvClear] = Some s2 ∧ list_modules s2 !! "io" = Some "disabled".
Proof.
  destruct (disable_stops_module all_paths busy_cpu "io" _ 0 0 [EvTimeout] busy_cpu_wf
    eq_refl eq_refl eq_refl eq_refl eq_refl eq_refl (or_introl eq_refl))
    as (s1 & s2 & s3 & s4 & H1 & H2 & H3 & _).
  exists s1, s2. split; [exact H1|]. split; [exact H2|exact H3].
Defined.

Lemma crashed_module_restarts_witness :
  ∃ s', foldl (λ o e, o ≫= sup_step 0 e) (Some busy_cpu)
      [EvExit 1; EvWaitDone; EvStart true; EvMakeChan; EvSelect] = Some s' ∧
    supervisors s' !! 0%nat = Some (mk_supervisor "io" (Waiting (Some 1%nat)) Running).
Proof.
  destruct (crashed_module_restarts busy_cpu "io" _ (Some 0%nat) 0 1 eq_refl eq_refl ltac:(discriminate))
    as (s' & H1 & H2 & _).
  exists s'. split; [exact H1|exact H2].
Defined.

Lemma no_restart_exit_sticks_witness :
  ∃ s1 s2, foldl (λ o e, o ≫= sup_step 0 e) (Some busy_cpu) [EvExit 101; EvWaitDone] = Some s1 ∧
    run (handleDisableModule "io") s1 = (s2, Returns (no_body 204)) ∧
    run (handleDisableModule "io") s2 = (s2, Panics PanicCloseClosed).
Proof.
  destruct (no_restart_exit_sticks all_paths busy_cpu "io" _ 0 0 busy_cpu_wf
    eq_refl eq_refl eq_refl eq_refl) as (s1 & s2 & H1 & _ & _ & _ & H2 & _ & _ & H3).
  exists s1, s2. split; [exact H1|]. split; [exact H2|exact H3].
Defined.

Lemma double_enable_orphans_witness :
  ∃ s', rtc (cpu_step all_paths) idle_cpu s' ∧
    supervisors s' !! 0%nat = Some (mk_supervisor "io" (Waiting (Some 0%nat)) Running) ∧
    supervisors s' !! 1%nat = Some (mk_supervisor "io" (Waiting (Some 1%nat)) Running).
Proof.
  destruct (double_enable_orphans all_paths idle_cpu "io" io_module idle_cpu_wf
    eq_refl eq_refl eq_refl eq_refl) as (s' & H1 & H2 & H3 & _).
  exists s'. split; [exact H1|]. split; [exact H2|exact H3].
Defined.
