(* ===== verification/CpuApi.v ===== *)
(** * cpu: the tag API and the metrics endpoint

    The tag store of [api.go], filled by status messages, read and written over
    HTTP, and [metrics.go], which turns metric messages into Prometheus metrics.
    The HTTP library gives the variables and the body of a request; Prometheus
    is a parameter with the documented behaviour of its counters. *)

From S2P Require Import Prelude GoFloat GoText Json Msgbus Cpu.

(** ** api.go *)

Record APIServer := mk_APIServer { points : gmap string Point; api_pusher : bus }.

Definition HandleMsgBusStatus (env : Envelope) : go APIServer () () :=
  let '(status, e) := Envelope_Status env in
  let not_status :=
    match e with Some e => errors_Is e "not a Status message" | None => false end in
  if not_status then return_ () else
  range (Measurements status) (λ point,
    modify (λ s, mk_APIServer (<[Point_Tag point := point]> (points s)) (api_pusher s))).

Definition StatusOK := 200.
Definition StatusNoContent := 204.
Definition StatusBadRequest := 400.
Definition StatusInternalServerError := 500.

(** [w.Write(body)] of marshalled contents, or the answer to a failed marshal. *)
Definition write_json (r : result json) : http :=
  match r with
  | inl j => mk_http StatusOK (BJson j)
  | inr _ => no_body StatusInternalServerError
  end.

(** [ord] is the order in which a range over the points sees them. *)
Definition handleQuery (ord : gmap string Point → list Point) (tag : string)
  : go APIServer http http :=
  s ← get;
  if String.eqb tag "" then
    mret (write_json (try l := enc_slice enc_Point (ord (points s)) in inl (JObj [("points", l)])))
  else
    match points s !! tag with
    | Some point => mret (write_json (enc_Point point))
    | None => mret (no_body StatusBadRequest)
    end.

(** Publish, or answer an error and return. *)
Definition api_publish {T} `{IEnvelope T} (contents : T) : go APIServer http () :=
  match NewEnvelope "cpu-api" contents with
  | inr _ => return_ (no_body StatusInternalServerError)
  | inl env =>
    s ← get;
    let '(b, err) := Push "RUNTIME" env (api_pusher s) in
    _ ← modify (λ s, mk_APIServer (points s) b);
    match err with Some _ => return_ (no_body StatusInternalServerError) | None => mret () end
  end.

(** [body]: [None] when it cannot be read, [Some None] when it is not JSON. *)
Definition handleWrite (tag value : string) (body : option (option json))
  : go APIServer http http :=
  update ←
    (if negb (String.eqb tag "") && negb (String.eqb value "") then
       match ParseFloat value with
       | (val, None) => mret (mk_Update [mk_Point tag val 0] "" "")
       | (_, Some _) => return_ (no_body StatusBadRequest)
       end
     else
       match body with
       | None => return_ (no_body StatusInternalServerError)
       | Some j =>
         match Unmarshal (unmarshal (T:=Update)) (zero Update) j with
         | (u, None) => mret u
         | (_, Some _) => return_ (no_body StatusBadRequest)
         end
       end);
  _ ← api_publish (mk_Status (Updates update));
  _ ← api_publish update;
  mret (no_body StatusNoContent).

(** ** metrics.go *)

(** Prometheus metrics: [None] is the panic of [promauto] when a metric cannot
    be registered next to those there, and of [Add] on a negative amount. *)
Class Prometheus := {
  Counter : Type;
  Gauge : Type;
  NewCounter : list string → string → string → option Counter;
  NewGauge : list string → string → string → option Gauge;
  Add : Counter → float64 → option Counter;
  Set_ : Gauge → float64 → Gauge;
}.

(** [nameRegex.ReplaceAllString(name, "_")] for the expression [-|:|\.] *)
Fixpoint metric_name (name : string) : string :=
  match name with
  | EmptyString => EmptyString
  | String c s =>
    String (if existsb (Z.eqb (code c)) [45; 58; 46] then Ascii.ascii_of_N 95 else c) (metric_name s)
  end.

Section metrics.
Context `{Prometheus}.

(** The package's maps, and the names registered with Prometheus. *)
Record metrics_state := mk_metrics_state {
  counters : gmap string Counter;
  gauges : gmap string Gauge;
  registered : list string;
}.

Definition handle_metric (metric : Metric) : go metrics_state (option error) () :=
  let nm := Metric_Name metric in
  if String.eqb (Metric_Kind metric) METRIC_COUNTER then
    s ← get;
    counter ← match counters s !! nm with
      | Some c => mret c
      | None =>
        c ← eval (NewCounter (registered s) (metric_name nm) (Metric_Desc metric)) PanicExplicit;
        _ ← modify (λ s, mk_metrics_state (<[nm := c]> (counters s)) (gauges s)
                           (registered s ++ [metric_name nm]));
        mret c
      end;
    counter' ← eval (Add counter (Metric_Value metric)) PanicExplicit;
    modify (λ s, mk_metrics_state (<[nm := counter']> (counters s)) (gauges s) (registered s))
  else if String.eqb (Metric_Kind metric) METRIC_GAUGE then
    s ← get;
    gauge ← match gauges s !! nm with
      | Some g => mret g
      | None =>
        g ← eval (NewGauge (registered s) (metric_name nm) (Metric_Desc metric)) PanicExplicit;
        _ ← modify (λ s, mk_metrics_state (counters s) (<[nm := g]> (gauges s))
                           (registered s ++ [metric_name nm]));
        mret g
      end;
    modify (λ s, mk_metrics_state (counters s) (<[nm := Set_ gauge (Metric_Value metric)]> (gauges s))
                   (registered s))
  else mret ().

Definition metricsHandler (msg : option json) : go metrics_state (option error) (option error) :=
  match ParseEnvelope msg with
  | inr e => return_ (Some (Wrapf "creating new envelope: %w" e))
  | inl env =>
    match Envelope_Metrics env with
    | (_, Some e) =>
      if errors_Is e "not a Metric message" then return_ None
      else return_ (Some (Wrapf "getting metrics from envelope: %w" e))
    | (metrics, None) =>
      _ ← range (Metric_Updates metrics) handle_metric;
      mret None
    end
  end.
End metrics.

(** ** Lemmas *)

Definition last_point (tag : string) (ps : list Point) : option Point :=
  last (List.filter (λ p, String.eqb (Point_Tag p) tag) ps).

Lemma store_points ps s :
  ∃ s', range (R:=()) ps (λ point,
      modify (λ s, mk_APIServer (<[Point_Tag point := point]> (points s)) (api_pusher s))) s
    = (s', Next ()) ∧ api_pusher s' = api_pusher s ∧
    ∀ tag, points s' !! tag = match last_point tag ps with
                              | Some p => Some p | None => points s !! tag end.
Proof.
  revert s. induction ps as [|p ps IH]; intros s; [by exists s|]. cbn [range].
  erewrite bind_next by done.
  destruct (IH (mk_APIServer (<[Point_Tag p := p]> (points s)) (api_pusher s)))
    as (s' & Hs' & Hp & Hl).
  exists s'. split_and!; [done|done|]. intros tag. rewrite Hl. unfold last_point. cbn [List.filter].
  destruct (String.eqb_spec (Point_Tag p) tag) as [<-|Hne].
  - rewrite last_cons. destruct (last _); [done|]. simpl. by rewrite lookup_insert_eq.
  - destruct (last _); [done|]. simpl. by rewrite lookup_insert_ne.
Qed.

Lemma status_stored sender (st : Status) env s :
  carries sender st env →
  ∃ s', run (HandleMsgBusStatus env) s = (s', Returns ()) ∧ api_pusher s' = api_pusher s ∧
    ∀ tag, points s' !! tag = match last_point tag (Measurements st) with
                              | Some p => Some p | None => points s !! tag end.
Proof.
  intros [_ Hc].
  unfold run, HandleMsgBusStatus, Envelope_Status. rewrite Hc.
  destruct (store_points (Measurements st) s) as (s' & Hs & Hp & Hl). rewrite Hs. eauto.
Qed.

(** Two publications in a row. *)
Lemma api_publish_ok {T} `{IEnvelopeLaws T} (c : T) s :
  encodable c → send_ok (api_pusher s) (sends (api_pusher s)) = true →
  ∃ env, NewEnvelope "cpu-api" c = inl env ∧
    api_publish c s = (mk_APIServer (points s)
      (mk_bus (sent (api_pusher s) ++ [("RUNTIME", BJson (MarshalEnvelope env))])
        (S (sends (api_pusher s))) (send_ok (api_pusher s))), Next ()).
Proof.
  intros Henc Hok. destruct (proj2 (marshal_ok c) Henc) as [j Hj].
  unfold api_publish, NewEnvelope, build_envelope. rewrite Hj. cbn [wrapf result_bind].
  eexists. split; [done|]. go_unfold. unfold Push, SendMessage. by rewrite Hok.
Qed.

Lemma api_publish_bad {T} `{IEnvelopeLaws T} (c : T) s :
  ¬ encodable c → api_publish c s = (s, Return (no_body StatusInternalServerError)).
Proof.
  intros Hn. unfold api_publish, NewEnvelope, build_envelope.
  destruct (marshal c) as [j|e] eqn:Hj; [|done].
  destruct Hn. apply marshal_ok. eauto.
Qed.

Lemma NewMetricEnvelope_ok sender ms env :
  NewMetricEnvelope sender ms = inl env ↔ NewEnvelope sender ms = inl env.
Proof.
  unfold NewMetricEnvelope, NewEnvelope, build_envelope. by destruct (marshal ms).
Qed.

(** What Prometheus documents of a counter: it starts at zero, and adding a
    non-negative amount adds it. *)
Definition counts `{Prometheus} (value : Counter → float64) : Prop :=
  (∀ names nm help c, NewCounter names nm help = Some c → value c = f64_0) ∧
  ∀ c (m n : N), value c = f64_of_Z (Z.of_N m) → (m + n < 2 ^ 53)%N →
    ∃ c', Add c (f64_of_Z (Z.of_N n)) = Some c' ∧ value c' = f64_of_Z (Z.of_N (m + n)).

(** The metric a module sends for one of its counters. *)
Definition sent_counter (sender nm desc : string) (n : N) : Metric :=
  prefixed (sender +:+ "_") (counter nm desc n).

Lemma sent_counter_kind sender nm desc n :
  Metric_Kind (sent_counter sender nm desc n) = METRIC_COUNTER ∧
  Metric_Value (sent_counter sender nm desc n) = f64_of_Z (Z.of_N n).
Proof. unfold sent_counter, prefixed. by destruct (HasPrefix _ _). Qed.

Lemma f64_of_Z_metric_ok m (n : N) :
  Metric_Value m = f64_of_Z (Z.of_N n) → (n < 2 ^ 53)%N →
  metric_ok m ∧ is_finite (Metric_Value m) = true.
Proof.
  intros Hv Hn. unfold metric_ok. rewrite Hv. split; [apply f64_of_Z_valid|apply f64_of_Z_finite].
  all: lia.
Qed.

(** One metric message with one counter: the amount is added. *)
Lemma metricsHandler_counter `{Prometheus} (value : Counter → float64) sender m env s (a n : N) :
  let m' := arrived_Metric m in
  counts value → NewMetricEnvelope sender (mk_Metrics [m]) = inl env →
  Metric_Kind m' = METRIC_COUNTER → Metric_Value m = f64_of_Z (Z.of_N n) → (a + n < 2 ^ 53)%N →
  (∃ c, counters s !! Metric_Name m' = Some c ∧ value c = f64_of_Z (Z.of_N a)) ∨
  (a = 0%N ∧ counters s !! Metric_Name m' = None ∧
   is_Some (NewCounter (registered s) (metric_name (Metric_Name m')) (Metric_Desc m'))) →
  ∃ c s', run (metricsHandler (Some (MarshalEnvelope env))) s = (s', Returns None) ∧
    counters s' !! Metric_Name m' = Some c ∧ value c = f64_of_Z (Z.of_N (a + n)).
Proof.
  intros m' [Hnew Hadd] Henv Hk Hv Hlt Hcase. apply NewMetricEnvelope_ok in Henv.
  destruct (f64_of_Z_metric_ok m n Hv ltac:(lia)) as [Hm _].
  pose proof (wire_contents sender (mk_Metrics [m]) env) as Hc.
  specialize (Hc ltac:(repeat constructor; done) Henv).
  unfold run, metricsHandler. rewrite parse_marshal_envelope.
  unfold Envelope_Metrics. rewrite Hc. cbn [arrived Metrics_laws Metric_Updates map range]. fold m'.
  unfold handle_metric. rewrite Hk. cbn [String.eqb]. simpl String.eqb. go_unfold.
  destruct Hcase as [(c & Hcs & Hval)|(-> & Hno & [c Hcr])].
  - rewrite Hcs. destruct (Hadd c a n Hval Hlt) as (c' & Ha & Hval').
    change (Metric_Value m') with (Metric_Value m). rewrite Hv, Ha.
    eexists c', _. split; [done|]. split; [apply lookup_insert_eq|done].
  - rewrite Hno, Hcr. pose proof (Hnew _ _ _ _ Hcr) as Hz.
    destruct (Hadd c 0%N n Hz Hlt) as (c' & Ha & Hval'). simpl.
    change (Metric_Value m') with (Metric_Value m). rewrite Hv, Ha.
    eexists c', _. split; [done|]. split; [apply lookup_insert_eq|done].
Qed.

(** ** Properties *)

(** A query answers what was reported last.  After a status message, the
    point stored for a tag is the last one the message reports for it, or what
    was stored before; querying the tag answers a document that decodes to that
    very point, or a bad request if the tag was never reported. *)
Theorem query_after_status sender (st : Status) env s ord tag :
  representable st → encodable st → carries sender st env → tag ≠ "" →
  ∃ s', run (HandleMsgBusStatus env) s = (s', Returns ()) ∧
    match last_point tag (Measurements st) with
    | Some p => ∃ j, run (handleQuery ord tag) s' = (s', Returns (mk_http 200 (BJson j))) ∧
                     d_Point j zero_Point = (arrived_Point p, None)
    | None => points s !! tag = None →
              run (handleQuery ord tag) s' = (s', Returns (no_body 400))
    end.
Proof.
  intros Hr Henc Hnew Ht. apply String.eqb_neq in Ht.
  destruct (status_stored sender st env s Hnew) as (s' & Hs & _ & Hl).
  exists s'. split; [done|]. specialize (Hl tag).
  destruct (last_point tag (Measurements st)) as [p|] eqn:Hp.
  - assert (In p (Measurements st)) as Hin.
    { apply last_Some_elem_of, list_elem_of_In, List.filter_In in Hp. tauto. }
    apply list_elem_of_In in Hin.
    assert (∃ j, enc_Point p = inl j) as [j Hj].
    { apply enc_Point_ok. simpl in Henc. unfold finite_points in Henc.
      rewrite Forall_forall in Henc. auto. }
    exists j. split.
    + unfold run, handleQuery. go_unfold. by rewrite Ht, Hl, Hj.
    + apply d_enc_Point; [|done]. simpl in Hr. rewrite Forall_forall in Hr. auto.
  - intros Hno. unfold run, handleQuery. go_unfold. by rewrite Ht, Hl, Hno.
Qed.

Lemma query_after_status_witness :
  ∃ env s' j, NewEnvelope "io" example_status = inl env ∧
    run (HandleMsgBusStatus (wire env)) (mk_APIServer ∅ (mk_bus [] 0 (λ _, true))) = (s', Returns ()) ∧
    run (handleQuery (λ m, (map_to_list m).*2) "line-650632.kW") s'
      = (s', Returns (mk_http 200 (BJson j))).
Proof.
  destruct (NewEnvelope "io" example_status) as [env|e] eqn:Henv; [|discriminate Henv]. exists env.
  destruct (query_after_status "io" example_status (wire env) (mk_APIServer ∅ (mk_bus [] 0 (λ _, true)))
    (λ m, (map_to_list m).*2) "line-650632.kW" example_status_representable
    ltac:(repeat constructor) (wire_carries "io" example_status env example_status_representable Henv)
    ltac:(discriminate)) as (s' & Hs & j & Hj & _).
  exists s', j. split; [done|]. split; [exact Hs|exact Hj].
Defined.

(** Writing a tag.  A value that is not a number is a bad request; a NaN or
    an infinity, which does parse, is a server error; neither sends anything.  A
    finite value is answered with no content after exactly two messages were
    sent, a status and then an update, both with the one point. *)
Theorem write_tag s tag value body :
  tag ≠ "" → value ≠ "" →
  match ParseFloat value with
  | (_, Some _) => run (handleWrite tag value body) s = (s, Returns (no_body 400))
  | (f, None) =>
    let p := mk_Point tag f 0 in
    if is_finite f then
      (∀ i, send_ok (api_pusher s) i = true) →
      ∃ e1 e2 s', NewEnvelope "cpu-api" (mk_Status [p]) = inl e1 ∧
        NewEnvelope "cpu-api" (mk_Update [p] "" "") = inl e2 ∧
        run (handleWrite tag value body) s = (s', Returns (no_body 204)) ∧
        points s' = points s ∧
        sent (api_pusher s') = sent (api_pusher s) ++
          [("RUNTIME", BJson (MarshalEnvelope e1)); ("RUNTIME", BJson (MarshalEnvelope e2))]
    else run (handleWrite tag value body) s = (s, Returns (no_body 500))
  end.
Proof.
  intros Ht Hv. apply String.eqb_neq in Ht, Hv.
  destruct (ParseFloat value) as [f [e|]] eqn:Hf.
  { unfold run, handleWrite. go_unfold. by rewrite Ht, Hv, Hf. }
  cbv zeta. set (p := mk_Point tag f 0). destruct (is_finite f) eqn:Hfin.
  - intros Hok. assert (finite_points [p]) as Hfp by (repeat constructor; done).
    pose proof (api_publish_ok (mk_Status [p]) s) as H1.
    destruct (H1 Hfp (Hok _)) as (e1 & He1 & Hp1). clear H1.
    set (s1 := mk_APIServer (points s) _) in Hp1.
    pose proof (api_publish_ok (mk_Update [p] "" "") s1) as H2.
    destruct (H2 Hfp (Hok _)) as (e2 & He2 & Hp2). clear H2.
    set (s2 := mk_APIServer (points s1) _) in Hp2.
    exists e1, e2, s2. split_and!; [done|done| |done|by simpl; rewrite <- app_assoc].
    unfold run, handleWrite. erewrite bind_next by (rewrite Ht, Hv, Hf; done).
    fold p. cbn [Updates]. erewrite bind_next by exact Hp1. by erewrite bind_next by exact Hp2.
  - assert (¬ finite_points [p]) as Hnf.
    { intros Hfp. apply Forall_cons in Hfp as [Hfp _]. simpl in Hfp. congruence. }
    pose proof (api_publish_bad (mk_Status [p]) s) as H1. specialize (H1 Hnf).
    unfold run, handleWrite. erewrite bind_next by (rewrite Ht, Hv, Hf; done).
    fold p. cbn [Updates]. by erewrite bind_return by exact H1.
Qed.

Lemma write_tag_witness :
  run (handleWrite "breaker" "nan" None) (mk_APIServer ∅ (mk_bus [] 0 (λ _, true)))
    = (mk_APIServer ∅ (mk_bus [] 0 (λ _, true)), Returns (no_body 500)).
Proof.
  exact (write_tag (mk_APIServer ∅ (mk_bus [] 0 (λ _, true))) "breaker" "nan" None
    ltac:(discriminate) ltac:(discriminate)).
Defined.

(** C5: exported counters overcount.  A module sends the running total of each of
    its counters every five seconds, and the CPU adds what it receives to a
    Prometheus counter: after [k] such messages with nothing counted in between,
    the exported counter of a module that counted [n] stands at [k * n]. *)
Theorem counters_overcount `{Prometheus} (value : Counter → float64) sender nm desc (n : N) k b s :
  counts value → (N.of_nat k * n < 2 ^ 53)%N → (0 < k)%nat → send_ok b (sends b) = true →
  let m := arrived_Metric (sent_counter sender nm desc n) in
  counters s !! Metric_Name m = None →
  is_Some (NewCounter (registered s) (metric_name (Metric_Name m)) (Metric_Desc m)) →
  ∃ env c,
    sent (metrics_tick sender [counter nm desc n] b)
      = sent b ++ [("HEALTH", BJson (MarshalEnvelope env))] ∧
    counters (Nat.iter k (λ s, (run (metricsHandler (Some (MarshalEnvelope env))) s).1) s)
      !! Metric_Name m = Some c ∧
    value c = f64_of_Z (Z.of_N (N.of_nat k * n)).
Proof.
  intros Hcounts Hlt Hk Hok m Hno Hnew.
  destruct (sent_counter_kind sender nm desc n) as [Hkind0 Hval]. set (m0 := sent_counter _ _ _ _) in *.
  assert (Metric_Kind m = METRIC_COUNTER) as Hkind by (unfold m; cbn [arrived_Metric Metric_Kind]; by rewrite Hkind0).
  assert (Hn : (n < 2 ^ 53)%N) by nia.
  destruct (f64_of_Z_metric_ok m0 n Hval Hn) as [_ Hfin].
  pose proof (marshal_ok (mk_Metrics [m0])) as Hm.
  destruct (proj2 Hm) as [j Hj]; [by repeat constructor|].
  assert (∃ env, NewMetricEnvelope sender (mk_Metrics [m0]) = inl env) as [env Henv].
  { unfold NewMetricEnvelope, build_envelope. rewrite Hj. by eexists. }
  exists env. set (step := λ s, (run (metricsHandler (Some (MarshalEnvelope env))) s).1).
  assert (Hiter : ∀ i, (S i ≤ k)%nat → ∃ c,
    counters (Nat.iter (S i) step s) !! Metric_Name m = Some c ∧ value c = f64_of_Z (Z.of_N (N.of_nat (S i) * n))).
  { induction i as [|i IH]; intros Hi.
    - destruct (metricsHandler_counter value sender m0 env s 0 n) as (c & s' & Hr & Hc & Hv);
        [done..|lia|by right|].
      exists c. simpl. unfold step. rewrite Hr. split; [done|]. rewrite Hv. do 2 f_equal. lia.
    - destruct IH as (c & Hc & Hv); [lia|].
      change (Nat.iter (S (S i)) step s) with (step (Nat.iter (S i) step s)).
      set (s1 := Nat.iter (S i) step s) in *.
      destruct (metricsHandler_counter value sender m0 env s1 (N.of_nat (S i) * n) n)
        as (c' & s' & Hr & Hc' & Hv'); [done..|nia|left; eauto|].
      exists c'. unfold step at 1. rewrite Hr. split; [done|]. rewrite Hv'. do 2 f_equal. lia. }
  destruct (Hiter (pred k)) as (c & Hc & Hv); [lia|].
  replace (S (pred k)) with k in * by lia.
  exists c. split_and!; [|done|done].
  unfold metrics_tick. cbn [map]. change (prefixed _ (counter nm desc n)) with m0. rewrite Henv. rewrite Push_spec, Hok. done.
Qed.

(** Counters that are just numbers. *)
Definition plain_prometheus : Prometheus := {|
  Counter := float64;
  Gauge := float64;
  NewCounter names nm _ := if bool_decide (nm ∈ names) then None else Some f64_0;
  NewGauge names nm _ := if bool_decide (nm ∈ names) then None else Some f64_0;
  Add c v := if SFltb v f64_0 then None else Some (fadd c v);
  Set_ _ v := v;
|}.

Lemma nonneg_add (m n : N) :
  (m + n < 2 ^ 53)%N → SFltb (f64_of_Z (Z.of_N n)) f64_0 = false.
Proof.
  intros Hb. destruct (decide (n = 0%N)) as [->|Hn]; [done|].
  destruct (f64_of_Z_shape (Z.of_N n)) as (m' & d & Hd & Hs & _ & ->); [lia|lia|].
  destruct (Z.of_N n) as [|z|z] eqn:E; [lia|done|lia].
Qed.

Lemma counters_overcount_witness :
  ∃ env c,
    sent (metrics_tick "modbus" [counter "coil_writes_count" "writes" 5] (mk_bus [] 0 (λ _, true)))
      = [("HEALTH", BJson (MarshalEnvelope env))] ∧
    @counters plain_prometheus
      (Nat.iter 3 (λ s, (run (@metricsHandler plain_prometheus (Some (MarshalEnvelope env))) s).1)
        (@mk_metrics_state plain_prometheus ∅ ∅ [])) !! "modbus_coil_writes_count" = Some c ∧
    c = f64_of_Z 15.
Proof.
  apply (@counters_overcount plain_prometheus (λ c, c) "modbus" "coil_writes_count" "writes" 5 3
    (mk_bus [] 0 (λ _, true)) (@mk_metrics_state plain_prometheus ∅ ∅ []));
    [|reflexivity|lia|reflexivity|reflexivity|by eexists].
  split.
  - intros names nm help c. simpl. case_bool_decide; [discriminate|]. intros [= <-]. reflexivity.
  - intros c m n -> Hb. simpl. rewrite (nonneg_add m n Hb). eexists. split; [reflexivity|].
    rewrite fadd_of_Z by lia. f_equal. lia.
Defined.
