(* ===== verification/CpuConfig.v ===== *)
(** * cpu: configuration, start and the monitors of the message bus

    [cpu.go]: reading the configuration, starting the modules and the monitors.
    [monitor.go]: a monitor passes the messages of a topic to its handlers and
    ends at the first error.  [Run] starts the monitors of LOG, HEALTH and RUNTIME
    again when they report an error; the monitor of INTERNAL, which controls the
    modules, has nobody to report to.  The API server and the log files are I/O. *)

From S2P Require Import Prelude GoFloat GoText Etree Json Msgbus Cpu CpuApi.

(** The settings of a log file. *)
Record Logger := mk_Logger {
  Filename : string;
  MaxSize : Z;
  MaxBackups : Z;
  MaxAge : Z;
  Compress : bool;
}.

Record CPU := mk_CPU {
  name : string;
  pubEndpoint : string;
  pullEndpoint : string;
  apiEndpoint : string;
  apiCACert : string;
  apiCert : string;
  apiKey : string;
  elasticEndpoint : string;
  elasticIndex : string;
  lokiEndpoint : string;
}.

(** The module with the package variable [modules] and the output of the log. *)
Record state := mk_state {
  this : CPU;
  package : cpu;
  log_output : option Logger;
}.

Definition New (name : string) : CPU := mk_CPU name "" "" "" "" "" "" "" "" "".

Definition empty_package : cpu := mk_cpu ∅ [] [] false (mk_bus [] 0 (λ _, true)).

Definition update (f : CPU → CPU) (s : state) : state := mk_state (f (this s)) (package s) (log_output s).
Definition set_package (p : cpu) (s : state) : state := mk_state (this s) p (log_output s).
Definition set_log_output (l : Logger) (s : state) : state := mk_state (this s) (package s) (Some l).

Definition set_pubEndpoint v (c : CPU) := mk_CPU (name c) v (pullEndpoint c) (apiEndpoint c)
  (apiCACert c) (apiCert c) (apiKey c) (elasticEndpoint c) (elasticIndex c) (lokiEndpoint c).
Definition set_pullEndpoint v (c : CPU) := mk_CPU (name c) (pubEndpoint c) v (apiEndpoint c)
  (apiCACert c) (apiCert c) (apiKey c) (elasticEndpoint c) (elasticIndex c) (lokiEndpoint c).
Definition set_apiEndpoint v (c : CPU) := mk_CPU (name c) (pubEndpoint c) (pullEndpoint c) v
  (apiCACert c) (apiCert c) (apiKey c) (elasticEndpoint c) (elasticIndex c) (lokiEndpoint c).
Definition set_apiCACert v (c : CPU) := mk_CPU (name c) (pubEndpoint c) (pullEndpoint c) (apiEndpoint c)
  v (apiCert c) (apiKey c) (elasticEndpoint c) (elasticIndex c) (lokiEndpoint c).
Definition set_apiCert v (c : CPU) := mk_CPU (name c) (pubEndpoint c) (pullEndpoint c) (apiEndpoint c)
  (apiCACert c) v (apiKey c) (elasticEndpoint c) (elasticIndex c) (lokiEndpoint c).
Definition set_apiKey v (c : CPU) := mk_CPU (name c) (pubEndpoint c) (pullEndpoint c) (apiEndpoint c)
  (apiCACert c) (apiCert c) v (elasticEndpoint c) (elasticIndex c) (lokiEndpoint c).
Definition set_elastic v w (c : CPU) := mk_CPU (name c) (pubEndpoint c) (pullEndpoint c) (apiEndpoint c)
  (apiCACert c) (apiCert c) (apiKey c) v w (lokiEndpoint c).
Definition set_lokiEndpoint v (c : CPU) := mk_CPU (name c) (pubEndpoint c) (pullEndpoint c) (apiEndpoint c)
  (apiCACert c) (apiCert c) (apiKey c) (elasticEndpoint c) (elasticIndex c) v.

Section configure.
Context `{Etree}.

Definition api_child (child : Element) : go state (option error) () :=
  if String.eqb (ETag child) "endpoint" then modify (update (set_apiEndpoint (Text child)))
  else if String.eqb (ETag child) "tls-key" then modify (update (set_apiKey (Text child)))
  else if String.eqb (ETag child) "tls-certificate" then modify (update (set_apiCert (Text child)))
  else if String.eqb (ETag child) "ca-certificate" then modify (update (set_apiCACert (Text child)))
  else mret ().

(** [v, err := f(attribute)], which ends the configuration with its error. *)
Definition log_attribute {A} (format : string) (r : A * option error) : result A :=
  match r with (a, None) => inl a | (_, Some e) => inr (Wrapf format e) end.

Definition parse_logger (child : Element) : result Logger :=
  try size := log_attribute "parsing 'size' attribute for log rotation: %w"
                (Atoi (SelectAttrValue child "size" "5")) in
  try backups := log_attribute "parsing 'backups' attribute for log rotation: %w"
                   (Atoi (SelectAttrValue child "backups" "1")) in
  try age := log_attribute "parsing 'age' attribute for log rotation: %w"
               (Atoi (SelectAttrValue child "age" "1")) in
  try compress := log_attribute "parsing 'compress' attribute for log rotation: %w"
                    (ParseBool (SelectAttrValue child "compress" "true")) in
  inl (mk_Logger (Text child) size backups age compress).

Definition logs_child (child : Element) : go state (option error) () :=
  if String.eqb (ETag child) "file" then
    match parse_logger child with
    | inl l => modify (set_log_output l)
    | inr e => return_ (Some e)
    end
  else if String.eqb (ETag child) "elastic" then
    modify (update (set_elastic (Text child) (SelectAttrValue child "index" "ot-sim-logs")))
  else if String.eqb (ETag child) "loki" then modify (update (set_lokiEndpoint (Text child)))
  else mret ().

Definition parse_module (child : Element) : module :=
  mk_module None (SelectAttrValue child "name" (Text child)) (Text child) []
    (SelectAttrValue child "workingDir" "")
    (Split (SelectAttrValue child "env" "") (Ascii.ascii_of_N 58)) None false.

Definition add_module (m : module) (p : cpu) : cpu := set_modules (<[m_name m := m]> (modules p)) p.

Definition configure_child (child : Element) : go state (option error) () :=
  if String.eqb (ETag child) "pub-endpoint" then modify (update (set_pubEndpoint (Text child)))
  else if String.eqb (ETag child) "pull-endpoint" then modify (update (set_pullEndpoint (Text child)))
  else if String.eqb (ETag child) "api-endpoint" then
    s ← get;
    if String.eqb (apiEndpoint (this s)) "" then modify (update (set_apiEndpoint (Text child))) else mret ()
  else if String.eqb (ETag child) "api" then range (ChildElements child) api_child
  else if String.eqb (ETag child) "logs" then range (ChildElements child) logs_child
  else if String.eqb (ETag child) "module" then
    modify (λ s, set_package (add_module (parse_module child) (package s)) s)
  else mret ().

Definition Configure (e : Element) : go state (option error) (option error) :=
  _ ← range (ChildElements e) configure_child;
  mret None.
End configure.

(** A step of the package alone. *)
Definition on_package {R A} (m : go cpu R A) : go state R A := λ s,
  let '(p, c) := m (package s) in (set_package p s, c).

(** [for _, module := range modules { StartModule(ctx, module) }], in some order. *)
Fixpoint start_modules (LookPath : string → bool) (ctx : option context) (order : list module)
  : go cpu (option error) () :=
  match order with
  | [] => mret ()
  | m :: order' =>
    err ← StartModule LookPath ctx m;
    match err with
    | Some e => return_ (Some (Wrapf ("failed to start module " +:+ m_name m +:+ ": %w") e))
    | None => start_modules LookPath ctx order'
    end
  end.

(** ** monitor.go *)

(** What a monitor does with a message; [Return] is [sendErr] and the end. *)
Section monitor.
Context {S : Type}.

Definition call_handlers (handlers : list (option json → go S (option error) (option error)))
  (msg : option json) : go S error () :=
  range handlers (λ handler s,
    match run (handler msg) s with
    | (s', Returns None) => (s', Next ())
    | (s', Returns (Some e)) => (s', Return (Wrapf "running handler: %w" e))
    | (s', Panics p) => (s', Panic p)
    | (s', Loops) => (s', NoFuel)
    end).

Definition monitor_iteration (topic : string)
  (handlers : list (option json → go S (option error) (option error))) (r : recv) : go S error () :=
  match r with
  | RecvError => return_ (Wrapf "receiving message from publisher: %w" (Sentinel "zmq"))
  | RecvMessage [] => panic_ PanicBounds
  | RecvMessage (f0 :: rest) =>
    if negb (String.eqb (frame_text f0) topic) then mret () else
    match rest with
    | [] => match handlers with [] => mret () | _ => panic_ PanicBounds end
    | f1 :: _ => call_handlers handlers (frame_json f1)
    end
  end.

(** The messages of a topic one after the other, with the errors that were
    reported: [Run] starts a monitor with an error channel again. *)
Fixpoint monitor (restarts : bool) (topic : string)
  (handlers : list (option json → go S (option error) (option error))) (msgs : list recv)
  : go S () (list error) :=
  match msgs with
  | [] => mret []
  | r :: msgs' => λ s,
    match monitor_iteration topic handlers r s with
    | (s', Next _) => monitor restarts topic handlers msgs' s'
    | (s', Return e) =>
      if restarts then (errs ← monitor restarts topic handlers msgs'; mret (e :: errs)) s'
      else (s', Next [])
    | (s', Panic p) => (s', Panic p)
    | (s', NoFuel) => (s', NoFuel)
    end
  end.
End monitor.

(** The handlers that [Run] gives to a topic, and whether it restarts the monitor;
    the handler of LOG and RUNTIME only logs. *)
Definition logger {S} (msg : option json) : go S (option error) (option error) := mret None.

Definition INTERNAL_monitor (LookPath : string → bool) : list recv → go cpu () (list error) :=
  monitor false "INTERNAL" [internalHandler LookPath].

Definition HEALTH_monitor `{Prometheus} : list recv → go metrics_state () (list error) :=
  monitor true "HEALTH" [metricsHandler].

Definition LOG_monitor {S} : list recv → go S () (list error) := monitor true "LOG" [logger].

Definition RUNTIME_monitor {S} : list recv → go S () (list error) := monitor true "RUNTIME" [logger].

(** ** Specification vocabulary *)

Definition module_elements `{Etree} (e : Element) : list Element :=
  List.filter (λ c, String.eqb (ETag c) "module") (ChildElements e).

(** A module after [init] with a configuration file. *)
Definition initialised (config : string) (m : module) : module :=
  match Split (ReplaceAll (path m) "{{config_file}}" config) (Ascii.ascii_of_N 32) with
  | [] => m
  | p :: rest => mk_module (Some (Some config)) (m_name m) p rest (workDir m) (m_env m) (canceler m) true
  end.

Definition launching (m : module) : supervisor := mk_supervisor (m_name m) Launching NoProcess.

(** The modules of a configuration: nothing started yet. *)
Record fresh_modules (p : cpu) : Prop := {
  fresh_names n m : modules p !! n = Some m → m_name m = n;
  fresh_module n m : modules p !! n = Some m → canceler m = None ∧ initialized m = false;
}.

(** ** Lemmas *)

Lemma initialised_name config m : m_name (initialised config m) = m_name m.
Proof. unfold initialised. by destruct (Split _ _). Qed.

Lemma fresh_wf p : fresh_modules p → chans p = [] → supervisors p = [] → cpu_wf p.
Proof.
  intros [Hn Hf] Hc Hs. split.
  - exact Hn.
  - intros n m c Hm Hcm. destruct (Hf n m Hm). congruence.
  - intros i q c Hi. by rewrite Hs in Hi.
  - intros i j q r c Hi. by rewrite Hs in Hi.
  - intros n m i q c _ _ Hi. by rewrite Hs in Hi.
  - intros n n' m m' c Hm _ Hcm. destruct (Hf n m Hm). congruence.
Qed.

Section configuring.
Context `{Etree}.

(** A configuration step changes the modules by [module] elements only. *)
Definition steps_to (f : cpu → cpu) {A} (m : go state (option error) A) : Prop := ∀ s,
  match m s with
  | (s', Next _) => package s' = f (package s)
  | (s', Return o) => o ≠ None
  | _ => False
  end.

Lemma steps_to_range {B} (l : list B) body :
  (∀ x, steps_to Datatypes.id (body x)) → steps_to Datatypes.id (range l body).
Proof.
  intros Hb. induction l as [|x l IH]; intros s; [done|]. cbn [range]. unfold mbind, go_bind.
  pose proof (Hb x s) as Hx. destruct (body x s) as [s1 [u|o| |]]; try done.
  pose proof (IH s1) as Hl. destruct (range l body s1) as [s2 [u2|o| |]]; try done.
  unfold Datatypes.id in *. congruence.
Qed.

Lemma api_child_steps c : steps_to Datatypes.id (api_child c).
Proof. intros s. unfold api_child. by repeat destruct (String.eqb (ETag c) _). Qed.

Lemma logs_child_steps c : steps_to Datatypes.id (logs_child c).
Proof.
  intros s. unfold logs_child. destruct (String.eqb (ETag c) "file"); [by destruct (parse_logger c)|].
  by repeat destruct (String.eqb (ETag c) _).
Qed.

Definition configured_modules (l : list Element) (p : cpu) : cpu :=
  foldl (λ p c, add_module (parse_module c) p) p (List.filter (λ c, String.eqb (ETag c) "module") l).

Lemma configure_child_steps c : steps_to (configured_modules [c]) (configure_child c).
Proof.
  intros s. unfold configure_child, configured_modules. cbn [List.filter].
  destruct (String.eqb_spec (ETag c) "module") as [Hm|Hm].
  { rewrite Hm. done. }
  cbn [foldl].
  destruct (String.eqb (ETag c) "pub-endpoint"); [done|].
  destruct (String.eqb (ETag c) "pull-endpoint"); [done|].
  destruct (String.eqb (ETag c) "api-endpoint");
    [go_unfold; by destruct (String.eqb (apiEndpoint (this s)) "")|].
  destruct (String.eqb (ETag c) "api"); [apply (steps_to_range _ _ api_child_steps)|].
  destruct (String.eqb (ETag c) "logs"); [apply (steps_to_range _ _ logs_child_steps)|done].
Qed.

Lemma configure_loop_steps l : steps_to (configured_modules l) (range l configure_child).
Proof.
  induction l as [|c l IH]; intros s; [done|]. cbn [range]. unfold mbind, go_bind.
  pose proof (configure_child_steps c s) as Hc.
  destruct (configure_child c s) as [s1 [u|o| |]]; try done.
  pose proof (IH s1) as Hl. destruct (range l configure_child s1) as [s2 [u2|o| |]]; try done.
  rewrite Hl, Hc. unfold configured_modules. cbn [List.filter].
  by destruct (String.eqb (ETag c) "module").
Qed.

Lemma configured_modules_spec l : ∀ p,
  fresh_modules p →
  let p' := configured_modules l p in
  fresh_modules p' ∧ chans p' = chans p ∧ supervisors p' = supervisors p ∧
  ∀ n, modules p' !! n =
    match last (List.filter (λ m, String.eqb (m_name m) n)
      (map parse_module (List.filter (λ c, String.eqb (ETag c) "module") l))) with
    | Some m => Some m
    | None => modules p !! n
    end.
Proof.
  unfold configured_modules. generalize (List.filter (λ c, String.eqb (ETag c) "module") l) as cs.
  clear l. induction cs as [|c cs IH]; intros p Hf; [by split_and!|]. cbn [foldl map List.filter].
  set (m := parse_module c).
  assert (fresh_modules (add_module m p)) as Hf'.
  { destruct Hf as [Hn Hm]. split; simpl; intros n m' [[<- <-]|[_ Hl]]%lookup_insert_Some; eauto. }
  destruct (IH _ Hf') as (Hfr & Hc & Hs & Hl). split_and!; [done|done|done|].
  intros n. rewrite Hl. change (modules (add_module m p)) with (<[m_name m := m]> (modules p)).
  destruct (String.eqb_spec (m_name m) n) as [<-|Hne].
  - rewrite last_cons, lookup_insert_eq. by destruct (last _).
  - by rewrite lookup_insert_ne.
Qed.
End configuring.

Section starting.
Context (LookPath : string → bool) (config : string).

Lemma StartModule_fresh {R} m s :
  initialized m = false → 
  StartModule LookPath (R:=R) (Some (Some config)) m s =
    let s' := set_modules (<[m_name m := initialised config m]> (modules s)) s in
    if LookPath (path (initialised config m))
    then (set_supervisors (supervisors s ++ [launching m]) s', Next None)
    else (s', Next (Some (Errorf ("module executable does not exist at " +:+ path (initialised config m))))).
Proof.
  intros Hi. unfold StartModule, init, MustConfigFile, ConfigFile. rewrite Hi. unfold initialised, launching.
  go_unfold. destruct (Split _ _) as [|p rest]; cbn [m_name path]; by destruct (LookPath _).
Qed.

(** The state after the modules of a list were started. *)
Definition started (order : list module) (s : cpu) : cpu :=
  set_supervisors (supervisors s ++ map launching order)
    (set_modules (foldl (λ ms m, <[m_name m := initialised config m]> ms) (modules s) order) s).

Lemma start_modules_ok order : ∀ s,
  Forall (λ m, initialized m = false ∧ LookPath (path (initialised config m)) = true) order →
  start_modules LookPath (Some (Some config)) order s = (started order s, Next ()).
Proof.
  induction order as [|m order IH]; intros s Ho; cbn [start_modules].
  { unfold started. simpl. rewrite app_nil_r. by destruct s. }
  apply Forall_cons in Ho as [[Hi Hp] Ho].
  erewrite bind_next by (rewrite StartModule_fresh by done; cbv zeta; rewrite Hp; reflexivity).
  rewrite IH by done. unfold started. simpl. by rewrite <- app_assoc.
Qed.

Lemma start_modules_missing order m post s :
  Forall (λ m, initialized m = false ∧ LookPath (path (initialised config m)) = true) order →
  initialized m = false → LookPath (path (initialised config m)) = false →
  ∃ s' e, start_modules LookPath (Some (Some config)) (order ++ m :: post) s = (s', Return (Some e)) ∧
    supervisors s' = supervisors s ++ map launching order.
Proof.
  intros Ho Hi Hp. revert s. induction Ho as [|m0 order [Hi0 Hp0] Ho IH]; intros s; cbn [app start_modules].
  - eexists _, _. split.
    + erewrite bind_next by (rewrite StartModule_fresh by done; cbv zeta; rewrite Hp; reflexivity). reflexivity.
    + simpl. by rewrite app_nil_r.
  - erewrite bind_next by (rewrite StartModule_fresh by done; cbv zeta; rewrite Hp0; reflexivity).
    edestruct IH as (s' & e & Hrun & Hs). rewrite Hrun. eexists _, _. split; [done|].
    rewrite Hs. simpl. by rewrite <- app_assoc.
Qed.

Lemma started_lookup order : ∀ s n,
  NoDup (map m_name order) →
  modules (started order s) !! n =
    match List.find (λ m, String.eqb (m_name m) n) order with
    | Some m => Some (initialised config m)
    | None => modules s !! n
    end.
Proof.
  intros s n. unfold started. simpl. generalize (modules s) as ms.
  induction order as [|m order IH]; intros ms Hnd; [done|]. apply NoDup_cons in Hnd as [Hnot Hnd].
  cbn [foldl List.find]. rewrite IH by done.
  destruct (String.eqb_spec (m_name m) n) as [<-|Hne].
  - destruct (List.find _ order) as [m'|] eqn:Hf; [|by rewrite lookup_insert_eq].
    exfalso. apply Hnot. apply List.find_some in Hf as [Hin Heq]. apply String.eqb_eq in Heq as <-.
    apply list_elem_of_In, in_map, Hin.
  - destruct (List.find _ order); [done|]. by rewrite lookup_insert_ne.
Qed.
End starting.

(** The package after [Configure]: its modules are those of the document. *)
Lemma Configure_package `{Etree} nm e s' :
  run (Configure e) (mk_state (New nm) empty_package None) = (s', Returns None) →
  package s' = configured_modules (ChildElements e) empty_package.
Proof.
  unfold run, Configure, mbind, go_bind.
  pose proof (configure_loop_steps (ChildElements e) (mk_state (New nm) empty_package None)) as Hl.
  destruct (range _ _ _) as [s1 [u|o| |]]; try done; cbn; intros [= <-]; [exact Hl|congruence].
Qed.

Lemma Configure_returns `{Etree} e s : ∃ s' err, run (Configure e) s = (s', Returns err).
Proof.
  unfold run, Configure, mbind, go_bind. pose proof (configure_loop_steps (ChildElements e) s) as Hl.
  destruct (range _ _ _) as [s1 [u|o| |]]; try done; cbn; eauto.
Qed.

Lemma empty_package_fresh : fresh_modules empty_package.
Proof. split; intros n m; cbn [modules empty_package]; by rewrite lookup_empty. Qed.

(** The modules of a package in some order have different names. *)
Lemma order_names p order :
  fresh_modules p → order ≡ₚ (map_to_list (modules p)).*2 →
  NoDup (map m_name order) ∧ Forall (λ m, initialized m = false) order ∧
  ∀ n, List.find (λ m, String.eqb (m_name m) n) order = modules p !! n.
Proof.
  intros [Hn Hf] Ho.
  assert (∀ m, m ∈ order ↔ modules p !! m_name m = Some m) as Hin.
  { intros m. rewrite Ho, list_elem_of_fmap. split.
    - intros ([n m'] & -> & Hm%elem_of_map_to_list). simpl. by rewrite (Hn n m' Hm).
    - intros Hm. exists (m_name m, m). by rewrite elem_of_map_to_list. }
  split_and!.
  - change (NoDup (m_name <$> order)). rewrite Ho, <- list_fmap_compose.
    rewrite (list_fmap_ext _ fst); [apply NoDup_fst_map_to_list|].
    intros i [n m] Hi. apply Hn. apply elem_of_map_to_list. by eapply list_elem_of_lookup_2.
  - apply Forall_forall. intros m Hm%Hin. by apply (Hf _ _ Hm).
  - intros n. destruct (List.find _ order) as [m|] eqn:Hfd.
    + apply List.find_some in Hfd as [Hm Heq]. apply String.eqb_eq in Heq as <-.
      symmetry. apply Hin, list_elem_of_In, Hm.
    + destruct (modules p !! n) as [m|] eqn:Hm; [|done]. exfalso.
      pose proof (Hn n m Hm) as <-. apply Hin, list_elem_of_In in Hm.
      pose proof (List.find_none _ _ Hfd m Hm) as Hne. cbn in Hne. by rewrite String.eqb_refl in Hne.
Qed.

(** Starting every module keeps the invariant of the supervisor: nothing runs yet. *)
Lemma started_wf config order p :
  fresh_modules p → supervisors p = [] → order ≡ₚ (map_to_list (modules p)).*2 →
  cpu_wf (started config order p).
Proof.
  intros Hfr Hs Ho. destruct (order_names p order Hfr Ho) as (Hnd & _ & Hfind).
  assert (∀ n m, modules (started config order p) !! n = Some m → m_name m = n ∧ canceler m = None) as Hm.
  { intros n m. rewrite started_lookup by done. rewrite Hfind.
    destruct (modules p !! n) as [m0|] eqn:Hm0; intros [= <-].
    rewrite initialised_name. destruct (fresh_module p Hfr n m0 Hm0) as [Hc _].
    split; [by apply (fresh_names p Hfr)|]. unfold initialised. by destruct (Split _ _). }
  assert (∀ i q c, supervisors (started config order p) !! i = Some q → sup_phase q ≠ Waiting c) as Hq.
  { intros i q c. unfold started. simpl. rewrite Hs. simpl. intros Hi.
    apply list_elem_of_lookup_2, list_elem_of_In, in_map_iff in Hi as (m & <- & _). done. }
  split.
  - intros n m Hn. apply (Hm n m Hn).
  - intros n m c Hn Hc. destruct (Hm n m Hn). congruence.
  - intros i q c Hi Hw. by destruct (Hq i q (Some c) Hi).
  - intros i j q r c Hi _ Hw. by destruct (Hq i q (Some c) Hi).
  - intros n m i q c _ _ Hi Hw. by destruct (Hq i q (Some c) Hi).
  - intros n n' m m' c Hn _ Hc. destruct (Hm n m Hn). congruence.
Qed.

(** What the outcome of an iteration does to a monitor. *)
Section monitored.
Context {S : Type} (restarts : bool) (topic : string).
Context (handlers : list (option json → go S (option error) (option error))).

Lemma monitor_next r msgs s s' :
  monitor_iteration topic handlers r s = (s', Next ()) →
  monitor restarts topic handlers (r :: msgs) s = monitor restarts topic handlers msgs s'.
Proof. intros Hi. cbn [monitor]. by rewrite Hi. Qed.

Lemma monitor_error r msgs s s' e :
  monitor_iteration topic handlers r s = (s', Return e) →
  monitor restarts topic handlers (r :: msgs) s =
    if restarts then (errs ← monitor restarts topic handlers msgs; mret (e :: errs)) s' else (s', Next []).
Proof. intros Hi. cbn [monitor]. by rewrite Hi. Qed.
End monitored.

(** An iteration of a monitor with one handler, on a message of its topic. *)
Lemma one_handler {S} topic (handler : option json → go S (option error) (option error)) j f1 more s s' err :
  run (handler (frame_json f1)) s = (s', Returns err) →
  monitor_iteration topic [handler] (RecvMessage (mk_frame topic j :: f1 :: more)) s =
    (s', match err with None => Next () | Some e => Return (Wrapf "running handler: %w" e) end).
Proof.
  intros Hr. unfold monitor_iteration, call_handlers. cbn [frame_text]. rewrite String.eqb_refl.
  cbn [negb range]. unfold mbind, go_bind. rewrite Hr. by destruct err.
Qed.

(** ** Theorems *)

(** C37: reading the configuration of the CPU module never panics.  When it
    succeeds, the modules are those of the [module] elements, the last of a name
    winning, and whatever the order in which [Run] meets them: if all executables
    exist every module is initialised with the configuration file and has one
    goroutine, about to launch its process, and the package is well formed; if
    one is missing, [Run] fails and the modules before it are started all the
    same. *)
Theorem cpu_modules_start `{Etree} (LookPath : string → bool) (config nm : string) (e : Element) :
  (∀ s, ∃ s' err, run (Configure e) s = (s', Returns err)) ∧
  ∀ s', run (Configure e) (mk_state (New nm) empty_package None) = (s', Returns None) →
  let p := package s' in
  let launches m := LookPath (path (initialised config m)) in
  (∀ n, modules p !! n =
     last (List.filter (λ m, String.eqb (m_name m) n) (map parse_module (module_elements e)))) ∧
  ∀ order, order ≡ₚ (map_to_list (modules p)).*2 →
    (Forall (λ m, launches m = true) order →
      ∃ p', start_modules LookPath (Some (Some config)) order p = (p', Next ()) ∧
        supervisors p' = map launching order ∧ cpu_wf p' ∧
        ∀ n, modules p' !! n = initialised config <$> modules p !! n) ∧
    (∀ before m after, order = before ++ m :: after →
      Forall (λ m, launches m = true) before → launches m = false →
      ∃ p' err, start_modules LookPath (Some (Some config)) order p = (p', Return (Some err)) ∧
        supervisors p' = map launching before).
Proof.
  split; [apply Configure_returns|]. intros s' Hrun p launches.
  pose proof (Configure_package nm e s' Hrun) as Hp. fold p in Hp.
  destruct (configured_modules_spec (ChildElements e) _ empty_package_fresh) as (Hfr & _ & Hs & Hms).
  rewrite <- Hp in *. change (supervisors p = []) in Hs. split.
  { intros n. rewrite Hms. unfold module_elements, empty_package. cbn [modules]. rewrite lookup_empty.
    by destruct (last _). }
  intros order Ho. destruct (order_names p order Hfr Ho) as (Hnd & Hinit & Hfind). split.
  - intros Hl. exists (started config order p). split_and!.
    + apply start_modules_ok, Forall_and. by split.
    + unfold started. simpl. by rewrite Hs.
    + by apply started_wf.
    + intros n. rewrite started_lookup, Hfind by done. by destruct (modules p !! n).
  - intros before m after -> Hl Hm. apply Forall_app in Hinit as [Hb Hi%Forall_inv].
    destruct (start_modules_missing LookPath config before m after p) as (p' & err & Hr & Hs');
      [by apply Forall_and|done|done|].
    exists p', err. split; [done|]. by rewrite Hs', Hs.
Qed.

(** The monitor of INTERNAL handles every control message until one that
    cannot be decoded arrives: it then ends, reports nothing, and later control
    messages change nothing.  The monitor of HEALTH reports the error and goes
    on with the messages that follow. *)
Theorem internal_monitor_dies `{Prometheus} (LookPath : string → bool) f1 more e :
  ParseEnvelope (frame_json f1) = inr e →
  let bad topic := RecvMessage (mk_frame topic None :: f1 :: more) in
  (∀ f s s' msgs, run (internalHandler LookPath (frame_json f)) s = (s', Returns None) →
     INTERNAL_monitor LookPath (RecvMessage [mk_frame "INTERNAL" None; f] :: msgs) s =
     INTERNAL_monitor LookPath msgs s') ∧
  (∀ msgs s, INTERNAL_monitor LookPath (bad "INTERNAL" :: msgs) s = (s, Next [])) ∧
  (∀ msgs s s' errs, HEALTH_monitor msgs s = (s', Next errs) →
     ∃ err, HEALTH_monitor (bad "HEALTH" :: msgs) s = (s', Next (err :: errs))).
Proof.
  intros Hbad bad. split_and!.
  - intros f s s' msgs Hf. by eapply monitor_next, (one_handler _ _ _ _ _ _ _ None).
  - intros msgs s. eapply monitor_error with (restarts := false), (one_handler _ _ _ _ _ _ _ (Some _)).
    unfold run, internalHandler. by rewrite Hbad.
  - intros msgs s s' errs Hm. eexists. unfold HEALTH_monitor.
    erewrite monitor_error; [|eapply (one_handler _ _ _ _ _ _ _ (Some _)); unfold run, metricsHandler; by rewrite Hbad].
    by erewrite bind_next by exact Hm.
Qed.

(** A document with three modules, two of the same name. *)
Definition example_cpu_config : xml := Elem "cpu" [] "" [
  leaf "pub-endpoint" "tcp://127.0.0.1:5678";
  Elem "logs" [] "" [Elem "file" [("size", "10")] "/var/log/ot-sim.log" []];
  Elem "module" [("name", "io")] "ot-sim-io {{config_file}}" [];
  Elem "module" [("name", "dnp3"); ("env", "A=1:B=2")] "ot-sim-dnp3-module {{config_file}}" [];
  Elem "module" [("name", "io")] "ot-sim-io-module -v {{config_file}}" []].

Definition configured_example : state :=
  (run (Configure example_cpu_config) (mk_state (New "cpu") empty_package None)).1.

Lemma cpu_modules_start_witness :
  run (Configure example_cpu_config) (mk_state (New "cpu") empty_package None)
    = (configured_example, Returns None) ∧
  (∃ p, start_modules (λ _, true) (Some (Some "/etc/ot-sim.xml"))
      (map_to_list (modules (package configured_example))).*2 (package configured_example) = (p, Next ()) ∧
    length (supervisors p) = 2%nat ∧
    (m ← modules p !! "io"; Some (path m, args m)) = Some ("ot-sim-io-module", ["-v"; "/etc/ot-sim.xml"])) ∧
  ∃ p err, start_modules (λ f, negb (String.eqb f "ot-sim-io-module")) (Some (Some "/etc/ot-sim.xml"))
      (map_to_list (modules (package configured_example))).*2 (package configured_example)
      = (p, Return (Some err)).
Proof.
  assert (run (Configure example_cpu_config) (mk_state (New "cpu") empty_package None)
    = (configured_example, Returns None)) as Hrun by (vm_compute; reflexivity).
  split; [exact Hrun|]. split.
  - destruct (@cpu_modules_start xml_etree (λ _, true) "/etc/ot-sim.xml" "cpu" example_cpu_config) as [_ Hc].
    destruct (Hc _ Hrun) as [Hms Ho]. destruct (Ho _ (Permutation_refl _)) as [Hok _].
    destruct Hok as (p & Hs & Hsup & _ & Hl); [by apply Forall_true|].
    exists p. split; [exact Hs|]. split; [rewrite Hsup; vm_compute; reflexivity|].
    rewrite Hl, Hms. vm_compute. reflexivity.
  - destruct (@cpu_modules_start xml_etree (λ f, negb (String.eqb f "ot-sim-io-module")) "/etc/ot-sim.xml" "cpu"
      example_cpu_config) as [_ Hc].
    destruct (Hc _ Hrun) as [Hms Ho]. destruct (Ho _ (Permutation_refl _)) as [_ Hmiss].
    destruct (Hmiss [] (@parse_module xml_etree (Elem "module" [("name", "io")]
        "ot-sim-io-module -v {{config_file}}" []))
        [@parse_module xml_etree (Elem "module" [("name", "dnp3"); ("env", "A=1:B=2")]
          "ot-sim-dnp3-module {{config_file}}" [])])
      as (p & err & Hs & _); [vm_compute; reflexivity|by constructor|vm_compute; reflexivity|].
    exists p, err. exact Hs.
Defined.

(** A message that is no JSON, and after it a request to stop the module [io]. *)
Definition junk (topic : string) : recv := RecvMessage [mk_frame topic None; mk_frame "{" None].

Lemma internal_monitor_dies_witness :
  ParseEnvelope None = inr (Wrapf "unmarshaling envelope: %w" (Errorf "json: syntax error")) ∧
  (∀ msgs, INTERNAL_monitor Cpu.all_paths (junk "INTERNAL" :: msgs) Cpu.busy_cpu = (Cpu.busy_cpu, Next [])).
Proof.
  split; [reflexivity|].
  destruct (@internal_monitor_dies plain_prometheus Cpu.all_paths (mk_frame "{" None) [] _ eq_refl) as (_ & H & _).
  intros msgs. exact (H msgs Cpu.busy_cpu).
Defined.
