(* ===== verification/Sockets.v ===== *)
(** * The sockets of the modules

    The constructors of [msgbus/pusher.go] and [msgbus/subscriber.go] that panic,
    over the libraries that make sockets and listeners. *)

From S2P Require Import Prelude GoFloat GoText Json Msgbus ModbusSettings.

(** [msgbus.NewPusher], [msgbus.NewSubscriber], the listeners of the Modbus and
    telnet libraries; [ListenAndServe] serves for good or returns an error. *)
Class Sockets := {
  NewPusher : string → result bus;
  NewSubscriber : string → result ();
  ListenTCP : string → option error;
  ListenRTU : serial_Config → option error;
  ListenAndServe : string → option error;       (* None: it does not return *)
}.

Section sockets.
Context `{Sockets}.

(** [msgbus.MustNewPusher], [msgbus.MustNewSubscriber] *)
Definition MustNewPusher {S R} (endpoint : string) : go S R bus :=
  match NewPusher endpoint with inl b => mret b | inr _ => panic_ PanicExplicit end.

Definition MustNewSubscriber {S R} (endpoint : string) : go S R () :=
  match NewSubscriber endpoint with inl _ => mret () | inr _ => panic_ PanicExplicit end.
End sockets.
