(* ===== verification/CpuMonitors.v ===== *)
(** * cpu: the monitors of the message bus as goroutines

    The end of [CPU.Run] in [cpu/cpu.go] starts one monitor ([cpu/monitor.go]) for
    each topic and a goroutine that starts a monitor again when it has reported an
    error.  What a monitor does with its messages is in [CpuConfig]; here are the
    goroutines, the sockets they open and the error channels they share.  (zmq4 closes
    a socket that nothing refers to any more when it is collected as garbage; counted
    here is what the program itself opens and closes.) *)

From S2P Require Import Prelude.

Inductive topic := LOG | HEALTH | RUNTIME | INTERNAL.

#[export] Instance topic_eq_dec : EqDecision topic.
Proof. solve_decision. Defined.

(** Where a monitor is: before [zmq.NewSocket], before [socket.Connect], in its loop,
    or in [errors <- err]. *)
Inductive phase := Creating | Connecting | Receiving | Reporting.

#[export] Instance phase_eq_dec : EqDecision phase.
Proof. solve_decision. Defined.

(** How many monitors of a topic are where, and how many sockets they have opened and
    not closed; whether the context is done, and whether the goroutine of [Run] still
    loops. *)
Record monitors := mk_monitors {
  count : phase → topic → nat;
  unclosed : topic → nat;
  cancelled : bool;
  looping : bool;
}.

Definition upd (t : topic) (f : nat → nat) (c : topic → nat) : topic → nat :=
  λ u, if decide (u = t) then f (c u) else c u.

Definition upd_at (p : phase) (t : topic) (f : nat → nat) (c : phase → topic → nat) :
  phase → topic → nat :=
  λ q, if decide (q = p) then upd t f (c q) else c q.

(** A monitor goes from [p] to [q]. *)
Definition move (p q : phase) (t : topic) (c : phase → topic → nat) : phase → topic → nat :=
  upd_at q t S (upd_at p t pred c).

(** [sendErr(err); return]: the monitor of INTERNAL has no error channel. *)
Definition report (p : phase) (t : topic) (c : phase → topic → nat) : phase → topic → nat :=
  if decide (t = INTERNAL) then upd_at p t pred c else move p Reporting t c.

(** The end of [Run]: a goroutine for each topic. *)
Definition run_monitors : monitors :=
  mk_monitors (λ p _, if decide (p = Creating) then 1%nat else 0%nat) (λ _, 0%nat) false true.

Inductive label :=
| Fail (p : phase) (t : topic)   (* NewSocket, Connect, or RecvMessage or a handler fails *)
| Open (t : topic) | Connect (t : topic)
| Restart (t : topic) | Cancel | LoopEnd | Finish (t : topic).

(** A monitor opens its socket, connects it and receives.  When one of these fails,
    or a handler, the monitor reports the error and returns, without closing the
    socket it may have.  The goroutine of [Run] takes an error and starts another
    monitor; when the context is done it may return, and a monitor that receives
    closes its socket and returns. *)
Inductive monitors_step : label → monitors → monitors → Prop :=
| fails p t m :
    p ≠ Reporting → (0 < count m p t)%nat →
    monitors_step (Fail p t) m
      (mk_monitors (report p t (count m)) (unclosed m) (cancelled m) (looping m))
| opens t m :
    (0 < count m Creating t)%nat →
    monitors_step (Open t) m
      (mk_monitors (move Creating Connecting t (count m)) (upd t S (unclosed m)) (cancelled m) (looping m))
| connects t m :
    (0 < count m Connecting t)%nat →
    monitors_step (Connect t) m
      (mk_monitors (move Connecting Receiving t (count m)) (unclosed m) (cancelled m) (looping m))
| restart t m :
    looping m = true → t ≠ INTERNAL → (0 < count m Reporting t)%nat →
    monitors_step (Restart t) m
      (mk_monitors (move Reporting Creating t (count m)) (unclosed m) (cancelled m) (looping m))
| cancel m :
    monitors_step Cancel m (mk_monitors (count m) (unclosed m) true (looping m))
| loop_end m :
    cancelled m = true →
    monitors_step LoopEnd m (mk_monitors (count m) (unclosed m) (cancelled m) false)
| finish t m :
    cancelled m = true → (0 < count m Receiving t)%nat →
    monitors_step (Finish t) m
      (mk_monitors (upd_at Receiving t pred (count m)) (upd t pred (unclosed m)) (cancelled m) (looping m)).

Inductive monitors_run : list label → monitors → monitors → Prop :=
| run_done m : monitors_run [] m m
| run_more l ls m m1 m' : monitors_step l m m1 → monitors_run ls m1 m' → monitors_run (l :: ls) m m'.

(** The monitors of a topic that have not failed or returned. *)
Definition live (m : monitors) (t : topic) : nat :=
  (count m Creating t + count m Connecting t + count m Receiving t)%nat.

(** How often a monitor of a topic failed, and how often one that had a socket. *)
Definition failure (t : topic) (l : label) : nat :=
  match l with Fail _ u => if decide (u = t) then 1%nat else 0%nat | _ => 0%nat end.

Definition socket_failure (t : topic) (l : label) : nat :=
  match l with Fail Creating _ => 0%nat | _ => failure t l end.

Definition total (f : label → nat) (ls : list label) : nat := sum_list_with f ls.

(** ** Lemmas *)

(** While the context is not done, a topic has one monitor: it works, or waits to
    report; that of INTERNAL may be gone. *)
Record watched (m : monitors) : Prop := {
  watched_loop : cancelled m = false → looping m = true;
  watched_one t : cancelled m = false → t ≠ INTERNAL → (live m t + count m Reporting t = 1)%nat;
  watched_internal : (live m INTERNAL ≤ 1)%nat ∧ count m Reporting INTERNAL = 0%nat;
}.

(** Decide which monitor a step moved. *)
Ltac monitor_cases :=
  unfold live, report, socket_failure, failure in *; unfold move in *; unfold upd_at, upd in *; cbn in *;
  repeat (case_decide; simplify_eq/=; try done); try lia.

Lemma step_watched l m m' : monitors_step l m m' → watched m → watched m'.
Proof.
  intros Hstep [Hl Ho [Hi Hr]].
  assert (∀ u, cancelled m = false → u ≠ INTERNAL → (live m u + count m Reporting u = 1)%nat) as Ho' by done.
  destruct Hstep as [[] t m Hp Hn|t m Hn|t m Hn|t m Hlo Ht Hn|m|m Hc|t m Hc Hn].
  all: split; cbn; [try done|intros u Hca Hu; try discriminate; try specialize (Ho' u Hca Hu)|];
    try congruence; try done; try (split; [|]); monitor_cases.
Qed.

Lemma step_unclosed l m m' t k :
  monitors_step l m m' → unclosed m t = (count m Connecting t + count m Receiving t + k)%nat →
  unclosed m' t = (count m' Connecting t + count m' Receiving t + (k + socket_failure t l))%nat.
Proof.
  intros Hstep Hs. destruct Hstep as [[] u m Hp Hn|u m Hn|u m Hn|u m Hlo Hu Hn|m|m Hc|u m Hc Hn];
    monitor_cases.
Qed.

(** Nobody starts the monitor of INTERNAL again. *)
Lemma step_internal l m m' :
  monitors_step l m m' → count m Reporting INTERNAL = 0%nat →
  count m' Reporting INTERNAL = 0%nat ∧ (live m' INTERNAL + failure INTERNAL l ≤ live m INTERNAL)%nat.
Proof.
  intros Hstep Hr. destruct Hstep as [[] u m Hp Hn|u m Hn|u m Hn|u m Hlo Hu Hn|m|m Hc|u m Hc Hn];
    (split; [|]); monitor_cases.
Qed.

Lemma total_cons f l ls : total f (l :: ls) = (f l + total f ls)%nat.
Proof. done. Qed.

Lemma run_watched ls m m' : monitors_run ls m m' → watched m → watched m'.
Proof. induction 1; eauto using step_watched. Qed.

Lemma run_watched_start : watched run_monitors.
Proof. split; [done|done|split; [vm_compute; lia|done]]. Qed.

Lemma run_unclosed ls m m' t k :
  monitors_run ls m m' → unclosed m t = (count m Connecting t + count m Receiving t + k)%nat →
  unclosed m' t = (count m' Connecting t + count m' Receiving t + (k + total (socket_failure t) ls))%nat.
Proof.
  intros Hrun. revert k. induction Hrun as [m|l ls m m1 m' Hstep Hrun IH]; intros k Hk; [cbn; lia|].
  rewrite (IH _ (step_unclosed _ _ _ _ _ Hstep Hk)), total_cons. lia.
Qed.

Lemma run_internal ls m m' :
  monitors_run ls m m' → count m Reporting INTERNAL = 0%nat →
  (live m' INTERNAL + total (failure INTERNAL) ls ≤ live m INTERNAL)%nat.
Proof.
  induction 1 as [m|l ls m m1 m' Hstep Hrun IH]; intros Hr; [cbn; lia|].
  destruct (step_internal _ _ _ Hstep Hr) as [Hr1 Hl]. specialize (IH Hr1). rewrite total_cons. lia.
Qed.

(** ** Properties *)

(** C24: the monitors of the CPU module.  Until the context is done, whatever fails,
    LOG, HEALTH and RUNTIME have exactly one monitor each, which works or waits for
    [Run] to take its error; INTERNAL has one until it fails for the first time.  A
    monitor that fails with a socket does not close it, also if it could not connect
    it: of each topic the sockets that were opened and not closed are those of its
    monitors and one for each such failure; a failure to open one leaves none. *)
Theorem monitors_watch ls m t :
  monitors_run ls run_monitors m →
  (cancelled m = false → t ≠ INTERNAL → (live m t + count m Reporting t = 1)%nat ∧ looping m = true) ∧
  (live m INTERNAL ≤ 1)%nat ∧ ((0 < total (failure INTERNAL) ls)%nat → live m INTERNAL = 0%nat) ∧
  unclosed m t = (count m Connecting t + count m Receiving t + total (socket_failure t) ls)%nat.
Proof.
  intros Hrun. destruct (run_watched _ _ _ Hrun run_watched_start) as [Hl Ho [Hi Hr]].
  split_and!; [auto|done| |].
  - intros Hf. pose proof (run_internal _ _ _ Hrun eq_refl) as Hb.
    change (live run_monitors INTERNAL) with 1%nat in Hb. lia.
  - exact (run_unclosed _ _ _ t 0 Hrun eq_refl).
Qed.

Lemma monitors_watch_witness :
  ∃ m, monitors_run [Open HEALTH; Connect HEALTH; Fail Receiving HEALTH; Restart HEALTH;
      Fail Creating INTERNAL; Open HEALTH] run_monitors m ∧
    unclosed m HEALTH = 2%nat ∧ unclosed m INTERNAL = 0%nat ∧ live m INTERNAL = 0%nat.
Proof.
  assert (∃ m, monitors_run [Open HEALTH; Connect HEALTH; Fail Receiving HEALTH; Restart HEALTH;
      Fail Creating INTERNAL; Open HEALTH] run_monitors m ∧
    (count m Connecting HEALTH = 1 ∧ count m Receiving HEALTH = 0 ∧
     count m Connecting INTERNAL = 0 ∧ count m Receiving INTERNAL = 0)%nat) as (m & Hm & H1 & H2 & H3 & H4).
  { eexists. split.
    - eapply run_more; [apply opens; vm_compute; lia|].
      eapply run_more; [apply connects; vm_compute; lia|].
      eapply run_more; [apply fails; [discriminate|vm_compute; lia]|].
      eapply run_more; [apply restart; [reflexivity|discriminate|vm_compute; lia]|].
      eapply run_more; [apply fails; [discriminate|vm_compute; lia]|].
      eapply run_more; [apply opens; vm_compute; lia|]. apply run_done.
    - vm_compute. auto. }
  exists m. split; [exact Hm|].
  destruct (monitors_watch _ _ HEALTH Hm) as (_ & _ & Hint & Hs).
  destruct (monitors_watch _ _ INTERNAL Hm) as (_ & _ & _ & Hs').
  split; [rewrite Hs, H1, H2; reflexivity|]. split; [rewrite Hs', H3, H4; reflexivity|].
  apply Hint. vm_compute. lia.
Defined.
