(* ===== verification/CpuServer.v ===== *)
(** * cpu: the server of the tag API

    The rest of [cpu/api.go]: making the server, its routes, its TLS configuration
    and its start ([NewAPIServer], [Start], [buildTLSConfig]), called by [Run] of
    [cpu/cpu.go], and what a request does through the router.  The router (gorilla
    mux), TLS and files are parameters; the handlers are in [Cpu] and [CpuApi]. *)

From S2P Require Import Prelude GoFloat GoText Json Msgbus Sockets.
From S2P Require ModbusClient.
From S2P Require Import Cpu CpuApi CpuConfig.

(** ** The start of the server *)

(** The certificates of a PEM file; what is not one is skipped. *)
Class TLS := {
  certificate : Type;
  ReadFile : string → result string;
  AppendCertsFromPEM : string → list certificate;
}.

Inductive ClientAuthType := NoClientCert | RequireAndVerifyClientCert.

Record tls_Config `{TLS} := mk_tls_Config {
  ClientCAs : list certificate;
  ClientAuth : ClientAuthType;
}.
Arguments mk_tls_Config {_} _ _.

Section server.
Context `{Sockets} `{TLS}.

Definition buildTLSConfig (cert : string) : result tls_Config :=
  try ca := wrapf "reading CA certificate file: %w" (ReadFile cert) in
  inl (mk_tls_Config (AppendCertsFromPEM ca) RequireAndVerifyClientCert).

(** The goroutine that serves, with the [TLSConfig] of its server. *)
Inductive listener :=
| PlainListener (Addr : string)
| TLSListener (Addr cert key : string) (TLSConfig : option tls_Config).

(** A server with its subscriber: what listens, and the topic [Subscriber.Start]
    was called with. *)
Record api_process := mk_api_process {
  api : APIServer;
  subscriber : Subscriber APIServer;
  listening : option listener;
  started_on : option string;
}.

Definition set_listening (l : listener) (p : api_process) : api_process :=
  mk_api_process (api p) (subscriber p) (Some l) (started_on p).
Definition set_subscriber (f : Subscriber APIServer → Subscriber APIServer) (p : api_process) : api_process :=
  mk_api_process (api p) (f (subscriber p)) (listening p) (started_on p).
Definition set_started_on (topic : string) (p : api_process) : api_process :=
  mk_api_process (api p)
    (mk_Subscriber true (statusHandlers (subscriber p)) (updateHandlers (subscriber p))
       (healthCheckHandlers (subscriber p)))
    (listening p) (Some topic).

Definition NewAPIServer {S R} (pull pub : string) : go S R api_process :=
  _ ← MustNewSubscriber pub;
  b ← MustNewPusher pull;
  mret (mk_api_process (mk_APIServer ∅ b) (mk_Subscriber false [] [] []) None None).

Definition Start (endpoint cert key ca : string) : go api_process (option error) (option error) :=
  _ ← (if negb (String.eqb cert "") && negb (String.eqb key "") then
         config ← (if negb (String.eqb ca "") then
                     match buildTLSConfig ca with
                     | inr e => return_ (Some (Wrapf "building config for mutual TLS: %w" e))
                     | inl tlsConfig => mret (Some tlsConfig)
                     end
                   else mret None);
         modify (set_listening (TLSListener endpoint cert key config))
       else modify (set_listening (PlainListener endpoint)));
  _ ← modify (set_subscriber (AddStatusHandler HandleMsgBusStatus));
  _ ← modify (set_started_on "RUNTIME");
  mret None.

(** The part of [CPU.Run] that makes and starts the server, with the endpoints
    that [Run] was given: what is made of it, if it is configured; an error is
    only logged. *)
Definition start_api (c : CPU) (pub pull : string) : outcome (option (api_process * option error)) :=
  if String.eqb (apiEndpoint c) "" then Returns None else
  let made := NewAPIServer (S:=()) (ModbusClient.bus_endpoint (pullEndpoint c) pull)
                (ModbusClient.bus_endpoint (pubEndpoint c) pub) in
  match (run made ()).2 with
  | Panics p => Panics p
  | Loops => Loops
  | Returns p =>
    match run (Start (apiEndpoint c) (apiCert c) (apiKey c) (apiCACert c)) p with
    | (p', Returns e) => Returns (Some (p', e))
    | (_, Panics q) => Panics q
    | (_, Loops) => Loops
    end
  end.
End server.

(** ** The routes *)

Inductive api_handler := HQuery | HQueryWS | HWrite | HModules | HEnableModule | HDisableModule.

Record route := mk_route { r_template : string; r_handler : api_handler; r_method : string }.

(** The routes of the subrouter of [/api/v1], in their order. *)
Definition api_routes : list route := [
  mk_route "/query" HQuery "GET";
  mk_route "/query/ws" HQueryWS "GET";
  mk_route "/query/{tag}" HQuery "GET";
  mk_route "/write" HWrite "POST";
  mk_route "/write/{tag}/{value}" HWrite "POST";
  mk_route "/modules" HModules "GET";
  mk_route "/modules/{name}" HEnableModule "POST";
  mk_route "/modules/{name}" HDisableModule "DELETE"].

(** The router: the route of a request, given by its method and the segments of
    its path after [/api/v1], with the variables of the path. *)
Class Mux := {
  match_path : string → list string → option (gmap string string);
  dispatch_request : list route → string → list string → option (api_handler * gmap string string);
}.

(** What the documentation of mux says: a literal segment matches itself, a
    variable [{name}] a whole segment, and of the routes that match method and path
    the first one wins.  (Mux cleans a path before it matches it.) *)
Definition variable (t : string) : option string :=
  match t with
  | String c t' => if code c =? 123 then Some (String.substring 0 (String.length t' - 1) t') else None
  | EmptyString => None
  end.

Fixpoint match_segments (ts ps : list string) : option (gmap string string) :=
  match ts, ps with
  | [], [] => Some ∅
  | t :: ts', p :: ps' =>
    match variable t with
    | Some n => insert n p <$> match_segments ts' ps'
    | None => if String.eqb t p then match_segments ts' ps' else None
    end
  | _, _ => None
  end.

Definition clean_segment (p : string) : bool :=
  negb (existsb (String.eqb p) [""; "."; ".."]) &&
  negb (existsb (Z.eqb 47) (bytes_of p)).

Class MuxLaws `{Mux} := {
  match_clean template path :
    forallb clean_segment path = true →
    match_path template path = match_segments (tail (Split template (Ascii.ascii_of_N 47))) path;
  first_match routes method path :
    dispatch_request routes method path =
      match routes with
      | [] => None
      | r :: routes' =>
        match (if String.eqb method (r_method r) then match_path (r_template r) path else None) with
        | Some vars => Some (r_handler r, vars)
        | None => dispatch_request routes' method path
        end
      end;
}.

(** ** A request *)

(** The state of the server and the package's modules. *)
Record api_state := mk_api_state { api_server : APIServer; api_package : cpu }.

Inductive response :=
| Answer (h : http)
| Upgraded                    (* the connection is a web socket now *)
| Unrouted.                   (* mux answers: no such path, or not this method *)

Definition answered (o : outcome http) : ctl response response :=
  match o with Returns h => Next (Answer h) | Panics p => Panic p | Loops => NoFuel end.

Definition on_server (m : go APIServer http http) : go api_state response response := λ s,
  let '(a, o) := run m (api_server s) in (mk_api_state a (api_package s), answered o).

Definition on_modules (m : go cpu http http) : go api_state response response := λ s,
  let '(p, o) := run m (api_package s) in (mk_api_state (api_server s) p, answered o).

(** [vars["tag"]] *)
Definition var (vars : gmap string string) (n : string) : string := default "" (vars !! n).

(** What the router makes of a request; [ord] is the iteration over the points. *)
Definition api_request `{Mux} (LookPath : string → bool) (ord : gmap string Point → list Point)
  (method : string) (path : list string) (body : option (option json))
  : go api_state response response :=
  match dispatch_request api_routes method path with
  | None => mret Unrouted
  | Some (h, vars) =>
    match h with
    | HQuery => on_server (handleQuery ord (var vars "tag"))
    | HQueryWS => mret Upgraded
    | HWrite => on_server (handleWrite (var vars "tag") (var vars "value") body)
    | HModules => on_modules handleModules
    | HEnableModule => on_modules (handleEnableModule LookPath (var vars "name"))
    | HDisableModule => on_modules (handleDisableModule (var vars "name"))
    end
  end.

(** ** Lemmas *)

(** The routes as a case analysis. *)
Definition api_table (method : string) (path : list string)
  : option (api_handler * gmap string string) :=
  let eqs := String.eqb in
  match path with
  | [p] =>
    if eqs method "GET" && eqs "query" p then Some (HQuery, ∅)
    else if eqs method "POST" && eqs "write" p then Some (HWrite, ∅)
    else if eqs method "GET" && eqs "modules" p then Some (HModules, ∅)
    else None
  | [p; x] =>
    if eqs method "GET" && eqs "query" p then
      Some (if eqs "ws" x then (HQueryWS, ∅) else (HQuery, {["tag" := x]}))
    else if eqs method "POST" && eqs "modules" p then Some (HEnableModule, {["name" := x]})
    else if eqs method "DELETE" && eqs "modules" p then Some (HDisableModule, {["name" := x]})
    else None
  | [p; x; y] =>
    if eqs method "POST" && eqs "write" p
    then Some (HWrite, <["tag" := x]> {["value" := y]}) else None
  | _ => None
  end.

(** The subscriber of a started server. *)
Definition api_subscriber : Subscriber APIServer := mk_Subscriber true [HandleMsgBusStatus] [] [].

Definition bus_message (j : json) : recv :=
  RecvMessage [mk_frame "RUNTIME" None; mk_frame "" (Some j)].

Lemma on_server_returns m s a h :
  run m (api_server s) = (a, Returns h) →
  run (on_server m) s = (mk_api_state a (api_package s), Returns (Answer h)).
Proof. unfold run at 2, on_server. by intros ->. Qed.

(** A status and an update on the bus: the status is stored. *)
Lemma api_receives (st st' : Status) (up : Update) e1 e2 sender sender' sh :
  NewEnvelope sender st = inl e1 → NewEnvelope sender up = inl e2 → carries sender' st' (wire e1) →
  ∃ a, range [bus_message (MarshalEnvelope e1); bus_message (MarshalEnvelope e2)]
         (run_iteration api_subscriber "RUNTIME") sh
       = (mk_shared a (confirmationHandlers sh) (received sh), Next ()) ∧
    api_pusher a = api_pusher (user sh) ∧
    ∀ tag, points a !! tag = match last_point tag (Measurements st') with
                             | Some p => Some p | None => points (user sh) !! tag end.
Proof.
  intros H1 H2 Hc. destruct (status_stored sender' st' (wire e1) (user sh) Hc) as (a & Hs & Hp & Hl).
  exists a. split; [|done]. unfold bus_message. cbn [range].
  erewrite bind_next.
  2: { rewrite received_envelope, (dispatch_status _ _ _ _ _ H1).
       cbn [statusHandlers api_subscriber range].
       erewrite bind_next by (apply on_user_returns, Hs). reflexivity. }
  erewrite bind_next; [reflexivity|].
  rewrite received_envelope. by rewrite (dispatch_update _ _ _ _ _ H2).
Qed.

Section requests.
Context `{MuxLaws}.

Lemma match_template template segments path :
  tail (Split template (Ascii.ascii_of_N 47)) = segments → forallb clean_segment path = true →
  match_path template path = match_segments segments path.
Proof. intros <-. apply match_clean. Qed.

Lemma routed method path :
  forallb clean_segment path = true → dispatch_request api_routes method path = api_table method path.
Proof.
  intros Hc. unfold api_routes. rewrite !first_match. cbn [r_template r_handler r_method].
  rewrite (match_template "/query" ["query"]), (match_template "/query/ws" ["query"; "ws"]),
    (match_template "/query/{tag}" ["query"; "{tag}"]), (match_template "/write" ["write"]),
    (match_template "/write/{tag}/{value}" ["write"; "{tag}"; "{value}"]),
    (match_template "/modules" ["modules"]), (match_template "/modules/{name}" ["modules"; "{name}"])
    by done.
  unfold api_table. destruct path as [|a [|b [|c [|d path]]]]; cbn -[String.eqb].
  all: repeat (match goal with |- context [String.eqb ?x ?y] => destruct (String.eqb_spec x y); subst end;
    cbn -[String.eqb]; try done).
Qed.

(** A write over HTTP, and what it pushes. *)
Lemma http_write_published LookPath ord s tag value body f :
  forallb clean_segment [tag; value] = true → ParseFloat value = (f, None) → is_finite f = true →
  (∀ k, send_ok (api_pusher (api_server s)) k = true) →
  ∃ e1 e2 s1, run (api_request LookPath ord "POST" ["write"; tag; value] body) s
      = (s1, Returns (Answer (no_body 204))) ∧
    NewEnvelope "cpu-api" (mk_Status [mk_Point tag f 0]) = inl e1 ∧
    NewEnvelope "cpu-api" (mk_Update [mk_Point tag f 0] "" "") = inl e2 ∧
    (points (api_server s1) = points (api_server s) ∧ api_package s1 = api_package s) ∧
    sent (api_pusher (api_server s1)) = sent (api_pusher (api_server s)) ++
      [("RUNTIME", BJson (MarshalEnvelope e1)); ("RUNTIME", BJson (MarshalEnvelope e2))].
Proof.
  intros Hc Hf Hfin Hok. assert (tag ≠ "" ∧ value ≠ "") as [Ht Hv] by (split; intros ->; done).
  pose proof (write_tag (api_server s) tag value body Ht Hv) as Hw. rewrite Hf in Hw. cbv zeta in Hw.
  rewrite Hfin in Hw. destruct (Hw Hok) as (e1 & e2 & a1 & He1 & He2 & Hrun & Hpts & Hsent).
  exists e1, e2, (mk_api_state a1 (api_package s)). split_and!; try done.
  unfold api_request. rewrite routed by (simpl in *; done). by apply on_server_returns.
Qed.

(** The request for a tag that is stored. *)
Lemma tag_request LookPath ord tag body (w : api_state) p j :
  clean_segment tag = true → points (api_server w) !! tag = Some p → enc_Point p = inl j →
  run (api_request LookPath ord "GET" ["query"; tag] body) w
    = (w, Returns (if String.eqb "ws" tag then Upgraded else Answer (mk_http 200 (BJson j)))).
Proof.
  intros Hc Hp Hj. unfold api_request. rewrite routed by (simpl; by rewrite Hc). cbn -[String.eqb].
  destruct (String.eqb "ws" tag); [done|]. destruct w as [a q].
  apply (on_server_returns _ (mk_api_state a q) a). unfold var. rewrite lookup_singleton_eq.
  change (default "" (Some tag)) with tag. cbn [api_server] in *. unfold run, handleQuery. go_unfold.
  assert (tag ≠ "") as ->%String.eqb_neq by (intros ->; done). by rewrite Hp, Hj.
Qed.

(** The request for a tag that is not stored. *)
Lemma tag_unknown LookPath ord tag body (w : api_state) :
  clean_segment tag = true → tag ≠ "ws" → points (api_server w) !! tag = None →
  run (api_request LookPath ord "GET" ["query"; tag] body) w = (w, Returns (Answer (no_body 400))).
Proof.
  intros Hc Hws Hp. unfold api_request. rewrite routed by (simpl; by rewrite Hc). cbn -[String.eqb].
  apply not_eq_sym, String.eqb_neq in Hws as ->. destruct w as [a q].
  apply (on_server_returns _ (mk_api_state a q) a). unfold var. rewrite lookup_singleton_eq.
  change (default "" (Some tag)) with tag. cbn [api_server] in *. unfold run, handleQuery. go_unfold.
  assert (tag ≠ "") as ->%String.eqb_neq by (intros ->; done). by rewrite Hp.
Qed.
End requests.

(** ** Properties *)

(** The process of a server that listens in the way [l]. *)
Definition serving `{TLS} (b : bus) (l : listener) : api_process :=
  mk_api_process (mk_APIServer ∅ b) api_subscriber (Some l) (Some "RUNTIME").

(** How the API server comes up.  Without an endpoint there is none.  With a
    certificate and a key it serves TLS, and exactly when a CA certificate is
    configured too it asks clients for certificates, those of that file; without
    both it serves plain HTTP, whatever CA is configured.  It then receives the
    status messages of the RUNTIME topic.  A CA file that cannot be read leaves a
    server that neither listens nor receives, and a socket that cannot be made is a
    panic. *)
Theorem api_starts `{Sockets} `{TLS} (c : CPU) (pub pull : string) :
  let pub' := ModbusClient.bus_endpoint (pubEndpoint c) pub in
  let pull' := ModbusClient.bus_endpoint (pullEndpoint c) pull in
  let endpoint := apiEndpoint c in
  start_api c pub pull =
    if String.eqb endpoint "" then Returns None else
    match NewSubscriber pub', NewPusher pull' with
    | inl _, inl b =>
      Returns (Some
        (if String.eqb (apiCert c) "" || String.eqb (apiKey c) "" then
           (serving b (PlainListener endpoint), None)
         else if String.eqb (apiCACert c) "" then
           (serving b (TLSListener endpoint (apiCert c) (apiKey c) None), None)
         else match ReadFile (apiCACert c) with
         | inl ca => (serving b (TLSListener endpoint (apiCert c) (apiKey c)
             (Some (mk_tls_Config (AppendCertsFromPEM ca) RequireAndVerifyClientCert))), None)
         | inr e => (mk_api_process (mk_APIServer ∅ b) (mk_Subscriber false [] [] []) None None,
             Some (Wrapf "building config for mutual TLS: %w"
                     (Wrapf "reading CA certificate file: %w" e)))
         end))
    | _, _ => Panics PanicExplicit
    end.
Proof.
  intros pub' pull' endpoint. unfold start_api. fold pub' pull' endpoint.
  destruct (String.eqb endpoint ""); [done|].
  unfold NewAPIServer, MustNewSubscriber, MustNewPusher, run. go_unfold.
  destruct (NewSubscriber pub'); [|done]. destruct (NewPusher pull') as [b|]; [|done].
  unfold Start, buildTLSConfig. go_unfold.
  destruct (String.eqb (apiCert c) ""), (String.eqb (apiKey c) ""); try done.
  destruct (String.eqb (apiCACert c) ""); [done|]. by destruct (ReadFile (apiCACert c)).
Qed.

(** C25: a tag that is written over HTTP reads back.  Writing a finite value to a
    tag, both given as segments of the path of the request, is answered with no
    content and publishes a status and an update; when the server receives them from
    the bus it stores the value, and only that point changes.  The point it stores
    has the tag as JSON carries it, each invalid byte of it replaced.  So a tag of
    valid UTF-8 is then answered with a document of the value, unless it is [ws],
    whose route is that of the web socket; a tag of another kind, which escapes of
    the path can form, is still unknown under the name it was written by. *)
Theorem written_tag_reads_back `{MuxLaws} LookPath ord tag value body (w : api_state) f :
  forallb clean_segment [tag; value] = true →
  ParseFloat value = (f, None) → is_finite f = true →
  (∀ i, send_ok (api_pusher (api_server w)) i = true) →
  let stored := to_utf8 tag in
  ∃ st up w1,
    run (api_request LookPath ord "POST" ["write"; tag; value] body) w
      = (w1, Returns (Answer (no_body 204))) ∧
    api_package w1 = api_package w ∧
    sent (api_pusher (api_server w1)) = sent (api_pusher (api_server w)) ++
      [("RUNTIME", BJson st); ("RUNTIME", BJson up)] ∧
    ∃ a j,
      range [bus_message st; bus_message up] (run_iteration api_subscriber "RUNTIME")
        (mk_shared (api_server w1) ∅ []) = (mk_shared a ∅ [], Next ()) ∧
      points a = <[stored := mk_Point stored f 0]> (points (api_server w)) ∧
      d_Point j zero_Point = (mk_Point stored f 0, None) ∧
      let w2 := mk_api_state a (api_package w1) in
      let answer := run (api_request LookPath ord "GET" ["query"; tag] None) w2 in
      (is_utf8 tag = true →
       answer = (w2, Returns (if String.eqb "ws" tag then Upgraded else Answer (mk_http 200 (BJson j))))) ∧
      (is_utf8 tag = false → points (api_server w) !! tag = None →
       answer = (w2, Returns (Answer (no_body 400)))).
Proof.
  intros Hc Hf Hfin Hok stored. set (p := mk_Point stored f 0).
  destruct (http_write_published LookPath ord w tag value body f Hc Hf Hfin Hok)
    as (e1 & e2 & w1 & Hrun & He1 & He2 & [Hpts Hpkg] & Hsent).
  pose proof (ParseFloat_valid value) as Hval. rewrite Hf in Hval. cbn [fst] in Hval.
  exists (MarshalEnvelope e1), (MarshalEnvelope e2), w1. do 3 (split; [done|]).
  destruct (api_receives _ _ _ e1 e2 "cpu-api" _ (mk_shared (api_server w1) ∅ []) He1 He2
    (status_arrives _ _ _ _ Hval He1)) as (a & Ha & _ & Hl).
  assert (points a = <[stored := p]> (points (api_server w))) as Hpa.
  { apply map_eq. intros t. rewrite Hl. cbn [user]. rewrite Hpts. unfold last_point. cbn.
    fold stored p. destruct (String.eqb_spec stored t) as [<-|Hne]; cbn.
    - by rewrite lookup_insert_eq.
    - by rewrite lookup_insert_ne. }
  destruct (proj2 (enc_Point_ok p) Hfin) as [j Hj].
  exists a, j. split; [exact Ha|]. split; [done|]. split.
  { rewrite (d_enc_Point p j) by (done || by apply (Forall_inv (one_point_ok stored f Hval))).
    unfold arrived_Point, p, stored. cbn [Point_Tag Point_Value Point_Tstamp]. by rewrite to_utf8_twice. }
  apply andb_true_iff in Hc as [Hct _]. intros w2 answer. split; intros Hu.
  - apply is_utf8_eq in Hu. apply (tag_request _ _ _ _ _ p); [done| |done].
    cbn [w2 api_server]. rewrite Hpa. unfold stored. rewrite Hu. by rewrite lookup_insert_eq.
  - intros Hno. apply tag_unknown; [done|by intros ->|].
    cbn [w2 api_server]. rewrite Hpa, lookup_insert_ne; [done|].
    intros Hs. apply is_utf8_eq in Hs. congruence.
Qed.

(** A machine whose only certificate file holds one certificate. *)
Definition example_tls : TLS := {|
  certificate := string;
  ReadFile path := if String.eqb path "/etc/ca.pem" then inl "CA" else inr (Sentinel "no such file");
  AppendCertsFromPEM text := [text];
|}.

(** A router that is nothing but its documentation. *)
Fixpoint example_dispatch (routes : list route) (method : string) (path : list string)
  : option (api_handler * gmap string string) :=
  match routes with
  | [] => None
  | r :: routes' =>
    match (if String.eqb method (r_method r)
           then match_segments (tail (Split (r_template r) (Ascii.ascii_of_N 47))) path else None) with
    | Some vars => Some (r_handler r, vars)
    | None => example_dispatch routes' method path
    end
  end.

Definition example_mux : Mux := {|
  match_path template := match_segments (tail (Split template (Ascii.ascii_of_N 47)));
  dispatch_request := example_dispatch;
|}.

Lemma example_mux_laws : @MuxLaws example_mux.
Proof. split; [done|]. by intros []. Qed.

Definition example_server : api_state := mk_api_state (mk_APIServer ∅ (mk_bus [] 0 (λ _, true))) empty_package.

Lemma written_tag_reads_back_witness :
  (∃ w1 a j,
    run (@api_request example_mux (λ _, true) (λ m, (map_to_list m).*2) "POST"
           ["write"; "line-650632.kW"; "12.5"] None) example_server
      = (w1, Returns (Answer (no_body 204))) ∧
    run (@api_request example_mux (λ _, true) (λ m, (map_to_list m).*2) "GET"
           ["query"; "line-650632.kW"] None) (mk_api_state a (api_package w1))
      = (mk_api_state a (api_package w1), Returns (Answer (mk_http 200 (BJson j))))) ∧
  let latin := String (Ascii.ascii_of_N 181) "A" in   (* %B5A *)
  ∃ w1 a,
    run (@api_request example_mux (λ _, true) (λ m, (map_to_list m).*2) "POST"
           ["write"; latin; "12.5"] None) example_server
      = (w1, Returns (Answer (no_body 204))) ∧
    points a !! (replacement +:+ "A") = Some (mk_Point (replacement +:+ "A") (ParseFloat "12.5").1 0) ∧
    run (@api_request example_mux (λ _, true) (λ m, (map_to_list m).*2) "GET"
           ["query"; latin] None) (mk_api_state a (api_package w1))
      = (mk_api_state a (api_package w1), Returns (Answer (no_body 400))).
Proof.
  split.
  - destruct (@written_tag_reads_back example_mux example_mux_laws (λ _, true) (λ m, (map_to_list m).*2)
      "line-650632.kW" "12.5" None example_server (ParseFloat "12.5").1 eq_refl eq_refl eq_refl (λ _, eq_refl))
      as (st & up & w1 & Hw & _ & _ & a & j & _ & _ & _ & Hq & _).
    exists w1, a, j. split; [exact Hw|exact (Hq eq_refl)].
  - intros latin.
    destruct (@written_tag_reads_back example_mux example_mux_laws (λ _, true) (λ m, (map_to_list m).*2)
      latin "12.5" None example_server (ParseFloat "12.5").1 eq_refl eq_refl eq_refl (λ _, eq_refl))
      as (st & up & w1 & Hw & _ & _ & a & j & _ & Hp & _ & _ & Hq).
    exists w1, a. split; [exact Hw|]. split; [|exact (Hq eq_refl eq_refl)].
    rewrite Hp. reflexivity.
Defined.
