(* ===== verification/CpuWeb.v ===== *)
(** * cpu: the web sockets of the tag API

    [handleQueryWS], [wsReader] and [wsWriter] of [cpu/api.go]: two goroutines that
    share a connection.  The connection (gorilla websocket) is a parameter; the
    ticks of the writer and what the reader receives are events with their times,
    in nanoseconds. *)

From S2P Require Import Prelude GoFloat GoText Json Msgbus Cpu CpuApi.

Definition time_Second : Z := 1000000000.

Definition API_WS_WRITE_WAIT : Z := 10 * time_Second.
Definition API_WS_PONG_WAIT : Z := 60 * time_Second.
Definition API_WS_PING_PERIOD : Z := API_WS_PONG_WAIT * 9 / 10.
Definition API_WS_PUB_PERIOD : Z := 5 * time_Second.

Inductive ws_message := PingMessage | TextMessage (body : json).

(** A connection; [WriteMessage] is given the time at which it is called. *)
Class WebSocket := {
  Conn : Type;
  SetReadLimit : Z → Conn → Conn;
  SetReadDeadline : Z → Conn → Conn;
  SetWriteDeadline : Z → Conn → Conn;
  WriteMessage : Z → ws_message → Conn → Conn * option error;
  Close : Conn → Conn;
}.

Section session.
Context `{WebSocket}.

(** A tick of one of the writer's tickers; one of [pubTicker] with the points in
    the order in which the range over them sees them. *)
Inductive tick := PingTick | PubTick (list : list Point).

(** [if err := ws.WriteMessage(...); err != nil { return }] *)
Definition write (now : Z) (m : ws_message) : go Conn () () := λ c,
  match WriteMessage now m c with
  | (c', None) => (c', Next ())
  | (c', Some _) => (c', Return ())
  end.

(** One iteration of the loop of [wsWriter]. *)
Definition writer_tick (now : Z) (t : tick) : go Conn () () :=
  match t with
  | PingTick =>
    _ ← modify (SetWriteDeadline (now + API_WS_WRITE_WAIT));
    write now PingMessage
  | PubTick list =>
    match enc_slice enc_Point list with
    | inr _ => return_ ()
    | inl points => write now (TextMessage (JObj [("points", points)]))
    end
  end.

(** What [ReadMessage] makes of what the peer sends: a pong calls the handler, a
    message comes back to the loop, as does an error. *)
Inductive incoming := Pong | Message | ReadError.

(** A web socket: whether its goroutines still run. *)
Record session := mk_session { conn : Conn; writing : bool; reading : bool }.

(** [handleQueryWS] after the upgrade: the writer starts, and the reader sets the
    limit and its first deadline. *)
Definition handleQueryWS (now : Z) (ws : Conn) : session :=
  mk_session (SetReadDeadline (now + API_WS_PONG_WAIT) (SetReadLimit 512 ws)) true true.

(** A tick; a writer that returns closes the connection, and its tickers stop. *)
Definition wsWriter (now : Z) (t : tick) (s : session) : session :=
  if writing s then
    match writer_tick now t (conn s) with
    | (c, Next _) => mk_session c true (reading s)
    | (c, _) => mk_session (Close c) false (reading s)
    end
  else s.

Definition wsReader (now : Z) (i : incoming) (s : session) : session :=
  if reading s then
    match i with
    | Pong => mk_session (SetReadDeadline (now + API_WS_PONG_WAIT) (conn s)) (writing s) true
    | Message => s
    | ReadError => mk_session (Close (conn s)) (writing s) false
    end
  else s.
End session.

(** What the documentation says of a connection.  A deadline is an absolute time
    that stays until another is set: what is written after it fails.  What is
    written on a closed connection fails too. *)
Class WebSocketLaws `{WebSocket} := {
  closed : Conn → bool;
  read_deadline : Conn → option Z;
  write_deadline : Conn → option Z;
  limit_read n c : read_deadline (SetReadLimit n c) = read_deadline c;
  read_read t c : read_deadline (SetReadDeadline t c) = Some t;
  read_write t c : write_deadline (SetReadDeadline t c) = write_deadline c;
  write_read t c : read_deadline (SetWriteDeadline t c) = read_deadline c;
  write_write t c : write_deadline (SetWriteDeadline t c) = Some t;
  message_read now m c : read_deadline (WriteMessage now m c).1 = read_deadline c;
  message_write now m c : write_deadline (WriteMessage now m c).1 = write_deadline c;
  message_late now m c d : write_deadline c = Some d → d < now → (WriteMessage now m c).2 ≠ None;
  message_closed now m c : closed c = true → (WriteMessage now m c).2 ≠ None;
  close_closes c : closed (Close c) = true;
  closed_read t c : closed c = true → closed (SetReadDeadline t c) = true;
  closed_write t c : closed c = true → closed (SetWriteDeadline t c) = true;
  closed_message now m c : closed c = true → closed (WriteMessage now m c).1 = true;
}.

(** ** A session as a run of events *)

Section runs.
Context `{WebSocketLaws}.

Inductive ws_event := Tick (t : tick) | Incoming (i : incoming).

(** After its deadline or when the connection is closed a read gives an error. *)
Definition receives (now : Z) (c : Conn) : Prop :=
  closed c = false ∧ match read_deadline c with Some d => now ≤ d | None => True end.

Inductive ws_step : Z * ws_event → session → session → Prop :=
| step_tick now t s : ws_step (now, Tick t) s (wsWriter now t s)
| step_incoming now i s :
    i = ReadError ∨ receives now (conn s) → ws_step (now, Incoming i) s (wsReader now i s).

Inductive ws_run : list (Z * ws_event) → session → session → Prop :=
| run_nil s : ws_run [] s s
| run_cons e evs s s1 s' : ws_step e s s1 → ws_run evs s1 s' → ws_run (e :: evs) s s'.

Definition tick_of (e : Z * ws_event) : option (Z * tick) :=
  match e.2 with Tick t => Some (e.1, t) | Incoming _ => None end.

Definition ticks : list (Z * ws_event) → list (Z * tick) := omap tick_of.

(** *** Lemmas *)

(** A property of a session and of the ticks that are still to come. *)
Lemma run_invariant (P : list (Z * tick) → session → Prop) evs s s' :
  (∀ now i l s, i = ReadError ∨ receives now (conn s) → P l s → P l (wsReader now i s)) →
  (∀ now t l s, P ((now, t) :: l) s → P l (wsWriter now t s)) →
  ws_run evs s s' → P (ticks evs) s → P [] s'.
Proof.
  intros Hr Hw Hrun. induction Hrun as [s|e evs s s1 s' Hstep Hrun IH]; [done|].
  intros HP. apply IH. destruct Hstep as [now t s|now i s Hi]; [by apply Hw|by apply Hr].
Qed.

(** A goroutine that ended closed the connection, which stays closed. *)
Definition closed_after (s : session) : Prop :=
  writing s = false ∨ reading s = false → closed (conn s) = true.

Lemma writer_tick_closed now t c : closed c = true → closed (writer_tick now t c).1 = true.
Proof.
  intros Hc. destruct t as [|l]; cbn [writer_tick].
  - go_unfold. unfold write.
    pose proof (closed_message now PingMessage _ (closed_write (now + API_WS_WRITE_WAIT) _ Hc)) as Hm.
    by destruct (WriteMessage _ _ _) as [c' [e|]].
  - destruct (enc_slice enc_Point l) as [j|e]; [|done]. unfold write.
    pose proof (closed_message now (TextMessage (JObj [("points", j)])) _ Hc) as Hm.
    by destruct (WriteMessage _ _ _) as [c' [e|]].
Qed.

Lemma wsWriter_closed now t s : closed (conn s) = true → closed (conn (wsWriter now t s)) = true.
Proof.
  intros Hc. unfold wsWriter. destruct (writing s); [|done].
  pose proof (writer_tick_closed now t _ Hc) as Hm.
  destruct (writer_tick now t (conn s)) as [c [u|u|p|]]; [done|apply close_closes..].
Qed.

Lemma wsReader_closed now i s : closed (conn s) = true → closed (conn (wsReader now i s)) = true.
Proof.
  intros Hc. unfold wsReader. destruct (reading s); [|done].
  destruct i; [by apply closed_read|done|apply close_closes].
Qed.

Lemma wsWriter_closed_after now t s : closed_after s → closed_after (wsWriter now t s).
Proof.
  intros Hs Hor. unfold wsWriter in Hor. destruct (writing s) eqn:Hw.
  - unfold wsWriter. rewrite Hw. destruct (reading s) eqn:Hr.
    + destruct (writer_tick now t (conn s)) as [c [u|u|p|]]; cbn in *; [by destruct Hor|apply close_closes..].
    + assert (closed (conn s) = true) as Hc by (apply Hs; by right).
      pose proof (writer_tick_closed now t _ Hc) as Hm.
      destruct (writer_tick now t (conn s)) as [c [u|u|p|]]; [done|apply close_closes..].
  - apply wsWriter_closed, Hs. by left.
Qed.

Lemma wsReader_closed_after now i s : closed_after s → closed_after (wsReader now i s).
Proof.
  intros Hs Hor. unfold wsReader in *. destruct (reading s) eqn:Hr.
  - destruct i; cbn in *; [|by apply Hs|apply close_closes].
    destruct Hor as [Hw|]; [|done]. apply closed_read, Hs. by left.
  - apply Hs. by right.
Qed.

(** The writer, if it still runs, has the write deadline [d], or nothing can be
    written any more. *)
Definition armed (d : Z) (s : session) : Prop :=
  writing s = true → closed (conn s) = true ∨ write_deadline (conn s) = Some d.

Lemma write_deadline_kept now m c : write_deadline (write now m c).1 = write_deadline c.
Proof.
  unfold write. pose proof (message_write now m c). by destruct (WriteMessage now m c) as [c' [e|]].
Qed.

Lemma ping_arms now s : armed (now + API_WS_WRITE_WAIT) (wsWriter now PingTick s).
Proof.
  unfold armed, wsWriter. destruct (writing s) eqn:Hw; [|congruence]. cbn [writer_tick].
  erewrite bind_next by reflexivity.
  pose proof (write_deadline_kept now PingMessage (SetWriteDeadline (now + API_WS_WRITE_WAIT) (conn s))) as Hd.
  rewrite write_write in Hd.
  destruct (write now PingMessage _) as [c [u|u|p|]]; cbn in *; [by right|discriminate..].
Qed.

Lemma pub_keeps now l d s : armed d s → armed d (wsWriter now (PubTick l) s).
Proof.
  intros Ha. destruct (writing s) eqn:Hw; [|unfold wsWriter; by rewrite Hw].
  intros Hw'. destruct (Ha Hw) as [Hc|Hd]; [left; by apply wsWriter_closed|right].
  unfold wsWriter in *. rewrite Hw in *. cbn [writer_tick] in *.
  destruct (enc_slice enc_Point l) as [j|e]; [|done].
  pose proof (write_deadline_kept now (TextMessage (JObj [("points", j)])) (conn s)) as Hk.
  destruct (write now _ _) as [c [u|u|p|]]; [|done..]. cbn in *. congruence.
Qed.

Lemma reader_keeps now i d s : armed d s → armed d (wsReader now i s).
Proof.
  intros Ha Hw. destruct (reading s) eqn:Hr; unfold wsReader in *; rewrite Hr in *; [|by apply Ha].
  destruct i; cbn in *; [|by apply Ha|left; apply close_closes].
  destruct (Ha Hw) as [Hc|Hd]; [left; by apply closed_read|right; by rewrite read_write].
Qed.

(** A publication after the deadline ends the writer. *)
Lemma late_ends now l d s : armed d s → d < now → writing (wsWriter now (PubTick l) s) = false.
Proof.
  intros Ha Hlt. unfold wsWriter. destruct (writing s) eqn:Hw; [|done]. cbn [writer_tick].
  destruct (enc_slice enc_Point l) as [j|e]; [|done]. unfold write.
  assert ((WriteMessage now (TextMessage (JObj [("points", j)])) (conn s)).2 ≠ None) as Hm.
  { destruct (Ha Hw) as [Hc|Hd]; [by apply message_closed|by apply (message_late _ _ _ d)]. }
  by destruct (WriteMessage _ _ _) as [c [e|]].
Qed.

Definition is_pub (t : tick) : Prop := match t with PubTick _ => True | PingTick => False end.

(** How far the ticks have come: before the ping at [p], between it and the
    publication at [q], or the writer has ended. *)
Definition progress (p q : Z) (l : list (Z * tick)) (s : session) : Prop :=
  (∃ pre pubs list post, l = pre ++ (p, PingTick) :: pubs ++ (q, PubTick list) :: post ∧
     Forall (λ e, is_pub e.2) pubs) ∨
  (∃ pubs list post, l = pubs ++ (q, PubTick list) :: post ∧ Forall (λ e, is_pub e.2) pubs ∧
     armed (p + API_WS_WRITE_WAIT) s) ∨
  writing s = false.

Lemma progress_reader p q now i l s : progress p q l s → progress p q l (wsReader now i s).
Proof.
  intros [Hb|[(pubs & li & post & Hl & Hp & Ha)|Hw]]; [by left| |].
  - right; left. exists pubs, li, post. auto using reader_keeps.
  - right; right. unfold wsReader. by destruct (reading s), i.
Qed.

Lemma progress_writer p q now t l s :
  p + API_WS_WRITE_WAIT < q → progress p q ((now, t) :: l) s → progress p q l (wsWriter now t s).
Proof.
  intros Hpq [(pre & pubs & li & post & Hl & Hp)|[(pubs & li & post & Hl & Hp & Ha)|Hw]].
  - destruct pre as [|x pre]; simplify_eq/=.
    + right; left. exists pubs, li, post. auto using ping_arms.
    + left. by exists pre, pubs, li, post.
  - destruct pubs as [|x pubs]; simplify_eq/=.
    + right; right. by eapply late_ends.
    + right; left. exists pubs, li, post. apply Forall_cons in Hp as [Hx Hp].
      split_and!; [done|done|]. destruct t as [|l']; [done|by apply pub_keeps].
  - right; right. unfold wsWriter. by rewrite Hw.
Qed.

(** Nothing but a pong moves the read deadline. *)
Definition read_until (d : Z) (c : Conn) : Prop := closed c = true ∨ read_deadline c = Some d.

Lemma writer_read_until d now t s : read_until d (conn s) → read_until d (conn (wsWriter now t s)).
Proof.
  intros [Hc|Hd]; [left; by apply wsWriter_closed|]. unfold wsWriter.
  destruct (writing s); [|by right].
  assert (read_deadline (writer_tick now t (conn s)).1 = Some d) as Hk.
  { destruct t as [|l]; cbn [writer_tick].
    - go_unfold. unfold write.
      pose proof (message_read now PingMessage (SetWriteDeadline (now + API_WS_WRITE_WAIT) (conn s))) as Hm.
      rewrite write_read, Hd in Hm. by destruct (WriteMessage _ _ _) as [c' [e|]].
    - destruct (enc_slice enc_Point l) as [j|e]; [|done]. unfold write.
      pose proof (message_read now (TextMessage (JObj [("points", j)])) (conn s)) as Hm.
      rewrite Hd in Hm. by destruct (WriteMessage _ _ _) as [c' [e|]]. }
  destruct (writer_tick now t (conn s)) as [c [u|u|p|]]; [by right|left; apply close_closes..].
Qed.

Lemma run_read_until d evs s s' :
  ws_run evs s s' → (∀ now, (now, Incoming Pong) ∉ evs) →
  read_until d (conn s) → read_until d (conn s').
Proof.
  intros Hrun. induction Hrun as [s|e evs s s1 s' Hstep Hrun IH]; [done|]. intros Hno Hs.
  apply IH; [intros now Hin; apply (Hno now); by right|].
  destruct Hstep as [now t s|now i s Hi]; [by apply writer_read_until|].
  unfold wsReader. destruct (reading s); [|done].
  destruct i; [exfalso; apply (Hno now); by left|done|left; apply close_closes].
Qed.

(** ** Properties *)

(** C26: a web socket is cut off.  Only a ping sets the write deadline, ten seconds
    ahead, and the points are published every five seconds under the deadline that
    the last ping left: whatever else happens on the connection, once points are
    published more than ten seconds after a ping and before the next one, which is
    54 seconds after it, the writer has ended and the connection is closed, and
    the reader ends with what it reads next. *)
Theorem websocket_cut_off evs start ws s' pre p pubs q list post :
  ws_run evs (handleQueryWS start ws) s' →
  ticks evs = pre ++ (p, PingTick) :: pubs ++ (q, PubTick list) :: post →
  Forall (λ e, is_pub e.2) pubs → p + API_WS_WRITE_WAIT < q →
  writing s' = false ∧ closed (conn s') = true ∧
  ∀ now i s'', ws_step (now, Incoming i) s' s'' → reading s'' = false.
Proof.
  intros Hrun Hticks Hpubs Hpq.
  assert (progress p q [] s') as Hend.
  { apply (run_invariant (progress p q) _ _ _) with (3 := Hrun).
    - intros now i l s _. apply progress_reader.
    - intros now t l s. by apply progress_writer.
    - left. rewrite Hticks. by exists pre, pubs, list, post. }
  assert (closed_after s') as Hclosed.
  { apply (run_invariant (λ _, closed_after) _ _ _) with (3 := Hrun).
    - intros now i l s _. apply wsReader_closed_after.
    - intros now t l s. apply wsWriter_closed_after.
    - by intros []. }
  assert (writing s' = false) as Hw.
  { by destruct Hend as [([] & ? & ? & ? & Hl & _)|[([] & ? & ? & Hl & _)|Hw]]. }
  assert (closed (conn s') = true) as Hc by (apply Hclosed; by left). split_and!; [done|done|].
  intros now i s'' Hstep. inversion Hstep as [|? ? ? Hi]; subst. unfold wsReader.
  destruct (reading s') eqn:Hr; [|done]. destruct Hi as [->|[Hc' _]]; [done|congruence].
Qed.

(** A silent peer is dropped: without a pong nothing but an error is read more than
    60 seconds after the start, and the error ends the reader and closes the
    connection. *)
Theorem silent_peer_ends evs start ws s' :
  ws_run evs (handleQueryWS start ws) s' → (∀ now, (now, Incoming Pong) ∉ evs) →
  ∀ now i s'', ws_step (now, Incoming i) s' s'' → start + API_WS_PONG_WAIT < now →
    i = ReadError ∧ reading s'' = false.
Proof.
  intros Hrun Hno now i s'' Hstep Hnow.
  assert (read_until (start + API_WS_PONG_WAIT) (conn s')) as Hd.
  { apply (run_read_until _ _ _ _ Hrun Hno). right. apply read_read. }
  inversion Hstep as [|? ? ? Hi]; subst. destruct Hi as [->|[Hc Hr]].
  - split; [done|]. unfold wsReader. by destruct (reading s') eqn:Hrd.
  - destruct Hd as [Hd|Hd]; [congruence|]. rewrite Hd in Hr. lia.
Qed.
End runs.

(** ** A healthy connection *)

(** The connection of a peer that reads everything: what was written and when. *)
Record example_conn := mk_example_conn {
  frames : list (Z * ws_message);
  conn_write : option Z;
  conn_read : option Z;
  conn_closed : bool;
}.

Definition example_write (now : Z) (m : ws_message) (c : example_conn) : example_conn * option error :=
  let late := match conn_write c with Some d => d <? now | None => false end in
  if conn_closed c || late then (c, Some (Sentinel "i/o timeout"))
  else (mk_example_conn (frames c ++ [(now, m)]) (conn_write c) (conn_read c) false, None).

Definition example_ws : WebSocket := {|
  Conn := example_conn;
  SetReadLimit _ c := c;
  SetReadDeadline t c := mk_example_conn (frames c) (conn_write c) (Some t) (conn_closed c);
  SetWriteDeadline t c := mk_example_conn (frames c) (Some t) (conn_read c) (conn_closed c);
  WriteMessage := example_write;
  Close c := mk_example_conn (frames c) (conn_write c) (conn_read c) true;
|}.

Definition example_ws_laws : @WebSocketLaws example_ws.
Proof.
  unshelve econstructor; [exact conn_closed|exact conn_read|exact conn_write|..]; try done.
  all: intros; cbn; unfold example_write.
  - by destruct (conn_closed c), (conn_write c); simpl; try case_match.
  - destruct (conn_write c) eqn:Hd; destruct (conn_closed c); simpl; try case_match; done.
  - rewrite H. apply Z.ltb_lt in H0 as ->. by rewrite orb_true_r.
  - by rewrite H.
  - by rewrite H.
Defined.

(** The ticks of the first [n] seconds: each ticker ticks at the multiples of its
    period. *)
Definition schedule (ps : list Point) (n : nat) : list (Z * ws_event) :=
  flat_map (λ i, let t := Z.of_nat i * time_Second in
    (if t mod API_WS_PING_PERIOD =? 0 then [(t, Tick PingTick)] else []) ++
    (if t mod API_WS_PUB_PERIOD =? 0 then [(t, Tick (PubTick ps))] else [])) (seq 1%nat n).

Definition tick_run `{WebSocket} (evs : list (Z * ws_event)) (s : session) : session :=
  fold_left (λ s e, match e.2 with Tick t => wsWriter e.1 t s | Incoming _ => s end) evs s.

Lemma tick_run_run `{WebSocketLaws} evs s :
  forallb (λ e, match e.2 with Tick _ => true | Incoming _ => false end) evs = true →
  ws_run evs s (tick_run evs s).
Proof.
  revert s. induction evs as [|[now [t|i]] evs IH]; intros s Hall; [constructor| |done].
  eapply run_cons; [apply step_tick|]. by apply IH.
Qed.

(** In the first 65 seconds: the points are published twelve times, the last time
    after 60 seconds. *)
Lemma websocket_cut_off_witness :
  let s := @tick_run example_ws (schedule [mk_Point "breaker" f64_1 0] 65)
             (@handleQueryWS example_ws 0 (mk_example_conn [] None None false)) in
  map (λ f, f.1 / time_Second) (frames (conn s)) = [5; 10; 15; 20; 25; 30; 35; 40; 45; 50; 54; 55; 60] ∧
  writing s = false ∧ conn_closed (conn s) = true.
Proof.
  intros s. split; [vm_compute; reflexivity|].
  destruct (@websocket_cut_off example_ws example_ws_laws (schedule [mk_Point "breaker" f64_1 0] 65) 0
    (mk_example_conn [] None None false) s
    (map (λ i, (Z.of_nat i * API_WS_PUB_PERIOD, PubTick [mk_Point "breaker" f64_1 0])) (seq 1%nat 10%nat))
    (54 * time_Second)
    (map (λ i, (Z.of_nat i * API_WS_PUB_PERIOD, PubTick [mk_Point "breaker" f64_1 0])) (seq 11%nat 2%nat))
    (65 * time_Second) [mk_Point "breaker" f64_1 0] [])
    as (Hw & Hc & _).
  - apply (@tick_run_run example_ws example_ws_laws). vm_compute. reflexivity.
  - vm_compute. reflexivity.
  - repeat constructor.
  - reflexivity.
  - split; [exact Hw|exact Hc].
Defined.

Lemma silent_peer_ends_witness :
  ∃ s'', let s := @handleQueryWS example_ws 0 (mk_example_conn [] None None false) in
    @ws_step example_ws example_ws_laws (61 * time_Second, Incoming ReadError) s s'' ∧ reading s'' = false.
Proof.
  eexists. split; [apply step_incoming; by left|].
  eapply (@silent_peer_ends example_ws example_ws_laws [] 0 (mk_example_conn [] None None false)).
  - constructor.
  - intros now Hin. by apply not_elem_of_nil in Hin.
  - apply step_incoming. by left.
  - reflexivity.
Defined.
