(* ===== verification/CpuLogs.v ===== *)
(** * cpu: shipping the output of the modules

    [execute.go]: the goroutines that read the standard output and the standard
    error of a module, and the requests they post to Elasticsearch and Loki;
    [context.go]: the endpoints in the context.  The clock and the answers of the
    servers are outside: the code ignores the answers. *)

From stdpp Require Import pretty.
From S2P Require Import Prelude GoFloat GoText Json.

(** ** context.go *)

(** The values of the context that decide where the logs go; a key that was never
    set has no value. *)
Record log_context := mk_log_context {
  elasticEndpoint : option string;
  elasticIndex : option string;
  lokiEndpoint : option string;
}.

Definition ctxSetElasticEndpoint (v : string) (ctx : log_context) : log_context :=
  mk_log_context (Some v) (elasticIndex ctx) (lokiEndpoint ctx).
Definition ctxGetElasticEndpoint (ctx : log_context) : string := default "" (elasticEndpoint ctx).
Definition ctxSetElasticIndex (v : string) (ctx : log_context) : log_context :=
  mk_log_context (elasticEndpoint ctx) (Some v) (lokiEndpoint ctx).
Definition ctxGetElasticIndex (ctx : log_context) : string := default "" (elasticIndex ctx).
Definition ctxSetLokiEndpoint (v : string) (ctx : log_context) : log_context :=
  mk_log_context (elasticEndpoint ctx) (elasticIndex ctx) (Some v).
Definition ctxGetLokiEndpoint (ctx : log_context) : string := default "" (lokiEndpoint ctx).

(** What [Run] puts into the context of every module it starts. *)
Definition run_context (elastic index loki : string) (ctx : log_context) : log_context :=
  ctxSetLokiEndpoint loki (ctxSetElasticIndex index (ctxSetElasticEndpoint elastic ctx)).

(** ** The requests *)

(** The URLs of the clients; [None]: there is no client. *)
Definition elasticURL (ctx : log_context) : option string :=
  let e := ctxGetElasticEndpoint ctx in
  if String.eqb e "" then None else Some (e +:+ "/" +:+ ctxGetElasticIndex ctx +:+ "/_bulk").

Definition lokiURL (ctx : log_context) : option string :=
  let e := ctxGetLokiEndpoint ctx in
  if String.eqb e "" then None else Some (e +:+ "/loki/api/v1/push").

(** A line of output with the time it was read, in nanoseconds, as text. *)
Abbreviation value := (string * string)%type.

(** [strconv.ParseInt(val[0], 10, 64)], in milliseconds; errors give the value 0. *)
Definition milliseconds (ts : string) : Z := (Atoi ts).1 `quot` 1000000.

(** A key of an object, in quotes; the values are written as they are. *)
Definition quote : string := String (Ascii.ascii_of_N 34) EmptyString.
Definition key (k : string) : string := quote +:+ k +:+ quote +:+ ": ".

Definition elastic_doc (hostname name typ : string) (val : value) : string :=
  "{" +:+ key "@timestamp" +:+ pretty (milliseconds val.1) +:+ ", " +:+ key "host" +:+ hostname
    +:+ ", " +:+ key "module" +:+ name +:+ ", " +:+ key "type" +:+ typ
    +:+ ", " +:+ key "log" +:+ val.2 +:+ "}".

Definition index_line : string := "{" +:+ quote +:+ "index" +:+ quote +:+ ":{}}".

Definition newline : string := String (Ascii.ascii_of_N 10) EmptyString.

(** The lines of the request, an action and a document for every value. *)
Definition elastic_docs (hostname name typ : string) (values : list value) : list string :=
  flat_map (λ val, [index_line; elastic_doc hostname name typ val]) values.

Definition buildElasticBulk (hostname name typ : string) (values : list value) : string :=
  String.concat newline (elastic_docs hostname name typ values).

Definition buildLokiStream (hostname name typ : string) (values : list value) : json :=
  JObj [("streams", JArr [JObj [
    ("stream", JObj [("host", enc_string hostname); ("module", enc_string name);
      ("type", enc_string typ)]);
    ("values", JArr (map (λ val, JArr [enc_string val.1; enc_string val.2]) values))]])].

(** A request: where to, the content type, and what. *)
Inductive payload := Bulk (text : string) | Stream (j : json).
Record request := mk_request { to : string; content_type : string; content : payload }.

(** ** The goroutine that reads an output *)

Record reader := mk_reader {
  pending : list value;         (* values *)
  posted : list request;
  printed : list string;        (* what was logged *)
}.

Definition new_reader : reader := mk_reader [] [] [].

Section reading.
Context (hostname name : string).

(** What is posted when ten values are there. *)
Definition requests (ctx : log_context) (typ : string) (values : list value) : list request :=
  match elasticURL ctx with
  | Some url => [mk_request url "application/x-ndjson" (Bulk (buildElasticBulk hostname name typ values))]
  | None => []
  end ++
  match lokiURL ctx with
  | Some url => [mk_request url "application/json" (Stream (buildLokiStream hostname name typ values))]
  | None => []
  end.

(** The body of the loop for one line, read at [now]; [prefix] is what is printed
    before it. *)
Definition scan_line (typ prefix : string) (ctx : log_context) (now : Z) (text : string) (r : reader) : reader :=
  let line := prefix +:+ text in
  match elasticURL ctx, lokiURL ctx with
  | None, None => mk_reader (pending r) (posted r) (printed r ++ [line])
  | _, _ =>
    let values := pending r ++ [(pretty now, text)] in
    if (10 <=? length values)%nat
    then mk_reader [] (posted r ++ requests ctx typ values) (printed r ++ [line])
    else mk_reader values (posted r) (printed r ++ [line])
  end.

(** The two goroutines of a process. *)
Definition scan_stdout : log_context → Z → string → reader → reader := scan_line "log" "[LOG] ".
Definition scan_stderr : log_context → Z → string → reader → reader := scan_line "error" "[LOG] [ERROR] ".

(** [bufio.ScanLines] drops a carriage return at the end of a line; a line that
    does not fit into the buffer ends [Scan] for good. *)
Fixpoint drop_cr (s : string) : string :=
  match s with
  | EmptyString => EmptyString
  | String c EmptyString => if (code c =? 13) then EmptyString else s
  | String c s' => String c (drop_cr s')
  end.

Definition MaxScanTokenSize : nat := Z.to_nat 65536.

Fixpoint scanned (lines : list (Z * string)) : list (Z * string) :=
  match lines with
  | [] => []
  | (now, line) :: lines' =>
    if (MaxScanTokenSize <=? String.length line)%nat then [] else (now, drop_cr line) :: scanned lines'
  end.

(** All lines of an output, with the times they were read at. *)
Definition scan (typ prefix : string) (ctx : log_context) (lines : list (Z * string)) : reader :=
  foldl (λ r l, scan_line typ prefix ctx l.1 l.2 r) new_reader (scanned lines).
End reading.

(** ** Specification vocabulary *)

Definition stamped (lines : list (Z * string)) : list value := map (λ l, (pretty l.1, l.2)) lines.

Definition ships (ctx : log_context) : Prop := elasticURL ctx ≠ None ∨ lokiURL ctx ≠ None.

(** ** Lemmas *)

Section lemmas.
Context (hostname name typ prefix : string) (ctx : log_context).

(** What was read is in batches of ten that were posted and less than ten values
    that wait. *)
Lemma scan_batches lines :
  ships ctx →
  let r := foldl (λ r l, scan_line hostname name typ prefix ctx l.1 l.2 r) new_reader lines in
  ∃ batches, Forall (λ b, length b = 10%nat) batches ∧
    concat batches ++ pending r = stamped lines ∧ (length (pending r) < 10)%nat ∧
    posted r = flat_map (requests hostname name ctx typ) batches ∧
    printed r = map (λ l, prefix +:+ l.2) lines.
Proof.
  intros Hships. induction lines as [|[now text] lines IH] using rev_ind.
  { exists []. split_and!; try done. cbn. lia. }
  destruct IH as (batches & Hb & Hall & Hlt & Hpost & Hprint).
  rewrite foldl_app. cbn [foldl fst snd]. set (r := foldl _ new_reader lines) in *.
  assert (scan_line hostname name typ prefix ctx now text r =
    let values := pending r ++ [(pretty now, text)] in
    if (10 <=? length values)%nat
    then mk_reader [] (posted r ++ requests hostname name ctx typ values) (printed r ++ [prefix +:+ text])
    else mk_reader values (posted r) (printed r ++ [prefix +:+ text])) as ->.
  { unfold scan_line. destruct (elasticURL ctx) eqn:He, (lokiURL ctx) eqn:Hl; try done.
    destruct Hships; done. }
  cbv zeta. unfold stamped in *. rewrite !map_app, <- Hall, <- Hprint. cbn [map fst snd].
  destruct (Nat.leb_spec 10 (length (pending r ++ [(pretty now, text)]))) as [Hge|Hlt'].
  - exists (batches ++ [pending r ++ [(pretty now, text)]]). cbn [pending posted printed].
    split_and!; [|by rewrite concat_app, app_nil_r; cbn; rewrite app_nil_r, app_assoc|cbn; lia| |done].
    + apply Forall_app. split; [done|]. apply Forall_singleton. rewrite length_app in *. cbn in *. lia.
    + by rewrite flat_map_app, Hpost; cbn; rewrite app_nil_r.
  - exists batches. cbn [pending posted printed]. split_and!; [done|by rewrite app_assoc|done|done|done].
Qed.
End lemmas.

(** ** Theorems *)

(** C38: shipping the output of a module.  The lines read are those before the first
    that does not fit into 64 KiB, each is logged, and without a server nothing is
    kept.  With one, the requests posted are those of the first lines in batches of
    ten, to every server that is configured; the lines that are left over, their
    number modulo ten, wait in memory and are posted only if enough others follow:
    what a process printed last is never shipped. *)
Theorem logs_in_tens hostname name typ prefix ctx output :
  let r := scan hostname name typ prefix ctx output in
  let lines := scanned output in
  (∀ before long after, output = before ++ long :: after →
     (MaxScanTokenSize <= String.length long.2)%nat → (length lines <= length before)%nat) ∧
  printed r = map (λ l, prefix +:+ l.2) lines ∧
  (¬ ships ctx → pending r = [] ∧ posted r = []) ∧
  (ships ctx →
     pending r = drop (length lines / 10 * 10) (stamped lines) ∧
     (length (pending r) = length lines mod 10)%nat ∧
     ∃ batches, length batches = (length lines / 10)%nat ∧ Forall (λ b, length b = 10%nat) batches ∧
       concat batches = take (length lines / 10 * 10) (stamped lines) ∧
       posted r = flat_map (requests hostname name ctx typ) batches).
Proof.
  intros r lines.
  split.
  { intros before long after -> Hlong. subst lines. clear r. induction before as [|[now l] before IH]; cbn -[MaxScanTokenSize].
    - destruct long as [now l]. cbn [snd] in Hlong. apply Nat.leb_le in Hlong. by rewrite Hlong.
    - destruct (_ <=? _)%nat; cbn; lia. }
  unfold r, scan. fold lines. clearbody lines. clear r output.
  destruct (decide (elasticURL ctx = None ∧ lokiURL ctx = None)) as [[He Hl]|Hships].
  - assert (∀ r, pending r = [] → posted r = [] →
      let r' := foldl (λ r l, scan_line hostname name typ prefix ctx l.1 l.2 r) r lines in
      pending r' = [] ∧ posted r' = [] ∧ printed r' = printed r ++ map (λ l, prefix +:+ l.2) lines) as Hr.
    { induction lines as [|[now text] lines IH]; intros r Hp Hpo; [cbn; by rewrite app_nil_r|].
      cbn [foldl fst snd map]. unfold scan_line at 2 4 6. rewrite He, Hl.
      destruct (IH (mk_reader (pending r) (posted r) (printed r ++ [prefix +:+ text])) Hp Hpo) as (? & ? & Hpr).
      split_and!; [done|done|]. etransitivity; [exact Hpr|]. cbn. by rewrite <- app_assoc. }
    destruct (Hr new_reader eq_refl eq_refl) as (? & ? & ?). split; [done|]. split; [done|]. intros [?|?]; done.
  - assert (ships ctx) as Hs by (unfold ships; destruct (elasticURL ctx), (lokiURL ctx); naive_solver).
    destruct (scan_batches hostname name typ prefix ctx lines Hs) as (batches & Hb & Hall & Hlt & Hpost & Hprint).
    set (r := foldl _ _ lines) in *. split; [done|]. split; [done|]. intros _.
    assert (length (concat batches) = 10 * length batches)%nat as Hc.
    { clear -Hb. induction Hb as [|b bs Hb _ IH]; [done|]. cbn. rewrite length_app, Hb, IH. lia. }
    assert (length lines = 10 * length batches + length (pending r))%nat as Hlen.
    { rewrite <- Hc, <- length_app, Hall. unfold stamped. by rewrite length_map. }
    assert (length lines / 10 = length batches)%nat as Hdiv
      by (symmetry; eapply Nat.div_unique; [exact Hlt|exact Hlen]).
    assert (length lines mod 10 = length (pending r))%nat as Hmod
      by (symmetry; eapply Nat.mod_unique; [exact Hlt|exact Hlen]).
    rewrite Hdiv, Hmod, <- Hall. rewrite drop_app_length', take_app_length' by (rewrite Hc; lia).
    split_and!; [done|done|]. by exists batches.
Qed.

(** Twelve lines, of which two stay behind. *)
Definition example_context : log_context :=
  run_context "http://elastic:9200" "logs" "" (mk_log_context None None None).

Definition example_lines : list (Z * string) := map (λ i, (1700000000000000000 + Z.of_nat i, "line")) (seq 1%nat 12%nat).

Lemma logs_in_tens_witness :
  let r := scan "plc-1" "io" "log" "[LOG] " example_context example_lines in
  length (pending r) = 2%nat ∧
  ∃ batch, posted r = requests "plc-1" "io" example_context "log" batch ∧ length batch = 10%nat.
Proof.
  destruct (logs_in_tens "plc-1" "io" "log" "[LOG] " example_context example_lines) as (_ & _ & _ & Hs).
  destruct (Hs ltac:(left; discriminate)) as (_ & Hlen & batches & Hn & Hb & _ & Hp).
  split; [exact Hlen|]. destruct batches as [|b [|b2 bs]]; try discriminate.
  apply Forall_cons in Hb as [Hb _]. exists b. split; [|exact Hb].
  rewrite Hp. reflexivity.
Defined.
