(* ===== verification/Telnet.v ===== *)
(** * telnet: the command line of the device

    A telnet session runs commands: [query] and [write] read and set tags,
    [modules], [enable] and [disable] ask the CPU module over the message bus
    and wait for its confirmation.  The telnet server and its shell are a library;
    what is modelled is the module and the handler of each command, with what it
    prints.  ([telnet/telnet.go], [telnet/modules.go], [telnet/banner.go]) *)

From S2P Require Import Prelude GoFloat GoText Etree Json Msgbus.
From Stdlib Require Import Ascii.

(** [internal], the subscriber of the confirmations, is shared with its goroutine:
    see [shared Telnet]. *)
Record Telnet := mk_Telnet {
  name : string;
  endpoint : string;
  banner : string;
  tags : gmap string float64;
  pusher : bus;
}.

Definition New (name : string) : Telnet := mk_Telnet name ":23" "" ∅ (mk_bus [] 0 (λ _, true)).

Definition set_endpoint (v : string) (s : Telnet) : Telnet :=
  mk_Telnet (name s) v (banner s) (tags s) (pusher s).
Definition set_banner (v : string) (s : Telnet) : Telnet :=
  mk_Telnet (name s) (endpoint s) v (tags s) (pusher s).
Definition set_tags (v : gmap string float64) (s : Telnet) : Telnet :=
  mk_Telnet (name s) (endpoint s) (banner s) v (pusher s).
Definition set_pusher (v : bus) (s : Telnet) : Telnet :=
  mk_Telnet (name s) (endpoint s) (banner s) (tags s) v.

Definition configure_child `{Etree} (child : Element) : go Telnet (option error) () :=
  if String.eqb (ETag child) "endpoint" then modify (set_endpoint (Text child))
  else if String.eqb (ETag child) "banner" then modify (set_banner (Text child))
  else mret ().

Definition Configure `{Etree} (e : Element) : go Telnet (option error) (option error) :=
  _ ← range (ChildElements e) configure_child;
  mret None.

Definition set_point (point : Point) : go Telnet () () :=
  modify (λ s, set_tags (<[Point_Tag point := Point_Value point]> (tags s)) s).

Definition handleMsgBusStatus (env : Envelope) : go Telnet () () :=
  s ← get;
  if String.eqb (Sender env) (name s) then return_ () else
  match Envelope_Status env with
  | (_, Some _) => return_ ()
  | (status, None) => range (Measurements status) set_point
  end.

(** ** The commands *)

Definition newline : string := String (ascii_of_N 10) "".

(** What a command works on: the module and its subscriber, the rest of the
    system, and what was printed. *)
Record console (W : Type) := mk_console {
  shell : shared Telnet;
  world : W;
  stdout : string;
  stderr : string;
}.
Arguments mk_console {W}.
Arguments shell {W}.
Arguments world {W}.
Arguments stdout {W}.
Arguments stderr {W}.

(** *** banner.go *)

Definition bannerOTSim : string := "
 _______ _________     _______ _________ _______
(  ___  )\__   __/    (  ____ \\__   __/(       )
| (   ) |   ) (       | (    \/   ) (   | () () |
| |   | |   | | _____ | (_____    | |   | || || |
| |   | |   | |(_____)(_____  )   | |   | |(_)| |
| |   | |   | |             ) |   | |   | |   | |
| (___) |   | |       /\____) |___) (___| )   ( |
(_______)   )_(       \_______)\_______/|/     \|

".

Definition banners : gmap string string := {[ "default" := bannerOTSim ]}.

(** The welcome message that [Run] chooses. *)
Definition WelcomeMessage (this : Telnet) : string :=
  match banners !! banner this with
  | Some text => text
  | None => default "" (banners !! "default")
  end.

Section commands.
Context {W : Type}.
(** What happens while a command waits for the confirmation [id]: the rest of the
    system and the module move on, and either the confirmation is received
    or five seconds pass. *)
Context (await : string → W → shared Telnet → W * shared Telnet * option Confirmation).
(** The verb %s of a value that is not a string. *)
Context (verb_s : json → string).
(** The order in which [range] meets the entries of a map. *)
Context (order : ∀ {A}, gmap string A → list (string * A)).

Abbreviation cmd := (go (console W) (option error)).

Definition print {R} (text : string) : go (console W) R () :=
  modify (λ s, mk_console (shell s) (world s) (stdout s +:+ text) (stderr s)).
Definition eprint {R} (text : string) : go (console W) R () :=
  modify (λ s, mk_console (shell s) (world s) (stdout s) (stderr s +:+ text)).

(** [defer fmt.Fprintln(stdout)] *)
Definition deferred {A} (m : cmd A) : cmd A := λ s,
  match m s with
  | (s', NoFuel) => (s', NoFuel)
  | (s', c) => ((print (R:=()) newline s').1, c)
  end.

Definition this_Telnet (s : console W) : Telnet := user (shell s).

Definition set_user (t : Telnet) (s : console W) : console W :=
  mk_console (mk_shared t (confirmationHandlers (shell s)) (received (shell s)))
    (world s) (stdout s) (stderr s).

(** The construction of an envelope and its sending, which end the command with
    their errors. *)
Definition send (topic : string) (env : result Envelope) : cmd () :=
  match env with
  | inr e => return_ (Some e)
  | inl env =>
    s ← get;
    match Push topic env (pusher (this_Telnet s)) with
    | (b, None) => modify (set_user (set_pusher b (this_Telnet s)))
    | (b, Some e) => _ ← modify (set_user (set_pusher b (this_Telnet s))); return_ (Some e)
    end
  end.

Definition tag_line (tag : string) (val : float64) : string :=
  tag +:+ " = " +:+ format_f val +:+ newline.

Definition query_tag (tag : string) : cmd () :=
  s ← get;
  match tags (this_Telnet s) !! tag with
  | Some val => print (tag_line tag val)
  | None => eprint ("tag " +:+ tag +:+ " is unknown" +:+ newline)
  end.

Definition queryHandlerFunc (args : list string) : cmd (option error) := deferred (
  s ← get;
  _ ← match args with
      | [] => range (order _ (tags (this_Telnet s))) (λ tv, print (tag_line tv.1 tv.2))
      | _ => range args query_tag
      end;
  mret None).

Definition writeHandlerFunc (args : list string) : cmd (option error) := deferred (
  match args with
  | [tag; arg] =>
    match ParseFloat arg with
    | (_, Some e) =>
      _ ← eprint ("invalid value " +:+ arg +:+ newline);
      return_ (Some e)
    | (val, None) =>
      s ← get;
      let points := [mk_Point tag val 0] in
      _ ← send "RUNTIME" (NewEnvelope (name (this_Telnet s)) (mk_Status points));
      _ ← send "RUNTIME" (NewEnvelope (name (this_Telnet s)) (mk_Update points "" ""));
      _ ← print ("wrote " +:+ tag +:+ "=" +:+ format_f val +:+ newline);
      mret None
    end
  | _ =>
    _ ← eprint ("must provide two values to write function" +:+ newline);
    return_ (Some (Errorf "must provide two values to write function"))
  end).

Definition dateHandlerFunc (now : string) : cmd (option error) := deferred (
  _ ← print (now +:+ newline); mret None).

(** *** modules.go *)

Definition verb (v : json) : string := match v with JStr s => s | _ => verb_s v end.

Definition result_line (k v : string) : string := k +:+ " --> " +:+ v +:+ newline.

Definition register (id : string) : cmd () :=
  modify (λ s, mk_console (RegisterConfirmationHandler id (shell s)) (world s) (stdout s) (stderr s)).

(** The [select] on the confirmation and the timer.  After the timeout nobody
    receives from the channel any more. *)
Definition stop_receiving (id : string) (s : shared Telnet) : shared Telnet :=
  mk_shared (user s) (alter (λ _, false) id (confirmationHandlers s)) (received s).

Definition select_confirmation (id : string) : cmd (option Confirmation) :=
  s ← get;
  let '(w, sh, c) := await id (world s) (shell s) in
  let sh := match c with Some _ => sh | None => stop_receiving id sh end in
  _ ← modify (λ s, mk_console sh w (stdout s) (stderr s));
  mret c.

Definition request (id : string) (control : ModuleControl) : cmd (option Confirmation) :=
  _ ← register id;
  s ← get;
  _ ← send "INTERNAL" (NewEnvelope (name (this_Telnet s)) control);
  select_confirmation id.

Definition print_results (c : Confirmation) : cmd () :=
  range (order _ (default ∅ (Results c))) (λ kv, print (result_line kv.1 (verb kv.2))).

Definition print_errors (c : Confirmation) : cmd () :=
  range (order _ (default ∅ (Errors c))) (λ kv, eprint (result_line kv.1 kv.2)).

Definition timed_out : cmd () := eprint ("request for module list timed out" +:+ newline).

Definition modulesHandlerFunc (id : string) : cmd (option error) := deferred (
  c ← request id (mk_ModuleControl true [] [] "CPU" id);
  _ ← match c with
      | Some c => print_results c
      | None => timed_out
      end;
  mret None).

Definition answer (c : option Confirmation) : cmd () :=
  match c with
  | Some c => _ ← print_results c; print_errors c
  | None => timed_out
  end.

Definition disableModuleHandlerFunc (id : string) (args : list string) : cmd (option error) := deferred (
  match args with
  | [] =>
    _ ← eprint ("must provide at least one module to disable" +:+ newline);
    return_ (Some (Errorf "must provide at least one module to disable"))
  | _ =>
    c ← request id (mk_ModuleControl false [] args "CPU" id);
    _ ← answer c;
    mret None
  end).

Definition enableModuleHandlerFunc (id : string) (args : list string) : cmd (option error) := deferred (
  match args with
  | [] =>
    _ ← eprint ("must provide at least one module to enable" +:+ newline);
    return_ (Some (Errorf "must provide at least one module to enable"))
  | _ =>
    c ← request id (mk_ModuleControl false args [] "CPU" id);
    _ ← answer c;
    mret None
  end).

(** The handler that [Run] registers for a command, given the arguments of the
    call, an id from [uuid.NewV4] and the time. *)
Definition command (cmd_name : string) (id now : string) (args : list string)
  : option (cmd (option error)) :=
  if String.eqb cmd_name "date" then Some (dateHandlerFunc now)
  else if String.eqb cmd_name "query" then Some (queryHandlerFunc args)
  else if String.eqb cmd_name "write" then Some (writeHandlerFunc args)
  else if String.eqb cmd_name "modules" then Some (modulesHandlerFunc id)
  else if String.eqb cmd_name "disable" then Some (disableModuleHandlerFunc id args)
  else if String.eqb cmd_name "enable" then Some (enableModuleHandlerFunc id args)
  else None.
End commands.

(** ** Lemmas *)

Section laws.
Context {W : Type}.
Context (await : string → W → shared Telnet → W * shared Telnet * option Confirmation)
  (verb_s : json → string) (order : ∀ {A}, gmap string A → list (string * A)).

(** The console with [text] printed, with another bus, with what a command
    waited for. *)
Definition printed (text : string) (s : console W) : console W :=
  mk_console (shell s) (world s) (stdout s +:+ text) (stderr s).
Definition eprinted (text : string) (s : console W) : console W :=
  mk_console (shell s) (world s) (stdout s) (stderr s +:+ text).
Definition with_bus (b : bus) (s : console W) : console W := set_user (set_pusher b (this_Telnet s)) s.

(** The bus after an envelope. *)
Definition pushed (topic : string) (env : Envelope) (b : bus) : bus :=
  mk_bus (sent b ++ [(topic, BJson (MarshalEnvelope env))]) (S (sends b)) (send_ok b).

Lemma send_accepted topic env (s : console W) :
  send_ok (pusher (this_Telnet s)) (sends (pusher (this_Telnet s))) = true →
  send topic (inl env) s = (with_bus (pushed topic env (pusher (this_Telnet s))) s, Next ()).
Proof. intros Hok. unfold send. go_unfold. by rewrite Push_spec, Hok. Qed.

Lemma send_error topic e (s : console W) : send topic (inr e) s = (s, Return (Some e)).
Proof. done. Qed.

Lemma print_range {R A} (l : list A) (f : A → string) (s : console W) :
  range l (λ x, print (R:=R) (f x)) s = (printed (texts f l) s, Next ()).
Proof.
  revert s. induction l as [|x l IH]; intros s; cbn [range texts foldr].
  - unfold printed. destruct s as [sh w o e]. simpl. by rewrite string_app_nil_r.
  - erewrite bind_next by reflexivity. rewrite IH. unfold printed. simpl.
    by rewrite <- string_app_assoc.
Qed.

Lemma eprint_range {R A} (l : list A) (f : A → string) (s : console W) :
  range l (λ x, eprint (R:=R) (f x)) s = (eprinted (texts f l) s, Next ()).
Proof.
  revert s. induction l as [|x l IH]; intros s; cbn [range texts foldr].
  - unfold eprinted. destruct s as [sh w o e]. simpl. by rewrite string_app_nil_r.
  - erewrite bind_next by reflexivity. rewrite IH. unfold eprinted. simpl.
    by rewrite <- string_app_assoc.
Qed.

Lemma deferred_return {A} (m : go (console W) (option error) A) s s' r :
  m s = (s', Return r) → deferred m s = (printed newline s', Return r).
Proof. unfold deferred. by intros ->. Qed.

Lemma deferred_next {A} (m : go (console W) (option error) A) s s' a :
  m s = (s', Next a) → deferred m s = (printed newline s', Next a).
Proof. unfold deferred. by intros ->. Qed.

(** What [request] does when the message is accepted. *)
Lemma request_spec id control env s w sh c :
  let s1 := mk_console (RegisterConfirmationHandler id (shell s)) (world s) (stdout s) (stderr s) in
  let s2 := with_bus (pushed "INTERNAL" env (pusher (this_Telnet s))) s1 in
  send_ok (pusher (this_Telnet s)) (sends (pusher (this_Telnet s))) = true →
  NewEnvelope (name (this_Telnet s)) control = inl env →
  await id (world s) (shell s2) = (w, sh, c) →
  request await id control s =
    (mk_console (if c is Some _ then sh else stop_receiving id sh) w (stdout s) (stderr s), Next c).
Proof.
  intros s1 s2 Hok Henv Haw. unfold request.
  erewrite bind_next by reflexivity. fold s1. erewrite bind_next by reflexivity.
  change (name (this_Telnet s1)) with (name (this_Telnet s)). rewrite Henv.
  erewrite bind_next by (by apply send_accepted).
  change (pusher (this_Telnet s1)) with (pusher (this_Telnet s)). fold s2.
  unfold select_confirmation. erewrite bind_next by reflexivity.
  change (world s2) with (world s). rewrite Haw. by destruct c.
Qed.

Lemma set_points_all ps : ∀ t,
  range ps set_point t = (set_tags (foldl (λ m p, <[Point_Tag p := Point_Value p]> m) (tags t) ps) t, Next ()).
Proof.
  induction ps as [|p ps IH]; intros t; [by destruct t|]. cbn [range]. erewrite bind_next by reflexivity.
  rewrite IH. done.
Qed.
End laws.

(** ** Properties *)

Section properties.
Context {W : Type}.
Context (await : string → W → shared Telnet → W * shared Telnet * option Confirmation)
  (verb_s : json → string) (order : ∀ {A}, gmap string A → list (string * A)).

(** What a write command does.  It refuses every number of arguments but two
    and every value that is not a number, and fails on a NaN or an infinity,
    without sending anything.  Otherwise it publishes the value as a status and
    then as an update and says so, and every other telnet module that receives the
    status answers a query of the tag, as JSON carries it, with that value. *)
Theorem telnet_write args (s : console W) :
  let t := this_Telnet s in let b := pusher t in
  match args with
  | [tag; arg] =>
    match ParseFloat arg with
    | (_, Some e) => run (writeHandlerFunc args) s
        = (printed newline (eprinted ("invalid value " +:+ arg +:+ newline) s), Returns (Some e))
    | (v, None) =>
      if is_finite v then
        (∀ n, send_ok b n = true) →
        ∃ st up, NewEnvelope (name t) (mk_Status [mk_Point tag v 0]) = inl st ∧
          NewEnvelope (name t) (mk_Update [mk_Point tag v 0] "" "") = inl up ∧
          run (writeHandlerFunc args) s =
            (printed ("wrote " +:+ tag +:+ "=" +:+ format_f v +:+ newline +:+ newline)
               (with_bus (pushed "RUNTIME" up (pushed "RUNTIME" st b)) s), Returns None) ∧
          (∀ (s2 : console W) t2, name t2 ≠ to_utf8 (name t) →
             this_Telnet s2 = (run (handleMsgBusStatus (wire st)) t2).1 →
             run (queryHandlerFunc order [to_utf8 tag]) s2
               = (printed (tag_line (to_utf8 tag) v +:+ newline) s2, Returns None))
      else ∃ e, run (writeHandlerFunc args) s = (printed newline s, Returns (Some e))
    end
  | _ => run (writeHandlerFunc args) s
      = (printed newline (eprinted ("must provide two values to write function" +:+ newline) s),
         Returns (Some (Errorf "must provide two values to write function")))
  end.
Proof.
  intros t b. destruct args as [|tag [|arg [|x args]]]; try done.
  destruct (ParseFloat arg) as [v [e|]] eqn:Hf.
  { unfold run, writeHandlerFunc. rewrite Hf. done. }
  destruct (is_finite v) eqn:Hfin.
  - intros Hok.
    destruct (NewEnvelope_ok (name t) (mk_Status [mk_Point tag v 0])) as [st Hst]; [by repeat constructor|].
    destruct (NewEnvelope_ok (name t) (mk_Update [mk_Point tag v 0] "" "")) as [up Hup]; [by repeat constructor|].
    exists st, up. split_and!; [done|done| |].
    + unfold run, writeHandlerFunc. rewrite Hf. erewrite deferred_next.
      2: { erewrite bind_next by reflexivity. fold t. rewrite Hst, Hup.
           erewrite bind_next by (apply send_accepted; apply Hok).
           erewrite bind_next by (apply send_accepted; apply Hok).
           erewrite bind_next by reflexivity. reflexivity. }
      unfold printed, with_bus, set_user, this_Telnet, pushed. simpl.
      by rewrite <- !string_app_assoc.
    + intros s2 t2 Hn Ht2. pose proof (ParseFloat_valid arg) as Hv. rewrite Hf in Hv.
      destruct (status_arrives _ _ _ _ Hv Hst) as [Hs Hc].
      assert ((run (handleMsgBusStatus (wire st)) t2).1 = set_tags (<[to_utf8 tag := v]> (tags t2)) t2) as Hrun.
      { unfold run, handleMsgBusStatus. go_unfold. rewrite Hs. apply not_eq_sym, String.eqb_neq in Hn as ->.
        unfold Envelope_Status. by rewrite Hc. }
      unfold run, queryHandlerFunc. erewrite deferred_next.
      2: { erewrite bind_next by reflexivity. cbn [range]. unfold query_tag. go_unfold.
           rewrite Ht2, Hrun. cbn [tags set_tags]. rewrite lookup_insert_eq. reflexivity. }
      unfold printed. simpl. by rewrite <- string_app_assoc.
  - assert (¬ encodable (mk_Status [mk_Point tag v 0])) as Hbad.
    { intros Hp. apply Forall_cons in Hp as [Hp _]. simpl in Hp. congruence. }
    destruct (NewEnvelope_refused (name t) _ Hbad) as [e He]. exists e.
    unfold run, writeHandlerFunc. rewrite Hf. erewrite deferred_return; [done|].
    erewrite bind_next by reflexivity. fold t. rewrite He. by erewrite bind_return by apply send_error.
Qed.

(** The commands that ask the CPU module. *)
Definition asks (nm : string) (args : list string) : Prop :=
  nm = "modules" ∨ (nm = "enable" ∨ nm = "disable") ∧ args ≠ [].

Lemma command_asks nm id now args :
  asks nm args → ∃ control c k,
    command await verb_s order nm id now args = Some c ∧
    c = deferred (c ← request await id control; _ ← k c; mret None) ∧
    MC_Recipient control = "CPU" ∧ MC_Confirm control = id ∧
    k None = timed_out ∧ (∀ sender, ∃ env, NewEnvelope sender control = inl env).
Proof.
  intros [->|[[->| ->] Hargs]]; [..|destruct args as [|a args]; [done|]|destruct args as [|a args]; [done|]];
    (eexists _, _, _; split; [reflexivity|]; split; [reflexivity|]; split_and!; try reflexivity;
     intros sender; by apply NewEnvelope_ok).
Qed.

(** The subscriber blocks on a confirmation that nobody waits for. *)
Lemma nobody_receives {S} (sub : Subscriber S) j env conf text sh :
  ParseEnvelope j = inl env → Envelope_Conformation env = (conf, None) →
  confirmationHandlers sh !! Confirm conf = Some false →
  run_iteration sub "INTERNAL" (RecvMessage [mk_frame "INTERNAL" None; mk_frame text j]) sh = (sh, NoFuel).
Proof.
  intros Hj Hconf Hid.
  assert (Kind env = ENVELOPE_CONFIRMATION) as Hkind.
  { unfold Envelope_Conformation, Envelope_as in Hconf.
    destruct (String.eqb_spec (Kind env) (kind_of Confirmation)); [done|discriminate]. }
  unfold run_iteration. cbn [frame_text frame_json]. rewrite String.eqb_refl. cbn [negb]. rewrite Hj.
  unfold dispatch. rewrite Hkind. cbn [String.eqb Ascii.eqb Bool.eqb ENVELOPE_STATUS ENVELOPE_UPDATE
    ENVELOPE_HEALTHCHECK ENVELOPE_CONFIRMATION]. rewrite Hconf. go_unfold. by rewrite Hid.
Qed.

(** C32: one late answer ends the conversation with the CPU.  A command that
    waited in vain says so and leaves its channel registered, with nobody to
    receive from it.  When the confirmation arrives after all, the goroutine of
    the subscriber blocks for ever in sending it on: it takes no later message,
    so that no later command gets an answer. *)
Theorem late_confirmation_blocks nm id now args (s : console W) w :
  asks nm args → (∀ n, send_ok (pusher (this_Telnet s)) n = true) →
  (∀ sh, await id (world s) sh = (w, sh, None)) →
  ∃ c s', command await verb_s order nm id now args = Some c ∧ run c s = (s', Returns None) ∧
    stdout s' = stdout s +:+ newline ∧
    stderr s' = stderr s +:+ "request for module list timed out" +:+ newline ∧
    ∀ sub j env conf text later,
      ParseEnvelope j = inl env → Envelope_Conformation env = (conf, None) → Confirm conf = id →
      range (RecvMessage [mk_frame "INTERNAL" None; mk_frame text j] :: later)
        (run_iteration sub "INTERNAL") (shell s') = (shell s', NoFuel).
Proof.
  intros Hask Hok Haw.
  destruct (command_asks nm id now args Hask) as (control & c & k & Hc & -> & _ & _ & Hk & Henv).
  destruct (Henv (name (this_Telnet s))) as [env Hnew].
  pose proof (request_spec await id control env s w _ None (Hok _) Hnew (Haw _)) as Hreq.
  set (s1 := mk_console _ w _ _) in Hreq.
  exists (deferred (c ← request await id control; _ ← k c; mret None)), (printed newline
    (eprinted ("request for module list timed out" +:+ newline) s1)).
  split_and!; [exact Hc| |reflexivity|reflexivity|].
  - unfold run. erewrite deferred_next; [reflexivity|].
    erewrite bind_next by exact Hreq. rewrite Hk. reflexivity.
  - intros sub j env' conf text later Hj Hconf Hid. cbn [range].
    unfold mbind, go_bind. rewrite (nobody_receives sub j env' conf text _ Hj Hconf); [done|].
    rewrite Hid. simpl. by rewrite lookup_alter_eq, lookup_insert_eq.
Qed.
End properties.

(** *** Examples *)

Definition any_order (A : Type) (m : gmap string A) : list (string * A) := map_to_list m.

Definition session (t : Telnet) : console () := mk_console (mk_shared t ∅ []) () "" "".

Definition never (id : string) (w : ()) (sh : shared Telnet) : () * shared Telnet * option Confirmation :=
  (w, sh, None).

Lemma telnet_write_witness :
  ∃ st, NewEnvelope "telnet" (mk_Status [mk_Point "bus-692.voltage" (f64_of_Z 480) 0]) = inl st ∧
    (run (writeHandlerFunc ["bus-692.voltage"; "480"]) (session (New "telnet"))).2 = Returns None ∧
    run (queryHandlerFunc any_order ["bus-692.voltage"])
        (session (run (handleMsgBusStatus (wire st)) (New "other")).1)
      = (printed ("bus-692.voltage = 480.000000" +:+ newline +:+ newline)
           (session (run (handleMsgBusStatus (wire st)) (New "other")).1), Returns None).
Proof.
  destruct (telnet_write any_order ["bus-692.voltage"; "480"] (session (New "telnet")) (λ _, eq_refl))
    as (st & up & Hst & _ & Hrun & Hq).
  exists st. split; [exact Hst|]. split; [exact (f_equal snd Hrun)|].
  apply (Hq (session (run (handleMsgBusStatus (wire st)) (New "other")).1) (New "other"));
    [discriminate|reflexivity].
Defined.

Definition late_env : Envelope :=
  match NewEnvelope "CPU" (mk_Confirmation "id-1" (Some ∅) (Some ∅)) with
  | inl env => env
  | inr _ => zero_Envelope
  end.

Lemma late_confirmation_blocks_witness :
  ∃ c s', command never (λ _, "") any_order "modules" "id-1" "" [] = Some c ∧
    run c (session (New "telnet")) = (s', Returns None) ∧
    range [RecvMessage [mk_frame "INTERNAL" None; mk_frame "" (Some (MarshalEnvelope late_env))]]
      (run_iteration (mk_Subscriber true [] [] []) "INTERNAL") (shell s') = (shell s', NoFuel).
Proof.
  destruct (late_confirmation_blocks never (λ _, "") any_order "modules" "id-1" "" [] (session (New "telnet")) ()
    (or_introl eq_refl) (λ _, eq_refl) (λ _, eq_refl)) as (c & s' & Hc & Hrun & _ & _ & Hb).
  exists c, s'. split; [exact Hc|]. split; [exact Hrun|].
  exact (Hb (mk_Subscriber true [] [] []) (Some (MarshalEnvelope late_env)) late_env
    (mk_Confirmation "id-1" (Some ∅) (Some ∅)) "" [] eq_refl eq_refl eq_refl).
Defined.
