(* ===== verification/TelnetCpu.v ===== *)
(** * The command line and the supervisor of the modules

    The commands [modules], [enable] and [disable] of a telnet session are control
    messages for the CPU module, which answers them with confirmations: here the
    two meet over the message bus, which hands a message to its subscribers. *)

From S2P Require Import Prelude GoFloat GoText Etree Json Msgbus Telnet.
From S2P Require Cpu.
Import Cpu (cpu, internalHandler, control_loop, control_enable, control_disable, answers, list_modules).

Section link.
Context (LookPath : string → bool).
Context (sub : Subscriber Telnet).
Context (verb_s : json → string) (order : ∀ {A}, gmap string A → list (string * A)).

(** The message that was sent last, as a subscriber of [INTERNAL] gets it. *)
Definition delivered (b : bus) : option json :=
  match last (sent b) with
  | Some (topic, BJson j) => if String.eqb topic "INTERNAL" then Some j else None
  | _ => None
  end.

(** While the command waits: the CPU module handles the request, and the
    subscriber of the telnet module its answer. *)
Definition cpu_answers (id : string) (w : cpu) (sh : shared Telnet)
  : cpu * shared Telnet * option Confirmation :=
  match run (internalHandler LookPath (delivered (pusher (user sh)))) w with
  | (w', Returns None) =>
    match run_iteration sub "INTERNAL"
        (RecvMessage [mk_frame "INTERNAL" None; mk_frame "" (delivered (Cpu.pusher w'))]) sh with
    | (sh', Next _) =>
      (w', sh', match last (received sh') with
                | Some (i, c) => if String.eqb i id then Some c else None
                | None => None
                end)
    | (sh', _) => (w', sh', None)
    end
  | (w', _) => (w', sh, None)
  end.

(** ** Lemmas *)

(** The subscriber passes a confirmation on to the command that waits for it. *)
Lemma confirmation_received id conf env sender sh :
  to_utf8 (Confirm conf) = id → NewEnvelope sender conf = inl env →
  confirmationHandlers sh !! id = Some true →
  run_iteration sub "INTERNAL"
    (RecvMessage [mk_frame "INTERNAL" None; mk_frame "" (Some (MarshalEnvelope env))]) sh
  = (mk_shared (user sh) (delete id (confirmationHandlers sh)) (received sh ++ [(id, arrived conf)]),
     Next ()).
Proof.
  intros Hid Henv Hw. unfold run_iteration. cbn [frame_text frame_json].
  rewrite String.eqb_refl. cbn [negb]. rewrite parse_marshal_envelope.
  unfold dispatch. rewrite (wire_Kind _ _ _ Henv).
  cbn [String.eqb Ascii.eqb Bool.eqb ENVELOPE_STATUS ENVELOPE_UPDATE ENVELOPE_HEALTHCHECK
    ENVELOPE_CONFIRMATION kind_of Confirmation_IEnvelope].
  pose proof (wire_contents sender conf env I Henv : Envelope_Conformation (wire env) = _) as ->.
  change (Confirm (arrived conf)) with (to_utf8 (Confirm conf)). rewrite Hid.
  go_unfold. by rewrite Hw.
Qed.

(** A request to the CPU module and its answer. *)
Lemma request_answered list en dis id (s : console cpu) w1 a1 w2 a2 :
  let control := mk_ModuleControl list en dis "CPU" id in
  id ≠ "" → is_utf8 id = true → (∀ n, send_ok (pusher (this_Telnet s)) n = true) →
  control_loop (R:=option error) (control_enable LookPath)
    (if list then JStr <$> list_modules (world s) else ∅, ∅)
    (map to_utf8 en) (world s) = (w1, Next a1) →
  control_loop (R:=option error) control_disable a1 (map to_utf8 dis) w1 = (w2, Next a2) →
  (∀ n, send_ok (Cpu.pusher w2) n = true) →
  ∃ s', request cpu_answers id control s
      = (s', Next (Some (mk_Confirmation id (Some (reread Datatypes.id a2.1)) (Some (reread to_utf8 a2.2))))) ∧
    stdout s' = stdout s ∧ stderr s' = stderr s ∧
    (∃ b, world s' = Cpu.set_pusher b w2) ∧ tags (this_Telnet s') = tags (this_Telnet s) ∧
    confirmationHandlers (shell s') = delete id (confirmationHandlers (shell s)).
Proof.
  intros control Hid Hu Hok H1 H2 Hok2.
  destruct (NewEnvelope_ok (name (this_Telnet s)) control) as [env Henv]; [done|].
  destruct (Cpu.control_confirmed LookPath (world s) _ list en dis id env w1 a1 w2 a2 Hid Hu Henv H1 H2 (Hok2 _))
    as (reply & Hrun & Hreply).
  set (conf := mk_Confirmation id (Some a2.1) (Some a2.2)) in *.
  set (sh0 := shell (with_bus (pushed "INTERNAL" env (pusher (this_Telnet s)))
    (mk_console (RegisterConfirmationHandler id (shell s)) (world s) (stdout s) (stderr s)))).
  set (w' := Cpu.set_pusher _ _) in Hrun.
  set (sh' := mk_shared (user sh0) (delete id (confirmationHandlers sh0)) (received sh0 ++ [(id, arrived conf)])).
  assert (cpu_answers id (world s) sh0 = (w', sh', Some (arrived conf))) as Hans.
  { unfold cpu_answers. assert (delivered (pusher (user sh0)) = Some (MarshalEnvelope env)) as ->.
    { unfold delivered, sh0. simpl. by rewrite last_snoc. }
    rewrite Hrun. assert (delivered (Cpu.pusher w') = Some (MarshalEnvelope reply)) as ->.
    { unfold delivered, w'. simpl. by rewrite last_snoc. }
    rewrite (confirmation_received id conf reply "CPU" sh0 (proj1 (is_utf8_eq id) Hu) Hreply); [|simpl; apply lookup_insert_eq].
    fold sh'. assert (last (received sh') = Some (id, arrived conf)) as -> by apply last_snoc.
    by rewrite String.eqb_refl. }
  assert (arrived conf = mk_Confirmation id (Some (reread Datatypes.id a2.1)) (Some (reread to_utf8 a2.2))) as Harr.
  { unfold arrived, Confirmation_laws, conf. cbn [Confirm Results Errors fmap option_fmap option_map].
    by apply is_utf8_eq in Hu as ->. }
  exists (mk_console sh' w' (stdout s) (stderr s)). split_and!; [|done|done|by eexists|done|].
  - rewrite <- Harr. by rewrite (request_spec cpu_answers id control env s w' sh' (Some (arrived conf)) (Hok _) Henv Hans).
  - simpl. by rewrite delete_insert_eq.
Qed.

Lemma texts_map {A B} (f : B → string) (g : A → B) l : texts f (map g l) = texts (λ x, f (g x)) l.
Proof. induction l as [|x l IH]; [done|]. exact (f_equal (String.append (f (g x))) IH). Qed.

Lemma texts_perm_single {A} (f : string * A → string) k (v : A) :
  (∀ m, order A m ≡ₚ map_to_list m) → texts f (order A {[ k := v ]}) = f (k, v).
Proof.
  intros Ho. pose proof (Ho {[ k := v ]}) as Hp. rewrite map_to_list_singleton in Hp.
  apply Permutation_singleton_r in Hp as ->. simpl. apply string_app_nil_r.
Qed.

Lemma enable_one n m (s : cpu) :
  Cpu.modules s !! n = Some m → Cpu.m_name m = n → Cpu.canceler m = None → Cpu.initialized m = true →
  LookPath (Cpu.path m) = true →
  control_loop (R:=option error) (control_enable LookPath) (∅, ∅) [n] s =
    (Cpu.set_supervisors (Cpu.supervisors s ++ [Cpu.mk_supervisor n Cpu.Launching Cpu.NoProcess])
      (Cpu.set_modules (<[n := m]> (Cpu.modules s)) s), Next ({[ n := JStr "enabled" ]}, ∅)).
Proof.
  intros Hm Hn Hc Hi Hp. unfold control_loop, control_enable, Cpu.StartModule, Cpu.init. go_unfold.
  by rewrite Hm, Hc, Hi, Hp, Hn.
Qed.

Lemma disable_one n m c (s : cpu) :
  Cpu.modules s !! n = Some m → Cpu.m_name m = n → Cpu.canceler m = Some c → Cpu.chans s !! c = Some false →
  control_loop (R:=option error) control_disable (∅, ∅) [n] s =
    (Cpu.set_chans (<[c := true]> (Cpu.chans s)) s, Next ({[ n := JStr "disabled" ]}, ∅)).
Proof.
  intros Hm Hn Hc Ho. unfold control_loop, control_disable, Cpu.close. go_unfold.
  by rewrite Hm, Hc, Ho, Hn.
Qed.

Lemma unknown_one n (s : cpu) :
  Cpu.modules s !! n = None →
  control_loop (R:=option error) (control_enable LookPath) (∅, ∅) [n] s
    = (s, Next (∅, {[ n := "does not exist" ]})) ∧
  control_loop (R:=option error) control_disable (∅, ∅) [n] s = (s, Next (∅, {[ n := "does not exist" ]})).
Proof. intros Hm. unfold control_loop, control_enable, control_disable. go_unfold. by rewrite Hm. Qed.

(** A command that prints the results and errors of its request. *)
Lemma answer_printed (list : bool) en dis id (s : console cpu) w1 a1 w2 a2 :
  id ≠ "" → is_utf8 id = true → (∀ n, send_ok (pusher (this_Telnet s)) n = true) →
  control_loop (R:=option error) (control_enable LookPath)
    (if list then JStr <$> list_modules (world s) else ∅, ∅)
    (map to_utf8 en) (world s) = (w1, Next a1) →
  control_loop (R:=option error) control_disable a1 (map to_utf8 dis) w1 = (w2, Next a2) →
  (∀ n, send_ok (Cpu.pusher w2) n = true) →
  ∃ s' b, run (deferred (c ← request cpu_answers id (mk_ModuleControl list en dis "CPU" id);
                         _ ← answer verb_s order c; mret None)) s = (s', Returns None) ∧
    world s' = Cpu.set_pusher b w2 ∧
    stdout s' = stdout s +:+ texts (λ kv, result_line kv.1 (verb verb_s kv.2)) (order _ (reread Datatypes.id a2.1)) +:+ newline ∧
    stderr s' = stderr s +:+ texts (λ kv, result_line kv.1 kv.2) (order _ (reread to_utf8 a2.2)).
Proof.
  intros Hid Hu Hok H1 H2 Hok2.
  destruct (request_answered list en dis id s w1 a1 w2 a2 Hid Hu Hok H1 H2 Hok2)
    as (s1 & Hreq & Ho & He & (b & Hw) & _).
  eexists _, b. split; [unfold run; erewrite deferred_next; [reflexivity|]|].
  - erewrite bind_next by exact Hreq. unfold answer, print_results, print_errors.
    cbn [Results Errors default].
    erewrite bind_next; [reflexivity|].
    erewrite bind_next by apply print_range. apply eprint_range.
  - cbn [world stdout stderr printed eprinted]. rewrite Ho, He. split_and!; [done| |done].
    by rewrite <- string_app_assoc.
Qed.
End link.

(** ** Properties *)

(** C11: the command line controls the modules.  With the CPU module on the other
    side of the bus, [modules] prints the state of every module, [enable] of a
    disabled module starts its goroutine and says so, [disable] of a running
    module closes its channel and says so, and both say on the error output that
    a module does not exist; nothing else is printed, and the modules are
    otherwise as before.  The name typed is the one JSON makes of it; an id of
    [uuid] is text in UTF-8, and so are names from an XML document. *)
Theorem telnet_controls_cpu LookPath sub verb_s (order : ∀ A, gmap string A → list (string * A))
    id (s : console cpu) :
  let w := world s in
  id ≠ "" → is_utf8 id = true →
  (∀ n, send_ok (pusher (this_Telnet s)) n = true) → (∀ n, send_ok (Cpu.pusher w) n = true) →
  (∀ A m, order A m ≡ₚ map_to_list m) → Cpu.cpu_wf w →
  let says (h : go (console cpu) (option error) (option error)) out err w' :=
    ∃ s' b, run h s = (s', Returns None) ∧ world s' = Cpu.set_pusher b w' ∧
      stdout s' = stdout s +:+ out +:+ newline ∧ stderr s' = stderr s +:+ err in
  let waits := cpu_answers LookPath sub in
  (map_Forall (λ n _, is_utf8 n = true) (Cpu.modules w) →
   ∃ states, states ≡ₚ map_to_list (list_modules w) ∧
     says (modulesHandlerFunc waits verb_s order id) (texts (λ kv, result_line kv.1 kv.2) states) "" w) ∧
  (∀ typed n m, n = to_utf8 typed →
     Cpu.modules w !! n = Some m → Cpu.canceler m = None → Cpu.initialized m = true →
     LookPath (Cpu.path m) = true →
     says (enableModuleHandlerFunc waits verb_s order id [typed]) (result_line n "enabled") ""
       (Cpu.set_supervisors (Cpu.supervisors w ++ [Cpu.mk_supervisor n Cpu.Launching Cpu.NoProcess]) w)) ∧
  (∀ typed n m c, n = to_utf8 typed →
     Cpu.modules w !! n = Some m → Cpu.canceler m = Some c → Cpu.chans w !! c = Some false →
     says (disableModuleHandlerFunc waits verb_s order id [typed]) (result_line n "disabled") ""
       (Cpu.set_chans (<[c := true]> (Cpu.chans w)) w)) ∧
  (∀ typed n, n = to_utf8 typed → Cpu.modules w !! n = None →
     says (enableModuleHandlerFunc waits verb_s order id [typed]) "" (result_line n "does not exist") w ∧
     says (disableModuleHandlerFunc waits verb_s order id [typed]) "" (result_line n "does not exist") w).
Proof.
  intros w Hid Hu Hok Hok2 Hord Hwf says waits.
  assert (Hempty : ∀ A f, texts f (order A ∅) = "").
  { intros A f. pose proof (Hord A ∅) as Hp. rewrite map_to_list_empty in Hp.
    by apply Permutation_nil_r in Hp as ->. }
  split_and!.
  - intros Hnames.
    destruct (request_answered LookPath sub true [] [] id s _ _ _ _ Hid Hu Hok eq_refl eq_refl Hok2)
      as (s1 & Hreq & Ho & He & (b & Hw) & _).
    assert (reread Datatypes.id (JStr <$> list_modules w) = JStr <$> list_modules w) as Hre.
    { apply reread_id. intros n v Hv. split; [|done]. apply lookup_fmap_Some in Hv as (t & _ & Hv).
      apply (Cpu.list_modules_listed w n t Hwf) in Hv as [m Hm]. by apply is_utf8_eq, (Hnames n m). }
    pose proof (Hord _ (JStr <$> list_modules w)) as Hp. rewrite map_to_list_fmap in Hp.
    apply Permutation_map_inv in Hp as (states & Hp & Hs). exists states. split; [done|].
    eexists _, b. split; [unfold run, modulesHandlerFunc; erewrite deferred_next; [reflexivity|]|].
    + erewrite bind_next by exact Hreq. erewrite bind_next; [reflexivity|apply print_range].
    + cbn [world stdout stderr printed]. rewrite Ho, He. split_and!; [done| |by rewrite string_app_nil_r].
      cbn [Results default fst].
      match goal with |- context [order json ?x] => change x with (reread Datatypes.id (JStr <$> list_modules w)) end.
      by rewrite Hre, Hp, texts_map, <- string_app_assoc.
  - intros typed n m Hn Hm Hc Hi Hp.
    destruct (answer_printed LookPath sub verb_s order false [typed] [] id s (Cpu.set_supervisors _ _) _ _ _ Hid Hu Hok
      (eq_trans (f_equal (λ x, control_loop _ _ [x] _) (eq_sym Hn))
        (enable_one LookPath n m w Hm (Cpu.wf_names w Hwf n m Hm) Hc Hi Hp)) eq_refl Hok2)
      as (s' & b & Hrun & Hw & Ho & He).
    exists s', b. split_and!; [exact Hrun| | |].
    + rewrite Hw. unfold Cpu.set_modules. simpl. by rewrite insert_id.
    + rewrite Ho. cbn [fst]. rewrite reread_singleton, (texts_perm_single order) by done.
      by rewrite Hn, to_utf8_twice.
    + rewrite He. cbn [snd]. by rewrite reread_empty, Hempty.
  - intros typed n m c Hn Hm Hc Ho.
    destruct (answer_printed LookPath sub verb_s order false [] [typed] id s _ _ (Cpu.set_chans _ _) _ Hid Hu Hok eq_refl
      (eq_trans (f_equal (λ x, control_loop _ _ [x] _) (eq_sym Hn))
        (disable_one n m c w Hm (Cpu.wf_names w Hwf n m Hm) Hc Ho)) Hok2)
      as (s' & b & Hrun & Hw & Hout & He).
    exists s', b. split_and!; [exact Hrun|done| |].
    + rewrite Hout. cbn [fst]. rewrite reread_singleton, (texts_perm_single order) by done.
      by rewrite Hn, to_utf8_twice.
    + rewrite He. cbn [snd]. by rewrite reread_empty, Hempty.
  - intros typed n Hn Hno. destruct (unknown_one LookPath n w Hno) as [H1 H2].
    rewrite Hn in H1, H2.
    split; [destruct (answer_printed LookPath sub verb_s order false [typed] [] id s _ _ _ _ Hid Hu Hok H1 eq_refl Hok2)
              as (s' & b & Hrun & Hw & Ho & He)
           |destruct (answer_printed LookPath sub verb_s order false [] [typed] id s _ _ _ _ Hid Hu Hok eq_refl H2 Hok2)
              as (s' & b & Hrun & Hw & Ho & He)];
      (exists s', b; split_and!; [exact Hrun|done|by rewrite Ho; cbn [fst]; rewrite reread_empty, Hempty|]);
      rewrite He; cbn [snd]; rewrite reread_singleton, (texts_perm_single order) by done;
      rewrite Hn; by rewrite !to_utf8_twice.
Qed.

(** *** Example *)

Lemma telnet_controls_cpu_witness :
  ∃ s' b, run (disableModuleHandlerFunc (cpu_answers Cpu.all_paths (mk_Subscriber true [] [] []))
      (λ _, "") any_order "id-1" ["io"])
      (mk_console (shell (session (New "telnet"))) Cpu.busy_cpu "" "") = (s', Returns None) ∧
    world s' = Cpu.set_pusher b (Cpu.set_chans [true] Cpu.busy_cpu) ∧
    stdout s' = "io --> disabled" +:+ newline +:+ newline.
Proof.
  destruct (telnet_controls_cpu Cpu.all_paths (mk_Subscriber true [] [] []) (λ _, "") any_order "id-1"
    (mk_console (shell (session (New "telnet"))) Cpu.busy_cpu "" "") ltac:(discriminate) eq_refl
    (λ _, eq_refl) (λ _, eq_refl) (λ A m, Permutation_refl _) Cpu.busy_cpu_wf) as (_ & _ & Hdis & _).
  destruct (Hdis "io" "io" (Cpu.set_canceler (Some 0%nat) Cpu.io_module) 0%nat eq_refl eq_refl eq_refl eq_refl)
    as (s' & b & Hrun & Hw & Ho & _).
  exists s', b. split; [exact Hrun|]. split; [exact Hw|]. exact Ho.
Defined.
