(* ===== verification/Mqtt.v ===== *)
(** * mqtt: the MQTT client module

    The module publishes the values of its tags to an MQTT broker, each time a
    status message brings one or, with a period, all of them every period.  It
    connects to the first broker of its list that answers and moves on to the next
    when the connection is lost.  The MQTT library, TLS material, files, URLs,
    text templates and the clock are parameters.  ([mqtt/mqtt.go], [mqtt/types.go]) *)

From S2P Require Import Prelude GoFloat GoText Etree Json Msgbus.

(** What a payload template is executed on. *)
Record data := mk_data {
  Epoch : Z;
  Timestamp : string;
  Client : string;
  Topic : string;
  Value : float64;
}.

(** [net/url], [crypto/tls], [os], [text/template] and [time], as far as the
    module calls them. *)
Class Std := {
  URL : Type;
  url_Parse : string → result URL;
  Scheme : URL → string;
  Hostname : URL → string;
  Certificate : Type;
  LoadX509KeyPair : string → string → result Certificate;
  ReadFile : string → result string;
  CertPool : Type;
  AppendCertsFromPEM : string → option CertPool;   (* to a new pool; None: not ok *)
  Template : Type;
  template_Parse : string → result Template;
  template_Execute : Template → data → result string;
  Time : Type;
  Unix : Time → Z;
  Format : Time → string → string;
}.

Section mqtt.
Context `{Std}.

(** ** types.go *)

Record endpoint := mk_endpoint {
  url : string;
  caPath : string;
  keyPath : string;
  certPath : string;
  uri : option URL;              (* None: the nil pointer *)
  cert : option Certificate;     (* None: the zero certificate *)
  roots : option CertPool;       (* None: the nil pointer *)
  insecure : bool;
}.

Definition zero_endpoint : endpoint := mk_endpoint "" "" "" "" None None None false.

Definition set_url (v : string) (e : endpoint) : endpoint :=
  mk_endpoint v (caPath e) (keyPath e) (certPath e) (uri e) (cert e) (roots e) (insecure e).
Definition set_caPath (v : string) (e : endpoint) : endpoint :=
  mk_endpoint (url e) v (keyPath e) (certPath e) (uri e) (cert e) (roots e) (insecure e).
Definition set_keyPath (v : string) (e : endpoint) : endpoint :=
  mk_endpoint (url e) (caPath e) v (certPath e) (uri e) (cert e) (roots e) (insecure e).
Definition set_certPath (v : string) (e : endpoint) : endpoint :=
  mk_endpoint (url e) (caPath e) (keyPath e) v (uri e) (cert e) (roots e) (insecure e).
Definition set_uri (v : URL) (e : endpoint) : endpoint :=
  mk_endpoint (url e) (caPath e) (keyPath e) (certPath e) (Some v) (cert e) (roots e) (insecure e).
Definition set_cert (v : Certificate) (e : endpoint) : endpoint :=
  mk_endpoint (url e) (caPath e) (keyPath e) (certPath e) (uri e) (Some v) (roots e) (insecure e).
Definition set_roots (v : CertPool) (e : endpoint) : endpoint :=
  mk_endpoint (url e) (caPath e) (keyPath e) (certPath e) (uri e) (cert e) (Some v) (insecure e).
Definition set_insecure (v : bool) (e : endpoint) : endpoint :=
  mk_endpoint (url e) (caPath e) (keyPath e) (certPath e) (uri e) (cert e) (roots e) v.

Definition secure (scheme : string) : bool := String.eqb scheme "ssl" || String.eqb scheme "tls".

(** [endpoint.validate]; the endpoint is a copy that is dropped on an error. *)
Definition validate (this : endpoint) : result endpoint :=
  try u := wrapf "parsing endpoint URL %s: %w" (url_Parse (url this)) in
  let this := set_uri u this in
  if String.eqb (Scheme u) "" then
    inr (Errorf "endpoint URL is missing a scheme (must be tcp, ssl, or tls)")
  else if secure (Scheme u) then
    if String.eqb (certPath this) "" || String.eqb (keyPath this) "" then
      inr (Errorf "must provide 'certificate' and 'key' for MQTT module config when using ssl/tls")
    else
      try c := wrapf "loading MQTT module certificate and key: %w"
                 (LoadX509KeyPair (certPath this) (keyPath this)) in
      let this := set_cert c this in
      if String.eqb (caPath this) "" then inl this else
      try pem := wrapf "reading MQTT module CA certificate: %w" (ReadFile (caPath this)) in
      match AppendCertsFromPEM pem with
      | Some pool => inl (set_roots pool this)
      | None => inr (Errorf "failed to parse MQTT module CA certificate")
      end
  else inl this.

(** ** mqtt.go *)

(** The options of a connection. *)
Record options := mk_options {
  broker : string;
  ClientID : string;
  ServerName : string;
  RootCAs : option CertPool;
  Certificates : option (option Certificate);   (* None: no TLS *)
  InsecureSkipVerify : bool;
}.

Record MQTTClient := mk_MQTTClient {
  pubEndpoint : string;
  endpoints : list endpoint;
  period : Z;
  name : string;
  id : string;
  topics : gmap string string;
  values : gmap string float64;
  endpoint_index : nat;              (* [endpoint] *)
  client : option options;           (* the connection in use *)
  payloadTmpl : option Template;     (* None: the nil template *)
  timestampTmpl : string;
}.

Definition RFC3339 : string := "2006-01-02T15:04:05Z07:00".

(** [template.Must(template.New("payload").Parse("{{ .Value }}"))] is an argument. *)
Definition New (must : Template) (name : string) : MQTTClient :=
  mk_MQTTClient "" [] 0 name "" ∅ ∅ 0 None (Some must) RFC3339.

Definition set_pubEndpoint (v : string) (s : MQTTClient) : MQTTClient :=
  mk_MQTTClient v (endpoints s) (period s) (name s) (id s) (topics s) (values s) (endpoint_index s)
    (client s) (payloadTmpl s) (timestampTmpl s).
Definition set_endpoints (v : list endpoint) (s : MQTTClient) : MQTTClient :=
  mk_MQTTClient (pubEndpoint s) v (period s) (name s) (id s) (topics s) (values s) (endpoint_index s)
    (client s) (payloadTmpl s) (timestampTmpl s).
Definition set_period (v : Z) (s : MQTTClient) : MQTTClient :=
  mk_MQTTClient (pubEndpoint s) (endpoints s) v (name s) (id s) (topics s) (values s) (endpoint_index s)
    (client s) (payloadTmpl s) (timestampTmpl s).
Definition set_id (v : string) (s : MQTTClient) : MQTTClient :=
  mk_MQTTClient (pubEndpoint s) (endpoints s) (period s) (name s) v (topics s) (values s)
    (endpoint_index s) (client s) (payloadTmpl s) (timestampTmpl s).
Definition set_tag (tag topic : string) (s : MQTTClient) : MQTTClient :=
  mk_MQTTClient (pubEndpoint s) (endpoints s) (period s) (name s) (id s) (<[tag := topic]> (topics s))
    (<[tag := f64_0]> (values s)) (endpoint_index s) (client s) (payloadTmpl s) (timestampTmpl s).
Definition set_values (v : gmap string float64) (s : MQTTClient) : MQTTClient :=
  mk_MQTTClient (pubEndpoint s) (endpoints s) (period s) (name s) (id s) (topics s) v
    (endpoint_index s) (client s) (payloadTmpl s) (timestampTmpl s).
Definition set_endpoint_index (v : nat) (s : MQTTClient) : MQTTClient :=
  mk_MQTTClient (pubEndpoint s) (endpoints s) (period s) (name s) (id s) (topics s) (values s) v
    (client s) (payloadTmpl s) (timestampTmpl s).
Definition set_client (v : options) (s : MQTTClient) : MQTTClient :=
  mk_MQTTClient (pubEndpoint s) (endpoints s) (period s) (name s) (id s) (topics s) (values s)
    (endpoint_index s) (Some v) (payloadTmpl s) (timestampTmpl s).
Definition set_templates (v : option Template) (w : string) (s : MQTTClient) : MQTTClient :=
  mk_MQTTClient (pubEndpoint s) (endpoints s) (period s) (name s) (id s) (topics s) (values s)
    (endpoint_index s) (client s) v w.

(** *** Configuration *)

Section configure.
Context `{GoPlatform} `{Etree}.

(** The children of [<tls>] and of [<endpoint>]. *)
Definition tls_child (e : endpoint) (child : Element) : endpoint :=
  if String.eqb (ETag child) "ca" then set_caPath (Text child) e
  else if String.eqb (ETag child) "key" then set_keyPath (Text child) e
  else if String.eqb (ETag child) "certificate" then set_certPath (Text child) e
  else e.

Definition endpoint_child (e : endpoint) (child : Element) : endpoint :=
  if String.eqb (ETag child) "url" then set_url (Text child) e
  else if String.eqb (ETag child) "tls" then
    let e := set_insecure (ParseBool (SelectAttrValue child "insecure" "false")).1 e in
    foldl tls_child e (ChildElements child)
  else e.

Definition parse_endpoint (child : Element) : endpoint :=
  match ChildElements child with
  | [] => set_url (Text child) zero_endpoint
  | children => foldl endpoint_child zero_endpoint children
  end.

Definition configure_child (child : Element) : go MQTTClient (option error) () :=
  if String.eqb (ETag child) "pub-endpoint" then modify (set_pubEndpoint (Text child))
  else if String.eqb (ETag child) "endpoint" then
    modify (λ s, set_endpoints (endpoints s ++ [parse_endpoint child]) s)
  else if String.eqb (ETag child) "client-id" then modify (set_id (Text child))
  else if String.eqb (ETag child) "period" then
    match ParseDuration (Text child) with
    | inl d => modify (set_period d)
    | inr e => _ ← modify (set_period 0); return_ (Some (Wrapf "invalid period duration '%s': %w" e))
    end
  else if String.eqb (ETag child) "tag" then
    let tag := Text child in
    modify (set_tag tag (SelectAttrValue child "topic" (ReplaceAll tag "." "/")))
  else if String.eqb (ETag child) "payload-template" then
    match template_Parse (TrimSpace (Text child)) with
    | inl t => modify (λ s, set_templates (Some t) (SelectAttrValue child "timestamp" (timestampTmpl s)) s)
    | inr e =>
      _ ← modify (λ s, set_templates None (timestampTmpl s) s);
      return_ (Some (Wrapf "parsing payload template: %w" e))
    end
  else mret ().

(** [for idx, endpoint := range this.endpoints] *)
Fixpoint validate_loop (idx : nat) (es : list endpoint) : go MQTTClient (option error) () :=
  match es with
  | [] => mret ()
  | e :: es' =>
    match validate e with
    | inr err => return_ (Some (Wrapf "validating endpoint: %w" err))
    | inl e' =>
      _ ← modify (λ s, set_endpoints (<[idx := e']> (endpoints s)) s);
      validate_loop (S idx) es'
    end
  end.

Definition Configure (e : Element) : go MQTTClient (option error) (option error) :=
  _ ← range (ChildElements e) configure_child;
  s ← get;
  if String.eqb (id s) "" then
    return_ (Some (Errorf "must provide 'client-id' for MQTT module config"))
  else
    _ ← validate_loop 0 (endpoints s);
    mret None.
End configure.

(** *** Connecting *)

Section connecting.
(** Whether the broker accepts a connection. *)
Context (Connect : options → bool).

Definition tls_options (e : endpoint) (u : URL) (o : options) : options :=
  if secure (Scheme u)
  then mk_options (broker o) (ClientID o) (Hostname u) (roots e) (Some (cert e)) (insecure e)
  else o.

Definition connect {R} : go MQTTClient R (option error) :=
  s ← get;
  _ ← (if (endpoint_index s =? length (endpoints s))%nat then modify (set_endpoint_index 0) else mret ());
  s ← get;
  e ← eval (endpoints s !! endpoint_index s) PanicBounds;
  _ ← modify (set_endpoint_index (S (endpoint_index s)));
  u ← eval (uri e) PanicNil;
  let opts := tls_options e u (mk_options (url e) (id s) "" None None false) in
  _ ← modify (set_client opts);
  if Connect opts then mret None
  else mret (Some (Errorf "connecting to MQTT broker: %w")).

(** The loop of [connectAndRun]; the sleep between attempts is not modelled. *)
Fixpoint connect_loop {R} (fuel : nat) : go MQTTClient R () :=
  match fuel with
  | O => nofuel
  | S fuel' =>
    err ← connect;
    match err with
    | None => mret ()
    | Some _ => connect_loop fuel'
    end
  end.

(** [Run] up to the connection. *)
Definition start (fuel : nat) : go MQTTClient (option error) (option error) :=
  s ← get;
  if (length (endpoints s) =? 0)%nat then return_ (Some (Errorf "no MQTT broker endpoints provided"))
  else _ ← connect_loop fuel; mret None.
End connecting.

(** *** Publishing *)

Definition pdata (s : MQTTClient) (tag : string) (value : float64) (tstamp : Time) : data :=
  mk_data (Unix tstamp) (Format tstamp (timestampTmpl s)) (id s) (default "" (topics s !! tag)) value.

(** [publish]: the topic and the payload that are handed to the client; nothing if
    the template fails. *)
Definition publish (s : MQTTClient) (tag : string) (value : float64) (tstamp : Time)
  : outcome (option (string * string)) :=
  match payloadTmpl s with
  | None => Panics PanicNil
  | Some t =>
    match template_Execute t (pdata s tag value tstamp) with
    | inr _ => Returns None
    | inl payload =>
      match client s with
      | None => Panics PanicNil
      | Some _ => Returns (Some (default "" (topics s !! tag), payload))
      end
    end
  end.

(** A goroutine that executes [run], one for each connection that was made: where
    it is, and whether its context was cancelled. *)
Inductive stage := Spawned | Ticking | Done.

Record loop := mk_loop { stage_of : stage; cancelled : bool }.

(** The module with the goroutines it started that still have to publish, the
    publishing loops (the last one belongs to the last connection), and what was
    published. *)
Record running := mk_running {
  this : MQTTClient;
  pending : list (string * float64);
  loops : list loop;
  published : list (string * string);
}.

Definition set_this (t : MQTTClient) (s : running) : running :=
  mk_running t (pending s) (loops s) (published s).

(** [go this.publish(tag, value)] *)
Definition spawn {R} (tag : string) (value : float64) : go running R () :=
  modify (λ s, mk_running (this s) (pending s ++ [(tag, value)]) (loops s) (published s)).

Definition set_point {R} (point : Point) : go running R () :=
  s ← get;
  match values (this s) !! Point_Tag point with
  | None => mret ()
  | Some _ =>
    _ ← modify (set_this (set_values (<[Point_Tag point := Point_Value point]> (values (this s))) (this s)));
    if period (this s) =? 0 then spawn (Point_Tag point) (Point_Value point) else mret ()
  end.

Definition handleMsgBusStatus (env : Envelope) : go running () () :=
  s ← get;
  if String.eqb (Sender env) (name (this s)) then return_ () else
  match Envelope_Status env with
  | (_, Some _) => return_ ()
  | (status, None) => range (Measurements status) set_point
  end.

(** [<-ticker.C] in [run], with the order of the iteration. *)
Definition tick (order : list (string * float64)) : go running () () :=
  range order (λ tv, spawn tv.1 tv.2).

(** [run] up to its loop: it returns at once without a period; [time.NewTicker]
    panics on a negative one. *)
Definition set_loop {R} (i : nat) (l : loop) : go running R () :=
  modify (λ s, mk_running (this s) (pending s) (<[i := l]> (loops s)) (published s)).

Definition run_loop (i : nat) : go running () () :=
  s ← get;
  match loops s !! i with
  | Some (mk_loop Spawned c) =>
    if period (this s) =? 0 then set_loop i (mk_loop Done c)
    else if period (this s) <? 0 then panic_ PanicExplicit
    else set_loop i (mk_loop Ticking c)
  | _ => return_ ()
  end.

(** [connectAndRun]: connects, and starts the goroutine for [run]. *)
Definition connectAndRun (Connect : options → bool) (fuel : nat) : go running () () := λ s,
  let '(t, c) := connect_loop (R:=()) Connect fuel (this s) in
  (mk_running t (pending s)
     (match c with Next _ => loops s ++ [mk_loop Spawned false] | _ => loops s end)
     (published s), c).

(** [cancel()] of the [i]th connection *)
Definition cancel_loop (l : loop) : loop := mk_loop (stage_of l) true.
Definition cancel {R} (i : nat) : go running R () :=
  modify (λ s, mk_running (this s) (pending s) (alter cancel_loop i (loops s)) (published s)).

(** The handler that the options of the [i]th connection carry. *)
Definition lostConnection (Connect : options → bool) (fuel : nat) (i : nat) : go running () () :=
  _ ← cancel i; connectAndRun Connect fuel.

(** What happens to a module that is connected, until a panic ends it.  The
    goroutines to publish run in any order; a loop that was cancelled may take a
    tick before it returns; the brokers that answer may be others at every
    reconnection.  If [again], a connection can be lost more than once, the
    library having taken it up again by itself. *)
Inductive mqtt_step (again : bool) : running → running → Prop :=
| step_status env s : mqtt_step again s (run (handleMsgBusStatus env) s).1
| step_run i s s' : run (run_loop i) s = (s', Returns ()) → mqtt_step again s s'
| step_tick i c s order :
    loops s !! i = Some (mk_loop Ticking c) → order ≡ₚ map_to_list (values (this s)) →
    mqtt_step again s (run (tick order) s).1
| step_loop_ends i s :
    loops s !! i = Some (mk_loop Ticking true) →
    mqtt_step again s
      (mk_running (this s) (pending s) (<[i := mk_loop Done true]> (loops s)) (published s))
| step_publish s l1 tag value l2 tstamp p :
    pending s = l1 ++ (tag, value) :: l2 → publish (this s) tag value tstamp = Returns p →
    mqtt_step again s (mk_running (this s) (l1 ++ l2) (loops s)
      (published s ++ match p with Some p => [p] | None => [] end))
| step_lost Connect fuel i l s s' :
    loops s !! i = Some l → again = true ∨ cancelled l = false →
    run (lostConnection Connect fuel i) s = (s', Returns ()) → mqtt_step again s s'.

(** ** Specification vocabulary *)

(** What [validate] establishes. *)
Record valid_endpoint (e : endpoint) : Prop := {
  valid_uri : ∃ u, uri e = Some u ∧ url_Parse (url e) = inl u ∧ Scheme u ≠ "" ∧
    (secure (Scheme u) = true →
       (∃ c, cert e = Some c ∧ LoadX509KeyPair (certPath e) (keyPath e) = inl c) ∧
       (caPath e ≠ "" → ∃ pem, ReadFile (caPath e) = inl pem ∧ roots e = AppendCertsFromPEM pem ∧
          roots e ≠ None));
}.

(** What the configuration establishes and running keeps. *)
Record configured (s : MQTTClient) : Prop := {
  configured_id : id s ≠ "";
  configured_endpoints : Forall valid_endpoint (endpoints s);
  configured_tags : dom (topics s) = dom (values s);
  configured_template : payloadTmpl s ≠ None;
  configured_index : (endpoint_index s <= length (endpoints s))%nat;
}.

Definition endpoint_elements `{Etree} (e : Element) : list Element :=
  List.filter (λ c, String.eqb (ETag c) "endpoint") (ChildElements e).

(** The options that [connect] makes for an endpoint. *)
Definition options_of (client_id : string) (e : endpoint) : options :=
  let o := mk_options (url e) client_id "" None None false in
  match uri e with Some u => tls_options e u o | None => o end.

(** ** Lemmas *)

Lemma validate_ok e e' :
  validate e = inl e' → valid_endpoint e' ∧ url e' = url e.
Proof.
  unfold validate. destruct (url_Parse (url e)) as [u|] eqn:Hu; [|done]. cbn [wrapf result_bind].
  destruct (String.eqb_spec (Scheme u) ""); [done|].
  destruct (secure (Scheme u)) eqn:Hs.
  - destruct (String.eqb _ "" || String.eqb _ ""); [done|].
    destruct (LoadX509KeyPair _ _) as [c|] eqn:Hc; [|done]. cbn [wrapf result_bind].
    destruct (String.eqb_spec (caPath (set_cert c (set_uri u e))) "") as [Hca|Hca].
    + intros [= <-]. split; [|done]. split. exists u. split_and!; [done|done|done|].
      intros _. split; [by exists c|done].
    + destruct (ReadFile _) as [pem|] eqn:Hr; [|done]. cbn [wrapf result_bind].
      destruct (AppendCertsFromPEM pem) as [pool|] eqn:Hp; [|done].
      intros [= <-]. split; [|done]. split. exists u. split_and!; [done|done|done|].
      intros _. split; [by exists c|]. intros _. exists pem. by rewrite Hp.
  - intros [= <-]. split; [|done]. split. exists u. split_and!; [done|done|done|congruence].
Qed.

Section configuring.
Context `{GoPlatform} `{Etree}.

(** What the loop over the children keeps. *)
Record sound (s : MQTTClient) : Prop := {
  sound_tags : dom (topics s) = dom (values s);
  sound_index : endpoint_index s = 0%nat;
  sound_client : client s = None;
  sound_values t v : values s !! t = Some v → v = f64_0;
}.

Definition unvalidated (l : list Element) : list endpoint :=
  map parse_endpoint (List.filter (λ c, String.eqb (ETag c) "endpoint") l).

Lemma configure_child_sound child s :
  sound s → payloadTmpl s ≠ None →
  match configure_child child s with
  | (s', Next _) => sound s' ∧ payloadTmpl s' ≠ None ∧ endpoints s' = endpoints s ++ unvalidated [child]
  | (s', Return o) => o ≠ None
  | _ => False
  end.
Proof.
  intros [Ht Hi Hc Hv] Hp. unfold configure_child, unvalidated. cbn [List.filter map].
  assert (Hsame : ∀ f : MQTTClient → MQTTClient, endpoints (f s) = endpoints s → sound (f s) →
    payloadTmpl (f s) ≠ None →
    match modify (R:=option error) f s with
    | (s', Next _) => sound s' ∧ payloadTmpl s' ≠ None ∧ endpoints s' = endpoints s ++ []
    | (s', Return o) => o ≠ None
    | _ => False
    end) by (intros f He Hf Hpf; simpl; rewrite He, app_nil_r; done).
  destruct (String.eqb_spec (ETag child) "endpoint") as [He|He].
  { rewrite He. cbn [String.eqb Ascii.eqb Bool.eqb map]. split_and!; [by split|done|done]. }
  cbn [map]. destruct (String.eqb (ETag child) "pub-endpoint"); [by apply Hsame|].
  destruct (String.eqb (ETag child) "client-id"); [by apply Hsame|].
  destruct (String.eqb (ETag child) "period").
  { destruct (ParseDuration (Text child)); [by apply Hsame|done]. }
  destruct (String.eqb (ETag child) "tag").
  { apply Hsame; [done| |done]. split; simpl; [by rewrite !dom_insert_L, Ht|done|done|].
    intros t v [[_ <-]|[_ ?]]%lookup_insert_Some; [done|eauto]. }
  destruct (String.eqb (ETag child) "payload-template").
  { destruct (template_Parse _); [by apply Hsame|done]. }
  apply (Hsame Datatypes.id); [done|by split|done].
Qed.

Lemma configure_loop_sound l : ∀ s,
  sound s → payloadTmpl s ≠ None →
  match range l configure_child s with
  | (s', Next _) => sound s' ∧ payloadTmpl s' ≠ None ∧ endpoints s' = endpoints s ++ unvalidated l
  | (s', Return o) => o ≠ None
  | _ => False
  end.
Proof.
  induction l as [|c l IH]; intros s Hs Hp; cbn [range].
  { split_and!; [done|done|]. unfold unvalidated. simpl. by rewrite app_nil_r. }
  pose proof (configure_child_sound c s Hs Hp) as Hc. unfold mbind, go_bind.
  destruct (configure_child c s) as [s1 [a|o| |]]; try done. destruct Hc as (Hs1 & Hp1 & He1).
  pose proof (IH s1 Hs1 Hp1) as Hl. destruct (range l configure_child s1) as [s2 [?|?| |]]; try done.
  destruct Hl as (Hs2 & Hp2 & He2). split_and!; [done|done|].
  rewrite He2, He1, <- app_assoc. f_equal. unfold unvalidated. simpl.
  by destruct (String.eqb (ETag c) "endpoint").
Qed.

Lemma validate_loop_spec es : ∀ idx done_ s,
  endpoints s = done_ ++ es → idx = length done_ →
  match validate_loop idx es s with
  | (s', Next _) => ∃ es', Forall2 (λ e e', validate e = inl e') es es' ∧
      s' = set_endpoints (done_ ++ es') s
  | (s', Return o) => o ≠ None
  | _ => False
  end.
Proof.
  induction es as [|e es IH]; intros idx done_ s Hes Hidx; cbn [validate_loop].
  { exists []. split; [done|]. rewrite <- Hes. by destruct s. }
  destruct (validate e) as [e'|err] eqn:Hv; [|done].
  erewrite bind_next by reflexivity.
  assert (Hins : <[idx:=e']> (endpoints s) = (done_ ++ [e']) ++ es).
  { rewrite Hes, Hidx, insert_app_r_alt by lia. rewrite Nat.sub_diag. by rewrite <- app_assoc. }
  specialize (IH (S idx) (done_ ++ [e']) (set_endpoints (<[idx:=e']> (endpoints s)) s) Hins
    ltac:(rewrite length_app; simpl; lia)).
  destruct (validate_loop (S idx) es _) as [s' [?|?| |]]; try done.
  destruct IH as (es' & H2 & ->). exists (e' :: es'). split; [by constructor|].
  by rewrite <- app_assoc.
Qed.
End configuring.

(** *** The order of the endpoints *)

Section failover.
Context (Connect : options → bool).

(** The index of the next attempt, and the endpoints in the order of the
    attempts from there. *)
Definition next_index (s : MQTTClient) : nat :=
  if (endpoint_index s =? length (endpoints s))%nat then 0%nat else endpoint_index s.

Definition attempts (s : MQTTClient) : list endpoint :=
  drop (next_index s) (endpoints s) ++ take (next_index s) (endpoints s).

Definition accepts (s : MQTTClient) (e : endpoint) : bool := Connect (options_of (id s) e).

(** The module after an attempt. *)
Definition attempted (s : MQTTClient) (e : endpoint) : MQTTClient :=
  set_client (options_of (id s) e) (set_endpoint_index (S (next_index s)) s).

Lemma next_index_lt s :
  endpoints s ≠ [] → (endpoint_index s <= length (endpoints s))%nat →
  (next_index s < length (endpoints s))%nat.
Proof.
  intros He Hi. unfold next_index. destruct (Nat.eqb_spec (endpoint_index s) (length (endpoints s))); [|lia].
  destruct (endpoints s); [done|simpl; lia].
Qed.

Lemma connect_attempt {R} s e :
  endpoints s !! next_index s = Some e → valid_endpoint e →
  connect (R:=R) Connect s =
    (attempted s e, Next (if accepts s e then None else Some (Errorf "connecting to MQTT broker: %w"))).
Proof.
  intros He [[u (Hu & _)]]. unfold connect, next_index in *. erewrite bind_next by reflexivity.
  assert (∀ t, endpoints t = endpoints s → id t = id s →
    (s ← get; e ← eval (endpoints s !! endpoint_index s) PanicBounds;
     _ ← modify (set_endpoint_index (S (endpoint_index s)));
     u ← eval (uri e) PanicNil;
     let opts := tls_options e u (mk_options (url e) (id s) "" None None false) in
     _ ← modify (set_client opts);
     if Connect opts then mret None else mret (Some (Errorf "connecting to MQTT broker: %w"))) t =
    match endpoints s !! endpoint_index t with
    | Some e => match uri e with
      | Some u => (set_client (options_of (id s) e) (set_endpoint_index (S (endpoint_index t)) t),
          Next (if Connect (options_of (id s) e) then None else Some (Errorf "connecting to MQTT broker: %w")))
      | None => (set_endpoint_index (S (endpoint_index t)) t, Panic (R:=R) PanicNil)
      end
    | None => (t, Panic PanicBounds)
    end) as Hrest.
  { intros t Ht Hid. unfold options_of. go_unfold. rewrite Ht, Hid.
    destruct (endpoints s !! endpoint_index t) as [e0|]; [|done]. destruct (uri e0) as [u0|]; [|done].
    by destruct (Connect _). }
  unfold attempted, next_index, accepts.
  destruct (endpoint_index s =? length (endpoints s))%nat.
  - erewrite bind_next by reflexivity. rewrite Hrest by done. simpl. by rewrite He, Hu.
  - erewrite bind_next by reflexivity. rewrite Hrest by done. by rewrite He, Hu.
Qed.

Lemma attempts_head s e rest :
  endpoints s ≠ [] → (endpoint_index s <= length (endpoints s))%nat → attempts s = e :: rest →
  endpoints s !! next_index s = Some e ∧ attempts (attempted s e) = rest ++ [e] ∧
  (endpoint_index (attempted s e) <= length (endpoints s))%nat.
Proof.
  intros He Hi Ha. pose proof (next_index_lt s He Hi) as Hlt. unfold attempts in Ha.
  destruct (lookup_lt_is_Some_2 _ _ Hlt) as [e0 He0].
  rewrite (drop_S _ _ _ He0) in Ha. injection Ha as -> <-.
  split_and!; [done| |simpl; lia].
  assert (next_index (attempted s e) = if (S (next_index s) =? length (endpoints s))%nat then 0%nat
    else S (next_index s)) as Hn by done.
  unfold attempts. rewrite Hn. change (endpoints (attempted s e)) with (endpoints s).
  rewrite <- app_assoc, <- (take_S_r _ _ _ He0).
  destruct (Nat.eqb_spec (S (next_index s)) (length (endpoints s))) as [Heq|Hne]; [|done].
  by rewrite Heq, drop_0, take_0, drop_all, firstn_all, app_nil_r.
Qed.

Lemma attempts_valid s : Forall valid_endpoint (endpoints s) → Forall valid_endpoint (attempts s).
Proof. intros Hv. apply Forall_app. split; [by apply Forall_drop|by apply Forall_take]. Qed.

(** The loop ends at the first endpoint that answers. *)
Lemma connect_loop_first {R} pre : ∀ s e post fuel,
  endpoints s ≠ [] → (endpoint_index s <= length (endpoints s))%nat → Forall valid_endpoint (endpoints s) →
  attempts s = pre ++ e :: post → Forall (λ e', accepts s e' = false) pre → accepts s e = true →
  (length pre < fuel)%nat →
  ∃ j, connect_loop (R:=R) Connect fuel s = (set_client (options_of (id s) e) (set_endpoint_index j s), Next ()) ∧
    (j <= length (endpoints s))%nat ∧ endpoints s !! pred j = Some e.
Proof.
  induction pre as [|e0 pre IH]; intros s e post [|fuel] Hne Hi Hv Ha Hpre Hacc Hf; simpl in Hf; try lia;
    pose proof (Forall_inv (eq_ind _ (Forall valid_endpoint) (attempts_valid s Hv) _ Ha)) as Hve;
    destruct (attempts_head s _ _ Hne Hi Ha) as (Hlk & Hrest & Hidx); cbn [connect_loop].
  - exists (S (next_index s)). erewrite bind_next by (by apply connect_attempt). rewrite Hacc. done.
  - apply Forall_cons in Hpre as [H0 Hpre]. erewrite bind_next by (by apply connect_attempt). rewrite H0.
    destruct (IH (attempted s e0) e (post ++ [e0]) fuel) as (j & Hrun & Hj & Hlk');
      [done|exact Hidx|done|by rewrite Hrest, <- app_assoc|done|done|lia|].
    by exists j.
Qed.

(** No endpoint answers: the loop goes on for ever. *)
Lemma connect_loop_none {R} fuel : ∀ s,
  endpoints s ≠ [] → (endpoint_index s <= length (endpoints s))%nat → Forall valid_endpoint (endpoints s) →
  Forall (λ e, accepts s e = false) (endpoints s) → (connect_loop (R:=R) Connect fuel s).2 = NoFuel.
Proof.
  induction fuel as [|fuel IH]; intros s Hne Hi Hv Hrej; [done|]. cbn [connect_loop].
  pose proof (next_index_lt s Hne Hi) as Hlt. destruct (lookup_lt_is_Some_2 _ _ Hlt) as [e He].
  erewrite bind_next by (apply connect_attempt; [done|by eapply Forall_lookup_1]).
  rewrite (Forall_lookup_1 _ _ _ _ Hrej He). apply IH; [done|simpl; lia|done|done].
Qed.
End failover.

(** *** Running *)

(** The context of a loop is live: it publishes, or will when it has begun. *)
Definition live (l : loop) : bool := negb (cancelled l).

Definition count_live (ls : list loop) : nat := length (List.filter live ls).

(** A loop ticks only with a positive period, and returned only if there is none
    or its context was cancelled. *)
Definition loop_ok (period : Z) (l : loop) : Prop :=
  match stage_of l with
  | Spawned => True
  | Ticking => 0 < period
  | Done => period = 0 ∨ 0 < period ∧ cancelled l = true
  end.

(** A connected module: the context of its last loop is live, and no other is
    unless connections were lost again; the goroutines have tags of the
    configuration to publish. *)
Record well_running (again : bool) (s : running) : Prop := {
  wr_configured : configured (this s);
  wr_endpoints : endpoints (this s) ≠ [];
  wr_client : client (this s) ≠ None;
  wr_last : ∃ old st, loops s = old ++ [mk_loop st false] ∧ (again = false → count_live old = 0%nat);
  wr_loops : Forall (loop_ok (period (this s))) (loops s);
  wr_pending : Forall (λ tv : string * float64, is_Some (values (this s) !! tv.1)) (pending s);
  wr_published : Forall (λ tp : string * string, ∃ tag, topics (this s) !! tag = Some tp.1) (published s);
}.

(** What never changes. *)
Definition same_config (s s' : running) : Prop :=
  topics (this s') = topics (this s) ∧ dom (values (this s')) = dom (values (this s)) ∧
  endpoints (this s') = endpoints (this s) ∧ period (this s') = period (this s) ∧
  id (this s') = id (this s) ∧ name (this s') = name (this s) ∧ payloadTmpl (this s') = payloadTmpl (this s).

#[export] Instance same_config_preorder : PreOrder same_config.
Proof.
  split; [by intros s|]. unfold same_config. intros s1 s2 s3. intuition congruence.
Qed.

(** The state after a change of values and new goroutines. *)
Definition noted (vs : gmap string float64) (ps : list (string * float64)) (s : running) : running :=
  mk_running (set_values vs (this s)) (pending s ++ ps) (loops s) (published s).

(** What a status does to the values, and whom it makes publish. *)
Definition noted_values (m : gmap string float64) (ps : list Point) : gmap string float64 :=
  foldl (λ m p, match m !! Point_Tag p with Some _ => <[Point_Tag p := Point_Value p]> m | None => m end) m ps.

Definition to_publish (s : MQTTClient) (ps : list Point) : list (string * float64) :=
  if period s =? 0
  then omap (λ p, match values s !! Point_Tag p with Some _ => Some (Point_Tag p, Point_Value p) | None => None end) ps
  else [].

Lemma noted_values_dom m ps : dom (noted_values m ps) = dom m.
Proof.
  revert m. induction ps as [|p ps IH]; intros m; [done|]. cbn [noted_values foldl]. fold (noted_values).
  change (foldl _ ?m0 ps) with (noted_values m0 ps). rewrite IH.
  destruct (m !! Point_Tag p) eqn:Hp; [|done]. apply dom_insert_lookup_L. by eexists.
Qed.

Lemma to_publish_values s vs ps :
  dom vs = dom (values s) → to_publish (set_values vs s) ps = to_publish s ps.
Proof.
  intros Hd. unfold to_publish. cbn [period set_values values]. destruct (period s =? 0); [|done].
  apply list_omap_ext, Forall_Forall2_diag, Forall_forall. intros p _.
  assert (is_Some (vs !! Point_Tag p) ↔ is_Some (values s !! Point_Tag p)) as Hi
    by (by rewrite <- !elem_of_dom, Hd).
  destruct (vs !! Point_Tag p), (values s !! Point_Tag p); try done.
  - by destruct (proj1 Hi (ltac:(by eexists))).
  - by destruct (proj2 Hi (ltac:(by eexists))).
Qed.

Lemma noted_noted vs vs' l l' s : noted vs' l' (noted vs l s) = noted vs' (l ++ l') s.
Proof. unfold noted. simpl. by rewrite <- app_assoc. Qed.

Lemma set_points_noted {R} ps : ∀ s,
  range ps (set_point (R:=R)) s =
    (noted (noted_values (values (this s)) ps) (to_publish (this s) ps) s, Next ()).
Proof.
  induction ps as [|p ps IH]; intros s; cbn [range].
  { unfold noted, noted_values, to_publish. destruct s as [t pe l pu], t. simpl.
    destruct (_ =? 0); simpl; by rewrite app_nil_r. }
  unfold set_point at 1. destruct (values (this s) !! Point_Tag p) as [v0|] eqn:Hv.
  - set (vs := <[Point_Tag p := Point_Value p]> (values (this s))).
    assert (dom vs = dom (values (this s))) as Hd by (apply dom_insert_lookup_L; by eexists).
    assert (set_point (R:=R) p s =
      (noted vs (if period (this s) =? 0 then [(Point_Tag p, Point_Value p)] else []) s, Next ())) as Hset.
    { unfold set_point. go_unfold. rewrite Hv. unfold set_this, spawn, noted, modify. simpl. fold vs.
      destruct (period (this s) =? 0); [done|]. by rewrite app_nil_r. }
    erewrite bind_next by exact Hset. rewrite IH, noted_noted.
    change (this (noted vs _ s)) with (set_values vs (this s)).
    rewrite to_publish_values by done. f_equal. f_equal.
    + change (values (set_values vs (this s))) with vs. unfold noted_values at 2. cbn [foldl]. by rewrite Hv.
    + unfold to_publish. cbn [omap list_omap]. destruct (period (this s) =? 0); [|done]. by rewrite Hv.
  - assert (set_point (R:=R) p s = (s, Next ())) as Hset by (unfold set_point; go_unfold; by rewrite Hv).
    erewrite bind_next by exact Hset. rewrite IH. f_equal. f_equal.
    + unfold noted_values at 2. cbn [foldl]. by rewrite Hv.
    + unfold to_publish. cbn [omap list_omap]. by rewrite Hv.
Qed.

Lemma status_noted env s :
  ∃ ps, run (handleMsgBusStatus env) s =
    (noted (noted_values (values (this s)) ps) (to_publish (this s) ps) s, Returns ()) ∧
    (Sender env ≠ name (this s) → ∀ st, Envelope_Status env = (st, None) → ps = Measurements st).
Proof.
  assert (Hsame : noted (noted_values (values (this s)) []) (to_publish (this s) []) s = s).
  { unfold noted, noted_values, to_publish. destruct s as [t pe l pu], t. simpl.
    destruct (_ =? 0); simpl; by rewrite app_nil_r. }
  unfold run, handleMsgBusStatus. go_unfold.
  destruct (String.eqb_spec (Sender env) (name (this s))) as [He|He].
  { exists []. rewrite Hsame. split; [done|]. by intros. }
  destruct (Envelope_Status env) as [st [e|]].
  { exists []. rewrite Hsame. split; [done|]. by intros. }
  exists (Measurements st). rewrite set_points_noted. split; [done|]. by intros _ ? [= <-].
Qed.

Lemma tick_noted order s : run (tick order) s = (noted (values (this s)) order s, Returns ()).
Proof.
  unfold run, tick. assert (∀ s, range (R:=()) order (λ tv, spawn tv.1 tv.2) s =
    (noted (values (this s)) order s, Next ())) as ->; [|done].
  clear s. induction order as [|[t v] order IH]; intros s; cbn [range].
  - unfold noted. destruct s as [th pe l pu], th. simpl. by rewrite app_nil_r.
  - erewrite bind_next by reflexivity. rewrite IH. unfold noted. simpl. by rewrite <- app_assoc.
Qed.

(** A loop of connections keeps everything but the connection. *)
Definition reconnected (s s' : MQTTClient) : Prop :=
  ∃ j o, s' = set_client o (set_endpoint_index j s) ∧ (j <= length (endpoints s))%nat.

Lemma connect_loop_keeps {R} Connect fuel : ∀ s s' c,
  endpoints s ≠ [] → (endpoint_index s <= length (endpoints s))%nat → Forall valid_endpoint (endpoints s) →
  connect_loop (R:=R) Connect fuel s = (s', Next c) → reconnected s s'.
Proof.
  induction fuel as [|fuel IH]; intros s s' c Hne Hi Hv Hrun; [done|]. cbn [connect_loop] in Hrun.
  pose proof (next_index_lt s Hne Hi) as Hlt. destruct (lookup_lt_is_Some_2 _ _ Hlt) as [e He].
  erewrite bind_next in Hrun by (apply connect_attempt; [done|by eapply Forall_lookup_1]).
  destruct (accepts Connect s e).
  - injection Hrun as <- _. exists (S (next_index s)), (options_of (id s) e). split; [done|lia].
  - destruct (IH (attempted s e) s' c) as (j & o & -> & Hj); [done|simpl; lia|done|done|]. by exists j, o.
Qed.

Lemma connect_loop_no_return {R} Connect fuel : ∀ s s' (r : R),
  endpoints s ≠ [] → configured s → connect_loop Connect fuel s ≠ (s', Return r).
Proof.
  induction fuel as [|fuel IH]; intros s s' r Hne Hcfg; [done|]. cbn [connect_loop].
  pose proof (next_index_lt s Hne (configured_index _ Hcfg)) as Hlt.
  destruct (lookup_lt_is_Some_2 _ _ Hlt) as [e He].
  erewrite bind_next by (apply connect_attempt; [done|by eapply Forall_lookup_1, He; apply Hcfg]).
  destruct (accepts Connect s e); [done|]. apply IH; [done|]. destruct Hcfg. by split.
Qed.

Lemma reconnected_configured s s' : configured s → reconnected s s' → configured s' ∧ client s' ≠ None.
Proof. intros [? ? ? ? ?] (j & o & -> & Hj). by split; [split|]. Qed.

(** The configuration of a module and the values that messages change. *)
Lemma noted_running again vs ps s :
  dom vs = dom (values (this s)) → Forall (λ tv : string * float64, is_Some (values (this s) !! tv.1)) ps →
  well_running again s → well_running again (noted vs ps s) ∧ same_config s (noted vs ps s).
Proof.
  intros Hd Hps [[Hid Hes Htags Htm Hix] He Hc Hlast Hl Hp Hpub].
  assert (Hin : ∀ l, Forall (λ tv : string * float64, is_Some (values (this s) !! tv.1)) l →
    Forall (λ tv : string * float64, is_Some (vs !! tv.1)) l).
  { intros l Hlv. eapply Forall_impl; [exact Hlv|]. intros [t v]. by rewrite <- !elem_of_dom, Hd. }
  split; [|by split_and!]. split; try done.
  - split; try done. simpl. by rewrite Hd.
  - apply Forall_app. auto.
Qed.

Lemma to_publish_known s ps : Forall (λ tv : string * float64, is_Some (values s !! tv.1)) (to_publish s ps).
Proof.
  unfold to_publish. destruct (period s =? 0); [|done]. apply Forall_forall. intros [t v] Hin.
  apply list_elem_of_omap in Hin as (p & _ & Hp). destruct (values s !! Point_Tag p) eqn:Hv; [|done].
  injection Hp as <- <-. by eexists.
Qed.

Lemma publish_topic s tag v tstamp p :
  dom (topics s) = dom (values s) → is_Some (values s !! tag) →
  publish s tag v tstamp = Returns (Some p) → topics s !! tag = Some p.1.
Proof.
  intros Hd Ht. unfold publish. destruct (payloadTmpl s); [|done].
  destruct (template_Execute _ _); [|done]. destruct (client s); [|done]. intros [= <-]. simpl.
  assert (is_Some (topics s !! tag)) as [top Htop] by (by apply elem_of_dom; rewrite Hd; apply elem_of_dom).
  by rewrite Htop.
Qed.

(** *** Counting loops *)

Lemma alter_as_insert {A} (f : A → A) (ls : list A) i x : ls !! i = Some x → alter f i ls = <[i := f x]> ls.
Proof.
  revert i. induction ls as [|y ls IH]; intros i Hi; [done|].
  destruct i as [|i]; simpl in *; [by injection Hi as ->|]. f_equal. by apply IH.
Qed.

Lemma count_live_app l1 l2 : count_live (l1 ++ l2) = (count_live l1 + count_live l2)%nat.
Proof. unfold count_live. by rewrite List.filter_app, length_app. Qed.

Lemma count_live_split ls i l :
  ls !! i = Some l → count_live ls = (count_live (take i ls) + (if live l then 1 else 0) + count_live (drop (S i) ls))%nat.
Proof.
  intros Hl. rewrite <- (take_drop_middle ls i l Hl) at 1. rewrite count_live_app.
  unfold count_live at 2. simpl. destruct (live l); simpl; unfold count_live; lia.
Qed.

Lemma count_live_insert ls i l l' :
  ls !! i = Some l → live l' = live l → count_live (<[i := l']> ls) = count_live ls.
Proof.
  intros Hl Hll. pose proof (lookup_lt_Some _ _ _ Hl) as Hi.
  rewrite (count_live_split _ i l') by (by rewrite list_lookup_insert_eq).
  rewrite (count_live_split ls i l) by done. rewrite take_insert_ge, drop_insert_lt by lia. by rewrite Hll.
Qed.

Lemma count_live_cancel ls i l :
  ls !! i = Some l →
  count_live (alter cancel_loop i ls) = (count_live ls - (if live l then 1 else 0))%nat.
Proof.
  intros Hl. pose proof (lookup_lt_Some _ _ _ Hl) as Hi.
  rewrite (alter_as_insert cancel_loop ls i l) by done.
  rewrite (count_live_split _ i (cancel_loop l)) by (by rewrite list_lookup_insert_eq).
  rewrite (count_live_split ls i l) by done. rewrite take_insert_ge, drop_insert_lt by lia.
  unfold live at 1. simpl. destruct (live l); lia.
Qed.

Lemma count_live_zero ls i l : count_live ls = 0%nat → ls !! i = Some l → live l = false.
Proof. intros Hz Hl. rewrite (count_live_split ls i l Hl) in Hz. destruct (live l); [lia|done]. Qed.

(** Changing a loop, its context as it was. *)
Lemma last_live_insert again (ls : list loop) i l l' :
  (∃ old st, ls = old ++ [mk_loop st false] ∧ (again = false → count_live old = 0%nat)) →
  ls !! i = Some l → live l' = live l →
  ∃ old st, <[i := l']> ls = old ++ [mk_loop st false] ∧ (again = false → count_live old = 0%nat).
Proof.
  intros (old & st & -> & Hold) Hl Hll. apply lookup_app_Some in Hl as [Hl|[Hi Hl]].
  - exists (<[i := l']> old), st. rewrite insert_app_l by (by eapply lookup_lt_Some). split; [done|].
    intros Ha. rewrite (count_live_insert old i l l') by done. auto.
  - apply list_lookup_singleton_Some in Hl as [Hi0 <-]. exists old, (stage_of l').
    rewrite insert_app_r_alt by done. rewrite Hi0. split; [|done]. simpl.
    destruct l' as [st' []]; [by unfold live in Hll|done].
Qed.

(** What losing a connection does to the loops. *)
Lemma lost_loops Connect fuel i s s' :
  endpoints (this s) ≠ [] → configured (this s) →
  run (lostConnection Connect fuel i) s = (s', Returns ()) →
  reconnected (this s) (this s') ∧
  s' = mk_running (this s') (pending s) (alter cancel_loop i (loops s) ++ [mk_loop Spawned false]) (published s).
Proof.
  intros He Hcfg Hrun. unfold run, lostConnection in Hrun.
  erewrite bind_next in Hrun by reflexivity. unfold connectAndRun in Hrun. cbn [this pending loops published] in Hrun.
  destruct (connect_loop Connect fuel (this s)) as [t [u|[]| |]] eqn:Hloop; [| |done|done].
  2: { by destruct (connect_loop_no_return Connect fuel (this s) t () He Hcfg). }
  injection Hrun as <-. split; [|done].
  exact (connect_loop_keeps Connect fuel _ _ _ He (configured_index _ Hcfg) (configured_endpoints _ Hcfg) Hloop).
Qed.

Lemma lost_running again Connect fuel i l s s' :
  well_running again s → loops s !! i = Some l → again = true ∨ cancelled l = false →
  run (lostConnection Connect fuel i) s = (s', Returns ()) → well_running again s' ∧ same_config s s'.
Proof.
  intros [Hcfg He Hc (old & st & Hl & Hold) Hok Hp Hpub] Hi Hagain Hrun.
  destruct (lost_loops Connect fuel i s s' He Hcfg Hrun) as [Hre Hs'].
  destruct (reconnected_configured _ _ Hcfg Hre) as [Hcfg' Hc']. destruct Hre as (j & o & Ht & _).
  rewrite Ht in *. rewrite Hs'. split; [|by split_and!]. split; try done; cbn [this loops period set_client set_endpoint_index] in *.
  - exists (alter cancel_loop i (loops s)), Spawned. split; [done|]. intros Ha.
    destruct Hagain as [?|Hlive]; [congruence|]. rewrite (count_live_cancel _ _ l Hi).
    unfold live. rewrite Hlive, Hl, count_live_app, Hold by done. done.
  - apply Forall_app. split; [|by repeat constructor]. rewrite (alter_as_insert _ _ _ _ Hi).
    apply Forall_insert; [done|]. pose proof (Forall_lookup_1 _ _ _ _ Hok Hi) as Hlo.
    unfold loop_ok in *. simpl. destruct (stage_of l); [done|done|]. destruct Hlo as [?|[? _]]; auto.
Qed.

(** Beginning a loop. *)
Lemma run_loop_spec i s c :
  loops s !! i = Some (mk_loop Spawned c) →
  run (run_loop i) s =
    (if period (this s) <? 0 then (s, Panics PanicExplicit) else
     (mk_running (this s) (pending s)
        (<[i := mk_loop (if period (this s) =? 0 then Done else Ticking) c]> (loops s)) (published s), Returns ())).
Proof.
  intros Hl. unfold run, run_loop. go_unfold. rewrite Hl.
  destruct (Z.eqb_spec (period (this s)) 0) as [->|Hne]; [done|].
  destruct (Z.ltb_spec (period (this s)) 0); [done|]. done.
Qed.

Lemma run_loop_running again i s s' :
  well_running again s → run (run_loop i) s = (s', Returns ()) → well_running again s' ∧ same_config s s'.
Proof.
  intros [? ? ? Hlast Hok ? ?] Hrun.
  destruct (loops s !! i) as [[[] c]|] eqn:Hl; [|unfold run, run_loop in Hrun; go_unfold; rewrite Hl in Hrun; by injection Hrun as <-..].
  rewrite (run_loop_spec i s c Hl) in Hrun. destruct (Z.ltb_spec (period (this s)) 0); [done|].
  injection Hrun as <-. split; [|done]. split; try done; cbn [loops this].
  - by eapply last_live_insert.
  - apply Forall_insert; [done|]. unfold loop_ok. simpl.
    destruct (Z.eqb_spec (period (this s)) 0); simpl; [by left|lia].
Qed.

Lemma mqtt_step_running again s s' :
  mqtt_step again s s' → well_running again s → well_running again s' ∧ same_config s s'.
Proof.
  intros [env s0|i s0 s1 Hrun|i c s0 order Hl Hperm|i s0 Hl|s0 l1 tag v l2 tstamp p Hp Hpub
         |Connect fuel i l s0 s1 Hl Hagain Hrun] Hwr.
  - destruct (status_noted env s0) as (ps & -> & _).
    apply noted_running; [apply noted_values_dom|apply to_publish_known|done].
  - by eapply run_loop_running.
  - rewrite tick_noted. apply noted_running; [done| |done]. rewrite Hperm.
    apply Forall_forall. intros [t v] Hin. apply elem_of_map_to_list in Hin. by eexists.
  - split; [|done]. destruct Hwr as [? ? ? Hlast Hok ? ?]. split; try done; cbn [this loops].
    + by eapply last_live_insert.
    + apply Forall_insert; [done|]. pose proof (Forall_lookup_1 _ _ _ _ Hok Hl) as Ht. by right.
  - split; [|done]. destruct Hwr as [Hcfg ? ? ? ? Hpend Hpubs]. rewrite Hp in Hpend.
    apply Forall_app in Hpend as [Hp1 Hp2]. apply Forall_cons in Hp2 as [Ht Hp2].
    split; try done; [by apply Forall_app|]. apply Forall_app. split; [done|].
    destruct p as [p|]; [|done]. apply Forall_singleton. exists tag.
    eapply publish_topic; [apply Hcfg|exact Ht|exact Hpub].
  - by eapply lost_running.
Qed.

(** ** Properties *)

(** What a successful configuration leaves: the children were read to the end, and
    the endpoints they gave were validated. *)
Lemma Configure_configured `{GoPlatform} `{Etree} must nm e :
  let r := run (Configure e) (New must nm) in
  (∃ o, r.2 = Returns o) ∧
  (r.2 = Returns None →
     configured r.1 ∧ ∃ s1, range (ChildElements e) configure_child (New must nm) = (s1, Next ()) ∧
       r.1 = set_endpoints (endpoints r.1) s1 ∧
       client r.1 = client s1 ∧ values r.1 = values s1 ∧
       Forall2 (λ c ep, validate c = inl ep) (endpoints s1) (endpoints r.1)).
Proof.
  intros r.
  assert (sound (New must nm)) as Hs by (split; try done; intros t v Hv; done).
  pose proof (configure_loop_sound (ChildElements e) (New must nm) Hs ltac:(done)) as Hl.
  destruct (range (ChildElements e) configure_child (New must nm)) as [s1 [u|o| |]] eqn:Hr; [| |done|done].
  2: { assert (r = (s1, Returns o)) as ->; [|split; [by eexists|by intros [= ->]]].
       unfold r, run, Configure. by erewrite bind_return by exact Hr. }
  destruct Hl as ([Ht Hi Hc Hv] & Hp & He).
  destruct (String.eqb_spec (id s1) "") as [Hid|Hid].
  { assert (r = (s1, Returns (Some (Errorf "must provide 'client-id' for MQTT module config")))) as ->;
      [|split; [by eexists|done]].
    unfold r, run, Configure. erewrite bind_next by exact Hr. erewrite bind_next by reflexivity. by rewrite Hid. }
  pose proof (validate_loop_spec (endpoints s1) 0 [] s1 eq_refl eq_refl) as Hval.
  assert (r = run (_ ← validate_loop 0 (endpoints s1); mret None) s1) as ->.
  { unfold r, run, Configure. erewrite bind_next by exact Hr. erewrite bind_next by reflexivity.
    by apply String.eqb_neq in Hid as ->. }
  unfold run, mbind, go_bind.
  destruct (validate_loop 0 (endpoints s1) s1) as [s2 [u2|o| |]]; [|split; [by eexists|]|done|done].
  2: { simpl. by intros [= ->]. }
  destruct Hval as (es' & H2 & ->). split; [by eexists|]. intros _. simpl. split.
  - split; [done| |done|done|simpl; lia]. simpl. clear -H2. induction H2 as [|a b l k Hab _ IH]; constructor; [|done].
    by destruct (validate_ok _ _ Hab).
  - exists s1. by destruct u.
Qed.

(** What an MQTT configuration means.  Whatever the document, [Configure] ends
    with nil or an error.  When it succeeds there is a client id; the endpoints are
    those of the document in their order, each with a URL that has a scheme, and with
    its key pair and its root certificates loaded if it is secure; every tag has a
    topic and the value zero, and there is a payload template. *)
Theorem mqtt_configured `{GoPlatform} `{Etree} must nm e :
  let r := run (Configure e) (New must nm) in
  (∃ o, r.2 = Returns o) ∧
  (r.2 = Returns None →
     configured r.1 ∧ client r.1 = None ∧ (∀ t v, values r.1 !! t = Some v → v = f64_0) ∧
     Forall2 (λ c ep, validate (parse_endpoint c) = inl ep) (endpoint_elements e) (endpoints r.1)).
Proof.
  intros r. destruct (Configure_configured must nm e) as [Hends Hok]. fold r in Hends, Hok.
  split; [done|]. intros Hr. destruct (Hok Hr) as (Hcfg & s1 & Hl & _ & Hc & Hv & H2).
  assert (sound (New must nm)) as Hs by (split; try done; intros t v Hx; done).
  pose proof (configure_loop_sound (ChildElements e) (New must nm) Hs ltac:(done)) as Hsound.
  rewrite Hl in Hsound. destruct Hsound as ([_ _ Hcs Hvs] & _ & He). change (endpoints (New must nm)) with (@nil endpoint) in He.
  split_and!; [done|by rewrite Hc|by rewrite Hv|].
  rewrite He in H2. unfold unvalidated in H2. unfold endpoint_elements. by apply Forall2_fmap_l in H2.
Qed.

(** C12: failover.  The endpoints are tried one after the other, from the one after
    the last that was tried and round the list.  If some endpoint answers, the
    first of them in that order is the one in use when the loop ends, after at most
    one attempt for each endpoint; if none does, the loop never ends. *)
Theorem mqtt_failover Connect s :
  configured s → endpoints s ≠ [] →
  attempts s ≡ₚ endpoints s ∧
  (∀ pre e post fuel, attempts s = pre ++ e :: post → Forall (λ e', accepts Connect s e' = false) pre →
     accepts Connect s e = true → (length (endpoints s) <= fuel)%nat →
     ∃ j, run (start Connect fuel) s = (set_client (options_of (id s) e) (set_endpoint_index j s), Returns None) ∧
       (j <= length (endpoints s))%nat ∧ endpoints s !! pred j = Some e) ∧
  (Forall (λ e, accepts Connect s e = false) (endpoints s) →
     ∀ fuel, (run (start Connect fuel) s).2 = Loops).
Proof.
  intros Hcfg Hne. assert (Hperm : attempts s ≡ₚ endpoints s).
  { unfold attempts. by rewrite Permutation_app_comm, take_drop. }
  assert (Hstart : ∀ fuel, run (start Connect fuel) s =
    run (_ ← connect_loop Connect fuel; mret None) s).
  { intros fuel. unfold run, start. erewrite bind_next by reflexivity.
    destruct (endpoints s); [done|]. done. }
  split_and!; [done| |].
  - intros pre e post fuel Ha Hpre Hacc Hf.
    assert ((length pre < fuel)%nat) as Hlen.
    { apply Permutation_length in Hperm. rewrite Ha, length_app in Hperm. simpl in Hperm. lia. }
    destruct (connect_loop_first (R:=option error) Connect pre s e post fuel Hne (configured_index _ Hcfg)
      (configured_endpoints _ Hcfg) Ha Hpre Hacc Hlen) as (j & Hrun & Hj & Hlk).
    exists j. split_and!; [|done|done]. rewrite Hstart. unfold run. by erewrite bind_next by exact Hrun.
  - intros Hrej fuel. rewrite Hstart.
    pose proof (connect_loop_none (R:=option error) Connect fuel s Hne (configured_index _ Hcfg)
      (configured_endpoints _ Hcfg) Hrej) as Hl.
    unfold run, mbind, go_bind. destruct (connect_loop Connect fuel s) as [s' c]. simpl in Hl. by subst c.
Qed.


(** The last value that the measurements give to a tag. *)
Definition last_value (ps : list Point) (t : string) : option float64 :=
  Point_Value <$> last (List.filter (λ p, String.eqb (Point_Tag p) t) ps).

Lemma noted_values_lookup ps : ∀ m t,
  noted_values m ps !! t = v ← m !! t; Some (default v (last_value ps t)).
Proof.
  induction ps as [|p ps IH]; intros m t.
  { unfold noted_values, last_value. simpl. by destruct (m !! t). }
  change (noted_values m (p :: ps)) with
    (noted_values (match m !! Point_Tag p with Some _ => <[Point_Tag p := Point_Value p]> m | None => m end) ps).
  rewrite IH. unfold last_value. cbn [List.filter].
  destruct (String.eqb_spec (Point_Tag p) t) as [<-|Hne].
  - destruct (m !! Point_Tag p) as [v|] eqn:Hv; [|by simpl; rewrite Hv].
    rewrite lookup_insert_eq. simpl. rewrite last_cons.
    by destruct (last (List.filter _ ps)).
  - destruct (m !! Point_Tag p) as [v|] eqn:Hv; [|done]. by rewrite lookup_insert_ne.
Qed.

(** C31: what is published.  A status of another module gives every tag of the
    configuration that it measures its last value.  Without a period a goroutine
    is started for each of these measurements; with one, none is, and at each tick
    one for every tag with its value then.  Such a goroutine hands the payload made
    from the template to the client on the topic of the tag; but one that runs
    before [connect] made the client panics. *)
Theorem mqtt_publishes env st s :
  Sender env ≠ name (this s) → Envelope_Status env = (st, None) →
  let s' := (run (handleMsgBusStatus env) s).1 in
  (∀ t, values (this s') !! t =
     v ← values (this s) !! t; Some (default v (last_value (Measurements st) t))) ∧
  (period (this s) = 0 →
     pending s' = pending s ++ omap (λ p, if decide (is_Some (values (this s) !! Point_Tag p))
                                          then Some (Point_Tag p, Point_Value p) else None) (Measurements st)) ∧
  (period (this s) ≠ 0 → pending s' = pending s ∧
     ∀ order, order ≡ₚ map_to_list (values (this s')) →
       pending (run (tick order) s').1 = pending s ++ order) ∧
  (∀ tag v tstamp t payload, payloadTmpl (this s) = Some t →
     template_Execute t (pdata (this s) tag v tstamp) = inl payload →
     publish (this s') tag v tstamp =
       match client (this s) with
       | Some _ => Returns (Some (default "" (topics (this s) !! tag), payload))
       | None => Panics PanicNil
       end).
Proof.
  intros Hs Hst s'. destruct (status_noted env s) as (ps & Hrun & Hps).
  rewrite (Hps Hs st Hst) in Hrun. clear ps Hps. subst s'. rewrite Hrun. cbn [fst this noted pending].
  split_and!.
  - intros t. apply noted_values_lookup.
  - intros Hp. f_equal. unfold to_publish. rewrite Hp. cbn [Z.eqb].
    apply list_omap_ext, Forall_Forall2_diag, Forall_forall. intros p _.
    destruct (values (this s) !! Point_Tag p) as [v|] eqn:Hv.
    + rewrite decide_True; [done|by eexists].
    + rewrite decide_False; [done|]. by intros [? ?].
  - intros Hp. unfold to_publish. apply Z.eqb_neq in Hp as ->. rewrite app_nil_r. split; [done|].
    intros order _. rewrite tick_noted. simpl. by rewrite app_nil_r.
  - intros tag v tstamp t payload Ht Hx. unfold publish. cbn [payloadTmpl client topics set_values].
    rewrite Ht. change (pdata (set_values _ (this s)) tag v tstamp) with (pdata (this s) tag v tstamp).
    by rewrite Hx.
Qed.
End mqtt.

(** *** Examples *)

(** URLs of the form scheme://host, no files, and templates that print the value. *)
Definition url_parts (s : string) : string * string :=
  match Split s (Ascii.ascii_of_N 58) with
  | [host] => ("", host)
  | scheme :: rest => (scheme, String.substring 2 (String.length s) (String.concat ":" rest))
  | [] => ("", "")
  end.

Definition example_std : Std := {|
  URL := string * string;
  url_Parse s := inl (url_parts s);
  Scheme := fst;
  Hostname := snd;
  Certificate := string;
  LoadX509KeyPair c k := inl (c +:+ k);
  ReadFile _ := inr (Sentinel "no such file or directory");
  CertPool := ();
  AppendCertsFromPEM _ := None;
  Template := ();
  template_Parse _ := inl ();
  template_Execute _ d := inl (format_f (Value d));
  Time := Z;
  Unix := Datatypes.id;
  Format _ layout := layout;
|}.

Definition example_config : xml := Elem "mqtt" [] ""
  [Elem "endpoint" [] "" [leaf "url" "ssl://broker-1.example.com:8883";
     Elem "tls" [] "" [leaf "key" "/etc/client.key"; leaf "certificate" "/etc/client.crt"]];
   leaf "endpoint" "tcp://broker.example.com:1883";
   leaf "client-id" "ot-sim-test"; leaf "period" "5s"; leaf "tag" "bus-692.voltage"].

Definition example_mqtt : @MQTTClient example_std :=
  (run (@Configure example_std amd64 xml_etree example_config) (@New example_std () "mqtt")).1.

Lemma example_returns :
  (run (@Configure example_std amd64 xml_etree example_config) (@New example_std () "mqtt")).2 = Returns None.
Proof. vm_compute. reflexivity. Qed.

Lemma example_configured : @configured example_std example_mqtt.
Proof.
  apply (proj2 (@mqtt_configured example_std amd64 xml_etree () "mqtt" example_config) example_returns).
Qed.

Definition second_only (o : @options example_std) : bool :=
  String.eqb (@broker example_std o) "tcp://broker.example.com:1883".

Lemma mqtt_configured_witness :
  @configured example_std example_mqtt ∧ @values example_std example_mqtt !! "bus-692.voltage" = Some f64_0.
Proof.
  split; [|vm_compute; reflexivity].
  exact (proj1 (proj2 (@mqtt_configured example_std amd64 xml_etree () "mqtt" example_config) example_returns)).
Defined.

Definition example_endpoint (i : nat) : @endpoint example_std :=
  nth i (@endpoints example_std example_mqtt) (@zero_endpoint example_std).

Lemma example_endpoints :
  @endpoints example_std example_mqtt = [example_endpoint 0; example_endpoint 1].
Proof. vm_cast_no_check (eq_refl [example_endpoint 0; example_endpoint 1]). Qed.
Lemma example_attempts :
  @attempts example_std example_mqtt = [example_endpoint 0; example_endpoint 1].
Proof. vm_cast_no_check (eq_refl [example_endpoint 0; example_endpoint 1]). Qed.
Lemma example_refused : @accepts example_std second_only example_mqtt (example_endpoint 0) = false.
Proof. vm_cast_no_check (eq_refl false). Qed.
Lemma example_accepted : @accepts example_std second_only example_mqtt (example_endpoint 1) = true.
Proof. vm_cast_no_check (eq_refl true). Qed.

(** The first broker does not answer: the second is in use after two attempts. *)
Lemma mqtt_failover_witness :
  ∃ e j, @endpoints example_std example_mqtt !! 1%nat = Some e ∧
    run (@start example_std second_only 2) example_mqtt
      = (@set_client example_std (@options_of example_std (@id example_std example_mqtt) e)
           (@set_endpoint_index example_std j example_mqtt), Returns None).
Proof.
  destruct (@mqtt_failover example_std second_only example_mqtt example_configured) as (_ & Hfirst & _);
    [rewrite example_endpoints; discriminate|].
  destruct (Hfirst [example_endpoint 0] (example_endpoint 1) [] 2%nat) as (j & Hrun & _);
    [exact example_attempts|constructor; [exact example_refused|constructor]|exact example_accepted
    |rewrite example_endpoints; simpl; lia|].
  exists (example_endpoint 1), j. split; [rewrite example_endpoints; reflexivity|]. exact Hrun.
Defined.

Definition example_start : @MQTTClient example_std * outcome (option error) :=
  run (@start example_std second_only 2) example_mqtt.

Definition example_running : @running example_std :=
  @mk_running example_std example_start.1 [] [mk_loop Spawned false] [].

Lemma example_connected :
  run (@start example_std second_only 2) example_mqtt = (@this example_std example_running, Returns None).
Proof.
  change (example_start = (example_start.1, Returns None)).
  rewrite (surjective_pairing example_start) at 1. apply (f_equal (pair example_start.1)).
  vm_compute. reflexivity.
Qed.

(** The same with a period of minus five seconds. *)
Definition negative_mqtt : @MQTTClient example_std :=
  @set_period example_std (-5000000000) example_mqtt.

Definition negative_start : @MQTTClient example_std * outcome (option error) :=
  run (@start example_std second_only 2) negative_mqtt.

Lemma negative_connected :
  run (@start example_std second_only 2) negative_mqtt = (negative_start.1, Returns None).
Proof.
  change (negative_start = (negative_start.1, Returns None)).
  rewrite (surjective_pairing negative_start) at 1. apply (f_equal (pair negative_start.1)).
  vm_compute. reflexivity.
Qed.

Lemma negative_configured : @configured example_std negative_mqtt.
Proof. destruct example_configured. by split. Qed.


Definition voltage_status : Status := mk_Status [mk_Point "bus-692.voltage" (f64_of_Z 480) 0].

Definition voltage_env : Envelope :=
  match NewEnvelope "io" voltage_status with inl env => env | inr _ => zero_Envelope end.

Lemma mqtt_publishes_witness :
  @values example_std (@this example_std (run (@handleMsgBusStatus example_std voltage_env) example_running).1)
      !! "bus-692.voltage" = Some (f64_of_Z 480) ∧
  @publish example_std (@this example_std (run (@handleMsgBusStatus example_std voltage_env) example_running).1)
      "bus-692.voltage" (f64_of_Z 480) 0 = Returns (Some ("bus-692/voltage", "480.000000")).
Proof.
  destruct (@mqtt_publishes example_std voltage_env voltage_status example_running ltac:(discriminate)
    ltac:(vm_compute; reflexivity)) as (Hv & _ & _ & Hp).
  split.
  - etransitivity; [exact (Hv "bus-692.voltage")|]. vm_compute. reflexivity.
  - etransitivity; [exact (Hp "bus-692.voltage" (f64_of_Z 480) 0 () "480.000000" eq_refl eq_refl)|].
    vm_compute. reflexivity.
Defined.
