(* ===== verification/Bus.v ===== *)
(** * Programs on one message bus

    What the programs of a system are to each other: every one pushes messages to
    the proxy of the bus, which takes them up and publishes them to every program.
    [Peer] is what a program is on the bus; [BusPrograms] has the modules.

    The proxy is code of ZeroMQ, as its queues are; [step] states what its
    documentation says of them, and is the environment of the programs, not a model
    of code of this repository: the messages of one sender are taken up in their
    order, a subscriber gets what is published in that order, and a message that is
    published is lost to a program that is not connected yet, or whose queue is
    full. *)

From S2P Require Import Prelude GoFloat GoText Json Msgbus.

Definition msg : Type := string * body.

(** A program: what it has pushed, what it does by itself, and what it does with a
    message it receives ([None]: it panics, or the goroutine blocks for good). *)
Class Peer (Prog : Type) := {
  outbox : Prog → list msg;
  acts : Prog → Prog → Prop;
  receives : msg → Prog → option Prog;
}.

(** A sent message stays sent. *)
Class PeerLaws (Prog : Type) `{Peer Prog} := {
  acts_outbox s s' : acts s s' → outbox s `prefix_of` outbox s';
  receives_outbox m s s' : receives m s = Some s' → outbox s `prefix_of` outbox s';
}.

(** A program that, while it is ready, handles every message, stays ready and
    answers none. *)
Class Listener (Prog : Type) `{Peer Prog} := {
  ready : Prog → Prop;
  listens m s : ready s → ∃ s', receives m s = Some s' ∧ ready s' ∧ outbox s' = outbox s;
}.

(** *** Programs of two kinds *)

Section sums.
Context {A B : Type} `{Peer A} `{Peer B}.

#[export] Instance sum_peer : Peer (A + B) := {|
  outbox x := match x with inl a => outbox a | inr b => outbox b end;
  acts x y :=
    match x, y with inl a, inl a' => acts a a' | inr b, inr b' => acts b b' | _, _ => False end;
  receives m x := match x with inl a => inl <$> receives m a | inr b => inr <$> receives m b end;
|}.

#[export] Instance sum_laws `{!PeerLaws A} `{!PeerLaws B} : PeerLaws (A + B).
Proof.
  split.
  - intros [a|b] [a'|b'] Ha; cbn in *; try done; by apply acts_outbox.
  - intros m [a|b] y; cbn; intros (z & Hz & ->)%fmap_Some; cbn; by eapply receives_outbox.
Qed.

#[export] Instance sum_listener `{!Listener A} `{!Listener B} : Listener (A + B).
Proof.
  refine {| ready x := match x with inl a => ready a | inr b => ready b end |}.
  intros m [a|b] Hr; cbn.
  - destruct (listens m a Hr) as (a' & -> & Hr' & Ho). by exists (inl a').
  - destruct (listens m b Hr) as (b' & -> & Hr' & Ho). by exists (inr b').
Defined.
End sums.

Section bus.
Context {Prog : Type} `{PeerLaws Prog}.

(** The programs; how many messages of each the proxy has taken up; the messages it
    has published, with the program they came from; and how many of those each
    program has received or missed. *)
Record system := mk_system {
  peers : list Prog;
  forwarded : list nat;
  published : list (nat * msg);
  seen : list nat;
}.

Inductive label := Act (i : nat) | Forward (i : nat) | Deliver (i : nat) | Drop (i : nat).

#[export] Instance label_eq_dec : EqDecision label.
Proof. solve_decision. Defined.

(** The environment: a program acts, the proxy takes up the next message of a
    program, a program receives the next message that was published, or misses it. *)
Inductive step : label → system → system → Prop :=
| step_act i s s' σ :
    peers σ !! i = Some s → acts s s' →
    step (Act i) σ (mk_system (<[i := s']> (peers σ)) (forwarded σ) (published σ) (seen σ))
| step_forward i s k m σ :
    peers σ !! i = Some s → forwarded σ !! i = Some k → outbox s !! k = Some m →
    step (Forward i) σ
      (mk_system (peers σ) (<[i := S k]> (forwarded σ)) (published σ ++ [(i, m)]) (seen σ))
| step_deliver i s s' k n m σ :
    peers σ !! i = Some s → seen σ !! i = Some k → published σ !! k = Some (n, m) →
    receives m s = Some s' →
    step (Deliver i) σ
      (mk_system (<[i := s']> (peers σ)) (forwarded σ) (published σ) (<[i := S k]> (seen σ)))
| step_drop i k σ :
    seen σ !! i = Some k → (k < length (published σ))%nat →
    step (Drop i) σ (mk_system (peers σ) (forwarded σ) (published σ) (<[i := S k]> (seen σ))).

Inductive steps : list label → system → system → Prop :=
| steps_nil σ : steps [] σ σ
| steps_cons l ls σ σ1 σ' : step l σ σ1 → steps ls σ1 σ' → steps (l :: ls) σ σ'.

(** Programs that have pushed nothing yet. *)
Definition new_system (ss : list Prog) : system :=
  mk_system ss (replicate (length ss) 0%nat) [] (replicate (length ss) 0%nat).

(** *** Order *)

(** What was published of a program. *)
Definition from (i : nat) (l : list (nat * msg)) : list msg :=
  (filter (λ e, e.1 = i) l).*2.

Record system_wf (σ : system) : Prop := {
  wf_forwarded : length (forwarded σ) = length (peers σ);
  wf_seen : length (seen σ) = length (peers σ);
  wf_published i s k : peers σ !! i = Some s → forwarded σ !! i = Some k →
    (k ≤ length (outbox s))%nat ∧ from i (published σ) = take k (outbox s);
  wf_source : Forall (λ e, e.1 < length (peers σ))%nat (published σ);
  wf_received k : k ∈ seen σ → (k ≤ length (published σ))%nat;
}.

Lemma from_snoc i l e : from i (l ++ [e]) = from i l ++ (if decide (e.1 = i) then [e.2] else []).
Proof.
  unfold from. rewrite filter_app, fmap_app. f_equal. rewrite filter_cons, filter_nil.
  by destruct (decide _).
Qed.

Lemma prefix_take {A} k (l l' : list A) :
  l `prefix_of` l' → (k ≤ length l)%nat → take k l' = take k l ∧ (k ≤ length l')%nat.
Proof. intros [r ->] Hk. rewrite take_app_le, length_app by done. split; [done|lia]. Qed.

(** Replacing a program by one that has sent more. *)
Lemma replaced_wf σ i s s' :
  peers σ !! i = Some s → outbox s `prefix_of` outbox s' → system_wf σ →
  system_wf (mk_system (<[i := s']> (peers σ)) (forwarded σ) (published σ) (seen σ)).
Proof.
  intros Hi Hpre [Hf Hs Hp Hsrc Hr]. split; cbn; rewrite ?length_insert; [done|done| |done|done].
  intros j t k Hj Hk. destruct (decide (i = j)) as [<-|Hne].
  - rewrite list_lookup_insert_eq in Hj by (by eapply lookup_lt_Some). injection Hj as <-.
    destruct (Hp i s k Hi Hk) as [Hle Hfrom].
    destruct (prefix_take k _ _ Hpre Hle) as [-> Hle']. done.
  - rewrite list_lookup_insert_ne in Hj by done. by apply Hp.
Qed.

(** A program is one message further. *)
Lemma seen_wf i k σ :
  seen σ !! i = Some k → (k < length (published σ))%nat → system_wf σ →
  system_wf (mk_system (peers σ) (forwarded σ) (published σ) (<[i := S k]> (seen σ))).
Proof.
  intros Hk Hlt [Hf Hs Hp Hsrc Hr]. split; cbn; rewrite ?length_insert; [done|done|done|done|].
  intros k' Hin. apply list_elem_of_lookup in Hin as [j Hj]. destruct (decide (i = j)) as [<-|Hne].
  - rewrite list_lookup_insert_eq in Hj by (by eapply lookup_lt_Some). injection Hj as <-. lia.
  - rewrite list_lookup_insert_ne in Hj by done. apply Hr. by eapply list_elem_of_lookup_2.
Qed.

Lemma step_wf l σ σ' : step l σ σ' → system_wf σ → system_wf σ'.
Proof.
  intros Hstep Hwf.
  destruct Hstep as [i s s' σ Hi Ha|i s k m σ Hi Hk Hm|i s s' k n m σ Hi Hk Hm Hr|i k σ Hk Hlt].
  - by apply (replaced_wf _ _ s); [|apply acts_outbox|].
  - destruct Hwf as [Hf Hs Hp Hsrc Hr]. split; cbn [peers forwarded published seen]; rewrite ?length_insert; [done|done| | |].
    + intros j t k' Hj Hk'. rewrite from_snoc. cbn [fst snd]. destruct (decide (i = j)) as [<-|Hne].
      * rewrite list_lookup_insert_eq in Hk' by (by eapply lookup_lt_Some).
        assert (t = s) as -> by congruence. injection Hk' as <-.
        destruct (Hp i s k Hi Hk) as [_ ->]. apply lookup_lt_Some in Hm as Hlt. split; [lia|].
        symmetry. by apply take_S_r.
      * rewrite list_lookup_insert_ne in Hk' by done. rewrite app_nil_r. by apply Hp.
    + apply Forall_app. split; [done|]. constructor; [by eapply lookup_lt_Some|done].
    + intros k' Hin. rewrite length_app. apply Hr in Hin. lia.
  - apply lookup_lt_Some in Hm. apply (seen_wf i k (mk_system (<[i:=s']> (peers σ)) _ _ _)); [done..|].
    apply (replaced_wf σ i s s'); [done| |done]. by eapply receives_outbox.
  - by apply seen_wf.
Qed.

Lemma steps_wf ls σ σ' : steps ls σ σ' → system_wf σ → system_wf σ'.
Proof. induction 1; eauto using step_wf. Qed.

Lemma new_system_wf ss : system_wf (new_system ss).
Proof.
  split; cbn; rewrite ?length_replicate; [done|done| |done|].
  - intros i s k Hi Hk. apply lookup_replicate in Hk as [-> _]. split; [lia|done].
  - intros k Hk. apply elem_of_replicate in Hk as [-> _]. done.
Qed.

(** *** One program of the system *)

(** What happens to a program: it acts, it receives a message, or misses one. *)
Inductive event := Own | Got (m : msg) | Lost (m : msg).

Inductive peer_run : list event → Prog → Prog → Prop :=
| peer_nil s : peer_run [] s s
| peer_own es s s1 s' : acts s s1 → peer_run es s1 s' → peer_run (Own :: es) s s'
| peer_got m es s s1 s' : receives m s = Some s1 → peer_run es s1 s' → peer_run (Got m :: es) s s'
| peer_lost m es s s' : peer_run es s s' → peer_run (Lost m :: es) s s'.

Definition received : list event → list msg := omap (λ e, match e with Got m => Some m | _ => None end).

(** The messages that were published for the program. *)
Definition offered : list event → list msg :=
  omap (λ e, match e with Got m | Lost m => Some m | Own => None end).

Fixpoint owns (es : list event) : nat :=
  match es with [] => 0%nat | Own :: es' => S (owns es') | _ :: es' => owns es' end.

Fixpoint losses (es : list event) : nat :=
  match es with [] => 0%nat | Lost _ :: es' => S (losses es') | _ :: es' => losses es' end.

Lemma received_sublist es : received es `sublist_of` offered es.
Proof. induction es as [|[|m|m] es IH]; cbn; [done|done|by constructor|by constructor]. Qed.

Lemma received_count es : (length (received es) + losses es = length (offered es))%nat.
Proof. induction es as [|[|m|m] es IH]; cbn in *; lia. Qed.

Lemma received_all es : losses es = 0%nat → received es = offered es.
Proof. induction es as [|[|m|m] es IH]; cbn; intros Hl; [done|auto|f_equal; auto|done]. Qed.

Lemma step_published l σ σ' : step l σ σ' → published σ `prefix_of` published σ'.
Proof. destruct 1; cbn; [done|by eexists|done|done]. Qed.

Lemma steps_published ls σ σ' : steps ls σ σ' → published σ `prefix_of` published σ'.
Proof. induction 1; [done|]. etrans; [by eapply step_published|done]. Qed.

(** What a step does to program [i]. *)
Lemma step_peer l σ σ' i s k :
  step l σ σ' → peers σ !! i = Some s → seen σ !! i = Some k →
  (l = Act i ∧ ∃ s', peers σ' !! i = Some s' ∧ acts s s' ∧ seen σ' !! i = Some k) ∨
  (l = Deliver i ∧ ∃ s' e, peers σ' !! i = Some s' ∧ published σ !! k = Some e ∧
     receives e.2 s = Some s' ∧ seen σ' !! i = Some (S k)) ∨
  (l = Drop i ∧ ∃ e, peers σ' !! i = Some s ∧ published σ !! k = Some e ∧ seen σ' !! i = Some (S k)) ∨
  (l ≠ Act i ∧ l ≠ Deliver i ∧ l ≠ Drop i ∧ peers σ' !! i = Some s ∧ seen σ' !! i = Some k).
Proof.
  intros Hstep Hi Hk. pose proof (lookup_lt_Some _ _ _ Hi) as Hlt.
  pose proof (lookup_lt_Some _ _ _ Hk) as Hlk.
  destruct Hstep as [j t t' σ Hj Ha|j t k' m σ Hj Hkj Hm|j t t' k' n m σ Hj Hkj Hm Hr|j k' σ Hkj Hmk];
    destruct (decide (j = i)) as [->|Hne]; cbn.
  - left. split; [done|]. simplify_eq. exists t'. by rewrite list_lookup_insert_eq.
  - right; right; right. rewrite list_lookup_insert_ne by done. split_and!; [congruence..|done|done].
  - right; right; right. split_and!; done.
  - right; right; right. split_and!; done.
  - right; left. split; [done|]. simplify_eq. exists t', (n, m). by rewrite !list_lookup_insert_eq.
  - right; right; right. rewrite !list_lookup_insert_ne by done. split_and!; [congruence..|done|done].
  - right; right; left. split; [done|]. simplify_eq. destruct (lookup_lt_is_Some_2 _ _ Hmk) as [e He].
    exists e. by rewrite list_lookup_insert_eq.
  - right; right; right. rewrite list_lookup_insert_ne by done. split_and!; [congruence..|done|done].
Qed.

(** The run of the system, as program [i] sees it: the messages that were
    published, all of them from where it stands and in their order, but for those
    it missed. *)
Lemma steps_peer ls σ σ' i s k :
  steps ls σ σ' → peers σ !! i = Some s → seen σ !! i = Some k →
  ∃ es s' k', peers σ' !! i = Some s' ∧ seen σ' !! i = Some k' ∧ peer_run es s s' ∧
    (k ≤ k')%nat ∧ offered es = take (k' - k) (drop k (published σ')).*2 ∧
    owns es = length (filter (λ l, l = Act i) ls) ∧
    losses es = length (filter (λ l, l = Drop i) ls).
Proof.
  intros Hsteps. revert s k. induction Hsteps as [σ|l ls σ σ1 σ' Hstep Hsteps IH]; intros s k Hi Hk.
  { exists [], s, k. rewrite Nat.sub_diag, take_0. split_and!; try done. constructor. }
  assert (∀ e, published σ !! k = Some e → ∀ n, (S k ≤ n)%nat →
    take (n - k) (drop k (published σ')).*2 = e.2 :: take (n - S k) (drop (S k) (published σ')).*2) as Hnext.
  { intros e He n Hn. assert (published σ' !! k = Some e) as He'.
    { assert (published σ `prefix_of` published σ') as Hp
        by (etrans; [by eapply step_published|by eapply steps_published]).
      by eapply prefix_lookup_Some. }
    replace (n - k)%nat with (S (n - S k)) by lia. by rewrite (drop_S _ _ _ He'). }
  destruct (step_peer _ _ _ _ _ _ Hstep Hi Hk) as
    [(-> & s1 & Hi1 & Ha & Hk1)|[(-> & s1 & e & Hi1 & He & Hr & Hk1)|[(-> & e & Hi1 & He & Hk1)|(H1 & H2 & H3 & Hi1 & Hk1)]]];
    destruct (IH _ _ Hi1 Hk1) as (es & s' & k' & Hi' & Hk' & Hrun & Hle & Hoff & Hown & Hlost);
    rewrite !filter_cons.
  - exists (Own :: es), s', k'. rewrite (decide_True (P:=Act i = Act i)), (decide_False (P:=Act i = Drop i)) by done.
    split_and!; [done|done|by eapply peer_own|done|done|cbn; by rewrite Hown|done].
  - exists (Got e.2 :: es), s', k'. rewrite !decide_False by done.
    split_and!; [done|done|by eapply peer_got|lia| |done|done].
    rewrite (Hnext e He k' Hle), <- Hoff. done.
  - exists (Lost e.2 :: es), s', k'.
    rewrite (decide_False (P:=Drop i = Act i)), (decide_True (P:=Drop i = Drop i)) by done.
    split_and!; [done|done|by apply peer_lost|lia| |done|cbn; by rewrite Hlost].
    rewrite (Hnext e He k' Hle), <- Hoff. done.
  - exists es, s', k'. rewrite !decide_False by done. by split_and!.
Qed.

(** *** Draining the bus *)

(** The messages not yet taken up, and not yet received. *)
Definition waiting (σ : system) : list nat :=
  zip_with (λ s k, length (outbox s) - k)%nat (peers σ) (forwarded σ).

Definition total (σ : system) : nat := (length (published σ) + sum_list (waiting σ))%nat.

Definition pending (σ : system) : nat :=
  (sum_list (waiting σ) + sum_list ((λ k, total σ - k)%nat <$> seen σ))%nat.

(** Everything was published and received. *)
Definition drained (σ : system) : Prop :=
  Forall2 (λ s k, k = length (outbox s)) (peers σ) (forwarded σ) ∧
  Forall (eq (length (published σ))) (seen σ).

Definition delivery (l : label) : Prop :=
  match l with Act _ | Drop _ => False | Forward _ | Deliver _ => True end.

Lemma sum_list_insert l i x y :
  l !! i = Some x → (sum_list (<[i := y]> l) + x = sum_list l + y)%nat.
Proof.
  revert i. induction l as [|z l IH]; intros [|i]; simpl; intros Hi; try done.
  - injection Hi as ->. lia.
  - apply IH in Hi. lia.
Qed.

Lemma sum_list_0 l : sum_list l = 0%nat ↔ Forall (eq 0%nat) l.
Proof.
  induction l as [|x l IH]; simpl; [by split|]. rewrite Forall_cons, <- IH. lia.
Qed.

Lemma waiting_lookup σ i s k :
  peers σ !! i = Some s → forwarded σ !! i = Some k →
  waiting σ !! i = Some (length (outbox s) - k)%nat.
Proof. intros Hi Hk. unfold waiting. rewrite lookup_zip_with, Hi. simpl. by rewrite Hk. Qed.

Lemma waiting_deliver σ i s s' q p :
  peers σ !! i = Some s → outbox s' = outbox s →
  waiting (mk_system (<[i := s']> (peers σ)) (forwarded σ) p q) = waiting σ.
Proof.
  intros Hi Ho. apply list_eq. intros j. unfold waiting. cbn. rewrite !lookup_zip_with.
  destruct (decide (i = j)) as [<-|Hne]; [|by rewrite list_lookup_insert_ne].
  rewrite list_lookup_insert_eq by (by eapply lookup_lt_Some). rewrite Hi. cbn. by rewrite Ho.
Qed.

Lemma waiting_forward σ i s k p q :
  peers σ !! i = Some s → forwarded σ !! i = Some k →
  waiting (mk_system (peers σ) (<[i := S k]> (forwarded σ)) p q)
    = <[i := (length (outbox s) - S k)%nat]> (waiting σ).
Proof.
  intros Hi Hk. apply list_eq. intros j. unfold waiting. cbn. rewrite !lookup_zip_with.
  pose proof (lookup_lt_Some _ _ _ Hi). pose proof (lookup_lt_Some _ _ _ Hk).
  destruct (decide (i = j)) as [<-|Hne].
  - rewrite !list_lookup_insert_eq by (try done; rewrite length_zip_with; lia). by rewrite Hi.
  - by rewrite !list_lookup_insert_ne, lookup_zip_with by done.
Qed.

Context `{!Listener Prog}.

Definition all_ready (σ : system) : Prop := Forall ready (peers σ).

(** What a ready program does with a message. *)
Lemma listened σ i s m s' :
  all_ready σ → peers σ !! i = Some s → receives m s = Some s' → ready s' ∧ outbox s' = outbox s.
Proof.
  intros Hr Hi Hm. destruct (listens m s (Forall_lookup_1 _ _ _ _ Hr Hi)) as (s2 & Hs2 & ? & ?).
  by assert (s2 = s') as -> by congruence.
Qed.

Lemma delivery_ready l σ σ' : delivery l → step l σ σ' → all_ready σ → all_ready σ'.
Proof.
  intros Hl Hstep Hr.
  destruct Hstep as [i s s' σ Hi Ha|i s k m σ Hi Hk Hm|i s s' k n m σ Hi Hk Hm Hrec|i k σ Hk Hlt]; try done.
  apply Forall_insert; [done|]. by apply (listened σ i s m s').
Qed.

(** Every delivery step takes one unit of [pending]. *)
Lemma delivery_pending l σ σ' :
  delivery l → step l σ σ' → system_wf σ → all_ready σ → pending σ = S (pending σ').
Proof.
  intros Hl Hstep Hwf Hrdy.
  destruct Hstep as [i s s' σ Hi Ha|i s k m σ Hi Hk Hm|i s s' k n m σ Hi Hk Hm Hr|i k σ Hk Hlt];
    [done| | |done].
  - apply lookup_lt_Some in Hm as Hlt.
    pose proof (waiting_forward σ i s k (published σ ++ [(i, m)]) (seen σ) Hi Hk) as Hw.
    pose proof (sum_list_insert _ _ _ (length (outbox s) - S k)%nat (waiting_lookup _ _ _ _ Hi Hk)) as Hs.
    assert (total (mk_system (peers σ) (<[i:=S k]> (forwarded σ)) (published σ ++ [(i, m)]) (seen σ))
      = total σ) as Ht.
    { unfold total. rewrite Hw. cbn [published]. rewrite length_app. simpl. lia. }
    unfold pending. rewrite Ht, Hw. cbn [seen]. lia.
  - destruct (listened σ i s m s' Hrdy Hi Hr) as [_ Ho].
    pose proof (waiting_deliver σ i s s' (<[i:=S k]> (seen σ)) (published σ) Hi Ho) as Hw.
    apply lookup_lt_Some in Hm as Hlt.
    assert (((λ k, total σ - k)%nat <$> seen σ) !! i = Some (total σ - k)%nat) as Hv
      by (by rewrite list_lookup_fmap, Hk).
    pose proof (sum_list_insert _ _ _ (total σ - S k)%nat Hv) as Hs.
    unfold pending, total in *. rewrite Hw. cbn [seen published].
    rewrite list_fmap_insert. lia.
Qed.

Lemma zero_drained σ : system_wf σ → pending σ = 0%nat → drained σ.
Proof.
  intros [Hf Hs Hp Hsrc Hr] Hzero. unfold pending in Hzero.
  assert (sum_list (waiting σ) = 0%nat) as Hw by lia.
  assert (Forall (eq 0%nat) ((λ k, total σ - k)%nat <$> seen σ)) as Hz by (apply sum_list_0; lia).
  split.
  - apply Forall2_same_length_lookup_2; [done|]. intros i s k Hi Hk.
    apply sum_list_0 in Hw. rewrite Forall_lookup in Hw.
    pose proof (Hw _ _ (waiting_lookup σ i s k Hi Hk)). destruct (Hp i s k Hi Hk). lia.
  - apply Forall_lookup. intros i k Hk. rewrite Forall_lookup in Hz.
    pose proof (Hz i (total σ - k)%nat) as Hi. rewrite list_lookup_fmap, Hk in Hi. specialize (Hi eq_refl).
    unfold total in Hi. pose proof (Hr k (list_elem_of_lookup_2 _ _ _ Hk)). lia.
Qed.

Lemma drained_zero σ : drained σ → pending σ = 0%nat.
Proof.
  intros [Hf Hs]. assert (sum_list (waiting σ) = 0%nat) as Hw.
  { apply sum_list_0. unfold waiting. induction Hf as [|s k ss ks -> Hf IH]; constructor; [lia|done]. }
  unfold pending, total. rewrite Hw. cut (sum_list ((λ k, length (published σ) + 0 - k)%nat <$> seen σ) = 0%nat).
  { intros ->. done. }
  apply sum_list_0. apply Forall_fmap. eapply Forall_impl; [exact Hs|]. intros k <-. cbn. lia.
Qed.

Lemma sum_list_pos l : sum_list l ≠ 0%nat → ∃ i x, l !! i = Some x ∧ x ≠ 0%nat.
Proof.
  induction l as [|x l IH]; simpl; [done|]. intros Hne. destruct (decide (x = 0%nat)) as [->|Hx].
  - destruct (IH Hne) as (i & y & Hi & Hy). by exists (S i), y.
  - by exists 0%nat, x.
Qed.

(** While something is pending some delivery is possible. *)
Lemma pending_step σ :
  system_wf σ → all_ready σ → pending σ ≠ 0%nat → ∃ l σ', delivery l ∧ step l σ σ'.
Proof.
  intros [Hf Hs Hp Hsrc Hr] Hrdy Hne. destruct (decide (sum_list (waiting σ) = 0%nat)) as [Hw|Hw].
  - unfold pending, total in Hne. rewrite Hw in Hne.
    destruct (sum_list_pos ((λ k, length (published σ) + 0 - k)%nat <$> seen σ)) as (i & x & Hi & Hx); [lia|].
    rewrite list_lookup_fmap in Hi. destruct (seen σ !! i) as [k|] eqn:Hk; [|done].
    injection Hi as <-. destruct (lookup_lt_is_Some_2 (published σ) k) as [[n m] Hm]; [lia|].
    destruct (lookup_lt_is_Some_2 (peers σ) i) as [s Hi]; [rewrite <- Hs; by eapply lookup_lt_Some|].
    destruct (listens m s (Forall_lookup_1 _ _ _ _ Hrdy Hi)) as (s' & Hrec & _).
    exists (Deliver i). eexists. split; [done|]. by eapply step_deliver.
  - destruct (sum_list_pos _ Hw) as (i & x & Hi & Hx). unfold waiting in Hi.
    apply lookup_zip_with_Some in Hi as (s & k & -> & Hi & Hk).
    destruct (lookup_lt_is_Some_2 (outbox s) k) as [m Hm]; [lia|].
    exists (Forward i). eexists. split; [done|]. by eapply step_forward.
Qed.

(** Deliveries: [pending] of them drain the bus, whatever their order. *)
Lemma deliveries_spec ls σ σ' :
  Forall delivery ls → steps ls σ σ' → system_wf σ → all_ready σ →
  pending σ = (length ls + pending σ')%nat ∧ all_ready σ'.
Proof.
  intros Hall Hsteps. induction Hsteps as [σ|l ls σ σ1 σ' Hstep Hsteps IH]; [done|]. intros Hwf Hr.
  apply Forall_cons in Hall as [Hl Hall]. rewrite (delivery_pending _ _ _ Hl Hstep Hwf Hr).
  destruct IH as [-> ?]; [done|by eapply step_wf|by eapply delivery_ready|done].
Qed.

Lemma deliveries_exist σ :
  system_wf σ → all_ready σ → ∃ ls σ', Forall delivery ls ∧ steps ls σ σ' ∧ pending σ' = 0%nat.
Proof.
  remember (pending σ) as n eqn:Hn. revert σ Hn. induction n as [|n IH]; intros σ Hn Hwf Hr.
  - exists [], σ. split_and!; [constructor|constructor|done].
  - destruct (pending_step σ Hwf Hr) as (l & σ1 & Hl & Hstep); [lia|].
    pose proof (delivery_pending _ _ _ Hl Hstep Hwf Hr).
    destruct (IH σ1) as (ls & σ' & Hls & Hsteps & Hz); [lia|by eapply step_wf|by eapply delivery_ready|].
    exists (l :: ls), σ'. split_and!; [by constructor|by eapply steps_cons|done].
Qed.

(** *** A burst

    One program of a quiet system pushes some messages; then nothing but deliveries
    happens, until no more are possible. *)

Lemma from_app i l l' : from i (l ++ l') = from i l ++ from i l'.
Proof. unfold from. by rewrite filter_app, fmap_app. Qed.

Lemma from_all i l : (∀ j, j ≠ i → from j l = []) → l.*2 = from i l.
Proof.
  intros Hno. induction l as [|e l IH]; [done|].
  assert (e.1 = i) as He.
  { destruct (decide (e.1 = i)) as [|Hne]; [done|]. specialize (Hno _ Hne).
    unfold from in Hno. rewrite filter_cons, decide_True in Hno by done. done. }
  unfold from. rewrite filter_cons, decide_True by done. rewrite !fmap_cons. f_equal.
  apply IH. intros j Hj. specialize (Hno j Hj). unfold from in Hno.
  by rewrite filter_cons, decide_False in Hno by congruence.
Qed.

Lemma only_got es : owns es = 0%nat → losses es = 0%nat → es = Got <$> offered es.
Proof. induction es as [|[|m|m] es IH]; cbn; [done|done| |done]. intros Ho Hl. by rewrite <- IH. Qed.

(** Deliveries are no steps of another kind. *)
Lemma none_of (l0 : label) ls : ¬ delivery l0 → Forall delivery ls → filter (λ l, l = l0) ls = [].
Proof.
  intros Hl0. induction 1 as [|l ls Hl _ IH]; [done|]. rewrite filter_cons, decide_False; [done|]. by intros ->.
Qed.

Definition pushed_by (i : nat) (s : Prog) (σ : system) : system :=
  mk_system (<[i := s]> (peers σ)) (forwarded σ) (published σ) (seen σ).

Lemma pushed_ready i s σ : all_ready σ → ready s → all_ready (pushed_by i s σ).
Proof. intros Hr Hs. by apply Forall_insert. Qed.

(** What is published of a drained system is what its programs have pushed. *)
Lemma drained_from σ j t : system_wf σ → drained σ → peers σ !! j = Some t → from j (published σ) = outbox t.
Proof.
  intros Hwf [Hf _] Hj. destruct (Forall2_lookup_l _ _ _ _ _ Hf Hj) as (k & Hk & ->).
  destruct (wf_published _ Hwf j t _ Hj Hk) as [_ ->]. apply take_ge. lia.
Qed.

Lemma steps_length ls σ σ' : steps ls σ σ' → length (peers σ') = length (peers σ).
Proof.
  induction 1 as [|l ls σ σ1 σ' Hstep _ IH]; [done|]. rewrite IH.
  destruct Hstep; cbn; by rewrite ?length_insert.
Qed.

Lemma from_nobody σ j : system_wf σ → peers σ !! j = None → from j (published σ) = [].
Proof.
  intros Hwf Hj. apply lookup_ge_None in Hj. pose proof (wf_source _ Hwf) as Hs. unfold from.
  induction Hs as [|e l He _ IH]; [done|]. by rewrite filter_cons, decide_False by lia.
Qed.

(** Deliveries leave what the programs have pushed. *)
Lemma deliveries_outbox ls σ σ' j t :
  Forall delivery ls → steps ls σ σ' → all_ready σ → peers σ !! j = Some t →
  ∃ t', peers σ' !! j = Some t' ∧ outbox t' = outbox t.
Proof.
  intros Hall Hsteps. revert t. induction Hsteps as [σ|l ls σ σ1 σ' Hstep Hsteps IH]; intros t Hrdy Hj; [eauto|].
  apply Forall_cons in Hall as [Hl Hall]. pose proof (delivery_ready _ _ _ Hl Hstep Hrdy) as Hrdy1.
  destruct Hstep as [i s s' σ Hi Ha|i s k m σ Hi Hk Hm|i s s' k n m σ Hi Hk Hm Hr|i k σ Hk Hlt];
    [done|by apply IH| |done].
  destruct (decide (i = j)) as [<-|Hne].
  - destruct (listened σ i s m s' Hrdy Hi Hr) as [_ Ho].
    assert (t = s) as -> by congruence. destruct (IH Hall s' Hrdy1) as (t' & Ht' & Ho').
    { cbn. apply list_lookup_insert_eq. by eapply lookup_lt_Some. }
    exists t'. by rewrite Ho'.
  - apply IH; [done|done|]. cbn. by rewrite list_lookup_insert_ne.
Qed.

(** The messages published since are those of the burst. *)
Lemma burst_published σ i s s1 ms ls σ' :
  system_wf σ → all_ready σ → ready s1 → drained σ → peers σ !! i = Some s →
  outbox s1 = outbox s ++ ms → Forall delivery ls → steps ls (pushed_by i s1 σ) σ' → pending σ' = 0%nat →
  ∃ l, published σ' = published σ ++ l ∧ l.*2 = ms.
Proof.
  intros Hwf Hrdy Hr1 Hd Hi Ho Hall Hsteps Hz.
  assert (system_wf (pushed_by i s1 σ)) as Hwf1
    by (apply (replaced_wf _ _ s); [done|by eexists|done]).
  pose proof (steps_wf _ _ _ Hsteps Hwf1) as Hwf'. pose proof (zero_drained _ Hwf' Hz) as Hd'.
  pose proof (lookup_lt_Some _ _ _ Hi) as Hlt.
  destruct (steps_published _ _ _ Hsteps) as [l Hl]. cbn in Hl. exists l. split; [done|].
  assert (∀ j, from j l = if decide (j = i) then ms else []) as Hfrom.
  { intros j. pose proof (from_app j (published σ) l) as Happ. rewrite <- Hl in Happ.
    destruct (peers (pushed_by i s1 σ) !! j) as [t|] eqn:Hj.
    - destruct (deliveries_outbox _ _ _ _ _ Hall Hsteps (pushed_ready i s1 σ Hrdy Hr1) Hj) as (t' & Ht' & Hot).
      rewrite (drained_from _ _ _ Hwf' Hd' Ht'), Hot in Happ. cbn in Hj.
      destruct (decide (j = i)) as [->|Hne].
      + rewrite list_lookup_insert_eq in Hj by done. injection Hj as <-.
        rewrite (drained_from _ _ _ Hwf Hd Hi), Ho in Happ. by apply app_inv_head in Happ.
      + rewrite list_lookup_insert_ne in Hj by done.
        rewrite (drained_from _ _ _ Hwf Hd Hj) in Happ.
        rewrite <- (app_nil_r (outbox t)) in Happ at 1. by apply app_inv_head in Happ.
    - assert (peers σ' !! j = None) as Hj'.
      { apply lookup_ge_None. apply lookup_ge_None in Hj. by rewrite (steps_length _ _ _ Hsteps). }
      rewrite (from_nobody _ _ Hwf' Hj') in Happ. symmetry in Happ. apply app_eq_nil in Happ as [_ ->].
      apply lookup_ge_None in Hj. cbn in Hj. rewrite length_insert in Hj. by rewrite decide_False by lia. }
  rewrite (from_all i), Hfrom, decide_True; [done|done|].
  intros j Hne. by rewrite Hfrom, decide_False.
Qed.

Lemma sum_list_const p t l : Forall (eq p) l → sum_list ((λ k, t - k)%nat <$> l) = (length l * (t - p))%nat.
Proof.
  intros Hl. induction Hl as [|k l Hk _ IH]; [done|]. subst k. rewrite fmap_cons.
  change (t - p + sum_list ((λ k, t - k)%nat <$> l) = S (length l) * (t - p))%nat. rewrite IH. lia.
Qed.

(** It takes one step to take up a message, and one for each program to receive it. *)
Lemma burst_pending σ i s s1 ms :
  system_wf σ → drained σ → peers σ !! i = Some s → outbox s1 = outbox s ++ ms →
  pending (pushed_by i s1 σ) = (length ms * (1 + length (peers σ)))%nat.
Proof.
  intros Hwf Hd Hi Ho. destruct (Forall2_lookup_l _ _ _ _ _ (proj1 Hd) Hi) as (k & Hk & Hks).
  pose proof (drained_zero σ Hd) as Hz. unfold pending in Hz.
  assert (waiting (pushed_by i s1 σ) = <[i := length ms]> (waiting σ)) as Hw.
  { apply list_eq. intros j. unfold waiting. cbn. rewrite lookup_zip_with.
    destruct (decide (i = j)) as [<-|Hne].
    - rewrite !list_lookup_insert_eq.
      + cbn. rewrite Hk. cbn. f_equal. rewrite Ho, length_app. lia.
      + rewrite length_zip_with. apply lookup_lt_Some in Hi, Hk. lia.
      + by eapply lookup_lt_Some.
    - by rewrite !list_lookup_insert_ne, lookup_zip_with by done. }
  pose proof (sum_list_insert _ _ _ (length ms) (waiting_lookup _ _ _ _ Hi Hk)) as Hs.
  unfold pending, total. rewrite Hw. cbn [seen pushed_by published].
  rewrite (sum_list_const _ _ _ (proj2 Hd)), (wf_seen _ Hwf). nia.
Qed.

(** Every program has received the burst, and done nothing else. *)
Lemma burst_received σ i s s1 ms ls σ' j t :
  system_wf σ → all_ready σ → ready s1 → drained σ → peers σ !! i = Some s →
  outbox s1 = outbox s ++ ms → Forall delivery ls → steps ls (pushed_by i s1 σ) σ' → pending σ' = 0%nat →
  peers (pushed_by i s1 σ) !! j = Some t →
  ∃ t', peers σ' !! j = Some t' ∧ peer_run (Got <$> ms) t t'.
Proof.
  intros Hwf Hrdy Hr1 Hd Hi Ho Hall Hsteps Hz Hj.
  destruct (burst_published _ _ _ _ _ _ _ Hwf Hrdy Hr1 Hd Hi Ho Hall Hsteps Hz) as (l & Hl & Hms).
  assert (system_wf (pushed_by i s1 σ)) as Hwf1
    by (apply (replaced_wf _ _ s); [done|by eexists|done]).
  pose proof (zero_drained _ (steps_wf _ _ _ Hsteps Hwf1) Hz) as [_ Hseen'].
  destruct (lookup_lt_is_Some_2 (seen σ) j) as [k Hk].
  { rewrite (wf_seen _ Hwf). apply lookup_lt_Some in Hj. cbn in Hj. by rewrite length_insert in Hj. }
  destruct (steps_peer _ _ _ j t k Hsteps Hj Hk)
    as (es & t' & k' & Ht' & Hk' & Hrun & Hle & Hoff & Hown & Hlost).
  destruct Hd as [_ Hseen]. rewrite Forall_lookup in Hseen, Hseen'.
  pose proof (Hseen _ _ Hk) as <-. pose proof (Hseen' _ _ Hk') as <-.
  rewrite (none_of (Act j) ls) in Hown by (done || by intros []).
  rewrite (none_of (Drop j) ls) in Hlost by (done || by intros []). exists t'. split; [done|].
  rewrite (only_got es Hown Hlost), Hoff in Hrun.
  rewrite Hl, drop_app_length, take_ge in Hrun by (rewrite length_fmap, length_app; lia).
  by rewrite Hms in Hrun.
Qed.

(** ** What the environment amounts to *)

(** The order of messages.  Whatever the programs of a system do, in whatever
    order, from the start: what was published of a program is what it pushed, in
    that order and without a gap, as far as it was taken up; and what a program has
    received is what was published, by anybody, in that order, but for the messages
    it missed, of which there are as many as were dropped for it. *)
Theorem bus_order ss ls σ i s :
  steps ls (new_system ss) σ → ss !! i = Some s →
  ∃ es s' f k, peers σ !! i = Some s' ∧ forwarded σ !! i = Some f ∧ seen σ !! i = Some k ∧
    from i (published σ) = take f (outbox s') ∧
    peer_run es s s' ∧ received es `sublist_of` (take k (published σ)).*2 ∧
    (length (received es) + length (filter (λ l, l = Drop i) ls) = k)%nat ∧
    (Drop i ∉ ls → received es = (take k (published σ)).*2) ∧
    owns es = length (filter (λ l, l = Act i) ls).
Proof.
  intros Hsteps Hi. pose proof (lookup_lt_Some _ _ _ Hi) as Hlt.
  pose proof (steps_wf _ _ _ Hsteps (new_system_wf ss)) as Hwf.
  destruct (steps_peer ls (new_system ss) σ i s 0 Hsteps Hi)
    as (es & s' & k & Hs' & Hk & Hrun & _ & Hoff & Hown & Hlost).
  { by apply lookup_replicate. }
  destruct (lookup_lt_is_Some_2 (forwarded σ) i) as [f Hf].
  { rewrite (wf_forwarded _ Hwf), (steps_length _ _ _ Hsteps). exact Hlt. }
  exists es, s', f, k. rewrite Nat.sub_0_r, drop_0 in Hoff. rewrite fmap_take, <- Hoff, <- Hlost.
  split_and!; [done|done|done|exact (proj2 (wf_published _ Hwf i s' f Hs' Hf))|done|apply received_sublist| | |done].
  - rewrite received_count, Hoff, length_take, length_fmap.
    pose proof (wf_received _ Hwf k (list_elem_of_lookup_2 _ _ _ Hk)). lia.
  - intros Hno. apply received_all. rewrite Hlost. apply length_zero_iff_nil, elem_of_nil_inv.
    by intros l [-> Hl]%list_elem_of_filter.
Qed.
End bus.

(** A program that pushes a number for every message it is given. *)
Definition example_peer : Peer (list msg) := {|
  outbox l := l;
  acts l l' := l' = l ++ [("RUNTIME", BText "tick")];
  receives _ l := Some l;
|}.

Lemma example_peer_laws : @PeerLaws (list msg) example_peer.
Proof. split; cbn; [intros s s' ->; by eexists|by intros ? ? ? [= ->]]. Qed.

Lemma bus_order_witness :
  ∃ σ s' es, @steps (list msg) example_peer [Act 0; Forward 0; Act 0; Drop 1; Forward 0; Deliver 1]
      (new_system [[]; []]) σ ∧
    @from 0 (published σ) = [("RUNTIME", BText "tick"); ("RUNTIME", BText "tick")] ∧
    @peer_run _ example_peer es [] s' ∧ length (received es) = 1%nat.
Proof.
  assert (∃ σ, @steps _ example_peer [Act 0; Forward 0; Act 0; Drop 1; Forward 0; Deliver 1]
      (new_system [[]; []]) σ ∧
    @from 0 (published σ) = [("RUNTIME", BText "tick"); ("RUNTIME", BText "tick")] ∧
    seen σ !! 1%nat = Some 2%nat) as (σ & Hsteps & Hfrom & Hseen).
  { eexists. refine (conj _ _).
    eapply steps_cons; [apply (@step_act _ example_peer 0 []); reflexivity|].
    eapply steps_cons; [by eapply (@step_forward _ example_peer 0)|].
    eapply steps_cons; [by apply (@step_act _ example_peer 0 [("RUNTIME", BText "tick")])|].
    eapply steps_cons; [apply (@step_drop _ example_peer 1 0); [reflexivity|cbn; lia]|].
    eapply steps_cons; [by eapply (@step_forward _ example_peer 0)|].
    eapply steps_cons; [by eapply (@step_deliver _ example_peer 1 [] [] 1)|].
    apply steps_nil. split; vm_compute; reflexivity. }
  destruct (@bus_order _ example_peer example_peer_laws [[]; []] _ σ 1 [] Hsteps eq_refl)
    as (es & s' & f & k & Hs' & _ & Hk & _ & Hrun & _ & Hcount & _).
  exists σ, s', es. split; [exact Hsteps|]. split; [exact Hfrom|]. split; [exact Hrun|].
  assert (k = 2%nat) as -> by congruence. revert Hcount. vm_compute (length (filter _ _)). lia.
Defined.
