(* ===== verification/BusPrograms.v ===== *)
(** * The modules as programs of the message bus

    What the receive loop of each module does with a message, what a module does by
    itself and what it has pushed: the instances of [Peer], [PeerLaws] and
    [Listener] of [Bus].  [Learner] is what the modules promise to each other about
    a value that is written to a tag, as a status and an update. *)

From S2P Require Import Prelude GoFloat GoText GoBytes Json Msgbus Bus.
From S2P Require ModbusRegister ModbusServer ModbusClient ModbusLink.
From S2P Require SunSpecRegister SunSpecServer SunSpecClient Logic Mqtt Telnet.
From S2P Require Import Cpu CpuApi CpuServer.
Import ModbusServer (ModbusServer, function_handler, server_wf, encoding).
Import ModbusClient (ModbusClient, ModbusLib).
Import SunSpecServer (SunSpecServer).
Import SunSpecClient (SunSpecClient).
Import Logic (Logic, Expr).
Import Mqtt (Std, running).
Import Telnet (Telnet).

(** A message to the topic RUNTIME, and what the receive loop of a subscriber gets. *)
Definition runtime (e : Envelope) : msg := ("RUNTIME", BJson (MarshalEnvelope e)).

Definition bus_recv (m : msg) : recv :=
  RecvMessage [mk_frame m.1 None;
    match m.2 with BJson j => mk_frame "" (Some j) | BText s => mk_frame s None end].

Definition alone {St} (s : St) : shared St := mk_shared s ∅ [].

Definition handled {St} (sub : Subscriber St) (m : msg) (s : St) : option St :=
  match run_iteration sub "RUNTIME" (bus_recv m) (alone s) with
  | (sh, Next _) | (sh, Return _) => Some (user sh)
  | _ => None
  end.

(** ** What programs promise about a written value *)

Definition wrote_status (sender tag : string) (f : float64) (e : Envelope) : Prop :=
  NewEnvelope sender (mk_Status [mk_Point tag f 0]) = inl e.
Definition wrote_update (sender tag : string) (f : float64) (e : Envelope) : Prop :=
  NewEnvelope sender (mk_Update [mk_Point tag f 0] "" "") = inl e.

(** A program for which a sender is another one; what it is after it has received
    the value of a tag; and that it is so after the status and the update, of the sender and the tag as JSON
    carries them. *)
Class Learner (Prog : Type) `{Listener Prog} := {
  stranger : string → Prog → Prop;
  knows : string → float64 → Prog → Prog → Prop;
  learns sender tag f e1 e2 s s1 s2 :
    is_finite f = true → valid64 f → ready s → stranger (to_utf8 sender) s →
    wrote_status sender tag f e1 → wrote_update sender tag f e2 →
    receives (runtime e1) s = Some s1 → receives (runtime e2) s1 = Some s2 →
    knows (to_utf8 tag) f s s2;
}.

#[export] Instance sum_learner {A B} `{Learner A} `{Learner B} : Learner (A + B).
Proof.
  refine {|
    stranger sender x := match x with inl a => stranger sender a | inr b => stranger sender b end;
    knows tag f x y :=
      match x, y with inl a, inl a' => knows tag f a a' | inr b, inr b' => knows tag f b b' | _, _ => False end;
  |}.
  intros sender tag f e1 e2 [a|b] s1 s2 Hf Hv Hr Hs H1' H2'; cbn; intros (x & Hx & ->)%fmap_Some;
    cbn; intros (y & Hy & ->)%fmap_Some; by eapply (learns sender tag f e1 e2).
Defined.

(** Walk through a function body that keeps a relation. *)
Ltac keep :=
  intros; repeat first
    [solve [auto with go] | solve [apply keeps_modify; first [done | intros ?; red; done]]
    | apply keeps_bind; [typeclasses eauto| |intros ?]
    | apply keeps_range; [typeclasses eauto|intros ?] | case_match].

(** ** The receive loop *)

Section receive.
Context {St : Type} (sub : Subscriber St).

(** Handlers that end, from states with [P] and keeping [P] and a relation. *)
Lemma handled_total (P : St → Prop) (Q : St → St → Prop) `{!PreOrder Q} m s :
  healthCheckHandlers sub = [] →
  Forall (λ h, ∀ env s, P s → ∃ s', run (h env) s = (s', Returns ()) ∧ P s' ∧ Q s s') (statusHandlers sub) →
  Forall (λ h, ∀ env s, P s → ∃ s', run (h env) s = (s', Returns ()) ∧ P s' ∧ Q s s') (updateHandlers sub) →
  P s → ∃ s', handled sub m s = Some s' ∧ P s' ∧ Q s s'.
Proof.
  intros Hh Hst Hup Hs. set (good := λ h : Envelope → go St () (), ∀ env s, P s →
    ∃ s', run (h env) s = (s', Returns ()) ∧ P s' ∧ Q s s').
  assert (∀ hs env (sh : shared St), Forall good hs → P (user sh) →
    ∃ sh', range hs (λ h, on_user (h env)) sh = (sh', Next (R:=()) ()) ∧ P (user sh') ∧ Q (user sh) (user sh')) as Hl.
  { intros hs env sh Hhs. revert sh. induction Hhs as [|h hs Hg _ IH]; intros sh Hp; cbn [range]; [by exists sh|].
    destruct (Hg env (user sh) Hp) as (u & Hr & Hp' & Hq). erewrite bind_next by (by apply on_user_returns).
    destruct (IH (mk_shared u (confirmationHandlers sh) (Msgbus.received sh)) Hp') as (sh' & Hsh & Hp2 & Hq2).
    exists sh'. split_and!; [done|done|by transitivity u]. }
  assert (∀ env, ∃ sh' c, dispatch sub env (alone s) = (sh', c) ∧ (c = Next () ∨ c = Return ()) ∧
    P (user sh') ∧ Q s (user sh')) as Hd.
  { assert (∃ sh' c, (alone s, Next (R:=()) ()) = (sh', c) ∧ (c = Next () ∨ c = Return ()) ∧
      P (user sh') ∧ Q s (user sh')) as Hid by (eexists _, _; split_and!; [done|by left|done|done]).
    intros env. unfold dispatch. rewrite Hh.
    repeat match goal with |- context [if ?b then _ else _] => destruct b end.
    - destruct (Hl _ env (alone s) Hst Hs) as (sh' & -> & ?). eexists _, _. split; [done|]. split; [by left|done].
    - destruct (Hl _ env (alone s) Hup Hs) as (sh' & -> & ?). eexists _, _. split; [done|]. split; [by left|done].
    - apply Hid.
    - destruct (Envelope_Conformation env) as [c [e|]]; [apply Hid|]. go_unfold. cbn. apply Hid.
    - apply Hid. }
  unfold handled, run_iteration, bus_recv. cbn [frame_text].
  destruct (negb _); [by eexists|]. destruct (ParseEnvelope _) as [env|e]; [|by eexists].
  destruct (Hd env) as (sh' & c & -> & Hc & Hq). destruct Hc as [->| ->]; by eexists.
Qed.

(** What the handlers keep is kept, from any state. *)
Lemma handled_keeps (Q : St → St → Prop) `{!PreOrder Q} m s s' :
  healthCheckHandlers sub = [] →
  Forall (λ h, ∀ env, keeps Q (h env)) (statusHandlers sub) →
  Forall (λ h, ∀ env, keeps Q (h env)) (updateHandlers sub) →
  handled sub m s = Some s' → Q s s'.
Proof.
  intros Hh Hst Hup.
  set (QS := λ sh sh' : shared St, Q (user sh) (user sh')).
  assert (PreOrder QS) as Hpre by (split; [by intros sh; unfold QS|intros a b c Hab Hbc; unfold QS in *; by etrans]).
  assert (∀ (hs : list (Envelope → go St () ())) env, Forall (λ h, ∀ env, keeps Q (h env)) hs →
    keeps (R := ()) QS (range hs (λ h, on_user (h env)))) as Hl.
  { intros hs env Hhs. induction Hhs as [|h hs Hq _ IH]; cbn [range]; [by apply (keeps_ret QS)|].
    apply keeps_bind; [done| |by intros _]. intros sh. unfold on_user, QS.
    pose proof (run_keeps Q (h env) (user sh) (Hq env)) as Hk.
    by destruct (run (h env) (user sh)) as [u [| |]]. }
  assert (∀ env, keeps QS (dispatch sub env)) as Hd.
  { intros env. unfold dispatch. rewrite Hh.
    repeat match goal with |- context [if ?b then _ else _] => destruct b end;
      [by apply Hl|by apply Hl|by apply (keeps_ret QS)| |by apply (keeps_ret QS)].
    destruct (Envelope_Conformation env) as [c [e|]]; [by apply (keeps_ret QS)|]. unfold send_confirmation.
    keep. }
  unfold handled, run_iteration, bus_recv. cbn [frame_text].
  destruct (negb _); [by intros [= <-]|]. destruct (ParseEnvelope _) as [env|e]; [|by intros [= <-]].
  specialize (Hd env (alone s)). destruct (dispatch sub env (alone s)) as [sh [| | |]]; intros [=<-]; done.
Qed.

(** The two messages of a write, at a subscriber with at most one handler of each. *)
Lemma status_handled sender tag f h s u e :
  wrote_status sender tag f e → statusHandlers sub = [h] → run (h (wire e)) s = (u, Returns ()) →
  handled sub (runtime e) s = Some u.
Proof.
  intros Hnew Hh Hrun. unfold handled, bus_recv. cbn [fst snd runtime].
  rewrite received_envelope, (dispatch_status _ _ _ _ _ Hnew), Hh. cbn [range].
  by erewrite bind_next by (by apply on_user_returns).
Qed.

Lemma status_ignored sender tag f s e :
  wrote_status sender tag f e → statusHandlers sub = [] → handled sub (runtime e) s = Some s.
Proof.
  intros Hnew Hh. unfold handled, bus_recv. cbn [fst snd runtime].
  by rewrite received_envelope, (dispatch_status _ _ _ _ _ Hnew), Hh.
Qed.

Lemma update_handled sender tag f h s u e :
  wrote_update sender tag f e → updateHandlers sub = [h] → run (h (wire e)) s = (u, Returns ()) →
  handled sub (runtime e) s = Some u.
Proof.
  intros Hnew Hh Hrun. unfold handled, bus_recv. cbn [fst snd runtime].
  rewrite received_envelope, (dispatch_update _ _ _ _ _ Hnew), Hh. cbn [range].
  by erewrite bind_next by (by apply on_user_returns).
Qed.

Lemma update_ignored sender tag f s e :
  wrote_update sender tag f e → updateHandlers sub = [] → handled sub (runtime e) s = Some s.
Proof.
  intros Hnew Hh. unfold handled, bus_recv. cbn [fst snd runtime].
  by rewrite received_envelope, (dispatch_update _ _ _ _ _ Hnew), Hh.
Qed.

(** A subscriber to statuses only. *)
Lemma status_then_update sender tag f h s u s1 s2 e1 e2 :
  wrote_status sender tag f e1 → wrote_update sender tag f e2 →
  statusHandlers sub = [h] → updateHandlers sub = [] → run (h (wire e1)) s = (u, Returns ()) →
  handled sub (runtime e1) s = Some s1 → handled sub (runtime e2) s1 = Some s2 → s2 = u.
Proof.
  intros H1 H2 Hh Hu Hrun Hs1 Hs2. rewrite (status_handled _ _ _ _ _ _ _ H1 Hh Hrun) in Hs1.
  rewrite (update_ignored _ _ _ _ _ H2 Hu) in Hs2. congruence.
Qed.
End receive.

(** What the messages say to those who receive them. *)
Lemma status_says sender tag f e :
  valid64 f → wrote_status sender tag f e →
  Sender (wire e) = to_utf8 sender ∧
  Envelope_Status (wire e) = (mk_Status [mk_Point (to_utf8 tag) f 0], None).
Proof. apply status_arrives. Qed.

Lemma update_says sender tag f e :
  valid64 f → wrote_update sender tag f e →
  Sender (wire e) = to_utf8 sender ∧
  Envelope_Update (wire e) = (mk_Update [mk_Point (to_utf8 tag) f 0] "" "", None).
Proof. apply update_arrives. Qed.

(** ** The modules *)

(** What the host of a CPU module leaves open: the executables, and the order of the
    iterations over the points. *)
Class Host := {
  LookPath : string → bool;
  point_order : gmap string Point → list Point;
}.

(** Modules whose pusher is the same, or has sent more. *)
Definition same_pusher {St} (pusher : St → bus) (s s' : St) : Prop := pusher s' = pusher s.
Definition more_sent {St} (pusher : St → bus) (s s' : St) : Prop := sent (pusher s) `prefix_of` sent (pusher s').

#[export] Instance same_pusher_preorder {St} (pusher : St → bus) : PreOrder (same_pusher pusher).
Proof. split; [by intros s|]. intros s t u H1 H2. unfold same_pusher in *. congruence. Qed.

#[export] Instance more_sent_preorder {St} (pusher : St → bus) : PreOrder (more_sent pusher).
Proof. split; [by intros s; unfold more_sent|]. intros s t u H1 H2. unfold more_sent in *. by etrans. Qed.

Lemma same_more {St} (pusher : St → bus) s s' : same_pusher pusher s s' → more_sent pusher s s'.
Proof. unfold same_pusher, more_sent. by intros ->. Qed.

(** Sending adds to what was sent. *)
Lemma push_more {St} (pusher : St → bus) (set : bus → St → St) topic env s :
  (∀ b, pusher (set b s) = b) → more_sent pusher s (set (Push topic env (pusher s)).1 s).
Proof.
  intros Hset. unfold more_sent. rewrite Hset, Push_spec. destruct (send_ok _ _); cbn; [by eexists|done].
Qed.

(** A listener's messages stay sent when it receives. *)
Lemma received_prefix {Prog} `{Listener Prog} m s s' :
  ready s → receives m s = Some s' → outbox s `prefix_of` outbox s'.
Proof.
  intros Hr Hm. destruct (listens m s Hr) as (s2 & Hs2 & _ & Ho).
  assert (s2 = s') as -> by congruence. by rewrite Ho.
Qed.

(** A subscriber with one status handler, and what the handler keeps. *)
Definition status_subscriber {St} (h : Envelope → go St () ()) : Subscriber St :=
  mk_Subscriber true [h] [] [].

Definition quiet_handler {St} (pusher : St → bus) (h : Envelope → go St () ()) : Prop :=
  ∀ env s, ∃ s', run (h env) s = (s', Returns ()) ∧ same_pusher pusher s s'.

Lemma quiet_listens {St} (pusher : St → bus) h m s :
  quiet_handler pusher h →
  ∃ s', handled (status_subscriber h) m s = Some s' ∧ True ∧ sent (pusher s') = sent (pusher s).
Proof.
  intros Hh. destruct (handled_total (status_subscriber h) (λ _, True) (same_pusher pusher) m s)
    as (s' & Hs & _ & Hq); [done| |constructor|done|].
  { repeat constructor. intros env t _. destruct (Hh env t) as (t' & ? & ?). by exists t'. }
  exists s'. split_and!; [done|done|]. by rewrite Hq.
Qed.

(** *** The CPU module with its tag API *)

Section api.
Context `{Mux} `{Host}.

(** A request over HTTP. *)
Inductive api_acts : api_state → api_state → Prop :=
| acts_http method path body s :
    api_acts s (run (api_request LookPath point_order method path body) s).1.

#[export] Instance api_peer : Peer api_state := {|
  outbox s := sent (api_pusher (api_server s));
  acts := api_acts;
  receives m s := (λ a, mk_api_state a (api_package s)) <$> handled api_subscriber m (api_server s);
|}.

Lemma api_quiet : quiet_handler api_pusher HandleMsgBusStatus.
Proof.
  intros env a. unfold run, HandleMsgBusStatus. destruct (Envelope_Status env) as [st e].
  destruct (match e with Some e => _ | None => false end); [by eexists|].
  destruct (store_points (Measurements st) a) as (a' & -> & Hp & _). by eexists.
Qed.

#[export] Instance api_listener : Listener api_state.
Proof.
  refine {| ready _ := True |}. intros m s _. cbn.
  destruct (quiet_listens api_pusher _ m (api_server s) api_quiet) as (a & Ha & _ & Ho).
  change api_subscriber with (status_subscriber HandleMsgBusStatus). rewrite Ha. by eexists.
Defined.

Lemma api_publish_more {T} `{IEnvelope T} (c : T) : keeps (more_sent api_pusher) (api_publish c).
Proof.
  unfold api_publish. destruct (NewEnvelope "cpu-api" c) as [env|e]; [|auto with go].
  intros a. go_unfold. rewrite Push_spec. destruct (send_ok _ _); unfold more_sent; cbn; [by eexists|done].
Qed.

Hint Resolve api_publish_more : go.

Lemma handleWrite_more tag value body : keeps (more_sent api_pusher) (handleWrite tag value body).
Proof. unfold handleWrite. keep. Qed.

Lemma handleQuery_more tag : keeps (more_sent api_pusher) (handleQuery point_order tag).
Proof. unfold handleQuery. keep. Qed.

Lemma on_server_run m s :
  (run (on_server m) s).1 = mk_api_state (run m (api_server s)).1 (api_package s).
Proof. unfold run at 1, on_server. by destruct (run m (api_server s)) as [a [h|p|]]. Qed.

Lemma on_modules_run m s :
  (run (on_modules m) s).1 = mk_api_state (api_server s) (run m (api_package s)).1.
Proof. unfold run at 1, on_modules. by destruct (run m (api_package s)) as [a [h|p|]]. Qed.

Lemma api_request_more method path body s :
  more_sent api_pusher (api_server s)
    (api_server (run (api_request LookPath point_order method path body) s).1).
Proof.
  unfold api_request. destruct (dispatch_request api_routes method path) as [[h vars]|]; [|done].
  destruct h; rewrite ?on_server_run, ?on_modules_run; try done.
  - apply run_keeps, handleQuery_more.
  - apply run_keeps, handleWrite_more.
Qed.

#[export] Instance api_laws : PeerLaws api_state.
Proof.
  split; [intros s s' [method path body s0]; apply api_request_more|].
  intros m s s'. by apply received_prefix.
Qed.

(** The server has stored the value. *)
#[export] Instance api_learner : Learner api_state.
Proof.
  refine {|
    stranger _ _ := True;
    knows tag f s s' :=
      points (api_server s') = <[tag := mk_Point tag f 0]> (points (api_server s)) ∧
      api_package s' = api_package s;
  |}.
  intros sender tag f e1 e2 s s1 s2 Hf Hv _ _ H1' H2'. cbn.
  intros (a1 & Ha1 & ->)%fmap_Some. cbn. intros (a2 & Ha2 & ->)%fmap_Some. cbn. split; [|done].
  destruct (status_stored _ _ _ (api_server s) (status_arrives _ _ _ _ Hv H1')) as (a & Ha & _ & Hl).
  rewrite (status_then_update api_subscriber _ _ _ HandleMsgBusStatus _ _ _ _ _ _ H1' H2' eq_refl eq_refl Ha Ha1 Ha2).
  apply map_eq. intros t. rewrite Hl. unfold last_point. cbn.
  destruct (String.eqb_spec (to_utf8 tag) t) as [<-|Hne]; cbn; [by rewrite lookup_insert_eq|by rewrite lookup_insert_ne].
Defined.
End api.

(** *** The Modbus server *)

Section modbus_server.
Context `{GoPlatform}.

Definition modbus_subscriber : Subscriber ModbusServer := status_subscriber ModbusServer.handleMsgBusStatus.

(** A request over Modbus. *)
Inductive modbus_acts : ModbusServer → ModbusServer → Prop :=
| acts_modbus code h data s :
    function_handler code = Some h → modbus_acts s (run (h data) s).1.

#[export] Instance modbus_peer : Peer ModbusServer := {|
  outbox s := sent (ModbusServer.pusher s);
  acts := modbus_acts;
  receives m s := handled modbus_subscriber m s;
|}.

Lemma modbus_quiet : quiet_handler ModbusServer.pusher ModbusServer.handleMsgBusStatus.
Proof.
  intros env s. pose proof (ModbusServer.status_returns env s) as Hr.
  assert (keeps (same_pusher ModbusServer.pusher) (ModbusServer.handleMsgBusStatus env)) as Hk
    by (unfold ModbusServer.handleMsgBusStatus; keep).
  pose proof (run_keeps _ _ s Hk) as Hq.
  destruct (run (ModbusServer.handleMsgBusStatus env) s) as [s' o]. simpl in *. subst o. by eexists.
Qed.

#[export] Instance modbus_listener : Listener ModbusServer.
Proof. refine {| ready _ := True |}. intros m s _. apply quiet_listens, modbus_quiet. Defined.

#[export] Instance modbus_laws : PeerLaws ModbusServer.
Proof.
  split; [|intros m s s'; by apply received_prefix].
  intros s s' [code h data s0 Hh]. cbn.
  destruct (ModbusServer.registers s0 !! ModbusServer.code_table code) as [regs|] eqn:Hr.
  - exact (ModbusServer.evolves_sent _ _ _ (ModbusServer.handler_evolves _ _ s0 data _ Hh Hr)).
  - by rewrite (ModbusServer.handler_no_table _ _ _ _ Hh Hr).
Qed.

(** The server answers the value to reads of the holding registers of the tag. *)
Definition answers (tag : string) (f : float64) (s s' : ModbusServer) : Prop :=
  ∀ regs r, server_wf s → ModbusServer.registers s !! "holding" = Some regs →
    regs !! ModbusRegister.Addr r = Some r → ModbusRegister.Tag r = tag →
    0 ≤ ModbusRegister.Addr r < 65536 →
    run (ModbusServer.readHoldingRegisters
           (request (ModbusRegister.Addr r) (ModbusRegister.Count r) [])) s'
      = (s', Returns (ModbusServer.sized_response (2 * ModbusRegister.Count r)
           match ModbusRegister.Bytes r f with inl bs => bs | inr _ => [] end)).

Lemma tag_answered tag f s s' :
  ModbusServer.tags s' = <[tag := f]> (ModbusServer.tags s) →
  ModbusServer.registers s' = ModbusServer.registers s → answers tag f s s'.
Proof.
  intros Ht Hrs regs r Hwf Hregs Hlk Htag Haddr. destruct (Hwf _ _ Hregs _ _ Hlk) as [Hty Hrw].
  assert (ModbusRegister.is_word_type (ModbusRegister.RType r) = true) as Hw by (by rewrite Hty).
  pose proof (ModbusRegister.word_format_count r (ModbusRegister.register_wf_format r Hrw Hw)) as Hc.
  assert (ModbusServer.registers s' !! ModbusRegister.RType r = Some regs) as Hregs' by (by rewrite Hty, Hrs).
  assert (ModbusServer.table_wf (ModbusRegister.RType r) regs) as Htw by (rewrite Hty; by apply (Hwf "holding")).
  pose proof (ModbusLink.serve_word s' r regs r Hregs' Htw Hlk Hw Haddr Hc) as Hread.
  rewrite Hty in Hread. unfold ModbusServer.readHoldingRegisters. rewrite Hread, app_nil_r, Z.add_0_r.
  do 4 f_equal. unfold encoding. by rewrite Htag, Ht, lookup_insert_eq.
Qed.

#[export] Instance modbus_learner : Learner ModbusServer.
Proof.
  refine {|
    stranger sender s := sender ≠ ModbusServer.name s;
    knows tag f s s' :=
      ModbusServer.tags s' = <[tag := f]> (ModbusServer.tags s) ∧
      ModbusServer.registers s' = ModbusServer.registers s ∧ answers tag f s s';
  |}.
  intros sender tag f e1 e2 s s1 s2 Hf Hv _ Hs H1' H2' Hs1 Hs2.
  destruct (ModbusServer.status_sets_tags s _ _ _ (status_arrives _ _ _ _ Hv H1')) as [Hrun _]. specialize (Hrun Hs).
  rewrite (status_then_update modbus_subscriber _ _ _ ModbusServer.handleMsgBusStatus _ _ _ _ _ _
    H1' H2' eq_refl eq_refl Hrun Hs1 Hs2).
  split; [done|]. split; [done|]. by apply tag_answered.
Defined.
End modbus_server.

(** *** The SunSpec server *)

Section sunspec_server.
Context `{GoPlatform}.

Definition sunspec_subscriber : Subscriber SunSpecServer := status_subscriber SunSpecServer.handleMsgBusStatus.

(** A request over Modbus; a write is as far as its loop has got. *)
Inductive sunspec_acts : SunSpecServer → SunSpecServer → Prop :=
| acts_sunspec_read data s : sunspec_acts s (run (SunSpecServer.readHoldingRegisters data) s).1
| acts_sunspec_write fuel data s :
    sunspec_acts s (run (SunSpecServer.writeHoldingRegisters fuel data) s).1.

#[export] Instance sunspec_peer : Peer SunSpecServer := {|
  outbox s := sent (SunSpecServer.pusher s);
  acts := sunspec_acts;
  receives m s := handled sunspec_subscriber m s;
|}.

Abbreviation quiet := (keeps (same_pusher SunSpecServer.pusher)).

Lemma sunspec_point_quiet p : quiet (SunSpecServer.set_point p).
Proof.
  intros s. unfold SunSpecServer.set_point. go_unfold.
  by destruct (SunSpecServer.tags s !! Point_Tag p).
Qed.

Lemma sunspec_quiet : quiet_handler SunSpecServer.pusher SunSpecServer.handleMsgBusStatus.
Proof.
  intros env s. pose proof (proj2 (SunSpecServer.status_same env s)) as Hr.
  assert (quiet (SunSpecServer.handleMsgBusStatus env)) as Hk
    by (unfold SunSpecServer.handleMsgBusStatus; keep; apply sunspec_point_quiet).
  pose proof (run_keeps _ _ s Hk) as Hq.
  destruct (run (SunSpecServer.handleMsgBusStatus env) s) as [s' o]. simpl in *. subst o. by eexists.
Qed.

#[export] Instance sunspec_listener : Listener SunSpecServer.
Proof. refine {| ready _ := True |}. intros m s _. apply quiet_listens, sunspec_quiet. Defined.

Lemma sunspec_register_quiet a : quiet (SunSpecServer.register_at a).
Proof. unfold SunSpecServer.register_at. keep. Qed.

Lemma sunspec_scaling_quiet r : quiet (SunSpecServer.scaling_of r).
Proof. unfold SunSpecServer.scaling_of. keep. Qed.

Hint Resolve sunspec_register_quiet sunspec_scaling_quiet : go.

Lemma sunspec_read_quiet data : quiet (SunSpecServer.readHoldingRegisters data).
Proof.
  assert (∀ fuel addr stop size d, quiet (SunSpecServer.read_loop fuel addr stop size d)) as Hl.
  { induction fuel as [|fuel IH]; intros addr stop size d; cbn [SunSpecServer.read_loop]; keep. }
  unfold SunSpecServer.readHoldingRegisters. keep.
Qed.

Lemma sunspec_write_loop_quiet fuel data addr stop b us :
  quiet (SunSpecServer.write_loop fuel data addr stop b us).
Proof.
  revert us. induction fuel as [|fuel IH]; intros us; cbn [SunSpecServer.write_loop]; keep.
Qed.

Lemma sunspec_write_more fuel data :
  keeps (more_sent SunSpecServer.pusher) (SunSpecServer.writeHoldingRegisters fuel data).
Proof.
  assert (∀ us, keeps (more_sent SunSpecServer.pusher) (SunSpecServer.publish us)) as Hp.
  { intros us s. unfold SunSpecServer.publish. go_unfold. destruct (NewEnvelope _ _) as [env|]; [|done].
    rewrite Push_spec. destruct (send_ok _ _); unfold more_sent; cbn; [by eexists|done]. }
  unfold SunSpecServer.writeHoldingRegisters. keep.
  intros s. apply same_more, sunspec_write_loop_quiet.
Qed.

#[export] Instance sunspec_laws : PeerLaws SunSpecServer.
Proof.
  split; [|intros m s s'; by apply received_prefix].
  intros s s' [data s0|fuel data s0]; cbn.
  - by rewrite (run_keeps _ _ s0 (sunspec_read_quiet data)).
  - exact (run_keeps _ _ s0 (sunspec_write_more fuel data)).
Qed.

(** The tag has the value, if the server has the tag; nothing else changes. *)
#[export] Instance sunspec_learner : Learner SunSpecServer.
Proof.
  refine {|
    stranger sender s := sender ≠ SunSpecServer.name s;
    knows tag f s s' :=
      s' = match SunSpecServer.tags s !! tag with
           | Some _ => SunSpecServer.set_tags (<[tag := SunSpecRegister.AFloat f]> (SunSpecServer.tags s)) s
           | None => s
           end;
  |}.
  intros sender tag f e1 e2 s s1 s2 Hf Hv _ Hs H1' H2' Hs1 Hs2.
  destruct (status_says _ _ _ _ Hv H1') as [HS He].
  assert (∃ u, run (SunSpecServer.handleMsgBusStatus (wire e1)) s = (u, Returns ()) ∧
    u = match SunSpecServer.tags s !! (to_utf8 tag) with
        | Some _ => SunSpecServer.set_tags (<[(to_utf8 tag) := SunSpecRegister.AFloat f]> (SunSpecServer.tags s)) s
        | None => s
        end) as (u & Hrun & Hu).
  { unfold run, SunSpecServer.handleMsgBusStatus. go_unfold. rewrite HS, He.
    apply String.eqb_neq in Hs as ->. cbn [Measurements range]. unfold SunSpecServer.set_point. go_unfold. cbn.
    destruct (SunSpecServer.tags s !! (to_utf8 tag)); by eexists. }
  by rewrite (status_then_update sunspec_subscriber _ _ _ SunSpecServer.handleMsgBusStatus _ _ _ _ _ _
    H1' H2' eq_refl eq_refl Hrun Hs1 Hs2).
Defined.
End sunspec_server.

(** *** The telnet module *)

Section telnet.

Definition telnet_subscriber : Subscriber Telnet := status_subscriber Telnet.handleMsgBusStatus.

(** The commands on tags, at any console of the module. *)
Inductive telnet_acts : Telnet → Telnet → Prop :=
| acts_write {W} args (c : Telnet.console W) :
    telnet_acts (Telnet.this_Telnet c) (Telnet.this_Telnet (run (Telnet.writeHandlerFunc args) c).1)
| acts_query {W} order args (c : Telnet.console W) :
    telnet_acts (Telnet.this_Telnet c) (Telnet.this_Telnet (run (Telnet.queryHandlerFunc order args) c).1).

#[export] Instance telnet_peer : Peer Telnet := {|
  outbox s := sent (Telnet.pusher s);
  acts := telnet_acts;
  receives m s := handled telnet_subscriber m s;
|}.

Lemma telnet_points ps s : ∃ s', range ps Telnet.set_point s = (s', Next ()) ∧
  same_pusher Telnet.pusher s s'.
Proof.
  revert s. induction ps as [|p ps IH]; intros s; [by exists s|].
  destruct (IH (Telnet.set_tags (<[Point_Tag p := Point_Value p]> (Telnet.tags s)) s)) as (s' & Hs & Hq).
  exists s'. split; [|exact Hq]. cbn [range]. by erewrite bind_next by reflexivity.
Qed.

Lemma telnet_quiet : quiet_handler Telnet.pusher Telnet.handleMsgBusStatus.
Proof.
  intros env s. unfold run, Telnet.handleMsgBusStatus. go_unfold.
  destruct (String.eqb _ _); [by exists s|]. destruct (Envelope_Status env) as [st [e|]]; [by exists s|].
  destruct (telnet_points (Measurements st) s) as (s' & -> & Hq). by exists s'.
Qed.

#[export] Instance telnet_listener : Listener Telnet.
Proof. refine {| ready _ := True |}. intros m s _. apply quiet_listens, telnet_quiet. Defined.

Abbreviation console_more := (more_sent (λ c, Telnet.pusher (Telnet.this_Telnet c))).

Lemma telnet_send_more {W} topic env : keeps (S := Telnet.console W) console_more (Telnet.send topic env).
Proof.
  intros c. unfold Telnet.send. destruct env as [env|e]; [|done]. go_unfold.
  rewrite Push_spec. destruct (send_ok _ _); unfold more_sent; cbn; [by eexists|done].
Qed.

Hint Resolve telnet_send_more : go.

Lemma telnet_deferred_more {W} (m : go (Telnet.console W) (option error) (option error)) :
  keeps console_more m → keeps console_more (Telnet.deferred m).
Proof. intros Hm c. specialize (Hm c). unfold Telnet.deferred. by destruct (m c) as [c' [| | |]]. Qed.

#[export] Instance telnet_laws : PeerLaws Telnet.
Proof.
  split; [|intros m s s'; by apply received_prefix].
  intros s s' [W args c|W order args c]; cbn; apply (run_keeps console_more); try apply _;
    apply telnet_deferred_more; unfold Telnet.print, Telnet.eprint, Telnet.query_tag; keep.
Qed.

(** The tag has the value, and a query shows it. *)
#[export] Instance telnet_learner : Learner Telnet.
Proof.
  refine {|
    stranger sender s := sender ≠ Telnet.name s;
    knows tag f s s' := s' = Telnet.set_tags (<[tag := f]> (Telnet.tags s)) s;
  |}.
  intros sender tag f e1 e2 s s1 s2 Hf Hv _ Hs H1' H2' Hs1 Hs2.
  destruct (status_says _ _ _ _ Hv H1') as [HS He].
  apply (status_then_update telnet_subscriber sender tag f Telnet.handleMsgBusStatus s _ s1 s2 e1 e2); try done.
  unfold run, Telnet.handleMsgBusStatus. go_unfold. rewrite HS, He. by apply String.eqb_neq in Hs as ->.
Defined.
End telnet.

(** *** The MQTT module, connected to a broker *)

Section mqtt.
Context `{Std}.

Definition mqtt_subscriber : Subscriber running := status_subscriber Mqtt.handleMsgBusStatus.

(** It has no pusher. *)
#[export] Instance mqtt_peer : Peer running := {|
  outbox _ := [];
  acts := Mqtt.mqtt_step true;
  receives m s := handled mqtt_subscriber m s;
|}.

#[export] Instance mqtt_listener : Listener running.
Proof.
  refine {| ready _ := True |}. intros m s _.
  apply (quiet_listens (λ _ : running, mk_bus [] 0 (λ _, true))).
  intros env t. destruct (Mqtt.status_noted env t) as (ps & -> & _). by eexists.
Defined.

#[export] Instance mqtt_laws : PeerLaws running.
Proof. split; [done|]. intros m s s'. by apply received_prefix. Qed.

(** The value is kept for the next period, or about to be published. *)
#[export] Instance mqtt_learner : Learner running.
Proof.
  refine {|
    stranger sender s := sender ≠ Mqtt.name (Mqtt.this s);
    knows tag f s s' :=
      s' = match Mqtt.values (Mqtt.this s) !! tag with
           | Some _ =>
             Mqtt.mk_running (Mqtt.set_values (<[tag := f]> (Mqtt.values (Mqtt.this s))) (Mqtt.this s))
               (Mqtt.pending s ++ if Mqtt.period (Mqtt.this s) =? 0 then [(tag, f)] else [])
               (Mqtt.loops s) (Mqtt.published s)
           | None => s
           end;
  |}.
  intros sender tag f e1 e2 s s1 s2 Hf Hv _ Hs H1' H2' Hs1 Hs2.
  destruct (status_says _ _ _ _ Hv H1') as [HS He].
  apply (status_then_update mqtt_subscriber sender tag f Mqtt.handleMsgBusStatus s _ s1 s2 e1 e2); try done.
  unfold run, Mqtt.handleMsgBusStatus. go_unfold. rewrite HS, He. apply String.eqb_neq in Hs as ->.
  cbn [Measurements range]. unfold Mqtt.set_point. go_unfold. cbn.
  destruct (Mqtt.values (Mqtt.this s) !! (to_utf8 tag)); [|done].
  destruct (Mqtt.period (Mqtt.this s) =? 0) eqn:Hp; cbn; [done|]. by rewrite app_nil_r.
Defined.
End mqtt.

(** *** The logic module *)

Section logic.
Context `{Expr}.

Definition logic_subscriber (s : Logic) : Subscriber Logic :=
  mk_Subscriber true [Logic.handleMsgBusStatus]
    (if Logic.processUpdates s then [Logic.handleMsgBusUpdate] else []) [].

Inductive logic_acts : Logic → Logic → Prop :=
| acts_tick ord1 ord2 s : logic_acts s (run (Logic.tick ord1 ord2) s).1.

#[export] Instance logic_peer : Peer Logic := {|
  outbox s := sent (Logic.pusher s);
  acts := logic_acts;
  receives m s := handled (logic_subscriber s) m s;
|}.

Abbreviation logic_free := (λ s, Logic.locked s = false).

Lemma logic_status_total env s : logic_free s →
  ∃ s', run (Logic.handleMsgBusStatus env) s = (s', Returns ()) ∧ logic_free s' ∧ same_pusher Logic.pusher s s'.
Proof.
  intros Hl. destruct (decide (Sender env = Logic.name s)) as [Hn|Hn].
  { exists s. split; [|done]. unfold run, Logic.handleMsgBusStatus. go_unfold. by rewrite Hn, String.eqb_refl. }
  destruct (Envelope_Status env) as [st [e|]] eqn:He.
  { exists s. split; [|done]. unfold run, Logic.handleMsgBusStatus. go_unfold.
    apply String.eqb_neq in Hn. by rewrite Hn, He. }
  destruct (Logic.status_run env st s Hl Hn He) as (e' & -> & _). by eexists.
Qed.

Lemma logic_update_total env s : logic_free s →
  ∃ s', run (Logic.handleMsgBusUpdate env) s = (s', Returns ()) ∧ logic_free s' ∧ same_pusher Logic.pusher s s'.
Proof.
  intros Hl. destruct (decide (Sender env = Logic.name s)) as [Hn|Hn].
  { exists s. split; [|done]. unfold run, Logic.handleMsgBusUpdate. go_unfold. by rewrite Hn, String.eqb_refl. }
  destruct (Envelope_Update env) as [u [e|]] eqn:He.
  { exists s. split; [|done]. unfold run, Logic.handleMsgBusUpdate. go_unfold.
    apply String.eqb_neq in Hn. by rewrite Hn, He. }
  destruct (Logic.update_run env u s Hl Hn He) as (e' & -> & _). by eexists.
Qed.

Lemma logic_handler_more env :
  keeps (more_sent Logic.pusher) (Logic.handleMsgBusStatus env) ∧
  keeps (more_sent Logic.pusher) (Logic.handleMsgBusUpdate env).
Proof.
  split; unfold Logic.handleMsgBusStatus, Logic.handleMsgBusUpdate, Logic.set_points, Logic.assign,
    Logic.lock, Logic.unlock; keep.
Qed.

(** Its handlers need the lock, which a failed tick leaves taken. *)
#[export] Instance logic_listener : Listener Logic.
Proof.
  refine {| ready s := logic_free s |}. intros m s Hl.
  destruct (handled_total (logic_subscriber s) logic_free (same_pusher Logic.pusher) m s)
    as (s' & Hs & Hl' & Hq); [done| | |done|].
  - repeat constructor. apply logic_status_total.
  - cbn. destruct (Logic.processUpdates s); repeat constructor. apply logic_update_total.
  - exists s'. split_and!; [done|done|]. cbn. by rewrite Hq.
Defined.

Lemma logic_publish_more {T} `{IEnvelope T} (c : T) : keeps (more_sent Logic.pusher) (Logic.publish c).
Proof.
  intros s. unfold Logic.publish. go_unfold. destruct (NewEnvelope _ _) as [env|e]; [|done].
  by apply (push_more Logic.pusher Logic.set_pusher).
Qed.

Lemma logic_execute_quiet : keeps (more_sent Logic.pusher) (Logic.execute (R := ())).
Proof.
  intros s. destruct (Logic.keeps_execute (R := ()) s) as [He _]. apply same_more.
  unfold same_pusher. by rewrite He.
Qed.

#[export] Instance logic_laws : PeerLaws Logic.
Proof.
  split; [|intros m s s'].
  - intros s s' [ord1 ord2 s0]. cbn. apply (run_keeps (more_sent Logic.pusher)).
    pose proof logic_execute_quiet. pose proof @logic_publish_more. unfold Logic.tick, Logic.lock, Logic.unlock.
    keep; auto with go.
  - apply (handled_keeps (logic_subscriber s) (more_sent Logic.pusher)); [done| |].
    + repeat constructor. apply logic_handler_more.
    + cbn. destruct (Logic.processUpdates s); repeat constructor. apply logic_handler_more.
Qed.
(** The variable of the tag has the value, if the program has one for it. *)
#[export] Instance logic_learner : Learner Logic.
Proof.
  refine {|
    stranger sender s := sender ≠ Logic.name s;
    knows tag f s s' := ∃ env, s' = Logic.set_env env s ∧
      ∀ x, env !! x = if decide (Logic.tagToVar s !! tag = Some x) then Some (Logic.VFloat f) else Logic.env s !! x;
  |}.
  intros sender tag f e1 e2 s s1 s2 Hf Hv Hl Hs H1' H2' Hs1 Hs2. cbn in Hs1, Hs2, Hl.
  destruct (status_says _ _ _ _ Hv H1') as [HS1 He1], (update_says _ _ _ _ Hv H2') as [HS2 He2].
  assert (∀ env x, match Logic.assigned (Logic.tagToVar s) [mk_Point (to_utf8 tag) f 0] x with
      | Some g => Some (Logic.VFloat g) | None => env end
    = if decide (Logic.tagToVar s !! (to_utf8 tag) = Some x) then Some (Logic.VFloat f) else env) as Hone.
  { intros env x. unfold Logic.assigned. cbn [List.filter Point_Tag].
    destruct (decide (Logic.tagToVar s !! (to_utf8 tag) = Some x)); [by rewrite bool_decide_true|by rewrite bool_decide_false]. }
  destruct (Logic.status_run (wire e1) _ s Hl ltac:(by rewrite HS1) He1) as (v1 & Hrun1 & Hv1).
  rewrite (status_handled (logic_subscriber s) _ _ _ Logic.handleMsgBusStatus _ _ _ H1' eq_refl Hrun1) in Hs1. injection Hs1 as <-.
  assert (∀ x, v1 !! x = if decide (Logic.tagToVar s !! (to_utf8 tag) = Some x) then Some (Logic.VFloat f)
                         else Logic.env s !! x) as Hv1' by (intros x; by rewrite Hv1, Hone).
  destruct (Logic.processUpdates s) eqn:Hpu.
  - destruct (Logic.update_run (wire e2) _ (Logic.set_env v1 s) Hl ltac:(by rewrite HS2) He2) as (v2 & Hrun2 & Hv2).
    rewrite (update_handled (logic_subscriber (Logic.set_env v1 s)) _ _ _ Logic.handleMsgBusUpdate _ _ _ H2'
      ltac:(cbn; by rewrite Hpu) Hrun2) in Hs2. injection Hs2 as <-.
    exists v2. split; [by destruct s|]. intros x. rewrite Hv2. cbn. rewrite Hone, Hv1'.
    by destruct (decide _).
  - rewrite (update_ignored (logic_subscriber (Logic.set_env v1 s)) _ _ _ _ _ H2'
      ltac:(cbn; by rewrite Hpu)) in Hs2. injection Hs2 as <-. by exists v1.
Defined.
End logic.

(** *** The Modbus client, connected to a device *)

Section modbus_client.
Context `{GoPlatform} {L : ModbusLib} `{!ModbusLink.Connection L}.

Definition client_subscriber : Subscriber ModbusClient :=
  mk_Subscriber true [] [ModbusClient.handleMsgBusUpdate] [].

(** A period. *)
Inductive client_acts : ModbusClient → ModbusClient → Prop :=
| acts_poll order s :
    order ≡ₚ map_to_list (ModbusClient.registers s) → client_acts s (run (ModbusClient.poll order) s).1.

#[export] Instance client_peer : Peer ModbusClient := {|
  outbox s := sent (ModbusClient.pusher s);
  acts := client_acts;
  receives m s := handled client_subscriber m s;
|}.

(** Before [Run] has made the client of the library an update brings it down. *)
Abbreviation online := (λ s, is_Some (ModbusClient.client s)).

#[export] Instance client_listener : Listener ModbusClient.
Proof.
  refine {| ready s := online s |}. intros m s Hc.
  destruct (handled_total client_subscriber online (same_pusher ModbusClient.pusher) m s)
    as (s' & Hs & Hc' & Hq); [done|constructor| |done|].
  - repeat constructor. intros env t [c Ht].
    destruct (ModbusClient.update_spec env t c Ht) as [c' ->]. eexists. by split.
  - exists s'. split_and!; [done|done|]. cbn. by rewrite Hq.
Defined.

Lemma client_handler_more env : keeps (more_sent ModbusClient.pusher) (ModbusClient.handleMsgBusUpdate env).
Proof. unfold ModbusClient.handleMsgBusUpdate, ModbusClient.write_point. keep. Qed.

Lemma client_poll_more order : keeps (more_sent ModbusClient.pusher) (ModbusClient.poll order).
Proof.
  assert (∀ pts, keeps (more_sent ModbusClient.pusher) (ModbusClient.poll_loop order pts)) as Hl.
  { induction order as [|[t r] order IH]; intros pts; cbn [ModbusClient.poll_loop]; keep. }
  intros s. unfold ModbusClient.poll.
  refine (keeps_bind _ _ _ (Hl []) _ s). intros pts t. go_unfold.
  destruct (NewEnvelope _ _) as [env|e]; [|done]. by apply (push_more ModbusClient.pusher ModbusClient.set_pusher).
Qed.

#[export] Instance client_laws : PeerLaws ModbusClient.
Proof.
  split; [|intros m s s'].
  - intros s s' [order s0 _]. exact (run_keeps _ _ s0 (client_poll_more order)).
  - apply (handled_keeps client_subscriber (more_sent ModbusClient.pusher)); [done|constructor|].
    repeat constructor. apply client_handler_more.
Qed.

(** The device has the value at the register of the tag, if the client has a coil or a
    holding register for the tag that the device has as well. *)
#[export] Instance client_learner : Learner ModbusClient.
Proof.
  refine {|
    stranger sender s := sender ≠ ModbusClient.name s;
    knows tag f s s' := ∀ c r, ModbusClient.client s = Some c → ModbusClient.registers s !! tag = Some r →
      server_wf (ModbusLink.peer c) → ModbusLink.mirrored (ModbusLink.peer c) r →
      ModbusRegister.RType r = "coil" ∨ ModbusRegister.RType r = "holding" →
      ∃ c' r', s' = ModbusClient.set_client (Some c') s ∧
        ModbusLink.matching (ModbusLink.peer c) r = Some r' ∧
        ModbusLink.stored (ModbusLink.peer c) (ModbusLink.peer c') (ModbusRegister.Tag r') (ModbusLink.written r f);
  |}.
  intros sender tag f e1 e2 s s1 s2 Hf Hv _ Hs H1' H2' Hs1 Hs2 c r Hc Hreg Hwf Hm Hty.
  cbn in Hs1, Hs2. rewrite (status_ignored client_subscriber _ _ _ _ _ H1' eq_refl) in Hs1. injection Hs1 as <-.
  destruct (ModbusLink.update_written s c (to_utf8 tag) r f (to_utf8 sender) (wire e2) Hc Hwf Hreg Hm Hty Hs Hv
    (update_arrives _ _ _ _ Hv H2'))
    as (c' & r' & Hrun & Hmat & Hst).
  rewrite (update_handled client_subscriber _ _ _ ModbusClient.handleMsgBusUpdate _ _ _ H2' eq_refl Hrun) in Hs2.
  injection Hs2 as <-. by exists c', r'.
Defined.
End modbus_client.

(** *** The SunSpec client, connected to a device *)

Section sunspec_client.
Context `{GoPlatform} `{ModbusLib} `{SunSpecRegister.Schemas}.

Definition sunspec_client_subscriber : Subscriber SunSpecClient :=
  mk_Subscriber true [] [SunSpecClient.handleMsgBusUpdate] [].

(** A period. *)
Inductive sunspec_client_acts : SunSpecClient → SunSpecClient → Prop :=
| acts_sunspec_poll order s : sunspec_client_acts s (run (SunSpecClient.poll order) s).1.

#[export] Instance sunspec_client_peer : Peer SunSpecClient := {|
  outbox s := sent (SunSpecClient.pusher s);
  acts := sunspec_client_acts;
  receives m s := handled sunspec_client_subscriber m s;
|}.

(** Connected, and without a text that updates could be for. *)
Definition sunspec_ready (s : SunSpecClient) : Prop :=
  is_Some (SunSpecClient.client s) ∧ SunSpecClient.writes_numbers s.

#[export] Instance sunspec_client_listener : Listener SunSpecClient.
Proof.
  refine {| ready := sunspec_ready |}. intros m s Hc.
  destruct (handled_total sunspec_client_subscriber sunspec_ready (same_pusher SunSpecClient.pusher) m s)
    as (s' & Hs & Hc' & Hq); [done|constructor| |done|].
  - repeat constructor. intros env t [[c Ht] Hn].
    destruct (SunSpecClient.sunspec_update_returns env t c Ht Hn) as [c' ->]. eexists. split; [done|].
    split; [|done]. split; [by eexists|exact Hn].
  - exists s'. split_and!; [done|done|]. cbn. by rewrite Hq.
Defined.

Abbreviation more := (more_sent SunSpecClient.pusher).

Lemma on_client_more {R A} f : keeps (R := R) more (SunSpecClient.on_client (A := A) f).
Proof.
  unfold SunSpecClient.on_client. keep.
Qed.

Hint Resolve on_client_more : go.

Lemma sunspec_handler_more env : keeps more (SunSpecClient.handleMsgBusUpdate env).
Proof. unfold SunSpecClient.handleMsgBusUpdate, SunSpecClient.write_point. keep. Qed.

Lemma process_more order : keeps more (SunSpecClient.process order).
Proof.
  assert (∀ pts, keeps (R := option error) more (SunSpecClient.process_loop order pts)) as Hl.
  { induction order as [|[n r] order IH]; intros pts; cbn [SunSpecClient.process_loop]; keep. }
  intros s. unfold SunSpecClient.process. refine (keeps_bind _ _ _ (Hl []) _ s). intros pts t. go_unfold.
  destruct (NewEnvelope _ _) as [env|e]; [|done].
  rewrite Push_spec. destruct (send_ok _ _); red; cbn; [by eexists|done].
Qed.

Lemma sub_more {R A} (m : go SunSpecClient A A) : keeps more m → keeps (R := R) more (SunSpecClient.sub m).
Proof.
  intros Hm s. pose proof (run_keeps _ m s Hm) as Hk. unfold SunSpecClient.sub.
  by destruct (run m s) as [s' [| |]].
Qed.

Lemma sunspec_poll_more order : keeps more (SunSpecClient.poll order).
Proof.
  pose proof (λ R, λ o, sub_more (R := R) _ (process_more o)). unfold SunSpecClient.poll, SunSpecClient.poll_model. keep; auto with go.
Qed.

#[export] Instance sunspec_client_laws : PeerLaws SunSpecClient.
Proof.
  split; [|intros m s s'].
  - intros s s' [order s0]. exact (run_keeps _ _ s0 (sunspec_poll_more order)).
  - apply (handled_keeps sunspec_client_subscriber more); [done|constructor|].
    repeat constructor. apply sunspec_handler_more.
Qed.

(** The client has asked the device to write the value, if the tag is a point that
    can be written. *)
#[export] Instance sunspec_client_learner : Learner SunSpecClient.
Proof.
  refine {|
    stranger sender s := sender ≠ SunSpecClient.name s;
    knows tag f s s' := ∀ c, SunSpecClient.client s = Some c →
      s' = SunSpecClient.set_client (SunSpecClient.write_request s tag f c) s;
  |}.
  intros sender tag f e1 e2 s s1 s2 Hf Hv [_ Hn] Hs H1' H2' Hs1 Hs2 c Hc.
  cbn in Hs1, Hs2. rewrite (status_ignored sunspec_client_subscriber _ _ _ _ _ H1' eq_refl) in Hs1.
  injection Hs1 as <-. destruct (update_says _ _ _ _ Hv H2') as [HS He].
  assert (run (SunSpecClient.handleMsgBusUpdate (wire e2)) s
    = (SunSpecClient.set_client (SunSpecClient.write_request s (to_utf8 tag) f c) s, Returns ())) as Hrun.
  { unfold run, SunSpecClient.handleMsgBusUpdate. go_unfold. rewrite HS, He. apply String.eqb_neq in Hs as ->.
    cbn [Updates range]. unfold mbind, go_bind. by rewrite (SunSpecClient.sunspec_write_point _ s c Hc Hn). }
  rewrite (update_handled sunspec_client_subscriber _ _ _ SunSpecClient.handleMsgBusUpdate _ _ _ H2' eq_refl Hrun) in Hs2.
  by injection Hs2 as <-.
Defined.
End sunspec_client.
