(* ===== verification/BusNet.v ===== *)
(** * The modules of a device on one bus

    Systems of [Bus] whose programs are the modules of [BusPrograms], any number of
    each: a value that is written at one of them, over HTTP or by telnet, reaches
    all the others, and the devices behind the clients among them. *)

From S2P Require Import Prelude GoFloat GoText Json Msgbus Bus.
From S2P Require ModbusServer ModbusClient ModbusLink SunSpecRegister SunSpecServer SunSpecClient.
From S2P Require Logic Mqtt Telnet.
From S2P Require Import Cpu CpuApi CpuServer BusPrograms.

(** ** A write, whoever makes it *)

Section write.
Context {Prog : Type} `{Learner Prog} `{!PeerLaws Prog}.

Lemma pair_received m1 m2 s s' :
  peer_run (Got <$> [m1; m2]) s s' → ∃ s1, receives m1 s = Some s1 ∧ receives m2 s1 = Some s'.
Proof.
  intros Hrun. cbn in Hrun. inversion Hrun as [| |m es x s1 z Hx Hrun1|]; subst.
  inversion Hrun1 as [| |m es x s2 z Hx2 Hrun2|]; subst. inversion Hrun2; subst. by exists s1.
Qed.

(** Program [i] of a quiet system has pushed the status and the update of a write;
    then nothing but deliveries happens. *)
Lemma write_spreads sender tag f e1 e2 σ i s s1 ls σ' :
  is_finite f = true → valid64 f → wrote_status sender tag f e1 → wrote_update sender tag f e2 →
  system_wf σ → all_ready σ → drained σ → peers σ !! i = Some s → ready s1 →
  outbox s1 = outbox s ++ [runtime e1; runtime e2] →
  Forall delivery ls → steps ls (pushed_by i s1 σ) σ' →
  (length ls ≤ 2 * (1 + length (peers σ)))%nat ∧
  ((∃ l σ'', delivery l ∧ step l σ' σ'') ∨
   length ls = (2 * (1 + length (peers σ)))%nat ∧ drained σ' ∧
   ∀ j n, peers (pushed_by i s1 σ) !! j = Some n → stranger (to_utf8 sender) n →
     ∃ n', peers σ' !! j = Some n' ∧ knows (to_utf8 tag) f n n').
Proof.
  intros Hf Hv H1' H2' Hwf Hrdy Hd Hi Hr1 Hsent Hall Hsteps.
  assert (system_wf (pushed_by i s1 σ)) as Hwf1 by (apply (replaced_wf _ _ s); [done|by eexists|done]).
  pose proof (pushed_ready i s1 σ Hrdy Hr1) as Hrdy1.
  destruct (deliveries_spec _ _ _ Hall Hsteps Hwf1 Hrdy1) as [Hcount Hrdy'].
  rewrite (burst_pending _ _ _ _ _ Hwf Hd Hi Hsent) in Hcount.
  change (length [runtime e1; runtime e2]) with 2%nat in Hcount. split; [lia|].
  pose proof (steps_wf _ _ _ Hsteps Hwf1) as Hwf'.
  destruct (decide (pending σ' = 0%nat)) as [Hz|Hz]; [right|left; by apply pending_step].
  split; [lia|]. split; [by apply zero_drained|]. intros j n Hj Hs.
  destruct (burst_received _ _ _ _ _ _ _ _ _ Hwf Hrdy Hr1 Hd Hi Hsent Hall Hsteps Hz Hj) as (n' & Hn' & Hpr).
  destruct (pair_received _ _ _ _ Hpr) as (n1 & Hn1 & Hn2).
  exists n'. split; [done|]. apply (learns sender tag f e1 e2 n n1 n'); try done.
  by apply (Forall_lookup_1 _ _ _ _ Hrdy1 Hj).
Qed.
End write.

(** ** The modules *)

Section net.
Context `{GoPlatform} `{Mux} `{Host} `{Logic.Expr} `{Mqtt.Std} `{SunSpecRegister.Schemas}.
Context {L : ModbusClient.ModbusLib} `{!ModbusLink.Connection L} {L' : ModbusClient.ModbusLib}.

Definition node : Type := api_state + (ModbusServer.ModbusServer + (@ModbusClient.ModbusClient L +
  (SunSpecServer.SunSpecServer + (@SunSpecClient.SunSpecClient L' + (Logic.Logic +
  (Telnet.Telnet + Mqtt.running)))))).

#[export] Instance node_peer : Peer node :=
  @sum_peer _ _ api_peer (@sum_peer _ _ modbus_peer (@sum_peer _ _ client_peer
  (@sum_peer _ _ sunspec_peer (@sum_peer _ _ sunspec_client_peer (@sum_peer _ _ logic_peer
  (@sum_peer _ _ telnet_peer mqtt_peer)))))).

#[export] Instance node_laws : PeerLaws node :=
  @sum_laws _ _ _ _ api_laws (@sum_laws _ _ _ _ modbus_laws (@sum_laws _ _ _ _ client_laws
  (@sum_laws _ _ _ _ sunspec_laws (@sum_laws _ _ _ _ sunspec_client_laws (@sum_laws _ _ _ _ logic_laws
  (@sum_laws _ _ _ _ telnet_laws mqtt_laws)))))).

#[export] Instance node_listener : Listener node :=
  @sum_listener _ _ _ _ api_listener (@sum_listener _ _ _ _ modbus_listener (@sum_listener _ _ _ _ client_listener
  (@sum_listener _ _ _ _ sunspec_listener (@sum_listener _ _ _ _ sunspec_client_listener
  (@sum_listener _ _ _ _ logic_listener (@sum_listener _ _ _ _ telnet_listener mqtt_listener)))))).

#[export] Instance node_learner : Learner node :=
  @sum_learner _ _ _ _ api_learner _ _ (@sum_learner _ _ _ _ modbus_learner _ _ (@sum_learner _ _ _ _ client_learner
  _ _ (@sum_learner _ _ _ _ sunspec_learner _ _ (@sum_learner _ _ _ _ sunspec_client_learner
  _ _ (@sum_learner _ _ _ _ logic_learner _ _ (@sum_learner _ _ _ _ telnet_learner _ _ mqtt_learner)))))).

Abbreviation cpu_node s := (inl s : node).
Abbreviation modbus_server_node s := (inr (inl s) : node).
Abbreviation modbus_client_node s := (inr (inr (inl s)) : node).
Abbreviation telnet_node s := (inr (inr (inr (inr (inr (inr (inl s)))))) : node).

(** C3: a value that is written over HTTP reaches every program.  In a system of any
    number of modules of every kind, all ready to receive and with nothing under
    way, writing a finite value to a tag at the API of a CPU module starts a burst
    of two messages.  It takes two deliveries for the proxy and two for each
    program, in whatever order, and then nothing more can be delivered; at the end
    every module knows the value: an API server has stored it, a Modbus server
    answers it to reads of the holding registers of the tag, the device behind a
    Modbus client has it in the register of the tag, a SunSpec client has asked its
    device to write it, a SunSpec server, a logic module, a telnet module and an MQTT
    module have it for their tags.  The tag they see is the one JSON makes of it, which
    is the tag itself when it is valid UTF-8. *)
Theorem http_write_reaches_all `{!MuxLaws} σ i s tag value body f :
  system_wf σ → all_ready σ → drained σ → peers σ !! i = Some (cpu_node s) →
  forallb clean_segment [tag; value] = true → ParseFloat value = (f, None) → is_finite f = true →
  (∀ k, send_ok (api_pusher (api_server s)) k = true) →
  ∃ s1 σ1, run (api_request LookPath point_order "POST" ["write"; tag; value] body) s
      = (s1, Returns (Answer (no_body 204))) ∧
    step (Act i) σ σ1 ∧ peers σ1 = <[i := cpu_node s1]> (peers σ) ∧
    ∀ ls σ', Forall delivery ls → steps ls σ1 σ' →
      (length ls ≤ 2 * (1 + length (peers σ)))%nat ∧
      ((∃ l σ'', delivery l ∧ step l σ' σ'') ∨
       length ls = (2 * (1 + length (peers σ)))%nat ∧ drained σ' ∧
       ∀ j n, peers σ1 !! j = Some n → stranger "cpu-api" n →
         ∃ n', peers σ' !! j = Some n' ∧ knows (to_utf8 tag) f n n').
Proof.
  intros Hwf Hrdy Hd Hi Hc Hf Hfin Hok.
  destruct (http_write_published LookPath point_order s tag value body f Hc Hf Hfin Hok)
    as (e1 & e2 & s1 & Hrun & Hst & Hup & _ & Hsent).
  exists s1, (pushed_by i (cpu_node s1) σ). split; [done|]. split; [|split; [done|]].
  { apply step_act with (s := cpu_node s); [done|].
    pose proof (acts_http "POST" ["write"; tag; value] body s) as Ha. by rewrite Hrun in Ha. }
  intros ls σ' Hall Hsteps. pose proof (ParseFloat_valid value) as Hv. rewrite Hf in Hv.
  by apply (write_spreads "cpu-api" tag f e1 e2 σ i (cpu_node s) (cpu_node s1)).
Qed.

(** C4: so does a value that is written by telnet.  The command sends the same two
    messages under the name of its module; every other module knows the value at the
    end, the telnet module itself does not.  Tag and name are seen as JSON carries
    them. *)
Theorem telnet_write_reaches_all {W} σ i (c : Telnet.console W) tag arg f :
  system_wf σ → all_ready σ → drained σ → peers σ !! i = Some (telnet_node (Telnet.this_Telnet c)) →
  ParseFloat arg = (f, None) → is_finite f = true →
  (∀ k, send_ok (Telnet.pusher (Telnet.this_Telnet c)) k = true) →
  ∃ c1 σ1, run (Telnet.writeHandlerFunc [tag; arg]) c = (c1, Returns None) ∧
    step (Act i) σ σ1 ∧ peers σ1 = <[i := telnet_node (Telnet.this_Telnet c1)]> (peers σ) ∧
    Telnet.tags (Telnet.this_Telnet c1) = Telnet.tags (Telnet.this_Telnet c) ∧
    ∀ ls σ', Forall delivery ls → steps ls σ1 σ' →
      (length ls ≤ 2 * (1 + length (peers σ)))%nat ∧
      ((∃ l σ'', delivery l ∧ step l σ' σ'') ∨
       length ls = (2 * (1 + length (peers σ)))%nat ∧ drained σ' ∧
       ∀ j n, peers σ1 !! j = Some n → stranger (to_utf8 (Telnet.name (Telnet.this_Telnet c))) n →
         ∃ n', peers σ' !! j = Some n' ∧ knows (to_utf8 tag) f n n').
Proof.
  intros Hwf Hrdy Hd Hi Hf Hfin Hok.
  pose proof (Telnet.telnet_write (λ A, map_to_list) [tag; arg] c) as Hw. cbv beta iota zeta in Hw.
  rewrite Hf, Hfin in Hw. destruct (Hw Hok) as (e1 & e2 & H1' & H2' & Hrun & _).
  set (t1 := Telnet.set_pusher (Telnet.pushed "RUNTIME" e2 (Telnet.pushed "RUNTIME" e1
    (Telnet.pusher (Telnet.this_Telnet c)))) (Telnet.this_Telnet c)) in *.
  eexists _, (pushed_by i (telnet_node t1) σ). split; [exact Hrun|].
  split; [|split; [done|split; [done|]]].
  { apply step_act with (s := telnet_node (Telnet.this_Telnet c)); [done|].
    pose proof (acts_write [tag; arg] c) as Ha. by rewrite Hrun in Ha. }
  intros ls σ' Hall Hsteps. pose proof (ParseFloat_valid arg) as Hv. rewrite Hf in Hv.
  apply (write_spreads (Telnet.name (Telnet.this_Telnet c)) tag f e1 e2 σ i
    (telnet_node (Telnet.this_Telnet c)) (telnet_node t1)); try done.
  cbn. by rewrite <- app_assoc.
Qed.
End net.

(** *** Examples *)

#[local] Existing Instances amd64 example_mux example_mux_laws Logic.numbers_expr Mqtt.example_std
  SunSpecServer.example_schemas SunSpecClient.short_device.
#[local] Existing Instances ModbusLink.wired_connection.

#[local] Instance example_host : Host := {|
  LookPath _ := true;
  point_order m := (map_to_list m).*2;
|}.

#[local] Instance example_lib : ModbusClient.ModbusLib := ModbusLink.wired ModbusServer.example_server.

(** A CPU module, a Modbus client, a Modbus server, a logic module, a telnet module
    and an MQTT module. *)
Definition example_nodes : list node := [
  inl example_server;
  inr (inr (inl ModbusLink.wired_client));
  inr (inl ModbusServer.example_server);
  inr (inr (inr (inr (inr (inl (Logic.one_line Logic.numbers_expr "2.5"))))));
  inr (inr (inr (inr (inr (inr (inl (Telnet.New "telnet")))))));
  inr (inr (inr (inr (inr (inr (inr Mqtt.example_running))))))
].

Lemma example_ready : all_ready (new_system example_nodes).
Proof. repeat constructor. by eexists. Qed.

(** Nothing was pushed yet. *)
Lemma example_drained : system_wf (new_system example_nodes) ∧ drained (new_system example_nodes).
Proof. split; [apply new_system_wf|]. split; repeat constructor. Qed.

(** Whatever the order of the deliveries, there is an end. *)
Lemma example_end (σ : system) :
  system_wf σ → all_ready σ → ∃ ls (σ' : @system node), Forall delivery ls ∧ steps ls σ σ' ∧
    ∀ l σ'', delivery l → ¬ step l σ' σ''.
Proof.
  intros Hwf Hr. destruct (deliveries_exist σ Hwf Hr) as (ls & σ' & Hls & Hsteps & Hz).
  exists ls, σ'. split; [exact Hls|]. split; [exact Hsteps|]. intros l σ'' Hl Hs.
  destruct (deliveries_spec _ _ _ Hls Hsteps Hwf Hr) as [_ Hr'].
  pose proof (delivery_pending _ _ _ Hl Hs (steps_wf _ _ _ Hsteps Hwf) Hr'). lia.
Qed.

Lemma http_write_reaches_all_witness :
  ∃ (σ1 σ' : @system node) ls s' c', step (Act 0) (new_system example_nodes) σ1 ∧ steps ls σ1 σ' ∧
    peers σ' !! 1%nat = Some (inr (inr (inl s'))) ∧
    ModbusClient.client s' = Some c' ∧
    ModbusServer.tags c' = <["setpoint" := f64_of_Z 7]> (ModbusServer.tags ModbusServer.example_server).
Proof.
  destruct example_drained as [Hwf Hd]. pose proof example_ready as Hrdy.
  destruct (http_write_reaches_all (new_system example_nodes) 0 example_server "plant.setpoint" "7" None
    (f64_of_Z 7) Hwf Hrdy Hd eq_refl eq_refl ltac:(vm_compute; reflexivity) eq_refl (λ _, eq_refl))
    as (s1 & σ1 & Hrun & Hstep & Hpeers & Hall).
  assert (system_wf σ1) as Hwf1 by (eapply step_wf; [exact Hstep|exact Hwf]).
  assert (all_ready σ1) as Hrdy1 by (unfold all_ready; rewrite Hpeers; by apply Forall_insert).
  destruct (example_end σ1 Hwf1 Hrdy1) as (ls & σ' & Hls & Hsteps & Hend).
  destruct (Hall ls σ' Hls Hsteps) as [_ [(l & σ2 & Hl & Hs2)|(_ & _ & Hknows)]];
    [destruct (Hend l σ2 Hl Hs2)|].
  destruct (Hknows 1%nat (inr (inr (inl ModbusLink.wired_client)))) as (n' & Hn' & Hk).
  { by rewrite Hpeers. }
  { discriminate. }
  destruct n' as [?|[?|[s'|?]]]; try done.
  pose proof ModbusLink.wired_mirrored as [_ [Hm _]%Forall_cons]%Forall_cons.
  destruct (Hk _ _ eq_refl eq_refl ModbusServer.example_server_wf Hm (or_intror eq_refl))
    as (c' & r' & -> & Hmat & Htags & _).
  eexists σ1, σ', ls, _, c'. split; [exact Hstep|]. split; [exact Hsteps|]. split; [exact Hn'|].
  split; [reflexivity|]. etransitivity; [exact Htags|]. vm_compute in Hmat. injection Hmat as <-. reflexivity.
Defined.

Lemma telnet_write_reaches_all_witness :
  ∃ (σ1 σ' : @system node) ls s', step (Act 4) (new_system example_nodes) σ1 ∧ steps ls σ1 σ' ∧
    length ls = 14%nat ∧ peers σ' !! 3%nat = Some (inr (inr (inr (inr (inr (inl s')))))) ∧
    Logic.env s' !! "x" = Some (Logic.VFloat (f64_of_Z 2)).
Proof.
  destruct example_drained as [Hwf Hd]. pose proof example_ready as Hrdy.
  destruct (telnet_write_reaches_all (new_system example_nodes) 4 (Telnet.session (Telnet.New "telnet"))
    "tag-x" "2" (f64_of_Z 2) Hwf Hrdy Hd eq_refl ltac:(vm_compute; reflexivity) eq_refl (λ _, eq_refl))
    as (c1 & σ1 & Hrun & Hstep & Hpeers & _ & Hall).
  assert (system_wf σ1) as Hwf1 by (eapply step_wf; [exact Hstep|exact Hwf]).
  assert (all_ready σ1) as Hrdy1 by (unfold all_ready; rewrite Hpeers; by apply Forall_insert).
  destruct (example_end σ1 Hwf1 Hrdy1) as (ls & σ' & Hls & Hsteps & Hend).
  destruct (Hall ls σ' Hls Hsteps) as [_ [(l & σ2 & Hl & Hs2)|(Hlen & _ & Hknows)]];
    [destruct (Hend l σ2 Hl Hs2)|].
  destruct (Hknows 3%nat (inr (inr (inr (inr (inr (inl (Logic.one_line Logic.numbers_expr "2.5"))))))))
    as (n' & Hn' & Hk).
  { by rewrite Hpeers. }
  { discriminate. }
  destruct n' as [?|[?|[?|[?|[?|[s'|?]]]]]]; try done.
  destruct Hk as (v & -> & Hv).
  eexists σ1, σ', ls, _. split; [exact Hstep|]. split; [exact Hsteps|]. split; [exact Hlen|].
  split; [exact Hn'|]. cbn. rewrite (Hv "x"). reflexivity.
Defined.
