(* ===== verification/OtSim.v ===== *)
(** * ot-sim.go: the registry of the modules, and the main programs

    [ParseConfigFile] reads a document, makes a module of every child of the root
    whose tag has a factory, and configures it; [Start] runs the modules.  The
    modules are behind the interface [Modules]; what a module promises about its
    configuration is the interface [ConfiguredModules].  The eight programs under
    [cmd] differ in the modules they link and in the context only. *)

From S2P Require Import Prelude Etree.

(** What the registry knows of modules.  A method works on the module and on the
    package variables of the modules, the [World]. *)
Class Modules `{Etree} := {
  World : Type;
  Module : Type;
  Configure : Element → Module → World → Module * World * outcome (option error);
  Runner : Module → bool;       (* it implements the interface Runner *)
  Run : context → string → string → Module → World → Module * World * outcome (option error);
}.

(** A [ModuleFactory], by its method [NewModule] *)
Abbreviation factory := (Element → Module + error).

Section registry.
Context `{Modules}.

Record registry := mk_registry {
  factories : gmap string factory;
  runners : list Module;
  pubEndpoint : string;
  pullEndpoint : string;
  world : World;
}.

Definition set_factories v (s : registry) : registry :=
  mk_registry v (runners s) (pubEndpoint s) (pullEndpoint s) (world s).
Definition set_runners v (s : registry) : registry :=
  mk_registry (factories s) v (pubEndpoint s) (pullEndpoint s) (world s).
Definition set_pubEndpoint v (s : registry) : registry :=
  mk_registry (factories s) (runners s) v (pullEndpoint s) (world s).
Definition set_pullEndpoint v (s : registry) : registry :=
  mk_registry (factories s) (runners s) (pubEndpoint s) v (world s).
Definition set_world v (s : registry) : registry :=
  mk_registry (factories s) (runners s) (pubEndpoint s) (pullEndpoint s) v.

Definition AddModuleFactory (tag : string) (f : factory) (s : registry) : registry :=
  set_factories (<[tag := f]> (factories s)) s.

(** ** ParseConfigFile *)

Definition bus_child (child : Element) : go registry (option error) () :=
  if String.eqb (ETag child) "pub-endpoint" then modify (set_pubEndpoint (Text child))
  else if String.eqb (ETag child) "pull-endpoint" then modify (set_pullEndpoint (Text child))
  else mret ().

Definition parse_child (child : Element) : go registry (option error) () :=
  s ← get;
  match factories s !! ETag child with
  | None => mret ()
  | Some f =>
    match f child with
    | inr e => return_ (Some (Wrapf "creating new module for %s: %w" e))
    | inl m =>
      let '(m', w, o) := Configure child m (world s) in
      _ ← modify (set_world w);
      err ← call o;
      match err with
      | Some e => return_ (Some (Wrapf "running configure for module %s for %s: %w" e))
      | None => if Runner m' then modify (λ s, set_runners (runners s ++ [m']) s) else mret ()
      end
    end
  end.

(** The file system and the path search of the etree library. *)
Context (ReadFromFile : string → result Element).
Context (FindElement : Element → string → option Element).

Definition ParseConfigFile (path : string) : go registry (option error) (option error) :=
  match ReadFromFile path with
  | inr e => return_ (Some (Wrapf "reading XML config file %s: %w" e))
  | inl doc =>
    match SelectElement doc "ot-sim" with
    | None => return_ (Some (Errorf "root element of XML config file must be 'ot-sim'"))
    | Some root =>
      _ ← match FindElement root "message-bus" with
          | Some bus => range (ChildElements bus) bus_child
          | None => mret ()
          end;
      _ ← range (ChildElements root) parse_child;
      mret None
    end
  end.

(** ** Start *)

(** The loop; [done] are the runners before, which the loop has passed. *)
Fixpoint start_loop (ctx : context) (done todo : list Module) : go registry (option error) () :=
  match todo with
  | [] => mret ()
  | r :: todo' =>
    s ← get;
    let '(r', w, o) := Run ctx (pubEndpoint s) (pullEndpoint s) r (world s) in
    _ ← modify (λ s, set_world w (set_runners (done ++ r' :: todo') s));
    err ← call o;
    match err with
    | Some e => return_ (Some (Wrapf "starting %s: %w" e))
    | None => start_loop ctx (done ++ [r']) todo'
    end
  end.

Definition Start (ctx : context) : go registry (option error) (option error) :=
  s ← get;
  if (length (runners s) =? 0)%nat then mret (Some (Errorf "no registered runners")) else
  _ ← start_loop ctx [] (runners s);
  mret None.

(** ** cmd: the main functions *)

(** How far a program gets: it exits with a code, crashes with a panic, hangs, or
    waits for the end of its context. *)
Inductive ending := Exited (code : Z) | Crashed (p : panic) | Hangs | Serving (ctx : context).

(** [util.ExitError] decides the exit code of an error, 1 otherwise. *)
Definition exit_code (e : error) : Z := default 1 (errors_As_ExitError e).

(** [main]; [setup] is what the program does to its context. *)
Definition main (setup : context → string → context) (args : list string) (s : registry) : registry * ending :=
  match args with
  | [_; path] =>
    match run (ParseConfigFile path) s with
    | (s', Panics p) => (s', Crashed p)
    | (s', Loops) => (s', Hangs)
    | (s', Returns (Some _)) => (s', Exited ExitNoRestart)
    | (s', Returns None) =>
      let ctx := setup Background path in
      match run (Start ctx) s' with
      | (s'', Panics p) => (s'', Crashed p)
      | (s'', Loops) => (s'', Hangs)
      | (s'', Returns (Some e)) => (s'', Exited (exit_code e))
      | (s'', Returns None) => (s'', Serving ctx)
      end
    end
  | _ => (s, Crashed PanicExplicit)
  end.

(** After [<-ctx.Done()]: the code the program ends with. *)
Definition main_end (err : option error) : Z :=
  match err with
  | Some e => if errors_Is e "context canceled" then 0 else exit_code e
  | None => 0
  end.

(** The status of the process; the Go runtime ends a panic with 2. *)
Definition exit_status (e : ending) : option Z :=
  match e with Exited code => Some code | Crashed _ => Some 2 | Hangs | Serving _ => None end.

(** ** Specification vocabulary *)

(** The elements of a document that are modules. *)
Definition registered (s : registry) (c : Element) : bool :=
  match factories s !! ETag c with Some _ => true | None => false end.

Definition module_children (s : registry) (root : Element) : list Element :=
  List.filter (registered s) (ChildElements root).

Definition bus_text (tag : string) (root : Element) : option string :=
  FindElement root "message-bus" ≫= λ bus, last_text tag (ChildElements bus).

(** What the modules promise: from any state of the package variables a module
    that a known factory made configures itself without a panic, and is then as
    its configuration says. *)
Class ConfiguredModules := {
  known : string → factory → Prop;
  configured : Element → Module → Prop;
  configure_law tag f e m w : known tag f → ETag e = tag → f e = inl m →
    ∃ m' w' o, Configure e m w = (m', w', Returns o) ∧ (o = None → configured e m');
}.
End registry.

(** Running the modules one after the other until the first error. *)
Inductive runs `{Modules} (ctx : context) (pub pull : string) :
  list Module → World → list Module → World → option error → Prop :=
| runs_nil w : runs ctx pub pull [] w [] w None
| runs_ok r l w r' l' w' w'' o :
    Run ctx pub pull r w = (r', w', Returns None) → runs ctx pub pull l w' l' w'' o →
    runs ctx pub pull (r :: l) w (r' :: l') w'' o
| runs_error r l w r' w' e :
    Run ctx pub pull r w = (r', w', Returns (Some e)) →
    runs ctx pub pull (r :: l) w (r' :: l) w' (Some e).

(** Making and configuring modules one after the other until the first error. *)
Inductive parses `{Modules} (fs : gmap string factory) :
  list Element → World → list Module → World → option error → Prop :=
| parses_nil w : parses fs [] w [] w None
| parses_ok c l w f m m' w' ms w'' o :
    fs !! ETag c = Some f → f c = inl m → Configure c m w = (m', w', Returns None) →
    parses fs l w' ms w'' o → parses fs (c :: l) w (m' :: ms) w'' o
| parses_factory_error c l w f e :
    fs !! ETag c = Some f → f c = inr e →
    parses fs (c :: l) w [] w (Some (Wrapf "creating new module for %s: %w" e))
| parses_configure_error c l w f m m' w' e :
    fs !! ETag c = Some f → f c = inl m → Configure c m w = (m', w', Returns (Some e)) →
    parses fs (c :: l) w [] w' (Some (Wrapf "running configure for module %s for %s: %w" e)).

(** ** Lemmas *)

Section lemmas.
Context `{Modules}.

(** What parsing the modules leaves alone. *)
Definition same_registry (s s' : registry) : Prop :=
  factories s' = factories s ∧ pubEndpoint s' = pubEndpoint s ∧ pullEndpoint s' = pullEndpoint s.

#[local] Instance same_registry_preorder : PreOrder same_registry.
Proof. split; [done|]. intros s1 s2 s3 (? & ? & ?) (? & ? & ?). split_and!; congruence. Qed.

Lemma bus_loop l : ∀ s, ∃ s', range l bus_child s = (s', Next ()) ∧
  factories s' = factories s ∧ runners s' = runners s ∧ world s' = world s ∧
  pubEndpoint s' = default (pubEndpoint s) (last_text "pub-endpoint" l) ∧
  pullEndpoint s' = default (pullEndpoint s) (last_text "pull-endpoint" l).
Proof.
  induction l as [|c l IH]; intros s; [by exists s|]. cbn [range].
  assert (∃ s1, bus_child c s = (s1, Next ()) ∧ factories s1 = factories s ∧ runners s1 = runners s ∧
    world s1 = world s ∧
    pubEndpoint s1 = (if String.eqb (ETag c) "pub-endpoint" then Text c else pubEndpoint s) ∧
    pullEndpoint s1 = (if String.eqb (ETag c) "pull-endpoint" then Text c else pullEndpoint s))
    as (s1 & Hc & Hf & Hr & Hw & Hpub & Hpull).
  { unfold bus_child. destruct (String.eqb_spec (ETag c) "pub-endpoint") as [->|]; [by eexists|].
    destruct (String.eqb (ETag c) "pull-endpoint"); by eexists. }
  erewrite bind_next by exact Hc. destruct (IH s1) as (s2 & Hl & Hf2 & Hr2 & Hw2 & Hpub2 & Hpull2).
  exists s2. split; [exact Hl|]. split_and!; [congruence..| |].
  - rewrite Hpub2, Hpub. rewrite last_text_cons.
    by destruct (last_text "pub-endpoint" l), (String.eqb (ETag c) "pub-endpoint").
  - rewrite Hpull2, Hpull. rewrite last_text_cons.
    by destruct (last_text "pull-endpoint" l), (String.eqb (ETag c) "pull-endpoint").
Qed.

Lemma start_loop_runs ctx pub pull todo w todo' w' o :
  runs ctx pub pull todo w todo' w' o → ∀ done s,
  pubEndpoint s = pub → pullEndpoint s = pull → world s = w → runners s = done ++ todo →
  start_loop ctx done todo s =
    (set_world w' (set_runners (done ++ todo') s),
     match o with Some e => Return (Some (Wrapf "starting %s: %w" e)) | None => Next () end).
Proof.
  induction 1 as [w|r l w r' l' w1 w2 o Hrun Hl IH|r l w r' w1 e Hrun];
    intros done s Hpub Hpull Hw Hr; cbn [start_loop]; go_unfold.
  - rewrite <- Hr, <- Hw. by destruct s.
  - rewrite Hpub, Hpull, Hw, Hrun. rewrite (IH (done ++ [r'])); simpl; try done.
    + by rewrite <- app_assoc.
    + by rewrite <- app_assoc.
  - by rewrite Hpub, Hpull, Hw, Hrun.
Qed.

Lemma Start_runs ctx s l w o :
  runners s ≠ [] → runs ctx (pubEndpoint s) (pullEndpoint s) (runners s) (world s) l w o →
  run (Start ctx) s = (set_world w (set_runners l s), Returns (Wrapf "starting %s: %w" <$> o)).
Proof.
  intros Hne Hr. unfold run, Start, mbind, go_bind. cbn [get].
  destruct (runners s) as [|r rs] eqn:Hrs; [done|]. cbn [length Nat.eqb].
  rewrite (start_loop_runs _ _ _ _ _ _ _ _ Hr) by done. by destruct o.
Qed.

Context (ReadFromFile : string → result Element).
Context (FindElement : Element → string → option Element).
Context `{!ConfiguredModules}.

Definition all_known (s : registry) : Prop := map_Forall known (factories s).

(** A module that is there after its configuration runs if it can. *)
Definition add_runner (m : Module) (s : registry) : registry :=
  if Runner m then set_runners (runners s ++ [m]) s else s.

Lemma parse_child_spec c s f m m' w o :
  factories s !! ETag c = Some f → f c = inl m → Configure c m (world s) = (m', w, Returns o) →
  parse_child c s =
    match o with
    | None => (add_runner m' (set_world w s), Next ())
    | Some e => (set_world w s, Return (Some (Wrapf "running configure for module %s for %s: %w" e)))
    end.
Proof.
  intros Hf Hm Hc. unfold parse_child, add_runner. go_unfold. rewrite Hf, Hm, Hc.
  destruct o; [done|]. by destruct (Runner m').
Qed.

(** The outcome of parsing the children: the modules before the first failure. *)
Lemma parse_loop l : ∀ s, all_known s →
  ∃ s' ms w o, range l parse_child s = (s', match o with Some e => Return (Some e) | None => Next () end) ∧
    parses (factories s) (List.filter (registered s) l) (world s) ms w o ∧
    Forall2 configured (take (length ms) (List.filter (registered s) l)) ms ∧
    same_registry s s' ∧ runners s' = runners s ++ List.filter Runner ms ∧ world s' = w.
Proof.
  induction l as [|c l IH]; intros s Hk.
  { exists s, [], (world s), None. split_and!; try done; [constructor|symmetry; apply app_nil_r]. }
  cbn [range List.filter]. destruct (factories s !! ETag c) as [f|] eqn:Hf.
  2: { assert (registered s c = false) as -> by (unfold registered; by rewrite Hf).
       assert (parse_child c s = (s, Next ())) as Hc by (unfold parse_child; go_unfold; by rewrite Hf).
       rewrite (bind_next _ _ _ _ _ Hc). exact (IH s Hk). }
  assert (registered s c = true) as -> by (unfold registered; by rewrite Hf).
  pose proof (Hk _ _ Hf) as Hkf. destruct (f c) as [m|e] eqn:Hm.
  2: { assert (parse_child c s = (s, Return (Some (Wrapf "creating new module for %s: %w" e)))) as Hc
         by (unfold parse_child; go_unfold; by rewrite Hf, Hm).
       rewrite (bind_return _ _ _ _ _ Hc). exists s, [], (world s), (Some (Wrapf "creating new module for %s: %w" e)).
       split_and!; try done; [by eapply parses_factory_error|symmetry; apply app_nil_r]. }
  destruct (configure_law _ f c m (world s) Hkf eq_refl Hm) as (m' & w & o & Hc & Ho).
  pose proof (parse_child_spec c s f m m' w o Hf Hm Hc) as Hchild.
  destruct o as [e|].
  { rewrite (bind_return _ _ _ _ _ Hchild). eexists (set_world w s), [], w, (Some _).
    split_and!; try done; [by eapply parses_configure_error|symmetry; apply app_nil_r]. }
  rewrite (bind_next _ _ _ _ _ Hchild). set (s1 := add_runner m' (set_world w s)).
  destruct (IH s1) as (s2 & ms & w2 & o & Hl & Hp & Hms & Hs2 & Hr & Hw).
  { unfold all_known, s1, add_runner. by destruct (Runner m'). }
  assert (same_registry s s1 ∧ world s1 = w ∧ runners s1 = runners s ++ List.filter Runner [m'])
    as (Hs1 & Hw1 & Hr1).
  { unfold s1, add_runner. cbn [List.filter].
    destruct (Runner m'); split_and!; try done. symmetry. apply app_nil_r. }
  assert (registered s1 = registered s) as Hreg by (unfold registered; by rewrite (proj1 Hs1)).
  rewrite Hreg, (proj1 Hs1), Hw1 in Hp. rewrite Hreg in Hms.
  exists s2, (m' :: ms), w2, o. split_and!; try done.
  - by eapply parses_ok.
  - cbn [length take]. constructor; auto.
  - by transitivity s1.
  - rewrite Hr, Hr1, <- app_assoc. f_equal. cbn [List.filter]. by destruct (Runner m').
Qed.

(** There is one outcome only. *)
Lemma parses_det fs l w ms w' o :
  parses fs l w ms w' o → ∀ ms2 w2 o2, parses fs l w ms2 w2 o2 → ms = ms2 ∧ w' = w2 ∧ o = o2.
Proof.
  induction 1 as [|c l w f m m' w1 ms w2 o Hf Hm Hc _ IH|c l w f e Hf He|c l w f m m' w1 e Hf Hm Hc];
    intros ms2 w3 o2; inversion 1; subst; try (by auto); try congruence.
  - match goal with Hc' : Configure _ _ _ = (?r, ?v, _) |- _ :: _ = ?r :: _ ∧ _ =>
      assert (r = m' ∧ v = w1) as [-> ->] by (split; congruence) end.
    by edestruct IH as (-> & -> & ->); [eassumption|].
  - split_and!; congruence.
  - split_and!; congruence.
Qed.

(** *** The outcome of [ParseConfigFile] *)

(** The registry after parsing a document with this root: the modules that were
    configured, the package variables and the error, if any. *)
Record parsed_registry (root : Element) (s s' : registry) (ms : list Module) (o : option error) : Prop := {
  parsed_children : parses (factories s) (module_children s root) (world s) ms (world s') o;
  parsed_configured : Forall2 configured (take (length ms) (module_children s root)) ms;
  parsed_runners : runners s' = runners s ++ List.filter Runner ms;
  parsed_factories : factories s' = factories s;
  parsed_pub : pubEndpoint s' = default (pubEndpoint s) (bus_text FindElement "pub-endpoint" root);
  parsed_pull : pullEndpoint s' = default (pullEndpoint s) (bus_text FindElement "pull-endpoint" root);
}.

Lemma ParseConfigFile_root path doc root s :
  all_known s → ReadFromFile path = inl doc → SelectElement doc "ot-sim" = Some root →
  ∃ s' ms o, run (ParseConfigFile ReadFromFile FindElement path) s = (s', Returns o) ∧
    parsed_registry root s s' ms o.
Proof.
  intros Hk Hread Hroot. unfold ParseConfigFile. rewrite Hread, Hroot.
  assert (∃ s1, (match FindElement root "message-bus" with
      | Some bus => range (ChildElements bus) bus_child | None => mret () end) s = (s1, Next ()) ∧
    factories s1 = factories s ∧ runners s1 = runners s ∧ world s1 = world s ∧
    pubEndpoint s1 = default (pubEndpoint s) (bus_text FindElement "pub-endpoint" root) ∧
    pullEndpoint s1 = default (pullEndpoint s) (bus_text FindElement "pull-endpoint" root))
    as (s1 & Hb & Hf & Hr & Hw & Hpub & Hpull).
  { unfold bus_text. destruct (FindElement root "message-bus") as [bus|]; [|by exists s].
    destruct (bus_loop (ChildElements bus) s) as (s1 & ? & ? & ? & ? & ? & ?). by exists s1. }
  destruct (parse_loop (ChildElements root) s1) as
    (s2 & ms & w & o & Hl & Hp & Hms & (Hf2 & Hpub2 & Hpull2) & Hr2 & Hw2).
  { unfold all_known. by rewrite Hf. }
  exists s2, ms, o. split.
  - unfold run. rewrite (bind_next _ _ _ _ _ Hb). unfold mbind, go_bind. rewrite Hl. by destruct o.
  - assert (registered s1 = registered s) as Hreg by (unfold registered; by rewrite Hf).
    rewrite Hreg, Hf, Hw, <- Hw2 in Hp. rewrite Hreg in Hms. split; try done; congruence.
Qed.
End lemmas.

(** ** Theorems *)

(** C34: what a program makes of its argument, whatever its modules are, as long as
    they keep their promise.  Without exactly one argument it panics; a document
    that cannot be read or has another root ends it with 101.  Otherwise the
    modules are those of the children of the root with a known tag, in order and
    configured as their elements say, up to the first that fails, which ends the
    program with 101; the endpoints are the last ones of the message bus.  A
    program without a module that runs exits with 1; else the modules are started
    one after the other on these endpoints, and the first error decides the exit
    code; if there is none, the program serves until its context is done. *)
Theorem program_runs `{ConfiguredModules} ReadFromFile FindElement setup args s :
  all_known s →
  let m := main ReadFromFile FindElement setup args s in
  (length args ≠ 2%nat → m = (s, Crashed PanicExplicit)) ∧
  ∀ prog path, args = [prog; path] →
  ((∀ doc, ReadFromFile path = inl doc → SelectElement doc "ot-sim" = None) →
     m = (s, Exited ExitNoRestart)) ∧
  (∀ doc root, ReadFromFile path = inl doc → SelectElement doc "ot-sim" = Some root →
     ∃ s1 ms failed, parsed_registry FindElement root s s1 ms failed ∧
       (failed ≠ None → m = (s1, Exited ExitNoRestart)) ∧
       (failed = None → runners s1 = [] → m = (s1, Exited 1)) ∧
       (failed = None → runners s1 ≠ [] → ∀ l w o,
          runs (setup Background path) (pubEndpoint s1) (pullEndpoint s1) (runners s1) (world s1) l w o →
          m = (set_world w (set_runners l s1),
               match o with
               | Some e => Exited (exit_code e)
               | None => Serving (setup Background path)
               end))).
Proof.
  intros Hk m. split.
  { intros Hl. unfold m, main. by destruct args as [|a [|b [|c l]]]. }
  intros prog path ->. unfold m, main. split.
  - intros Hno. unfold run, ParseConfigFile. destruct (ReadFromFile path) as [doc|e]; [|done].
    by rewrite (Hno doc eq_refl).
  - intros doc root Hread Hroot.
    destruct (ParseConfigFile_root ReadFromFile FindElement path doc root s Hk Hread Hroot)
      as (s1 & ms & failed & Hrun & Hp).
    exists s1, ms, failed. rewrite Hrun. split; [done|]. split_and!.
    + by destruct failed.
    + intros -> Hr. unfold run, Start, mbind, go_bind, get. by rewrite Hr.
    + intros -> Hr l w o Hruns. rewrite (Start_runs _ _ _ _ _ Hr Hruns). by destruct o.
Qed.

(** A family of modules for the example: a module is its name; an element without
    a name cannot be configured, and a module runs if it is not called [sick]. *)
#[local] Instance named_modules : @Modules xml_etree := {|
  World := nat;
  Module := string;
  Configure e m w := (m, S w, Returns (if String.eqb m "" then Some (Errorf "no name") else None));
  Runner _ := true;
  Run ctx pub pull m w :=
    (m, w, Returns (if String.eqb m "sick" then Some (NewExitError ExitNoRestart "sick") else None));
|}.

Definition named_factory (e : xml) : string + error := inl (@SelectAttrValue xml_etree e "name" "").

#[local] Instance named_promise : ConfiguredModules.
Proof.
  refine {| known _ f := f = named_factory;
            configured e m := m = @SelectAttrValue xml_etree e "name" "" ∧ m ≠ "" |}.
  intros tag f e m w -> _ [= <-]. eexists _, _, _. split; [reflexivity|].
  destruct (String.eqb_spec (@SelectAttrValue xml_etree e "name" "") ""); [done|]. by intros _.
Defined.

Definition named_registry : registry := AddModuleFactory "io" named_factory (mk_registry ∅ [] "" "" 0%nat).

Definition example_root (names : list string) : xml :=
  Elem "ot-sim" [] "" (
    Elem "message-bus" [] "" [leaf "pub-endpoint" "tcp://a"; leaf "pull-endpoint" "tcp://b"]
    :: map (λ n, Elem "io" [("name", n)] "" []) names).

Definition example_file (path : string) : result (@Element xml_etree) :=
  inl (Elem "" [] "" [example_root ["a"; "sick"; "b"]]).

Lemma program_runs_witness :
  all_known named_registry ∧
  ∃ s, main example_file (@SelectElement xml_etree) (λ c _, c)
    ["ot-sim"; "/etc/ot-sim.xml"] named_registry = (s, Exited 101) ∧
    pubEndpoint s = "tcp://a" ∧ runners s = ["a"; "sick"; "b"].
Proof.
  assert (all_known named_registry) as Hk.
  { intros k f. unfold named_registry. simpl. rewrite insert_empty. by intros [_ <-]%lookup_singleton_Some. }
  split; [done|].
  destruct (program_runs example_file (@SelectElement xml_etree) (λ c _, c)
    ["ot-sim"; "/etc/ot-sim.xml"] named_registry Hk) as [_ Hm].
  destruct (Hm _ _ eq_refl) as [_ Hdoc].
  destruct (Hdoc _ _ eq_refl eq_refl) as (s1 & ms & failed & [Hc _ Hr _ Hpub Hpull] & _ & _ & Hrun).
  assert (parses (factories named_registry)
    (@module_children xml_etree _ named_registry (example_root ["a"; "sick"; "b"]))
    0%nat ["a"; "sick"; "b"] 3%nat None) as Hexp.
  { match goal with |- parses _ ?l _ _ _ _ => let l' := eval vm_compute in l in change l with l' end.
    do 3 (eapply (@parses_ok xml_etree named_modules); [reflexivity..|]).
    apply (@parses_nil xml_etree named_modules). }
  destruct (parses_det _ _ _ _ _ _ Hc _ _ _ Hexp) as (-> & Hw & ->).
  eexists. split; [|split]; [|exact Hpub|exact Hr].
  change (runners s1 = ["a"; "sick"; "b"]) in Hr. rewrite Hr in Hrun.
  rewrite (Hrun eq_refl ltac:(discriminate) ["a"; "sick"; "b"] (world s1)
    (Some (NewExitError ExitNoRestart "sick"))); [f_equal|].
  - rewrite <- Hr. by destruct s1.
  - eapply (@runs_ok xml_etree named_modules); [reflexivity|].
    by eapply (@runs_error xml_etree named_modules).
Defined.
