(* ===== verification/Daemon.v ===== *)
(** * The goroutine that keeps a third-party program running

    [nodered.start] and [tailscale.start] run a program in the same loop: start
    it, wait for its end or for the end of the context; start it again in the
    first case, terminate it in the second.  The loop is a [daemon] that moves by
    events; the program, its exits and the clock are outside. *)

From S2P Require Import Prelude.

(** Before [cmd.Start], in the [select], in the inner [select] after [SIGTERM], or
    returned. *)
Inductive phase := Launching | Waiting | Stopping | Exited.

Inductive process := NoProcess | Running | ExitedWith (code : Z).

Record daemon := mk_daemon { d_phase : phase; d_proc : process }.

Definition new_daemon : daemon := mk_daemon Launching NoProcess.

Inductive event :=
| EvStart (ok : bool)     (* cmd.Start *)
| EvExit (code : Z)       (* the process ends *)
| EvWaitDone              (* <-wait *)
| EvCtxDone               (* <-ctx.Done() *)
| EvTimeout.              (* <-time.After(10s), then Kill *)

(** [ctx_done]: the context is done when the event happens. *)
Definition daemon_move (ctx_done : bool) (ev : event) (d : daemon) : option daemon :=
  match d_phase d, ev, d_proc d with
  | Exited, _, _ => None
  | ph, EvExit code, Running => Some (mk_daemon ph (ExitedWith code))
  | Launching, EvStart true, _ => Some (mk_daemon Waiting Running)
  | Launching, EvStart false, _ => Some (mk_daemon Exited NoProcess)
  | Waiting, EvWaitDone, ExitedWith _ => Some (mk_daemon Launching NoProcess)
  | Waiting, EvCtxDone, p => if ctx_done then Some (mk_daemon Stopping p) else None
  | Stopping, EvWaitDone, ExitedWith _ => Some (mk_daemon Exited NoProcess)
  | Stopping, EvTimeout, _ => Some (mk_daemon Exited NoProcess)
  | _, _, _ => None
  end.

(** A step, and the steps that lead somewhere; the context stays done once it is. *)
Inductive daemon_step : bool * daemon → bool * daemon → Prop :=
| step_event ctx_done ev d d' : daemon_move ctx_done ev d = Some d' →
    daemon_step (ctx_done, d) (ctx_done, d')
| step_cancel d : daemon_step (false, d) (true, d).

Fixpoint moves (ctx_done : bool) (evs : list event) (d : daemon) : option daemon :=
  match evs with
  | [] => Some d
  | ev :: evs' => d' ← daemon_move ctx_done ev d; moves ctx_done evs' d'
  end.

(** A process there is only while the goroutine looks after it, and the goroutine
    stops it only when the context is done. *)
Definition daemon_wf (s : bool * daemon) : Prop :=
  match d_phase s.2 with
  | Launching | Exited => d_proc s.2 = NoProcess
  | Waiting => d_proc s.2 ≠ NoProcess
  | Stopping => d_proc s.2 ≠ NoProcess ∧ s.1 = true
  end.

Lemma daemon_step_wf s s' : daemon_step s s' → daemon_wf s → daemon_wf s'.
Proof.
  intros [ctx_done ev [ph p] d' Hm|[ph p]] Hwf;
    [|destruct ph; unfold daemon_wf in *; simpl in *; intuition congruence].
  destruct ph, ev as [ok|?| | |], p as [| |?]; try (destruct ok); try (destruct ctx_done); cbn in Hm;
    simplify_eq; unfold daemon_wf in *; simpl in *; intuition congruence.
Qed.

Lemma daemon_steps_wf s s' : rtc daemon_step s s' → daemon_wf s → daemon_wf s'.
Proof. induction 1; eauto using daemon_step_wf. Qed.

(** *** The two outcomes *)

(** As long as the context is not done a program that ends is started again,
    whatever code it ends with. *)
Lemma daemon_restarts code :
  moves false [EvExit code; EvWaitDone; EvStart true] (mk_daemon Waiting Running) =
    Some (mk_daemon Waiting Running).
Proof. done. Qed.

(** A goroutine that has not returned can move, or its program can end. *)
Lemma daemon_can_move s :
  daemon_wf s → d_phase s.2 ≠ Exited →
  ∃ ev d', daemon_move s.1 ev s.2 = Some d'.
Proof.
  destruct s as [ctx_done [ph p]]. unfold daemon_wf. simpl. intros Hwf Hne.
  destruct ph; [exists (EvStart true)| |exists EvTimeout|done].
  - by destruct p; eexists.
  - destruct p; [done|exists (EvExit 0)|exists EvWaitDone]; by eexists.
  - by destruct p; eexists.
Qed.

(** Once it terminates the program it starts nothing any more, and it returns
    after two moves at most. *)
Lemma daemon_stops evs : ∀ p d,
  moves true evs (mk_daemon Stopping p) = Some d →
  (length evs ≤ 2)%nat ∧ (d_phase d = Stopping ∨ d = mk_daemon Exited NoProcess) ∧
  (length evs = 2%nat → d = mk_daemon Exited NoProcess).
Proof.
  intros p d. destruct evs as [|e1 [|e2 [|e3 evs]]]; cbn [moves].
  - intros [= <-]. cbn. split_and!; [lia|by left|lia].
  - destruct e1 as [[]| | | |], p; cbn; intros Hm; simplify_eq; cbn; split_and!; try lia; auto.
  - destruct e1 as [[]| | | |], p; cbn; try done; destruct e2 as [[]| | | |]; cbn; intros Hm;
      simplify_eq; cbn; split_and!; try lia; auto.
  - destruct e1 as [[]| | | |], p; cbn; try done; destruct e2 as [[]| | | |]; cbn; try done.
Qed.

(** ** Theorem *)

(** The life of a goroutine that keeps a program running.  In every reachable
    state a process exists only while the goroutine looks after it, and unless it
    has returned, something can happen.  As long as the context is not done, a
    program that ends is started again, whatever its exit code.  Once the goroutine
    terminates the program, which it does only when the context is done, it never
    starts one again and returns within two events. *)
Theorem daemon_lifecycle s :
  rtc daemon_step (false, new_daemon) s →
  daemon_wf s ∧
  (d_phase s.2 ≠ Exited → ∃ ev d', daemon_move s.1 ev s.2 = Some d') ∧
  (∀ code, s = (false, mk_daemon Waiting Running) →
     moves false [EvExit code; EvWaitDone; EvStart true] s.2 = Some s.2) ∧
  (d_phase s.2 = Stopping → s.1 = true ∧ ∀ evs d, moves true evs s.2 = Some d →
     (length evs ≤ 2)%nat ∧ (d_phase d = Stopping ∨ d = mk_daemon Exited NoProcess) ∧
     (length evs = 2%nat → d = mk_daemon Exited NoProcess)).
Proof.
  intros Hsteps. assert (daemon_wf s) as Hwf by (by eapply daemon_steps_wf).
  split_and!; [done|by apply daemon_can_move|by intros code ->|].
  intros Hp. destruct s as [ctx_done [ph p]]. simpl in *. subst ph. split; [by destruct Hwf|].
  intros evs d. apply daemon_stops.
Qed.

Lemma daemon_lifecycle_witness :
  let s := (true, mk_daemon Stopping Running) in
  rtc daemon_step (false, new_daemon) s ∧ daemon_wf s ∧
  ∃ d, moves true [EvExit 0; EvWaitDone] s.2 = Some d ∧ d = mk_daemon Exited NoProcess.
Proof.
  assert (rtc daemon_step (false, new_daemon) (true, mk_daemon Stopping Running)) as Hs.
  { eapply rtc_l; [by apply (step_event false (EvStart true))|].
    eapply rtc_l; [apply step_cancel|]. by apply rtc_once, (step_event true EvCtxDone). }
  destruct (daemon_lifecycle _ Hs) as (Hwf & _ & _ & Hstop).
  destruct (Hstop eq_refl) as [_ Hm]. split; [exact Hs|]. split; [exact Hwf|].
  eexists. split; [reflexivity|]. by apply (Hm [EvExit 0; EvWaitDone] _ eq_refl).
Defined.
