(* ===== verification/NodeRed.v ===== *)
(** * nodered: the module that runs Node-RED

    The module writes the settings file of Node-RED from its configuration and
    keeps the program running ([nodered/nodered.go]); the template of the file is
    in [NodeRedTemplate].  The hash function, the file system and the
    lookup of executables are parameters; the goroutine is a [daemon]. *)

From S2P Require Import Prelude Etree Daemon NodeRedTemplate.

(** [bcrypt.GenerateFromPassword] (salted: the n-th call), [os.Create], writing a
    text to a file (what the file holds then, and the error) and [exec.LookPath]. *)
Class Host := {
  GenerateFromPassword : nat → string → result string;
  CreateFile : string → option error;
  WriteFile : string → string → string * option error;
  LookPath : string → bool;
}.

Section nodered.
Context `{Host}.

Record NodeRED := mk_NodeRED {
  name : string;
  pubEndpoint : string;
  pullEndpoint : string;
  executable : string;
  settingsPath : string;
  settings : gmap string string;
}.

(** The module, the number of hashes made so far, the files written, and the
    goroutine, if it was started. *)
Record state := mk_state {
  this : NodeRED;
  hashes : nat;
  files : gmap string string;
  goroutine : option daemon;
}.

Definition New (name : string) : NodeRED :=
  mk_NodeRED name "" "" "node-red" "/etc/node-red.js"
    {[ "theme" := "dark"; "host" := "0.0.0.0"; "port" := "1880"; "user-dir" := "/root" ]}.

Definition set_pubEndpoint (v : string) (n : NodeRED) : NodeRED :=
  mk_NodeRED (name n) v (pullEndpoint n) (executable n) (settingsPath n) (settings n).
Definition set_pullEndpoint (v : string) (n : NodeRED) : NodeRED :=
  mk_NodeRED (name n) (pubEndpoint n) v (executable n) (settingsPath n) (settings n).
Definition set_executable (v : string) (n : NodeRED) : NodeRED :=
  mk_NodeRED (name n) (pubEndpoint n) (pullEndpoint n) v (settingsPath n) (settings n).
Definition set_settingsPath (v : string) (n : NodeRED) : NodeRED :=
  mk_NodeRED (name n) (pubEndpoint n) (pullEndpoint n) (executable n) v (settings n).
(** [this.settings[key] = v] *)
Definition set_setting (key v : string) (n : NodeRED) : NodeRED :=
  mk_NodeRED (name n) (pubEndpoint n) (pullEndpoint n) (executable n) (settingsPath n)
    (<[key := v]> (settings n)).

Definition update (f : NodeRED → NodeRED) (s : state) : state :=
  mk_state (f (this s)) (hashes s) (files s) (goroutine s).
Definition count_hash (s : state) : state :=
  mk_state (this s) (S (hashes s)) (files s) (goroutine s).
Definition set_file (path content : string) (s : state) : state :=
  mk_state (this s) (hashes s) (<[path := content]> (files s)) (goroutine s).
Definition set_goroutine (d : daemon) (s : state) : state :=
  mk_state (this s) (hashes s) (files s) (Some d).

(** ** Configure *)

Section configure.
Context `{Etree}.

(** The cases [editor] and [ui], which differ in the names and in the message. *)
Definition login (user pass format : string) (child : Element) : go state (option error) () :=
  let password := SelectAttrValue child "password" "admin" in
  s ← get;
  _ ← modify count_hash;
  match GenerateFromPassword (hashes s) password with
  | inr e => return_ (Some (Wrapf format e))
  | inl hash =>
    _ ← modify (update (set_setting user (SelectAttrValue child "username" "admin")));
    modify (update (set_setting pass hash))
  end.

Definition authentication_child (child : Element) : go state (option error) () :=
  if String.eqb (ETag child) "editor" then
    login "editor-user" "editor-pass" "generating hash for editor password %s: %w" child
  else if String.eqb (ETag child) "ui" then
    login "ui-user" "ui-pass" "generating hash for ui password %s: %w" child
  else mret ().

Definition configure_child (child : Element) : go state (option error) () :=
  if String.eqb (ETag child) "pub-endpoint" then modify (update (set_pubEndpoint (Text child)))
  else if String.eqb (ETag child) "pull-endpoint" then modify (update (set_pullEndpoint (Text child)))
  else if String.eqb (ETag child) "executable" then modify (update (set_executable (Text child)))
  else if String.eqb (ETag child) "user-dir" then modify (update (set_setting "user-dir" (Text child)))
  else if String.eqb (ETag child) "settings-path" then modify (update (set_settingsPath (Text child)))
  else if String.eqb (ETag child) "theme" then modify (update (set_setting "theme" (Text child)))
  else if String.eqb (ETag child) "flow-path" then modify (update (set_setting "flow-path" (Text child)))
  else if String.eqb (ETag child) "authentication" then range (ChildElements child) authentication_child
  else if String.eqb (ETag child) "endpoint" then
    _ ← modify (update (set_setting "host" (SelectAttrValue child "host" "0.0.0.0")));
    modify (update (set_setting "port" (SelectAttrValue child "port" "1880")))
  else mret ().

Definition Configure (e : Element) : go state (option error) (option error) :=
  _ ← range (ChildElements e) configure_child;
  mret None.
End configure.

(** ** The settings template *)

(** A key that is missing counts as the empty text. *)
Definition index (m : gmap string string) (key : string) : string := default "" (m !! key).

Definition exec_part (m : gmap string string) (p : part) : string :=
  match p with Literal s => s | Index key => index m key end.

(** [and (index . "key") ...]: all these settings are there and not empty. *)
Definition all_set (m : gmap string string) (keys : list string) : bool :=
  forallb (λ k, negb (String.eqb (index m k) "")) keys.

Definition exec_node (m : gmap string string) (n : node) : string :=
  match n with
  | Part p => exec_part m p
  | IfAll keys yes no =>
    String.concat "" (map (exec_part m) (if all_set m keys then yes else no))
  end.

(** [tmpl.Execute] *)
Definition Execute (t : list node) (m : gmap string string) : string :=
  String.concat "" (map (exec_node m) t).

(** ** Run *)

(** The goroutine that [start] leaves behind. *)
Definition goroutine_move : bool → event → daemon → option daemon := daemon_move.

Definition start : go state (option error) (option error) :=
  s ← get;
  if LookPath (executable (this s)) then
    _ ← modify (set_goroutine new_daemon);
    mret None
  else mret (Some (NewExitError ExitNoRestart "module executable does not exist at %s")).

Definition Run (pubEndpoint' pullEndpoint' : string) : go state (option error) (option error) :=
  s ← get;
  let pub := if String.eqb (pubEndpoint (this s)) "" then pubEndpoint' else pubEndpoint (this s) in
  let pull := if String.eqb (pullEndpoint (this s)) "" then pullEndpoint' else pullEndpoint (this s) in
  _ ← modify (update (set_setting "pub-endpoint" pub));
  _ ← modify (update (set_setting "pull-endpoint" pull));
  s ← get;
  match CreateFile (settingsPath (this s)) with
  | Some e => return_ (Some (Wrapf "opening Node-RED settings file for writing: %w" e))
  | None =>
    let '(content, err) := WriteFile (settingsPath (this s)) (Execute settingsTmpl (settings (this s))) in
    _ ← modify (set_file (settingsPath (this s)) content);
    match err with
    | Some e => return_ (Some (Wrapf "writing Node-RED settings file: %w" e))
    | None =>
      err ← start;
      match err with
      | Some e => return_ (Some (Wrapf "starting Node-RED: %w" e))
      | None => mret None
      end
    end
  end.
End nodered.

(** ** Specification vocabulary *)

Definition contains (text sub : string) : Prop := ∃ before after, text = before +:+ sub +:+ after.

(** The text is one line. *)
Fixpoint one_line (s : string) : bool :=
  match s with
  | EmptyString => true
  | String c s' => negb (Ascii.eqb c (Ascii.ascii_of_N 10)) && one_line s'
  end.

(** The lines of the settings file that ask for a login, of the editor and of the
    pages that the flows serve, with the user and the hash. *)
Definition newline : string := String (Ascii.ascii_of_N 10) "".

Definition editor_auth : string := newline +:+ "    adminAuth: {".
Definition ui_auth : string := newline +:+ "    httpNodeAuth: {".

Definition editor_section (user hash : string) : string :=
  editor_auth +:+ newline +:+ quoted "        type: ~credentials~," +:+ newline +:+
  "        users: [{" +:+ newline +:+
  quoted "            username: ~" +:+ user +:+ quoted "~," +:+ newline +:+
  quoted "            password: ~" +:+ hash +:+ quoted "~,".

Definition ui_section (user hash : string) : string :=
  ui_auth +:+ newline +:+ quoted "        user: ~" +:+ user +:+ quoted "~," +:+ newline +:+
  quoted "        pass: ~" +:+ hash +:+ quoted "~".

(** The login elements of a document, [editor] or [ui]. *)
Definition logins `{Etree} (tag : string) (e : Element) : list Element :=
  flat_map (λ a, if String.eqb (ETag a) "authentication"
                 then List.filter (λ c, String.eqb (ETag c) tag) (ChildElements a) else [])
    (ChildElements e).

(** The document asks for a login: the last element that does names a user. *)
Definition asks_login `{Etree} (tag : string) (e : Element) : Prop :=
  ∃ c, last (logins tag e) = Some c ∧ SelectAttrValue c "username" "admin" ≠ "".

(** A pair of settings holds the user of a login element and the hash of its
    password, or nothing if there is none. *)
Definition login_set `{Host} `{Etree} (user pass : string) (m : gmap string string) (c : option Element) : Prop :=
  match c with
  | None => m !! user = None ∧ m !! pass = None
  | Some c => m !! user = Some (SelectAttrValue c "username" "admin") ∧
      ∃ n hash, GenerateFromPassword n (SelectAttrValue c "password" "admin") = inl hash ∧
        m !! pass = Some hash
  end.

(** ** Lemmas *)

Section lemmas.
Context `{Host} `{Etree}.

Definition logged (s : state) (editors uis : list Element) : Prop :=
  login_set "editor-user" "editor-pass" (settings (this s)) (last editors) ∧
  login_set "ui-user" "ui-pass" (settings (this s)) (last uis) ∧ goroutine s = None.

(** A step that configures these login elements. *)
Definition logs_to (f : list Element * list Element) (m : go state (option error) ()) : Prop :=
  ∀ s editors uis, logged s editors uis →
  match m s with
  | (s', Next _) => logged s' (editors ++ f.1) (uis ++ f.2)
  | (_, Return o) => o ≠ None
  | _ => False
  end.

Lemma logs_to_range {A} (l : list A) (f : A → list Element * list Element) body :
  (∀ c, logs_to (f c) (body c)) →
  logs_to (flat_map (λ c, (f c).1) l, flat_map (λ c, (f c).2) l) (range l body).
Proof.
  intros Hb. induction l as [|c l IH]; intros s eds uis Hs; [by rewrite !app_nil_r|].
  cbn [range flat_map]. unfold mbind, go_bind. pose proof (Hb c s eds uis Hs) as Hc.
  destruct (body c s) as [s1 [u|o| |]]; try done. specialize (IH s1 _ _ Hc).
  destruct (range l body s1) as [s2 [u2|o| |]]; try done. cbn [fst snd] in *. by rewrite <- !app_assoc in IH.
Qed.

(** Changing another setting. *)
Lemma logs_to_other f :
  (∀ n key, In key ["editor-user"; "editor-pass"; "ui-user"; "ui-pass"] →
     settings (f n) !! key = settings n !! key) →
  logs_to ([], []) (modify (update f)).
Proof.
  intros Hf s eds uis [He Hu]. rewrite !app_nil_r. unfold logged, update, login_set in *. cbn.
  rewrite !Hf by (simpl; tauto). done.
Qed.

Lemma login_user_pass (user pass fmt : string) c s :
  user ≠ pass →
  match login user pass fmt c s with
  | (s', Next _) => login_set user pass (settings (this s')) (Some c) ∧
      goroutine s' = goroutine s ∧
      ∀ k, k ≠ user → k ≠ pass → settings (this s') !! k = settings (this s) !! k
  | (_, Return o) => o ≠ None
  | _ => False
  end.
Proof.
  intros Hne. unfold login. go_unfold.
  destruct (GenerateFromPassword (hashes s) _) as [hash|e] eqn:Hh; [|done]. cbn. split.
  - rewrite lookup_insert_ne, !lookup_insert_eq by done. split; [done|]. by exists (hashes s), hash.
  - split; [done|]. intros k Hk Hk'. by rewrite !lookup_insert_ne by done.
Qed.

Lemma authentication_child_logs c :
  logs_to (if String.eqb (ETag c) "editor" then [c] else [], if String.eqb (ETag c) "ui" then [c] else [])
    (authentication_child c).
Proof.
  intros s eds uis (He & Hu & Hg). unfold authentication_child.
  destruct (String.eqb_spec (ETag c) "editor") as [Htag|_]; [rewrite Htag|].
  - pose proof (login_user_pass "editor-user" "editor-pass"
      "generating hash for editor password %s: %w" c s ltac:(done)) as Hl.
    destruct (login _ _ _ c s) as [s' [u|o| |]]; try done. destruct Hl as (Hl & Hg' & Ho).
    unfold logged. cbn. rewrite last_snoc, app_nil_r, Hg', Hg. split; [done|].
    unfold login_set in *. by rewrite (Ho "ui-user"), (Ho "ui-pass").
  - destruct (String.eqb_spec (ETag c) "ui") as [_|_]; [|unfold logged; cbn; by rewrite !app_nil_r].
    pose proof (login_user_pass "ui-user" "ui-pass"
      "generating hash for ui password %s: %w" c s ltac:(done)) as Hl.
    destruct (login _ _ _ c s) as [s' [u|o| |]]; try done. destruct Hl as (Hl & Hg' & Ho).
    unfold logged. cbn. rewrite last_snoc, app_nil_r, Hg', Hg. unfold login_set in *.
    by rewrite (Ho "editor-user"), (Ho "editor-pass").
Qed.

Definition child_logins (tag : string) (c : Element) : list Element :=
  if String.eqb (ETag c) "authentication"
  then List.filter (λ c, String.eqb (ETag c) tag) (ChildElements c) else [].

Lemma filter_flat_map {A} (p : A → bool) l : List.filter p l = flat_map (λ c, if p c then [c] else []) l.
Proof. induction l as [|x l IH]; [done|]. cbn. rewrite IH. by destruct (p x). Qed.

Lemma configure_child_logs c :
  logs_to (child_logins "editor" c, child_logins "ui" c) (configure_child c).
Proof.
  unfold configure_child, child_logins.
  destruct (String.eqb_spec (ETag c) "authentication") as [Htag|Htag].
  { rewrite Htag. cbn. rewrite !filter_flat_map.
    apply (logs_to_range (ChildElements c) (λ c, (if String.eqb (ETag c) "editor" then [c] else [],
      if String.eqb (ETag c) "ui" then [c] else [])) authentication_child authentication_child_logs). }
  assert (∀ k v, existsb (String.eqb k) ["editor-user"; "editor-pass"; "ui-user"; "ui-pass"] = false →
    logs_to ([], []) (modify (update (set_setting k v)))) as Hset.
  { intros k v Hk. apply logs_to_other. intros n key Hkey. cbn. apply lookup_insert_ne. intros ->.
    rewrite (proj2 (existsb_exists _ _)) in Hk; [done|]. exists key. by rewrite String.eqb_refl. }
  repeat (destruct (String.eqb (ETag c) _);
    [try (by apply logs_to_other); try (by apply Hset)|]).
  - exact (logs_to_other
      (λ n, set_setting "port" (SelectAttrValue c "port" "1880")
              (set_setting "host" (SelectAttrValue c "host" "0.0.0.0") n))
      (λ n key Hkey, ltac:(cbn; rewrite !lookup_insert_ne; [done|..];
        intros <-; by repeat destruct Hkey as [Hkey|Hkey]))).
  - intros s eds uis Hs. by rewrite !app_nil_r.
Qed.

Lemma Configure_logs e nm :
  match run (Configure e) (mk_state (New nm) 0 ∅ None) with
  | (s', Returns None) => logged s' (logins "editor" e) (logins "ui" e)
  | (_, Returns (Some _)) => True
  | _ => False
  end.
Proof.
  unfold run, Configure, mbind, go_bind.
  pose proof (logs_to_range (ChildElements e) _ configure_child configure_child_logs
    (mk_state (New nm) 0 ∅ None) [] [] ltac:(done)) as Hl.
  destruct (range _ _ _) as [s1 [u|[o|]| |]]; done.
Qed.

(** *** The settings file *)

Lemma concat_cons x (l : list string) : String.concat "" (x :: l) = x +:+ String.concat "" l.
Proof. destruct l; [symmetry; apply string_app_nil_r|done]. Qed.

Lemma concat_app (l1 l2 : list string) :
  String.concat "" (l1 ++ l2) = String.concat "" l1 +:+ String.concat "" l2.
Proof.
  induction l1 as [|x l1 IH]; [done|]. cbn [app]. rewrite !concat_cons, IH. apply string_app_assoc.
Qed.

(** Every piece of the template is in the text. *)
Lemma Execute_contains n m : In n settingsTmpl → contains (Execute settingsTmpl m) (exec_node m n).
Proof.
  intros (t1 & t2 & Ht)%in_split. rewrite Ht. unfold Execute. rewrite map_app. cbn [map].
  rewrite concat_app. exists (String.concat "" (map (exec_node m) t1)), (String.concat "" (map (exec_node m) t2)).
  by rewrite concat_cons.
Qed.

Lemma settingsTmpl_logins : In adminAuth settingsTmpl ∧ In httpAuth settingsTmpl.
Proof.
  unfold settingsTmpl. split; [do 5 apply in_cons; apply in_eq|do 7 apply in_cons; apply in_eq].
Qed.

(** The part of the template for a login is what the settings ask for. *)
Lemma Execute_section m n keys yes no :
  In n settingsTmpl → n = IfAll keys yes no → all_set m keys = true →
  contains (Execute settingsTmpl m) (String.concat "" (map (exec_part m) yes)).
Proof.
  intros Hin -> Hk. pose proof (Execute_contains _ m Hin) as Hc. cbn [exec_node] in Hc. by rewrite Hk in Hc.
Qed.

Lemma contains_trans x y z : contains x y → contains y z → contains x z.
Proof.
  intros (b & a & ->) (b' & a' & ->). exists (b +:+ b'), (a' +:+ a). by rewrite !string_app_assoc.
Qed.

(** The rest of the sections after the hash. *)
Definition editor_rest : string :=
  newline +:+ quoted "            permissions: ~*~" +:+ newline +:+ "        }]" +:+ newline +:+ "    }," +:+ newline.

Definition ui_rest (user hash : string) : string :=
  newline +:+ "    }," +:+ newline +:+ "    httpStaticAuth: {" +:+ newline +:+
  quoted "        user: ~" +:+ user +:+ quoted "~," +:+ newline +:+
  quoted "        pass: ~" +:+ hash +:+ quoted "~" +:+ newline +:+ "    }," +:+ newline.

Lemma editor_section_written m :
  all_set m ["editor-user"; "editor-pass"] = true →
  contains (Execute settingsTmpl m) (editor_section (index m "editor-user") (index m "editor-pass")).
Proof.
  intros Hk. eapply contains_trans; [exact (Execute_section m _ _ _ _ (proj1 settingsTmpl_logins) eq_refl Hk)|].
  exists "", editor_rest. cbn [map exec_part]. rewrite !concat_cons. unfold editor_section, editor_auth.
  generalize (index m "editor-user") (index m "editor-pass"). intros u h. rewrite <- !string_app_assoc.
  vm_compute. reflexivity.
Qed.

Lemma ui_section_written m :
  all_set m ["ui-user"; "ui-pass"] = true →
  contains (Execute settingsTmpl m) (ui_section (index m "ui-user") (index m "ui-pass")).
Proof.
  intros Hk. eapply contains_trans; [exact (Execute_section m _ _ _ _ (proj2 settingsTmpl_logins) eq_refl Hk)|].
  exists "", (ui_rest (index m "ui-user") (index m "ui-pass")). cbn [map exec_part]. rewrite !concat_cons.
  unfold ui_section, ui_rest, ui_auth.
  generalize (index m "ui-user") (index m "ui-pass"). intros u h. rewrite <- !string_app_assoc.
  vm_compute. reflexivity.
Qed.

(** *** What is not in the settings file *)

(** The template as characters, with holes for the settings; [bs] says which way
    the conditions go. *)
Definition shape_part (p : part) : list (option Ascii.ascii) :=
  match p with Literal s => map Some (String.list_ascii_of_string s) | Index _ => [None] end.

Fixpoint shape (t : list node) (bs : list bool) : list (option Ascii.ascii) :=
  match t, bs with
  | [], _ => []
  | Part p :: t', _ => shape_part p ++ shape t' bs
  | IfAll _ yes no :: t', b :: bs' => flat_map shape_part (if b : bool then yes else no) ++ shape t' bs'
  | IfAll _ _ no :: t', [] => flat_map shape_part no ++ shape t' []
  end.

Definition conditions (m : gmap string string) (t : list node) : list bool :=
  flat_map (λ n, match n with Part _ => [] | IfAll keys _ _ => [all_set m keys] end) t.

(** The text fills the shape with single lines. *)
Inductive fills : list (option Ascii.ascii) → string → Prop :=
| fills_end : fills [] ""
| fills_char c t s : fills t s → fills (Some c :: t) (String c s)
| fills_hole v t s : one_line v = true → fills t s → fills (None :: t) (v +:+ s).

(** Whether a text can begin with [needle], a hole standing for anything, and
    whether it can hold a [needle] that begins with a line break. *)
Fixpoint could (needle : string) (t : list (option Ascii.ascii)) : bool :=
  match needle, t with
  | EmptyString, _ => true
  | _, None :: _ => true
  | String c n, Some d :: t' => Ascii.eqb c d && could n t'
  | String _ _, [] => false
  end.

Fixpoint may_occur (needle : string) (t : list (option Ascii.ascii)) : bool :=
  match t with
  | [] => false
  | None :: t' => may_occur needle t'
  | Some _ :: t' => could needle t || may_occur needle t'
  end.

Lemma fills_app t1 s1 t2 s2 : fills t1 s1 → fills t2 s2 → fills (t1 ++ t2) (s1 +:+ s2).
Proof.
  intros H1. revert s2 t2. induction H1 as [|c t s _ IH|v t s Hv _ IH]; intros s2 t2 H2; [done|..]; cbn.
  - constructor. by apply IH.
  - rewrite <- string_app_assoc. constructor; [done|by apply IH].
Qed.

Lemma fills_literal s : fills (map Some (String.list_ascii_of_string s)) s.
Proof. induction s; constructor; done. Qed.

Lemma fills_parts m ps :
  map_Forall (λ _ v, one_line v = true) m →
  fills (flat_map shape_part ps) (String.concat "" (map (exec_part m) ps)).
Proof.
  intros Hm. induction ps as [|p ps IH]; [constructor|]. cbn [flat_map map]. rewrite concat_cons.
  apply fills_app; [|done]. destruct p as [s|key]; [apply fills_literal|]. cbn.
  rewrite <- (string_app_nil_r (index m key)). constructor; [|constructor]. unfold index.
  destruct (m !! key) as [v|] eqn:Hv; [by apply (Hm key)|done].
Qed.

Lemma Execute_fills t m :
  map_Forall (λ _ v, one_line v = true) m → fills (shape t (conditions m t)) (Execute t m).
Proof.
  intros Hm. unfold Execute. induction t as [|n t IH]; [constructor|]. cbn [map]. rewrite concat_cons.
  destruct n as [p|keys yes no]; cbn [shape conditions flat_map app exec_node].
  - apply fills_app; [|done]. pose proof (fills_parts m [p] Hm) as Hp. cbn in Hp. by rewrite app_nil_r in Hp.
  - apply fills_app; [|done]. destruct (all_set m keys); by apply fills_parts.
Qed.

Lemma could_spec needle t s a : fills t s → s = needle +:+ a → could needle t = true.
Proof.
  intros Hf. revert needle. induction Hf as [|c t s _ IH|v t s Hv _ IH]; intros [|d n] He; try done.
  cbn in He. injection He as -> ->. cbn. rewrite Ascii.eqb_refl. by apply IH.
Qed.

Lemma may_occur_spec n t s :
  fills t s → may_occur (newline +:+ n) t = false → ¬ contains s (newline +:+ n).
Proof.
  intros Hf. induction Hf as [|c t s Hf IH|v t s Hv Hf IH]; intros Hm (b & a & He).
  - by destruct b.
  - cbn [may_occur] in Hm. apply orb_false_iff in Hm as [Hc Hm]. destruct b as [|d b].
    + rewrite (could_spec _ _ _ a (fills_char c t s Hf) He) in Hc. done.
    + injection He as _ He. apply IH; [done|]. by exists b, a.
  - cbn [may_occur] in Hm. revert b He. induction v as [|c v IHv]; intros b He.
    + apply IH; [done|]. by exists b, a.
    + cbn [one_line] in Hv. apply andb_prop in Hv as [Hc Hv]. destruct b as [|d b]; cbn in He.
      * injection He as -> _. by rewrite Ascii.eqb_refl in Hc.
      * injection He as _ He. by apply (IHv Hv b).
Qed.

(** Without a login, no line of the file asks for one. *)
Lemma no_login m :
  map_Forall (λ _ v, one_line v = true) m →
  (all_set m ["editor-user"; "editor-pass"] = false → ¬ contains (Execute settingsTmpl m) editor_auth) ∧
  (all_set m ["ui-user"; "ui-pass"] = false → ¬ contains (Execute settingsTmpl m) ui_auth).
Proof.
  intros Hm. pose proof (Execute_fills settingsTmpl m Hm) as Hf.
  replace (conditions m settingsTmpl) with
    [all_set m ["flow-path"]; all_set m ["user-dir"]; all_set m ["editor-user"; "editor-pass"];
     all_set m ["ui-user"; "ui-pass"]] in Hf by reflexivity.
  generalize dependent (all_set m ["flow-path"]). generalize dependent (all_set m ["user-dir"]).
  generalize dependent (all_set m ["editor-user"; "editor-pass"]).
  generalize dependent (all_set m ["ui-user"; "ui-pass"]).
  intros b1 b2 b3 b4 Hf. split; intros ->; eapply may_occur_spec; try exact Hf.
  - destruct b1, b3, b4; vm_compute; reflexivity.
  - destruct b2, b3, b4; vm_compute; reflexivity.
Qed.
End lemmas.

(** What [Run] does when the file can be written. *)
Section running.
Context `{Host}.
Context (Hfile : ∀ path, CreateFile path = None ∧ ∀ text, WriteFile path text = (text, None)).

(** The settings [Run] executes the template on. *)
Definition run_settings (pub pull : string) (n : NodeRED) : gmap string string :=
  <["pull-endpoint" := if String.eqb (pullEndpoint n) "" then pull else pullEndpoint n]>
  (<["pub-endpoint" := if String.eqb (pubEndpoint n) "" then pub else pubEndpoint n]> (settings n)).

Lemma Run_spec pub pull s :
  ∃ s' o, run (Run pub pull) s = (s', Returns o) ∧
    settings (this s') = run_settings pub pull (this s) ∧
    files s' !! settingsPath (this s') = Some (Execute settingsTmpl (run_settings pub pull (this s))) ∧
    if LookPath (executable (this s))
    then o = None ∧ goroutine s' = Some new_daemon
    else (o ≫= errors_As_ExitError) = Some ExitNoRestart ∧ goroutine s' = goroutine s.
Proof.
  destruct (Hfile (settingsPath (this s))) as [Hc Hw].
  unfold run, Run, start. go_unfold. cbn. rewrite Hc, Hw. cbn.
  destruct (LookPath (executable (this s))); eexists _, _;
    (split; [reflexivity|split; [reflexivity|split; [apply lookup_insert_eq|done]]]).
Qed.

Lemma run_settings_other pub pull n key :
  key ≠ "pub-endpoint" → key ≠ "pull-endpoint" → run_settings pub pull n !! key = settings n !! key.
Proof. intros H1 H2. unfold run_settings. by rewrite !lookup_insert_ne. Qed.
End running.

(** ** Theorems *)

(** Which logins the file asks for. *)
Lemma login_file `{Host} `{Etree} user pass m tag e :
  (∀ n pw h, GenerateFromPassword n pw = inl h → h ≠ "") →
  login_set user pass m (last (logins tag e)) →
  (all_set m [user; pass] = true ↔ asks_login tag e) ∧
  (∀ c, last (logins tag e) = Some c → SelectAttrValue c "username" "admin" ≠ "" →
     all_set m [user; pass] = true ∧ index m user = SelectAttrValue c "username" "admin" ∧
     ∃ n, GenerateFromPassword n (SelectAttrValue c "password" "admin") = inl (index m pass)).
Proof.
  intros Hhash Hs. unfold asks_login, all_set, index. cbn [forallb]. rewrite andb_true_r.
  destruct (last (logins tag e)) as [c|]; cbn in Hs.
  - destruct Hs as (-> & n & h & Hh & ->). cbn.
    rewrite (proj2 (String.eqb_neq _ _) (Hhash _ _ _ Hh)), andb_true_r. split.
    + rewrite negb_true_iff, String.eqb_neq. split; [by eexists|]. by intros (c' & [= ->] & ?).
    + intros c' [= <-] Hu. apply String.eqb_neq in Hu as ->. eauto.
  - destruct Hs as [-> ->]. cbn. split; [|done]. split; [done|]. by intros (c & ? & _).
Qed.

(** C39: what the module makes of a configuration.  Reading it never panics.  After
    a successful one, [Run] writes the settings file.  The last [editor] login of
    the document, if it has a user, is in it: the section that protects the editor
    with this user and the hash of the password, [admin] where the document says
    nothing; and so is the last [ui] login, for the pages of the flows.  If no
    setting holds a line break, the file has the line that protects the editor if
    and only if the document has such an [editor] login, and the line that protects
    the pages if and only if it has such a [ui] login.  If the executable is there
    one goroutine starts it; if not, the file is written all the same and the
    program is to exit with 101. *)
Theorem node_red_starts `{Host} `{Etree} nm e pub pull :
  let r := run (Configure e) (mk_state (New nm) 0 ∅ None) in
  (∃ o, r.2 = Returns o) ∧
  ((∀ n pw h, GenerateFromPassword n pw = inl h → h ≠ "") →
   (∀ path, CreateFile path = None ∧ ∀ text, WriteFile path text = (text, None)) →
   r.2 = Returns None →
   ∃ s' file o, run (Run pub pull) r.1 = (s', Returns o) ∧
     files s' !! settingsPath (this s') = Some file ∧
     (∀ c, last (logins "editor" e) = Some c → SelectAttrValue c "username" "admin" ≠ "" →
        ∃ n hash, GenerateFromPassword n (SelectAttrValue c "password" "admin") = inl hash ∧
          contains file (editor_section (SelectAttrValue c "username" "admin") hash)) ∧
     (∀ c, last (logins "ui" e) = Some c → SelectAttrValue c "username" "admin" ≠ "" →
        ∃ n hash, GenerateFromPassword n (SelectAttrValue c "password" "admin") = inl hash ∧
          contains file (ui_section (SelectAttrValue c "username" "admin") hash)) ∧
     (map_Forall (λ _ v, one_line v = true) (settings (this s')) →
        (contains file editor_auth ↔ asks_login "editor" e) ∧
        (contains file ui_auth ↔ asks_login "ui" e)) ∧
     if LookPath (executable (this r.1))
     then o = None ∧ goroutine s' = Some new_daemon
     else (o ≫= errors_As_ExitError) = Some ExitNoRestart ∧ goroutine s' = None).
Proof.
  intros r. pose proof (Configure_logs e nm) as Hlogs. fold r in Hlogs.
  destruct r as [s1 out] eqn:Hr. cbn [fst snd] in *.
  split; [destruct out; try done; by eexists|]. intros Hhash Hfile ->. destruct Hlogs as (He & Hu & Hg).
  destruct (Run_spec Hfile pub pull s1) as (s' & o & Hrun & Hset & Hf & Ho).
  set (m := run_settings pub pull (this s1)) in *.
  assert (Hm : ∀ key, key ≠ "pub-endpoint" → key ≠ "pull-endpoint" → m !! key = settings (this s1) !! key)
    by (intros; by apply run_settings_other).
  assert (login_set "editor-user" "editor-pass" m (last (logins "editor" e))) as He'
    by (unfold login_set; by rewrite !Hm).
  assert (login_set "ui-user" "ui-pass" m (last (logins "ui" e))) as Hu' by (unfold login_set; by rewrite !Hm).
  destruct (login_file _ _ m "editor" e Hhash He') as [Hei Hew].
  destruct (login_file _ _ m "ui" e Hhash Hu') as [Hui Huw].
  exists s', (Execute settingsTmpl m), o. split_and!; [done|done| | | |].
  - intros c Hc Hne. destruct (Hew c Hc Hne) as (Hk & <- & n & Hh).
    eexists n, _. split; [exact Hh|by apply editor_section_written].
  - intros c Hc Hne. destruct (Huw c Hc Hne) as (Hk & <- & n & Hh).
    eexists n, _. split; [exact Hh|by apply ui_section_written].
  - rewrite Hset. intros Hone. destruct (no_login m Hone) as [Hne Hnu]. split.
    + rewrite <- Hei. split; [intros Hc|].
      * destruct (all_set m ["editor-user"; "editor-pass"]) eqn:Ek; [reflexivity|]. by destruct (Hne eq_refl).
      * intros Hk. eapply contains_trans; [by apply editor_section_written|]. eexists "", _. reflexivity.
    + rewrite <- Hui. split; [intros Hc|].
      * destruct (all_set m ["ui-user"; "ui-pass"]) eqn:Ek; [reflexivity|]. by destruct (Hnu eq_refl).
      * intros Hk. eapply contains_trans; [by apply ui_section_written|]. eexists "", _. reflexivity.
  - destruct (LookPath _); [done|]. by destruct Ho as [? ->].
Qed.

(** A host where everything works, and a document with two logins of the editor. *)
Definition example_host : Host := {|
  GenerateFromPassword n pw := inl ("$2a$08$" +:+ pw);
  CreateFile _ := None;
  WriteFile _ text := (text, None);
  LookPath f := String.eqb f "node-red";
|}.

Definition example_node_red (executable : string) : xml := Elem "node-red" [] "" [
  leaf "executable" executable;
  Elem "authentication" [] "" [
    Elem "editor" [("username", "old")] "" [];
    Elem "ui" [] "" [];
    Elem "editor" [("username", "bob"); ("password", "secret")] "" []]].

(** The last login of the editor is in the file, and with it the line that
    protects the editor; a document with only a login of the pages leaves the
    editor open. *)
Lemma node_red_starts_witness :
  let r := run (@Configure example_host xml_etree (example_node_red "missing")) (mk_state (New "node-red") 0 ∅ None) in
  r.2 = Returns None ∧
  ∃ s' file o, run (@Run example_host "tcp://a" "tcp://b") r.1 = (s', Returns o) ∧
    files s' !! "/etc/node-red.js" = Some file ∧
    contains file (editor_section "bob" "$2a$08$secret") ∧ contains file editor_auth ∧
    (o ≫= errors_As_ExitError) = Some 101 ∧
  let open := Elem "node-red" [] "" [Elem "authentication" [] "" [Elem "ui" [] "" []]] in
  ∃ s'' file', (run (@Run example_host "tcp://a" "tcp://b")
      (run (@Configure example_host xml_etree open) (mk_state (New "node-red") 0 ∅ None)).1).1 = s'' ∧
    files s'' !! "/etc/node-red.js" = Some file' ∧ ¬ contains file' editor_auth ∧ contains file' ui_auth.
Proof.
  intros r. assert (r.2 = Returns None) as Hr by (vm_compute; reflexivity). split; [exact Hr|].
  assert (∀ n pw h, @GenerateFromPassword example_host n pw = inl h → h ≠ "") as Hh
    by (intros n pw h [= <-]; discriminate).
  assert (∀ path, @CreateFile example_host path = None ∧
    ∀ text, @WriteFile example_host path text = (text, None)) as Hw by (intros path; split; reflexivity).
  destruct (proj2 (@node_red_starts example_host xml_etree "node-red" (example_node_red "missing")
    "tcp://a" "tcp://b") Hh Hw Hr) as (s' & file & o & Hs & Hf & Hl & _ & Hp & Ho).
  exists s', file, o. split; [exact Hs|].
  assert (s' = (run (@Run example_host "tcp://a" "tcp://b") r.1).1) as Hs' by exact (f_equal fst (eq_sym Hs)).
  assert (settingsPath (this s') = "/etc/node-red.js") as Hpath by (rewrite Hs'; vm_compute; reflexivity).
  assert (Hone : bool_decide (map_Forall (λ _ v, one_line v = true) (settings (this s'))) = true)
    by (rewrite Hs'; vm_compute; reflexivity).
  apply bool_decide_eq_true in Hone.
  rewrite <- Hpath. split; [exact Hf|].
  assert (last (@logins xml_etree "editor" (example_node_red "missing")) =
    Some (Elem "editor" [("username", "bob"); ("password", "secret")] "" [])) as Hlast by reflexivity.
  split; [|split; [|split; [exact (proj1 Ho)|]]].
  - destruct (Hl _ Hlast ltac:(discriminate)) as (n & hash & [= <-] & Hc). exact Hc.
  - apply (proj1 (Hp Hone)). eexists. split; [exact Hlast|discriminate].
  - intros open. set (r2 := run (@Configure example_host xml_etree open) (mk_state (New "node-red") 0 ∅ None)).
    assert (r2.2 = Returns None) as Hr2 by (vm_compute; reflexivity).
    destruct (proj2 (@node_red_starts example_host xml_etree "node-red" open
      "tcp://a" "tcp://b") Hh Hw Hr2) as (s2 & file2 & o2 & Hs2 & Hf2 & _ & _ & Hp2 & _).
    fold r2 in Hs2.
    assert (s2 = (run (@Run example_host "tcp://a" "tcp://b") r2.1).1) as Hs2' by exact (f_equal fst (eq_sym Hs2)).
    assert (settingsPath (this s2) = "/etc/node-red.js") as Hpath2 by (rewrite Hs2'; vm_compute; reflexivity).
    assert (Hone2 : bool_decide (map_Forall (λ _ v, one_line v = true) (settings (this s2))) = true)
      by (rewrite Hs2'; vm_compute; reflexivity).
    apply bool_decide_eq_true in Hone2. destruct (Hp2 Hone2) as [Hed Hui].
    exists s2, file2. split; [exact (eq_sym Hs2')|]. split; [rewrite Hpath, <- Hpath2; exact Hf2|]. split.
    + rewrite Hed. intros (c & Hc & _). discriminate Hc.
    + apply Hui. eexists. split; [reflexivity|discriminate].
Defined.
