(* ===== verification/Tailscale.v ===== *)
(** * tailscale: the module that runs the Tailscale daemon

    The module keeps the daemon running, brings the connection up once the socket
    of the daemon is there, and publishes every five seconds whether it is
    connected.  ([tailscale/tailscale.go].)  The environment, the file system, the
    lookup and the runs of executables and the end of the context are parameters;
    the goroutine of [start] is a [daemon]. *)

From S2P Require Import Prelude GoFloat GoText Etree Json Msgbus Daemon.

(** What [os.Stat] says of the socket. *)
Inductive stat := Exists | NotExist | StatError.

(** [os.Getenv("OTSIM_TAILSCALE_AUTHKEY")], [os.Hostname], [exec.LookPath], the
    state of the context and of the socket at the n-th poll, and whether a run of
    a command with these arguments succeeds. *)
Class Host := {
  Getenv_AUTHKEY : string;
  Hostname : result string;
  LookPath : string → bool;
  ctx_done : nat → bool;
  Stat : nat → stat;
  cmd_Run : list string → bool;
}.

Section tailscale.
Context `{Host}.

Record Tailscale := mk_Tailscale {
  name : string;
  authKey : string;
  hostname : string;
  dns : bool;
  routes : bool;
  pullEndpoint : string;
  pusher : bus;
}.

(** The module, the goroutine of the daemon and the one of [status]. *)
Record state := mk_state {
  this : Tailscale;
  goroutine : option daemon;
  reporting : bool;
}.

Definition New (name : string) : Tailscale :=
  mk_Tailscale name "" "" false false "" (mk_bus [] 0 (λ _, true)).

Definition set_authKey (v : string) (t : Tailscale) : Tailscale :=
  mk_Tailscale (name t) v (hostname t) (dns t) (routes t) (pullEndpoint t) (pusher t).
Definition set_hostname (v : string) (t : Tailscale) : Tailscale :=
  mk_Tailscale (name t) (authKey t) v (dns t) (routes t) (pullEndpoint t) (pusher t).
Definition set_dns (v : bool) (t : Tailscale) : Tailscale :=
  mk_Tailscale (name t) (authKey t) (hostname t) v (routes t) (pullEndpoint t) (pusher t).
Definition set_routes (v : bool) (t : Tailscale) : Tailscale :=
  mk_Tailscale (name t) (authKey t) (hostname t) (dns t) v (pullEndpoint t) (pusher t).
Definition set_pullEndpoint (v : string) (t : Tailscale) : Tailscale :=
  mk_Tailscale (name t) (authKey t) (hostname t) (dns t) (routes t) v (pusher t).
Definition set_pusher (v : bus) (t : Tailscale) : Tailscale :=
  mk_Tailscale (name t) (authKey t) (hostname t) (dns t) (routes t) (pullEndpoint t) v.

Definition set_goroutine (d : daemon) (s : state) : state := mk_state (this s) (Some d) (reporting s).
Definition set_reporting (s : state) : state := mk_state (this s) (goroutine s) true.
Definition update (f : Tailscale → Tailscale) (s : state) : state :=
  mk_state (f (this s)) (goroutine s) (reporting s).

(** ** Configure *)

Definition configure_child `{Etree} (child : Element) : go Tailscale (option error) () :=
  if String.eqb (ETag child) "pull-endpoint" then modify (set_pullEndpoint (Text child))
  else if String.eqb (ETag child) "auth-key" then modify (set_authKey (Text child))
  else if String.eqb (ETag child) "hostname" then modify (set_hostname (Text child))
  else if String.eqb (ETag child) "accept-dns" then modify (set_dns (ParseBool (Text child)).1)
  else if String.eqb (ETag child) "accept-routes" then modify (set_routes (ParseBool (Text child)).1)
  else mret ().

Definition Configure `{Etree} (e : Element) : go Tailscale (option error) (option error) :=
  _ ← range (ChildElements e) configure_child;
  s ← get;
  _ ← (if String.eqb (authKey s) "" then
         _ ← modify (set_authKey Getenv_AUTHKEY);
         if String.eqb Getenv_AUTHKEY "" then return_ (Some (Errorf "no Tailscale auth key provided"))
         else mret ()
       else mret ());
  if String.eqb (hostname s) "" then
    match Hostname with
    | inl h => _ ← modify (set_hostname h); mret None
    | inr e => _ ← modify (set_hostname ""); return_ (Some (Wrapf "unable to set hostname: %w" e))
    end
  else mret None.

(** ** Run *)

(** The goroutine that [start] leaves behind. *)
Definition goroutine_move : bool → event → daemon → option daemon := daemon_move.

(** The wait for the socket: poll number [i]. *)
Fixpoint wait_socket (fuel i : nat) : go state (option error) () :=
  match fuel with
  | O => nofuel
  | S fuel' =>
    if ctx_done i then
      return_ (Some (NewExitError ExitNoRestart "timed out waiting for Tailscale socket"))
    else
      match Stat i with
      | NotExist => wait_socket fuel' (S i)
      | StatError => return_ (Some (NewExitError ExitNoRestart "waiting for Tailscale socket: %v"))
      | Exists => mret ()
      end
  end.

Definition start (fuel : nat) : go state (option error) (option error) :=
  if LookPath "tailscaled" then
    _ ← modify (set_goroutine new_daemon);
    _ ← wait_socket fuel 0;
    mret None
  else mret (Some (NewExitError ExitNoRestart "module executable does not exist at tailscaled")).

(** [strconv.FormatBool] *)
Definition FormatBool (b : bool) : string := if b then "true" else "false".

Definition up_args (t : Tailscale) : list string := [
  "--socket=/tmp/tailscaled.sock"; "up";
  "--authkey=" +:+ authKey t;
  "--hostname=" +:+ hostname t;
  "--accept-dns=" +:+ FormatBool (dns t);
  "--accept-routes=" +:+ FormatBool (routes t)].

Definition up : go state (option error) (option error) :=
  if LookPath "tailscale" then
    s ← get;
    if cmd_Run (up_args (this s)) then mret None
    else mret (Some (Errorf "tailscale up failed: %v"))
  else mret (Some (NewExitError ExitNoRestart "module executable does not exist at tailscale")).

(** [pusher'] is what [msgbus.MustNewPusher] makes of the endpoint. *)
Definition Run (fuel : nat) (MustNewPusher : string → bus) (pullEndpoint' : string)
  : go state (option error) (option error) :=
  s ← get;
  let pull := if String.eqb (pullEndpoint (this s)) "" then pullEndpoint' else pullEndpoint (this s) in
  _ ← modify (update (set_pusher (MustNewPusher pull)));
  s ← get;
  let '(s1, o) := run (start fuel) s in
  _ ← modify (λ _, s1);
  err ← call o;
  match err with
  | Some e => return_ (Some (Wrapf "starting Tailscale daemon: %w" e))
  | None =>
    s ← get;
    let '(s2, o) := run up s in
    _ ← modify (λ _, s2);
    err ← call o;
    match err with
    | Some e => return_ (Some (Wrapf "bringing Tailscale up: %w" e))
    | None => _ ← modify set_reporting; mret None
    end
  end.

(** ** status *)

(** One tick: [connected] says whether [tailscale status] succeeded. *)
Definition status_tick (now : Z) (connected : bool) : go Tailscale () () :=
  s ← get;
  let point := mk_Point (name s +:+ ".connected") (if connected then f64_1 else f64_0) now in
  match NewEnvelope (name s) (mk_Status [point]) with
  | inr _ => return_ ()                            (* continue *)
  | inl env => modify (λ s, set_pusher (Push "RUNTIME" env (pusher s)).1 s)
  end.

(** The ticks of the goroutine, which does not start without the executable. *)
Fixpoint status_loop (ticks : list (Z * bool)) : go Tailscale () () :=
  match ticks with
  | [] => mret ()
  | (now, connected) :: ticks' => λ s,
    match run (status_tick now connected) s with
    | (s', Returns _) => status_loop ticks' s'
    | (s', Panics p) => (s', Panic p)
    | (s', Loops) => (s', NoFuel)
    end
  end.

Definition status (ticks : list (Z * bool)) : go Tailscale () () :=
  if LookPath "tailscale" then status_loop ticks else return_ ().
End tailscale.

(** ** Specification vocabulary *)

(** The settings of a document before the environment fills the gaps. *)
Definition documented `{Host} `{Etree} (l : list Element) (t : Tailscale) : Tailscale :=
  mk_Tailscale (name t) (default (authKey t) (last_text "auth-key" l))
    (default (hostname t) (last_text "hostname" l))
    (default (dns t) (fst ∘ ParseBool <$> last_text "accept-dns" l))
    (default (routes t) (fst ∘ ParseBool <$> last_text "accept-routes" l))
    (default (pullEndpoint t) (last_text "pull-endpoint" l)) (pusher t).

(** The socket appears at poll [k], before the context is done. *)
Definition socket_at `{Host} (k : nat) : Prop :=
  (∀ i, (i ≤ k)%nat → ctx_done i = false) ∧ (∀ i, (i < k)%nat → Stat i = NotExist) ∧ Stat k = Exists.

(** At poll [k] the wait is given up: the context is done or the socket cannot be
    looked at. *)
Definition gives_up_at `{Host} (k : nat) : Prop :=
  (∀ i, (i < k)%nat → ctx_done i = false ∧ Stat i = NotExist) ∧
  (ctx_done k = true ∨ Stat k = StatError).

(** ** Lemmas *)

Section lemmas.
Context `{Host}.

Lemma documented_loop `{Etree} l : ∀ t, range l configure_child t = (documented l t, Next ()).
Proof.
  induction l as [|c l IH]; intros t; [by destruct t|]. cbn [range].
  assert (configure_child c t = (documented [c] t, Next ())) as Hc.
  { unfold configure_child, documented, last_text. cbn [List.filter].
    destruct (String.eqb_spec (ETag c) "pull-endpoint") as [->|]; [by destruct t|].
    destruct (String.eqb_spec (ETag c) "auth-key") as [->|]; [by destruct t|].
    destruct (String.eqb_spec (ETag c) "hostname") as [->|]; [by destruct t|].
    destruct (String.eqb_spec (ETag c) "accept-dns") as [->|]; [by destruct t|].
    by destruct (String.eqb (ETag c) "accept-routes"), t. }
  rewrite (bind_next _ _ _ _ _ Hc), IH. unfold documented at 1 3. rewrite !last_text_cons.
  unfold documented. rewrite !last_text_cons. cbn.
  repeat (destruct (last_text _ l)); by repeat (destruct (String.eqb (ETag c) _)).
Qed.

(** *** Waiting for the socket *)

Lemma wait_socket_there fuel k : ∀ i s,
  (∀ j, (i ≤ j ≤ i + k)%nat → ctx_done j = false) → (∀ j, (i ≤ j < i + k)%nat → Stat j = NotExist) →
  Stat (i + k)%nat = Exists → (k < fuel)%nat → wait_socket fuel i s = (s, Next ()).
Proof.
  revert fuel. induction k as [|k IH]; intros [|fuel] i s Hctx Hno Hyes Hf; try lia; cbn [wait_socket].
  - rewrite Hctx by lia. rewrite Nat.add_0_r in Hyes. by rewrite Hyes.
  - rewrite Hctx, Hno by lia. apply (IH fuel (S i) s); [intros; apply Hctx; lia|intros; apply Hno; lia| |lia].
    by rewrite <- Hyes, Nat.add_succ_r.
Qed.

Lemma wait_socket_gives_up fuel k : ∀ i s,
  (∀ j, (i ≤ j < i + k)%nat → ctx_done j = false ∧ Stat j = NotExist) →
  (ctx_done (i + k)%nat = true ∨ Stat (i + k)%nat = StatError) → (k < fuel)%nat →
  ∃ e, wait_socket fuel i s = (s, Return (Some e)) ∧ errors_As_ExitError e = Some ExitNoRestart.
Proof.
  revert fuel. induction k as [|k IH]; intros [|fuel] i s Hw Hend Hf; try lia; cbn [wait_socket].
  - rewrite Nat.add_0_r in Hend. destruct (ctx_done i); [by eexists|].
    destruct Hend as [|Hend]; [done|]. rewrite Hend. by eexists.
  - destruct (Hw i ltac:(lia)) as [-> ->]. apply (IH fuel (S i) s); [|by rewrite Nat.add_succ_l, <- Nat.add_succ_r|lia].
    intros j Hj. apply Hw. lia.
Qed.

Lemma wait_socket_forever fuel : ∀ i s,
  (∀ j, ctx_done j = false ∧ Stat j = NotExist) → wait_socket fuel i s = (s, NoFuel).
Proof.
  induction fuel as [|fuel IH]; intros i s Hw; [done|]. cbn [wait_socket].
  destruct (Hw i) as [-> ->]. by apply IH.
Qed.
(** *** Coming up *)

(** What follows the wait. *)
Lemma Run_waits fuel MustNewPusher pull s :
  LookPath "tailscaled" = true →
  let s2 := set_goroutine new_daemon (update (set_pusher (MustNewPusher
    (if String.eqb (pullEndpoint (this s)) "" then pull else pullEndpoint (this s)))) s) in
  match wait_socket fuel 0 s2 with
  | (s', Next _) => run (Run fuel MustNewPusher pull) s =
      if LookPath "tailscale" then
        if cmd_Run (up_args (this s')) then (set_reporting s', Returns None)
        else (s', Returns (Some (Wrapf "bringing Tailscale up: %w" (Errorf "tailscale up failed: %v"))))
      else (s', Returns (Some (Wrapf "bringing Tailscale up: %w"
        (NewExitError ExitNoRestart "module executable does not exist at tailscale"))))
  | (s', Return (Some e)) =>
      run (Run fuel MustNewPusher pull) s = (s', Returns (Some (Wrapf "starting Tailscale daemon: %w" e)))
  | (s', NoFuel) => run (Run fuel MustNewPusher pull) s = (s', Loops)
  | _ => True
  end.
Proof.
  intros Hd s2. unfold run at 1 2 3, Run, start, run, up. go_unfold. rewrite Hd. cbn -[wait_socket].
  fold s2. destruct (wait_socket fuel 0 s2) as [s' [u|[e|]| |]]; try done.
  destruct (LookPath "tailscale"); [|done]. by destruct (cmd_Run (up_args (this s'))).
Qed.
End lemmas.

(** ** Theorems *)

(** C40: how the module comes up.  Its settings are the last ones of the document;
    the environment provides a missing key and the system a missing host name, and
    without a key the configuration fails.  [Run] starts the daemon, waits for its
    socket, for ever if neither the socket appears nor the context ends, and
    brings the connection up with exactly the configured settings; then the
    status is reported.  Missing executables, a socket that cannot be looked at
    and the end of the context end the program with 101; a failed [tailscale up]
    ends it with 1. *)
Theorem tailscale_starts `{Host} `{Etree} nm e fuel MustNewPusher pull s :
  (let t := documented (ChildElements e) (New nm) in
   let key := if String.eqb (authKey t) "" then Getenv_AUTHKEY else authKey t in
   (key = "" → ∃ t' err, run (Configure e) (New nm) = (t', Returns (Some err))) ∧
   (key ≠ "" → ∀ host, (if String.eqb (hostname t) "" then Hostname else inl (hostname t)) = inl host →
      run (Configure e) (New nm) = (set_hostname host (set_authKey key t), Returns None))) ∧
  let s1 := update (set_pusher (MustNewPusher
    (if String.eqb (pullEndpoint (this s)) "" then pull else pullEndpoint (this s)))) s in
  let s2 := set_goroutine new_daemon s1 in
  let outcome := run (Run fuel MustNewPusher pull) s in
  let fails s' code := ∃ err, outcome = (s', Returns (Some err)) ∧ errors_As_ExitError err = code in
  if LookPath "tailscaled" then
    (∀ k, gives_up_at k → (k < fuel)%nat → fails s2 (Some ExitNoRestart)) ∧
    ((∀ k, ctx_done k = false ∧ Stat k = NotExist) → outcome = (s2, Loops)) ∧
    (∀ k, socket_at k → (k < fuel)%nat →
       if LookPath "tailscale" then
         if cmd_Run (up_args (this s)) then outcome = (set_reporting s2, Returns None)
         else fails s2 None
       else fails s2 (Some ExitNoRestart))
  else fails s1 (Some ExitNoRestart).
Proof.
  split.
  - intros t key. subst key. unfold run, Configure. rewrite (bind_next _ _ _ _ _ (documented_loop _ _)).
    fold t. clearbody t. go_unfold. destruct (String.eqb_spec (authKey t) "") as [Hk|Hk]; cbn.
    + split; [intros ->; by eexists _, _|]. intros Hne%String.eqb_neq host. rewrite Hne. cbn.
      destruct (String.eqb (hostname t) ""); cbn; [by intros ->|]. intros [= <-]. by destruct t.
    + split; [done|]. intros _ host.
      destruct (String.eqb (hostname t) ""); cbn; [intros ->; by destruct t|].
      intros [= <-]. by destruct t.
  - intros s1 s2 outcome fails. destruct (LookPath "tailscaled") eqn:Hd.
    2: { unfold fails, outcome, run, Run, start, run. go_unfold. rewrite Hd. eexists. split; reflexivity. }
    pose proof (Run_waits fuel MustNewPusher pull s Hd) as Hrun. cbv zeta in Hrun. fold s1 s2 outcome in Hrun.
    split_and!.
    + intros k [Hw Hend] Hf. destruct (wait_socket_gives_up fuel k 0 s2) as (err & Hwait & Hcode);
        [intros j Hj; apply Hw; lia|done|done|].
      rewrite Hwait in Hrun. by eexists.
    + intros Hw. by rewrite wait_socket_forever in Hrun.
    + intros k (Hctx & Hno & Hyes) Hf. rewrite (wait_socket_there fuel k) in Hrun;
        [|intros j Hj; apply Hctx; lia|intros j Hj; apply Hno; lia|done|done].
      change (this s2) with (this s1) in Hrun. change (up_args (this s1)) with (up_args (this s)) in Hrun.
      destruct (LookPath "tailscale"); [destruct (cmd_Run (up_args (this s))); [done|]|]; by eexists.
Qed.

(** What a tick reports. *)
Definition report (nm : string) (tick : Z * bool) : Status :=
  mk_Status [mk_Point (nm +:+ ".connected") (if tick.2 then f64_1 else f64_0) tick.1].

(** Every tick publishes one status with one measurement, the connected tag of
    the module, which is 1 if [tailscale status] succeeded and 0 if not, in the
    order of the ticks; without the executable nothing is ever published. *)
Theorem tailscale_reports `{Host} ticks s :
  (∀ n, send_ok (pusher s) n = true) →
  if LookPath "tailscale" then
    ∃ b envs, run (status ticks) s = (set_pusher b s, Returns ()) ∧
      sent b = sent (pusher s) ++ map (λ env, ("RUNTIME", BJson (MarshalEnvelope env))) envs ∧
      Forall2 (λ tick env, NewEnvelope (name s) (report (name s) tick) = inl env) ticks envs
  else run (status ticks) s = (s, Returns ()).
Proof.
  intros Hok. unfold run, status. destruct (LookPath "tailscale"); [|done].
  revert s Hok. induction ticks as [|[now up] ticks IH]; intros s Hok.
  { exists (pusher s), []. rewrite app_nil_r. by destruct s. }
  destruct (NewEnvelope_ok (name s) (report (name s) (now, up))) as [env Henv].
  { apply Forall_singleton. by destruct up. }
  set (b1 := mk_bus (sent (pusher s) ++ [("RUNTIME", BJson (MarshalEnvelope env))])
    (S (sends (pusher s))) (send_ok (pusher s))).
  assert (run (status_tick now up) s = (set_pusher b1 s, Returns ())) as Htick.
  { unfold run, status_tick. go_unfold. unfold report in Henv. cbn [fst snd] in Henv. rewrite Henv.
    unfold Push, SendMessage. by rewrite Hok. }
  destruct (IH (set_pusher b1 s) Hok) as (b & envs & Hrun & Hsent & Hall).
  exists b, (env :: envs). split_and!.
  - cbn [status_loop]. rewrite Htick, Hrun. done.
  - rewrite Hsent. unfold b1. cbn. by rewrite <- app_assoc.
  - by constructor.
Qed.

(** A host on which the socket appears at the third poll. *)
Definition example_host : Host := {|
  Getenv_AUTHKEY := "tskey";
  Hostname := inl "plc-1";
  LookPath _ := true;
  ctx_done _ := false;
  Stat i := if (i <? 2)%nat then NotExist else Exists;
  cmd_Run args := bool_decide (args = ["--socket=/tmp/tailscaled.sock"; "up"; "--authkey=tskey";
    "--hostname=plc-1"; "--accept-dns=true"; "--accept-routes=false"]);
|}.

Definition example_tailscale : xml := Elem "tailscale" [] "" [leaf "accept-dns" "true"; leaf "accept-routes" "yes"].

Definition example_state : state :=
  mk_state (run (@Configure example_host xml_etree example_tailscale) (New "tailscale")).1 None false.

Lemma tailscale_starts_witness :
  @socket_at example_host 2 ∧
  ∃ s', run (@Run example_host 10 (λ _, mk_bus [] 0 (λ _, true)) "tcp://b") example_state = (s', Returns None) ∧
    goroutine s' = Some new_daemon ∧ reporting s' = true.
Proof.
  assert (@socket_at example_host 2) as Hs.
  { split; [done|]. split; [|done]. intros [|[|i]] Hi; [done|done|lia]. }
  split; [exact Hs|]. eexists.
  destruct (@tailscale_starts example_host xml_etree "tailscale" example_tailscale 10
    (λ _, mk_bus [] 0 (λ _, true)) "tcp://b" example_state) as [_ (_ & _ & Hup)].
  split; [exact (Hup 2%nat Hs ltac:(lia))|]. split; reflexivity.
Defined.

Lemma tailscale_reports_witness :
  ∃ b envs, run (@status example_host [(5, true); (10, false)]) (this example_state)
      = (set_pusher b (this example_state), Returns ()) ∧ length envs = 2%nat ∧
    sent b = map (λ env, ("RUNTIME", BJson (MarshalEnvelope env))) envs.
Proof.
  destruct (@tailscale_reports example_host [(5, true); (10, false)] (this example_state) (λ _, eq_refl))
    as (b & envs & Hrun & Hsent & Hall).
  exists b, envs. split; [exact Hrun|]. split; [by apply Forall2_length in Hall|exact Hsent].
Defined.
