(* ===== verification/Settings.v ===== *)
(** * The settings that the configurations of the modules read

    Every module reads its settings from the children of its element, the last
    one that gives a value counting.  For each kind of module: the settings that
    its element describes, and that a successful [Configure] leaves exactly
    these.  What the registers, the programs, the endpoints of brokers and the
    logins are made of is stated with the components. *)

From S2P Require Import Prelude GoFloat GoText Etree Json Msgbus ModbusSettings Daemon.
From S2P Require Import ModbusRegister ModbusServer ModbusServerConfig ModbusClient.
From S2P Require Import SunSpecRegister SunSpecServer SunSpecClient.
From S2P Require Import Logic Telnet Mqtt Cpu CpuConfig NodeRedTemplate NodeRed Tailscale.

(** ** Reading the children *)

Section reading.
Context `{Etree}.

(** The value that the last child to give one gives. *)
Definition setting {A} (g : Element → option A) (dflt : A) (l : list Element) : A :=
  default dflt (last (omap g l)).

(** What a child gives: its text, if it has this tag; what its text means; an
    attribute; what its own children give. *)
Definition text_of (tag : string) (c : Element) : option string :=
  if String.eqb (ETag c) tag then Some (Text c) else None.
Definition parsed {A} (parse : string → option A) (tag : string) (c : Element) : option A :=
  if String.eqb (ETag c) tag then parse (Text c) else None.
Definition attribute (tag key dflt : string) (c : Element) : option string :=
  if String.eqb (ETag c) tag then Some (SelectAttrValue c key dflt) else None.
Definition nested {A} (tag : string) (g : Element → option A) (c : Element) : option A :=
  if String.eqb (ETag c) tag then last (omap g (ChildElements c)) else None.

Definition duration `{GoPlatform} (s : string) : option Z := match ParseDuration s with inl d => Some d | inr _ => None end.
Definition integer (s : string) : option Z := match Atoi s with (z, None) => Some z | _ => None end.
Definition boolean (s : string) : option bool := match ParseBool s with (b, None) => Some b | _ => None end.

Lemma setting_nil {A} (g : Element → option A) a : setting g a [] = a.
Proof. done. Qed.

Lemma setting_cons {A} (g : Element → option A) a c l :
  setting g a (c :: l) = setting g (default a (g c)) l.
Proof.
  unfold setting. simpl. destruct (g c) as [v|]; [|done]. rewrite last_cons.
  change (list_omap _ _ g l) with (omap g l). by destruct (last (omap g l)).
Qed.

Lemma setting_none {A} (a : A) l : setting (λ _, None) a l = a.
Proof. induction l as [|c l IH]; [done|]. rewrite setting_cons. exact IH. Qed.

Lemma setting_map {A B} (h : A → B) g a l :
  setting (λ c, h <$> g c) (h a) l = h (setting g a l).
Proof.
  revert a. induction l as [|c l IH]; intros a; [done|]. rewrite !setting_cons, <- IH. by destruct (g c).
Qed.

Lemma setting_text tag d l : setting (text_of tag) d l = default d (last_text tag l).
Proof.
  revert d. induction l as [|c l IH]; intros d; [done|]. rewrite setting_cons, IH, last_text_cons.
  unfold text_of. by destruct (last_text tag l), (String.eqb (ETag c) tag).
Qed.

Lemma setting_last_text tag l : setting (λ c, Some <$> text_of tag c) None l = last_text tag l.
Proof.
  assert (∀ o, setting (λ c, Some <$> text_of tag c) o l =
    match last_text tag l with Some t => Some t | None => o end) as Hl.
  { induction l as [|c l IH]; intros o; [done|]. rewrite setting_cons, IH, last_text_cons.
    unfold text_of. by destruct (last_text tag l), (String.eqb (ETag c) tag). }
  rewrite Hl. by destruct (last_text tag l).
Qed.

(** ** Statements that set one field

    [proj] of the state is changed by [f], if the statement falls through; it
    returns only errors. *)
Definition sets {S A B} (proj : S → A) (f : A → A) (m : go S (option error) B) : Prop := ∀ s,
  match m s with
  | (s', Next _) => proj s' = f (proj s)
  | (_, Return o) => o ≠ None
  | _ => True
  end.

Lemma sets_ret {S A B} (proj : S → A) (b : B) : sets proj Datatypes.id (mret b).
Proof. by intros s. Qed.

Lemma sets_modify {S A} (proj : S → A) f u : (∀ s, proj (u s) = f (proj s)) → sets proj f (modify u).
Proof. intros Hu s. apply Hu. Qed.

Lemma sets_error {S A B} (proj : S → A) f e : sets proj f (return_ (A:=B) (Some e)).
Proof. by intros s. Qed.

Lemma sets_bind {S A B C} (proj : S → A) f h (m : go S (option error) B) (k : B → go S (option error) C) :
  sets proj f m → (∀ b, sets proj h (k b)) → sets proj (h ∘ f) (m ≫= k).
Proof.
  intros Hm Hk s. specialize (Hm s). unfold mbind, go_bind. destruct (m s) as [s1 [b|o|p|]]; try done.
  specialize (Hk b s1). destruct (k b s1) as [s2 [c|o|p|]]; try done. simpl. congruence.
Qed.

Lemma sets_keep {S A B C} (proj : S → A) (m : go S (option error) B) (k : B → go S (option error) C) :
  sets proj Datatypes.id m → (∀ b, sets proj Datatypes.id (k b)) → sets proj Datatypes.id (m ≫= k).
Proof. apply (sets_bind proj Datatypes.id Datatypes.id). Qed.

Lemma sets_get {S A} (proj : S → A) : sets proj Datatypes.id get.
Proof. by intros s. Qed.

Lemma sets_range_id {S A B} (proj : S → A) (l : list B) body :
  (∀ c, sets proj Datatypes.id (body c)) → sets proj Datatypes.id (range l body).
Proof.
  intros Hb. induction l as [|c l IH]; [apply sets_ret|]. cbn [range]. apply sets_keep; [apply Hb|by intros _].
Qed.

Lemma sets_range {S A} (proj : S → A) (g : Element → option A) l body :
  (∀ c, sets proj (λ a, default a (g c)) (body c)) → sets proj (λ a, setting g a l) (range l body).
Proof.
  intros Hb. induction l as [|c l IH]; [apply sets_ret|]. intros s. cbn [range].
  pose proof (sets_bind proj _ _ _ _ (Hb c) (λ _, IH) s) as Hs. cbv beta in Hs.
  destruct ((body c ≫= (λ _, range l body)) s) as [s' [u|o|p|]]; try done.
  by rewrite setting_cons.
Qed.

Lemma sets_fold {S A} (proj : S → A) (f : A → Element → A) l body :
  (∀ c, sets proj (λ a, f a c) (body c)) → sets proj (λ a, foldl f a l) (range l body).
Proof.
  intros Hb. induction l as [|c l IH]; [apply sets_ret|]. intros s. cbn [range].
  exact (sets_bind proj _ _ _ _ (Hb c) (λ _, IH) s).
Qed.

(** A function that ends with [return nil] after the loop. *)
Lemma sets_run {S A} (proj : S → A) f l body s :
  sets proj f (range (A:=Element) l body) →
  (run (_ ← range l body; mret None) s).2 = Returns None →
  proj (run (_ ← range l body; mret None) s).1 = f (proj s).
Proof.
  intros Hs. specialize (Hs s). unfold run, mbind, go_bind.
  destruct (range l body s) as [s' [u|o|p|]]; simpl; try done. by intros [= ->].
Qed.
End reading.

(** Case analysis on the tag of a child, then what each case assigns. *)
Ltac by_tag c :=
  repeat match goal with
  | |- context [String.eqb (ETag c) ?t] =>
    let E := fresh "E" in
    destruct (String.eqb_spec (ETag c) t) as [E|_]; [rewrite ?E; cbn|]
  end.

Ltac solve_sets :=
  first [by apply sets_modify|by apply sets_ret|
    let s := fresh "s" in intros s; go_unfold;
    repeat match goal with
    | |- context [if ?b then _ else _] => destruct b
    | |- context [match ?r with inl _ => _ | inr _ => _ end] => destruct r
    end; done].

(** ** Modules that only have settings *)

Section modules.
Context `{GoPlatform} `{Etree}.

(** The telnet module. *)
Definition telnet_settings (e : Element) (nm : string) : Telnet :=
  let l := ChildElements e in
  mk_Telnet nm (default ":23" (last_text "endpoint" l)) (default "" (last_text "banner" l)) ∅
    (mk_bus [] 0 (λ _, true)).

Lemma telnet_configured e nm :
  run (Telnet.Configure e) (Telnet.New nm) = (telnet_settings e nm, Returns None).
Proof.
  assert (∀ l s, range l Telnet.configure_child s =
    (mk_Telnet (Telnet.name s) (setting (text_of "endpoint") (Telnet.endpoint s) l)
       (setting (text_of "banner") (Telnet.banner s) l) (Telnet.tags s) (Telnet.pusher s), Next ())) as Hl.
  { induction l as [|c l IH]; intros s; [by destruct s|]. cbn [range]. unfold mbind, go_bind.
    rewrite !setting_cons. unfold text_of at 2 4. unfold Telnet.configure_child.
    destruct (String.eqb_spec (ETag c) "endpoint") as [E|_]; [rewrite E; apply IH|].
    destruct (String.eqb (ETag c) "banner"); apply IH. }
  unfold run, Telnet.Configure, telnet_settings. rewrite (bind_next _ _ _ _ _ (Hl _ _)), !setting_text. done.
Qed.

(** The SunSpec client. *)
Definition sunspec_client_settings `{ModbusLib} (e : Element) (nm : string) : SunSpecClient :=
  let l := ChildElements e in
  SunSpecClient.mk_SunSpecClient (default "" (last_text "pull-endpoint" l))
    (default "" (last_text "pub-endpoint" l)) nm 0 (default "" (last_text "endpoint" l))
    (setting (parsed duration "period") 5000000000 l) (mk_bus [] 0 (λ _, true)) None [] ∅ ∅.

Lemma sunspec_client_configured `{ModbusLib} e nm :
  let r := run (SunSpecClient.Configure e) (SunSpecClient.New nm) in
  (∃ o, r.2 = Returns o) ∧ (r.2 = Returns None → r.1 = sunspec_client_settings e nm).
Proof.
  assert (∀ l s, match range l SunSpecClient.configure_child s with
    | (s', Next _) => s' = SunSpecClient.mk_SunSpecClient
        (setting (text_of "pull-endpoint") (SunSpecClient.pullEndpoint s) l)
        (setting (text_of "pub-endpoint") (SunSpecClient.pubEndpoint s) l)
        (SunSpecClient.name s) (SunSpecClient.id s)
        (setting (text_of "endpoint") (SunSpecClient.endpoint s) l)
        (setting (parsed duration "period") (SunSpecClient.period s) l) (SunSpecClient.pusher s)
        (SunSpecClient.client s) (SunSpecClient.Order s) (SunSpecClient.Settings s) (SunSpecClient.points s)
    | (_, Return o) => o ≠ None
    | _ => False
    end) as Hl.
  { induction l as [|c l IH]; intros s; [by destruct s|]. cbn [range]. unfold mbind, go_bind.
    rewrite !setting_cons. unfold text_of at 2 4 6, parsed at 2, duration at 2, SunSpecClient.configure_child.
    destruct (String.eqb_spec (ETag c) "pull-endpoint") as [E|_];
      [rewrite E; exact (IH (SunSpecClient.set_pullEndpoint (Text c) s))|].
    destruct (String.eqb_spec (ETag c) "pub-endpoint") as [E|_];
      [rewrite E; exact (IH (SunSpecClient.set_pubEndpoint (Text c) s))|].
    destruct (String.eqb_spec (ETag c) "endpoint") as [E|_];
      [rewrite E; exact (IH (SunSpecClient.set_endpoint (Text c) s))|].
    destruct (String.eqb (ETag c) "period"); [|exact (IH s)].
    destruct (ParseDuration (Text c)) as [d|err]; [exact (IH (SunSpecClient.set_period d s))|done]. }
  specialize (Hl (ChildElements e) (SunSpecClient.New nm)).
  intros r. subst r. unfold run, SunSpecClient.Configure, mbind, go_bind, sunspec_client_settings.
  destruct (range _ _ _) as [s' [u|o|p|]]; try done; simpl.
  - split; [by eexists|]. intros _. by rewrite Hl, !setting_text.
  - split; [by eexists|]. by intros [= ->].
Qed.

(** The Tailscale module: the environment and the system fill the gaps. *)
Definition tailscale_settings `{Tailscale.Host} (e : Element) (nm : string) (t : Tailscale) : Prop :=
  let l := ChildElements e in
  let key := default "" (last_text "auth-key" l) in
  let host := default "" (last_text "hostname" l) in
  Tailscale.authKey t = (if String.eqb key "" then Getenv_AUTHKEY else key) ∧ Tailscale.authKey t ≠ "" ∧
  (if String.eqb host "" then Hostname else inl host) = inl (Tailscale.hostname t) ∧
  Tailscale.name t = nm ∧
  Tailscale.dns t = default false (fst ∘ ParseBool <$> last_text "accept-dns" l) ∧
  Tailscale.routes t = default false (fst ∘ ParseBool <$> last_text "accept-routes" l) ∧
  Tailscale.pullEndpoint t = default "" (last_text "pull-endpoint" l).

Lemma tailscale_configured `{Tailscale.Host} e nm :
  let r := run (Tailscale.Configure e) (Tailscale.New nm) in
  (∃ o, r.2 = Returns o) ∧ (r.2 = Returns None → tailscale_settings e nm r.1).
Proof.
  intros r. subst r. unfold tailscale_settings, run, Tailscale.Configure.
  rewrite !(bind_next _ _ _ _ _ (documented_loop _ _)). unfold documented. cbn.
  generalize (default "" (last_text "auth-key" (ChildElements e))) as key.
  generalize (default "" (last_text "hostname" (ChildElements e))) as host. intros host key.
  go_unfold. cbn. destruct (String.eqb_spec key "") as [->|Hk]; cbn.
  - destruct (String.eqb_spec Getenv_AUTHKEY "") as [Hg|Hg]; cbn; [by split; eauto|].
    destruct (String.eqb_spec host "") as [->|Hh]; [destruct Hostname|]; cbn; (split; [by eexists|]); intros Hr; first [discriminate Hr|by split_and!].
  - destruct (String.eqb_spec host "") as [->|Hh]; [destruct Hostname|]; cbn; (split; [by eexists|]); intros Hr; first [discriminate Hr|by split_and!].
Qed.

(** The CPU module.  An [api-endpoint] counts only as long as there is no other. *)
Definition api_endpoint (a : string) (c : Element) : string :=
  if String.eqb (ETag c) "api-endpoint" then if String.eqb a "" then Text c else a
  else if String.eqb (ETag c) "api" then default a (last_text "endpoint" (ChildElements c))
  else a.

Definition cpu_settings (e : Element) (nm : string) : CPU :=
  let l := ChildElements e in
  mk_CPU nm (default "" (last_text "pub-endpoint" l)) (default "" (last_text "pull-endpoint" l))
    (foldl api_endpoint "" l)
    (setting (nested "api" (text_of "ca-certificate")) "" l)
    (setting (nested "api" (text_of "tls-certificate")) "" l)
    (setting (nested "api" (text_of "tls-key")) "" l)
    (setting (nested "logs" (text_of "elastic")) "" l)
    (setting (nested "logs" (attribute "elastic" "index" "ot-sim-logs")) "" l)
    (setting (nested "logs" (text_of "loki")) "" l).

Ltac solve_cpu_child :=
  let c := fresh "c" in
  intros c; unfold api_child, logs_child, text_of, attribute; by_tag c; solve_sets.

Ltac solve_cpu :=
  apply sets_range; let c := fresh "c" in intros c;
  unfold CpuConfig.configure_child, nested, text_of; by_tag c;
  first [solve_sets
        |apply sets_range_id; solve_cpu_child
        |apply sets_range; solve_cpu_child].

(** A field of the module that the loop sets. *)
Abbreviation cpu_field f g e := (sets (f ∘ CpuConfig.this) (λ a, setting g a (ChildElements e))
  (range (ChildElements e) CpuConfig.configure_child)) (only parsing).

Lemma cpu_api_endpoint e :
  sets (apiEndpoint ∘ CpuConfig.this) (λ a, foldl api_endpoint a (ChildElements e))
    (range (ChildElements e) CpuConfig.configure_child).
Proof.
  apply sets_fold. intros c. unfold CpuConfig.configure_child, api_endpoint.
  destruct (String.eqb_spec (ETag c) "pub-endpoint") as [E|_]; [rewrite E; solve_sets|].
  destruct (String.eqb_spec (ETag c) "pull-endpoint") as [E|_]; [rewrite E; solve_sets|].
  destruct (String.eqb_spec (ETag c) "api-endpoint") as [E|_].
  { intros s. go_unfold. simpl. by destruct (String.eqb (apiEndpoint (CpuConfig.this s)) ""). }
  destruct (String.eqb_spec (ETag c) "api") as [E|_].
  { intros s. pose proof (sets_range (apiEndpoint ∘ CpuConfig.this) (text_of "endpoint") (ChildElements c) api_child
      ltac:(solve_cpu_child) s) as Hs. cbv beta in Hs. by rewrite setting_text in Hs. }
  by_tag c; first [solve_sets|apply sets_range_id; solve_cpu_child].
Qed.

Lemma cpu_configured e nm s :
  CpuConfig.this s = CpuConfig.New nm →
  let r := run (CpuConfig.Configure e) s in
  r.2 = Returns None → CpuConfig.this r.1 = cpu_settings e nm.
Proof.
  intros Hs r Hr. subst r. unfold CpuConfig.Configure in *.
  assert (cpu_field CpuConfig.name (λ _, None) e) as H1 by solve_cpu.
  assert (cpu_field CpuConfig.pubEndpoint (text_of "pub-endpoint") e) as H2 by solve_cpu.
  assert (cpu_field CpuConfig.pullEndpoint (text_of "pull-endpoint") e) as H3 by solve_cpu.
  pose proof (cpu_api_endpoint e) as H4.
  assert (cpu_field apiCACert (nested "api" (text_of "ca-certificate")) e) as H5 by solve_cpu.
  assert (cpu_field apiCert (nested "api" (text_of "tls-certificate")) e) as H6 by solve_cpu.
  assert (cpu_field apiKey (nested "api" (text_of "tls-key")) e) as H7 by solve_cpu.
  assert (cpu_field elasticEndpoint (nested "logs" (text_of "elastic")) e) as H8 by solve_cpu.
  assert (cpu_field elasticIndex (nested "logs" (attribute "elastic" "index" "ot-sim-logs")) e) as H9 by solve_cpu.
  assert (cpu_field lokiEndpoint (nested "logs" (text_of "loki")) e) as H10 by solve_cpu.
  apply (sets_run _ _ _ _ s) in H1, H2, H3, H4, H5, H6, H7, H8, H9, H10; [|exact Hr..].
  unfold compose in *. rewrite Hs in *. unfold cpu_settings. rewrite <- !setting_text.
  destruct (CpuConfig.this (fst _)) as [f1 f2 f3 f4 f5 f6 f7 f8 f9 f10]. simpl in *.
  rewrite setting_none in H1. by f_equal.
Qed.

(** The Node-RED module: the fields and the settings that go into the template;
    those of the logins are stated by [login_set]. *)
Record node_red_settings (e : Element) (nm : string) (n : NodeRED) : Prop := {
  nr_name : NodeRed.name n = nm;
  nr_pub : NodeRed.pubEndpoint n = default "" (last_text "pub-endpoint" (ChildElements e));
  nr_pull : NodeRed.pullEndpoint n = default "" (last_text "pull-endpoint" (ChildElements e));
  nr_executable : executable n = default "node-red" (last_text "executable" (ChildElements e));
  nr_path : settingsPath n = default "/etc/node-red.js" (last_text "settings-path" (ChildElements e));
  nr_theme : settings n !! "theme" = Some (default "dark" (last_text "theme" (ChildElements e)));
  nr_user_dir : settings n !! "user-dir" = Some (default "/root" (last_text "user-dir" (ChildElements e)));
  nr_flow_path : settings n !! "flow-path" = last_text "flow-path" (ChildElements e);
  nr_host : settings n !! "host" =
    Some (setting (attribute "endpoint" "host" "0.0.0.0") "0.0.0.0" (ChildElements e));
  nr_port : settings n !! "port" =
    Some (setting (attribute "endpoint" "port" "1880") "1880" (ChildElements e));
}.

Definition field_of (k : string) (s : NodeRed.state) : option string := settings (NodeRed.this s) !! k.

Ltac nr_case :=
  let s := fresh "s" in intros s; unfold login, field_of; go_unfold;
  repeat match goal with |- context [match ?r with inl _ => _ | inr _ => _ end] => destruct r end;
  simpl; repeat first [rewrite lookup_insert_eq|rewrite lookup_insert_ne by done]; done.

Ltac solve_nr :=
  apply sets_range; let c := fresh "c" in intros c;
  unfold NodeRed.configure_child, text_of, attribute; by_tag c;
  first [nr_case
        |apply sets_range_id; let c := fresh "c" in intros c; unfold authentication_child; by_tag c; nr_case].

Abbreviation nr_field proj g e := (sets proj (λ a, setting g a (ChildElements e))
  (range (ChildElements e) NodeRed.configure_child)) (only parsing).

Lemma node_red_configured `{NodeRed.Host} e nm :
  let r := run (NodeRed.Configure e) (NodeRed.mk_state (NodeRed.New nm) 0 ∅ None) in
  r.2 = Returns None → node_red_settings e nm (NodeRed.this r.1).
Proof.
  intros r Hr. subst r. unfold NodeRed.Configure in *. set (s := NodeRed.mk_state _ _ _ _) in *.
  assert (nr_field (NodeRed.name ∘ NodeRed.this) (λ _, None) e) as H1' by solve_nr.
  assert (nr_field (NodeRed.pubEndpoint ∘ NodeRed.this) (text_of "pub-endpoint") e) as H2' by solve_nr.
  assert (nr_field (NodeRed.pullEndpoint ∘ NodeRed.this) (text_of "pull-endpoint") e) as H3' by solve_nr.
  assert (nr_field (executable ∘ NodeRed.this) (text_of "executable") e) as H4' by solve_nr.
  assert (nr_field (settingsPath ∘ NodeRed.this) (text_of "settings-path") e) as H5' by solve_nr.
  assert (nr_field (field_of "theme") (λ c, Some <$> text_of "theme" c) e) as H6' by solve_nr.
  assert (nr_field (field_of "user-dir") (λ c, Some <$> text_of "user-dir" c) e) as H7' by solve_nr.
  assert (nr_field (field_of "flow-path") (λ c, Some <$> text_of "flow-path" c) e) as H8' by solve_nr.
  assert (nr_field (field_of "host") (λ c, Some <$> attribute "endpoint" "host" "0.0.0.0" c) e) as H9' by solve_nr.
  assert (nr_field (field_of "port") (λ c, Some <$> attribute "endpoint" "port" "1880" c) e) as H10' by solve_nr.
  apply (sets_run _ _ _ _ s) in H1', H2', H3', H4', H5', H6', H7', H8', H9', H10'; [|exact Hr..].
  unfold compose, field_of in *.
  split; rewrite <- ?setting_text, <- ?setting_last_text, <- ?(setting_map Some); try done.
  by rewrite H1', setting_none.
Qed.

(** ** Modules that have more than settings *)

(** Statements that keep a field and only return errors. *)
Lemma keeps_sets {S A B} (proj : S → A) (m : go S (option error) B) :
  keeps (λ s s', proj s' = proj s) m → ends is_error m → sets proj Datatypes.id m.
Proof. intros Hk He s. specialize (Hk s). specialize (He s). by destruct (m s) as [s' [b|o|p|]]. Qed.

#[local] Instance same_field_preorder {S A} (proj : S → A) : PreOrder (λ s s', proj s' = proj s).
Proof. split; [by intros s|]. intros s1 s2 s3. congruence. Qed.

Lemma sets_serial {S A} (proj : S → A) upd (init : S → S) l :
  (∀ s, proj (init s) = proj s) → (∀ f s, proj (upd f s) = proj s) →
  sets proj Datatypes.id (_ ← modify init; range l (configure_serial upd)).
Proof.
  intros Hi Hu. destruct (configure_serials_ok (λ s s', proj s' = proj s) upd Hu init l Hi) as [Hk He].
  by apply keeps_sets.
Qed.

Lemma sets_assign_int {S A} (proj : S → A) text format set :
  (∀ v s, proj (set v s) = proj s) → sets proj Datatypes.id (assign_int text format set).
Proof.
  intros Hs. destruct (assign_int_ok (λ s s', proj s' = proj s) text format set Hs) as [Hk He].
  by apply keeps_sets.
Qed.

Lemma sets_assign_int_value {S} (proj : S → Z) text format set :
  (∀ v s, proj (set v s) = v) → sets proj (λ a, default a (integer text)) (assign_int text format set).
Proof.
  intros Hs s. unfold assign_int, integer. destruct (Atoi text) as [v [err|]]; go_unfold; [done|]. apply Hs.
Qed.

(** A Modbus server. *)
Record modbus_server_settings (e : Element) (nm : string) (s : ModbusServer) : Prop := {
  ms_name : ModbusServer.name s = nm;
  ms_pull : ModbusServer.pullEndpoint s = default "" (last_text "pull-endpoint" (ChildElements e));
  ms_pub : ModbusServer.pubEndpoint s = default "" (last_text "pub-endpoint" (ChildElements e));
  ms_endpoint : ModbusServer.endpoint s = default "" (last_text "endpoint" (ChildElements e));
  ms_id : ModbusServer.unit_id s = setting (parsed integer "id") 1 (ChildElements e);
  ms_registers : server_wf s;
}.

Ltac solve_modbus :=
  apply sets_range; let c := fresh "c" in intros c;
  unfold ModbusServerConfig.configure_child, ModbusClient.configure_child, parsed, text_of, duration; by_tag c;
  first [solve_sets
        |by apply sets_assign_int
        |by apply sets_assign_int_value
        |by apply sets_serial].

Lemma modbus_server_configured e nm :
  let r := run (ModbusServerConfig.Configure e) (ModbusServerConfig.New nm) in
  (∃ o, r.2 = Returns o) ∧ (r.2 = Returns None → modbus_server_settings e nm r.1).
Proof.
  intros r. destruct (ModbusServerConfig.Configure_ends e (ModbusServerConfig.New nm)) as [Ho (Hn & _ & Hwf)].
  split; [exact Ho|]. intros Hr. subst r. unfold ModbusServerConfig.Configure in *.
  set (s := ModbusServerConfig.New nm) in *. set (l := range (ChildElements e) _) in *.
  assert (sets ModbusServer.pullEndpoint (λ a, setting (text_of "pull-endpoint") a (ChildElements e)) l) as H1 by solve_modbus.
  assert (sets ModbusServer.pubEndpoint (λ a, setting (text_of "pub-endpoint") a (ChildElements e)) l) as H2 by solve_modbus.
  assert (sets ModbusServer.endpoint (λ a, setting (text_of "endpoint") a (ChildElements e)) l) as H3 by solve_modbus.
  assert (sets ModbusServer.unit_id (λ a, setting (parsed integer "id") a (ChildElements e)) l) as H4 by solve_modbus.
  apply (sets_run _ _ _ _ s) in H1, H2, H3, H4; [|exact Hr..]. cbv beta in *. rewrite setting_text in H1, H2, H3.
  split; [exact Hn|exact H1|exact H2|exact H3|exact H4|exact (Hwf (server_wf_New nm))].
Qed.

(** A Modbus client. *)
Record modbus_client_settings `{ModbusLib} (e : Element) (nm : string) (s : ModbusClient) : Prop := {
  mc_name : ModbusClient.name s = nm;
  mc_pull : ModbusClient.pullEndpoint s = default "" (last_text "pull-endpoint" (ChildElements e));
  mc_pub : ModbusClient.pubEndpoint s = default "" (last_text "pub-endpoint" (ChildElements e));
  mc_endpoint : ModbusClient.endpoint s = default "" (last_text "endpoint" (ChildElements e));
  mc_id : ModbusClient.id s = setting (parsed integer "unit-id") 1 (ChildElements e);
  mc_period : ModbusClient.period s = setting (parsed duration "period") 5000000000 (ChildElements e);
  mc_registers : client_wf s;
  mc_client : ModbusClient.client s = None;
}.

Lemma modbus_client_configured `{ModbusLib} e nm :
  let r := run (ModbusClient.Configure e) (ModbusClient.New nm) in
  (∃ o, r.2 = Returns o) ∧ (r.2 = Returns None → modbus_client_settings e nm r.1).
Proof.
  intros r. destruct (client_Configure_ends e (ModbusClient.New nm)) as [Ho (Hn & _ & Hc & Hwf)].
  split; [exact Ho|]. intros Hr. subst r. unfold ModbusClient.Configure in *.
  set (s := ModbusClient.New nm) in *. set (l := range (ChildElements e) _) in *.
  assert (sets ModbusClient.pullEndpoint (λ a, setting (text_of "pull-endpoint") a (ChildElements e)) l) as H2' by solve_modbus.
  assert (sets ModbusClient.pubEndpoint (λ a, setting (text_of "pub-endpoint") a (ChildElements e)) l) as H3' by solve_modbus.
  assert (sets ModbusClient.endpoint (λ a, setting (text_of "endpoint") a (ChildElements e)) l) as H4' by solve_modbus.
  assert (sets ModbusClient.id (λ a, setting (parsed integer "unit-id") a (ChildElements e)) l) as H5' by solve_modbus.
  assert (sets ModbusClient.period (λ a, setting (parsed duration "period") a (ChildElements e)) l) as H6' by solve_modbus.
  apply (sets_run _ _ _ _ s) in H2', H3', H4', H5', H6'; [|exact Hr..]. cbv beta in *. rewrite setting_text in H2', H3', H4'.
  split; [exact Hn|exact H2'|exact H3'|exact H4'|exact H5'|exact H6'|exact (Hwf (client_wf_New nm))|exact Hc].
Qed.

(** A logic module. *)
Record logic_settings `{Expr} (e : Element) (nm : string) (s : Logic) : Prop := {
  lg_pull : Logic.pullEndpoint s = default "" (last_text "pull-endpoint" (ChildElements e));
  lg_pub : Logic.pubEndpoint s = default "" (last_text "pub-endpoint" (ChildElements e));
  lg_period : Logic.period s = setting (parsed duration "period") 1000000000 (ChildElements e);
  lg_updates : Logic.processUpdates s = setting (parsed boolean "process-updates") false (ChildElements e);
  lg_sane : sane nm s;
}.

Lemma sets_lines `{Expr} {A} (proj : Logic → A) l :
  (∀ v s, proj (set_order v s) = proj s) → (∀ v s, proj (set_program v s) = proj s) →
  (∀ v s, proj (set_env v s) = proj s) → sets proj Datatypes.id (range l configure_line).
Proof.
  intros Ho Hp He. apply sets_range_id. intros [i line]. unfold configure_line.
  assert (∀ p left, sets proj Datatypes.id (set_line i p left)) as Hline.
  { intros p left. apply sets_modify. intros s. by rewrite Ho, Hp. }
  destruct (HasPrefix line "#"); [apply sets_ret|]. destruct (SplitN2 line equals_sign) as [left [right|]].
  - destruct (Compile (TrimSpace right)); [|apply sets_error]. apply sets_keep; [apply Hline|intros _].
    apply sets_keep; [apply sets_get|intros s]. destruct (env s !! TrimSpace left); [apply sets_ret|].
    apply sets_modify. intros s'. apply He.
  - destruct (HasPrefix _ _); [|apply sets_ret]. destruct (Compile _); [apply Hline|apply sets_error].
Qed.

Lemma sets_variables `{Expr} {A} (proj : Logic → A) l :
  (∀ v t w s, proj (set_variables v t w s) = proj s) → (∀ v s, proj (set_env v s) = proj s) →
  sets proj Datatypes.id (range l configure_variable).
Proof.
  intros Hv He. apply sets_range_id. intros c. unfold configure_variable.
  apply sets_keep; [apply sets_modify; intros s; apply Hv|intros _].
  destruct (ParseFloat (Text c)) as [f [err|]]; [destruct (ParseBool (Text c)) as [b [err'|]]|];
    first [apply sets_error|apply sets_modify; intros s; apply He].
Qed.

Ltac solve_logic :=
  apply sets_range; let c := fresh "c" in intros c;
  unfold Logic.configure_child, parsed, text_of, duration, boolean; by_tag c;
  first [solve_sets
        |by apply sets_variables
        |apply sets_keep; [by apply sets_modify|intros []; by apply sets_lines]
        |let s := fresh "s" in intros s; go_unfold; destruct (ParseBool _) as [? [|]]; done].

Lemma logic_configured `{Expr} e nm :
  let r := run (Logic.Configure e) (Logic.New nm) in
  (∃ o, r.2 = Returns o) ∧ (r.2 = Returns None → logic_settings e nm r.1).
Proof.
  intros r. destruct (Configure_sane e nm) as [Hs Ho]. split; [exact Ho|]. intros Hr. subst r.
  unfold Logic.Configure in *. set (s := Logic.New nm) in *. set (l := range (ChildElements e) _) in *.
  assert (sets Logic.pullEndpoint (λ a, setting (text_of "pull-endpoint") a (ChildElements e)) l) as H2' by solve_logic.
  assert (sets Logic.pubEndpoint (λ a, setting (text_of "pub-endpoint") a (ChildElements e)) l) as H3' by solve_logic.
  assert (sets Logic.period (λ a, setting (parsed duration "period") a (ChildElements e)) l) as H4' by solve_logic.
  assert (sets Logic.processUpdates (λ a, setting (parsed boolean "process-updates") a (ChildElements e)) l) as H5' by solve_logic.
  apply (sets_run _ _ _ _ s) in H2', H3', H4', H5'; [|exact Hr..]. cbv beta in *. rewrite setting_text in H2', H3'. by split.
Qed.

(** A SunSpec server. *)
Record sunspec_server_settings (e : Element) (nm : string) (s : SunSpecServer) : Prop := {
  ss_name : SunSpecServer.name s = nm;
  ss_pull : SunSpecServer.pullEndpoint s = default "" (last_text "pull-endpoint" (ChildElements e));
  ss_pub : SunSpecServer.pubEndpoint s = default "" (last_text "pub-endpoint" (ChildElements e));
  ss_endpoint : SunSpecServer.endpoint s = default "" (last_text "endpoint" (ChildElements e));
  ss_store : server_ok s;
}.

Section sunspec_server.
Context `{Schemas} {A : Type} (proj : SunSpecServer → A).
Context (Hheap : ∀ v s, proj (SunSpecServer.set_heap v s) = proj s)
  (Hregs : ∀ v s, proj (SunSpecServer.set_registers v s) = proj s)
  (Hpoints : ∀ v s, proj (SunSpecServer.set_points v s) = proj s)
  (Htags : ∀ v s, proj (SunSpecServer.set_tags v s) = proj s).

Lemma sets_put_register a l : sets proj Datatypes.id (put_register (R:=option error) a l).
Proof. apply sets_modify. intros s. apply Hregs. Qed.

Lemma sets_configure_points id len ps a : sets proj Datatypes.id (configure_points id len ps a).
Proof.
  revert a. induction ps as [|p ps IH]; intros a; [apply sets_ret|]. cbn [configure_points].
  destruct (point_register id len p); [|apply sets_error].
  apply sets_keep; [intros s; apply Hheap|intros loc]. apply sets_keep; [apply sets_put_register|intros _].
  apply sets_keep; [apply sets_modify; intros s; apply Hpoints|by intros _].
Qed.

Lemma sets_configure_value a c : sets proj Datatypes.id (configure_value a c).
Proof.
  unfold configure_value. apply sets_keep; [apply sets_get|intros s].
  destruct (SunSpecServer.points s !! ETag c) as [l|]; [|apply sets_error].
  apply sets_keep; [by destruct (heap s !! l); intros s'|intros r].
  apply sets_keep; [|intros _; apply sets_put_register].
  assert (∀ f, sets proj Datatypes.id (update_register (R:=option error) l f)) as Hup
    by (intros f; apply sets_modify; intros s'; apply Hheap).
  destruct (HasPrefix _ _); [apply Hup|]. destruct (ParseFloat (Text c)) as [v [err|]]; [|apply Hup].
  apply sets_keep; [apply sets_modify; intros s'; apply Htags|intros _; apply Hup].
Qed.

Lemma sets_configure_model c a : sets proj Datatypes.id (configure_model c a).
Proof.
  unfold configure_model. destruct (SelectAttr c "id"); [|apply sets_error].
  destruct (Atoi _) as [id [err|]]; [apply sets_error|]. destruct (GetModelSchema id); [|apply sets_error].
  apply sets_keep; [apply sets_configure_points|intros a'].
  apply sets_keep; [apply sets_range_id, sets_configure_value|intros _; apply sets_ret].
Qed.

(** The loop over the children sets what the three settings of the address set. *)
Lemma sets_configure_children g l :
  (∀ c s, ETag c = "pull-endpoint" → proj (SunSpecServer.set_pullEndpoint (Text c) s) = default (proj s) (g c)) →
  (∀ c s, ETag c = "pub-endpoint" → proj (SunSpecServer.set_pubEndpoint (Text c) s) = default (proj s) (g c)) →
  (∀ c s, ETag c = "endpoint" → proj (SunSpecServer.set_endpoint (Text c) s) = default (proj s) (g c)) →
  (∀ c, ETag c ≠ "pull-endpoint" → ETag c ≠ "pub-endpoint" → ETag c ≠ "endpoint" → g c = None) →
  ∀ a m1, sets proj (λ x, setting g x l) (configure_children l a m1).
Proof.
  intros Hpl Hpb Hep Hno. induction l as [|c l IH]; intros a m1; [apply sets_ret|]. intros s. cbn [configure_children].
  rewrite setting_cons.
  assert (∀ u a m1, proj (u s) = default (proj s) (g c) →
    match (_ ← modify (R:=option error) u; configure_children l a m1) s with
    | (s', Next _) => proj s' = setting g (default (proj s) (g c)) l
    | (_, Return o) => o ≠ None
    | _ => True
    end) as Hset.
  { intros u a' m' Hu. specialize (IH a' m' (u s)). unfold mbind, go_bind, modify.
    destruct (configure_children l a' m' (u s)) as [s' [r|o|p|]]; try done. by rewrite IH, Hu. }
  destruct (String.eqb_spec (ETag c) "pull-endpoint") as [E1|N1]; [by apply Hset, Hpl|].
  destruct (String.eqb_spec (ETag c) "pub-endpoint") as [E2|N2]; [by apply Hset, Hpb|].
  destruct (String.eqb_spec (ETag c) "endpoint") as [E3|N3]; [by apply Hset, Hep|].
  rewrite (Hno c N1 N2 N3). simpl. destruct (String.eqb (ETag c) "model"); [|apply IH].
  exact (sets_bind proj _ _ _ _ (sets_configure_model c a) (λ m, IH _ _) s).
Qed.

Lemma sets_sunspec_Configure g e s :
  (∀ a m1, sets proj (λ x, setting g x (ChildElements e)) (configure_children (ChildElements e) a m1)) →
  (run (SunSpecServer.Configure e) s).2 = Returns None →
  proj (run (SunSpecServer.Configure e) s).1 = setting g (proj s) (ChildElements e).
Proof.
  intros Hc. assert (sets proj (λ x, setting g x (ChildElements e)) (SunSpecServer.Configure e)) as Hs.
  { assert (∀ r : Z * bool, sets proj Datatypes.id
      (_ ← put_register r.1 loc_End; _ ← put_register (r.1 + 1) loc_EndLength;
       if negb r.2 then mret (Some (Errorf "SunSpec Model 1 not configured as first model")) else mret None)) as Hend.
    { intros r. apply sets_keep; [apply sets_put_register|intros _].
      apply sets_keep; [apply sets_put_register|intros _]. destruct (negb r.2); apply sets_ret. }
    intros s0. exact (sets_bind proj _ _ _ _ (sets_put_register 40000 loc_Identifier)
      (λ _, sets_bind proj _ _ _ _ (Hc 40002 false) Hend) s0). }
  specialize (Hs s). unfold run. destruct (SunSpecServer.Configure e s) as [s' [r|o|p|]]; simpl; try done.
  by intros [= ->].
Qed.
End sunspec_server.

Lemma sunspec_server_configured `{Schemas} e nm :
  let r := run (SunSpecServer.Configure e) (SunSpecServer.New nm) in
  (∃ o, r.2 = Returns o) ∧ (r.2 = Returns None → sunspec_server_settings e nm r.1).
Proof.
  intros r. destruct (sunspec_Configure_ends e (SunSpecServer.New nm) (server_ok_New nm)) as [Ho Hok].
  split; [exact Ho|]. intros Hr.
  assert (∀ tag c, ETag c = tag → text_of tag c = Some (Text c)) as Htag
    by (intros tag c <-; unfold text_of; by rewrite String.eqb_refl).
  assert (∀ tag c, ETag c ≠ tag → text_of tag c = None) as Hother
    by (intros tag c Hn; unfold text_of; by apply String.eqb_neq in Hn as ->).
  split; [| | | |exact Hok].
  - etransitivity; [apply (sets_sunspec_Configure SunSpecServer.name ltac:(done) (λ _, None)); [|exact Hr]|
      by rewrite setting_none].
    apply sets_configure_children; done.
  - rewrite <- setting_text. apply (sets_sunspec_Configure SunSpecServer.pullEndpoint ltac:(done)); [|exact Hr].
    apply sets_configure_children; try done; intros c; intros; by rewrite ?Htag, ?Hother by congruence.
  - rewrite <- setting_text. apply (sets_sunspec_Configure SunSpecServer.pubEndpoint ltac:(done)); [|exact Hr].
    apply sets_configure_children; try done; intros c; intros; by rewrite ?Htag, ?Hother by congruence.
  - rewrite <- setting_text. apply (sets_sunspec_Configure SunSpecServer.endpoint ltac:(done)); [|exact Hr].
    apply sets_configure_children; try done; intros c; intros; by rewrite ?Htag, ?Hother by congruence.
Qed.

(** An MQTT client: every tag has the topic its last element says. *)
Definition topic_of (m : gmap string string) (c : Element) : gmap string string :=
  if String.eqb (ETag c) "tag"
  then <[Text c := SelectAttrValue c "topic" (ReplaceAll (Text c) "." "/")]> m else m.

Definition timestamp_of (c : Element) : option string :=
  if String.eqb (ETag c) "payload-template" then SelectAttr c "timestamp" else None.

Definition template_of `{Std} (s : string) : option Template :=
  match template_Parse (TrimSpace s) with inl t => Some t | inr _ => None end.

Record mqtt_settings `{Std} (must : Template) (e : Element) (nm : string) (s : MQTTClient) : Prop := {
  mq_name : Mqtt.name s = nm;
  mq_pub : Mqtt.pubEndpoint s = default "" (last_text "pub-endpoint" (ChildElements e));
  mq_id : Mqtt.id s = default "" (last_text "client-id" (ChildElements e));
  mq_period : Mqtt.period s = setting (parsed duration "period") 0 (ChildElements e);
  mq_topics : topics s = foldl topic_of ∅ (ChildElements e);
  mq_values t v : values s !! t = Some v → v = f64_0;
  mq_template : payloadTmpl s = Some (setting (parsed template_of "payload-template") must (ChildElements e));
  mq_timestamp : timestampTmpl s = setting timestamp_of RFC3339 (ChildElements e);
  mq_endpoints : Forall2 (λ c ep, validate (parse_endpoint c) = inl ep) (endpoint_elements e) (Mqtt.endpoints s);
  mq_configured : Mqtt.configured s;
  mq_client : Mqtt.client s = None;
}.

Ltac mqtt_case :=
  first [solve_sets
        |let s := fresh "s" in intros s; go_unfold; unfold template_of;
         repeat match goal with |- context [match ?r with inl _ => _ | inr _ => _ end] => destruct r end; done].

Ltac solve_mqtt :=
  apply sets_range; let c := fresh "c" in intros c;
  unfold Mqtt.configure_child, parsed, text_of, duration, timestamp_of; by_tag c; mqtt_case.

Lemma mqtt_configured_settings `{Std} must e nm :
  let r := run (Mqtt.Configure e) (Mqtt.New must nm) in
  (∃ o, r.2 = Returns o) ∧ (r.2 = Returns None → mqtt_settings must e nm r.1).
Proof.
  intros r. destruct (Mqtt.Configure_configured must nm e) as [Ho Hc]. split; [exact Ho|]. intros Hr.
  destruct (proj2 (Mqtt.mqtt_configured must nm e) Hr) as (Hcfg & Hcl & Hv & Hes).
  destruct (Hc Hr) as (_ & s1 & Hl & Hset & _). fold r in Hset, Hcfg, Hcl, Hv, Hes.
  set (s := Mqtt.New must nm) in *. set (l := range (ChildElements e) Mqtt.configure_child) in *.
  assert (∀ {A} (proj : MQTTClient → A) f, sets proj f l → proj s1 = f (proj s)) as Hsets.
  { intros A proj f Hp. specialize (Hp s). by rewrite Hl in Hp. }
  assert (sets Mqtt.name (λ a, setting (λ _, None) a (ChildElements e)) l) as H1' by solve_mqtt.
  assert (sets Mqtt.pubEndpoint (λ a, setting (text_of "pub-endpoint") a (ChildElements e)) l) as H2' by solve_mqtt.
  assert (sets Mqtt.id (λ a, setting (text_of "client-id") a (ChildElements e)) l) as H3' by solve_mqtt.
  assert (sets Mqtt.period (λ a, setting (parsed duration "period") a (ChildElements e)) l) as H4' by solve_mqtt.
  assert (sets topics (λ a, foldl topic_of a (ChildElements e)) l) as H5'.
  { apply sets_fold. intros c. unfold Mqtt.configure_child, topic_of. by_tag c; mqtt_case. }
  assert (sets payloadTmpl (λ a, setting (λ c, Some <$> parsed template_of "payload-template" c) a (ChildElements e)) l)
    as H6' by solve_mqtt.
  assert (sets timestampTmpl (λ a, setting timestamp_of a (ChildElements e)) l) as H7' by solve_mqtt.
  apply Hsets in H1', H2', H3', H4', H5', H6', H7'. cbv beta in *.
  rewrite setting_text in H2', H3'. rewrite setting_none in H1'.
  split; try done; rewrite Hset; cbn [set_endpoints Mqtt.name Mqtt.pubEndpoint Mqtt.id Mqtt.period topics payloadTmpl timestampTmpl];
    try done. rewrite H6'. apply (setting_map Some).
Qed.
End modules.
