(* ===== verification/Runs.v ===== *)
(** * The methods Run of the modules

    What [Run] of a module does before its goroutines and handlers take over: the
    endpoints it uses, the sockets it makes, the state it leaves and the errors it
    returns.  (The method [Run] in [modbus/server/server.go],
    [modbus/client/client.go], [sunspec/server/server.go],
    [sunspec/client/client.go], [logic/logic.go], [telnet/telnet.go],
    [mqtt/mqtt.go] and [cpu/cpu.go].)  Sockets and listeners are parameters.  A
    call that blocks for good does not return, like a loop without an end. *)

From S2P Require Import Prelude GoFloat GoText Etree Json Msgbus ModbusRegister ModbusSettings.
From S2P Require Import ModbusServer.
From S2P Require Import ModbusServerConfig.
From S2P Require Import ModbusClient.
From S2P Require Import SunSpecRegister.
From S2P Require Import SunSpecServer.
From S2P Require Import SunSpecClient.
From S2P Require Import Logic.
From S2P Require Import Cpu.
From S2P Require Import CpuApi.
From S2P Require Import CpuConfig.
From S2P Require Import Sockets.
From S2P Require Import CpuServer.
From S2P Require Import Telnet.
From S2P Require Import Mqtt.

Section runs.
Context `{Sockets}.

(** [if this.endpoint != "" { if err := server.ListenTCP(...) ... }] *)
Definition listen_tcp {S} (endpoint : string) : go S (option error) () :=
  if String.eqb endpoint "" then mret () else
  match ListenTCP endpoint with
  | Some e => return_ (Some (Wrapf "listening for TCP connections on %s: %w" e))
  | None => mret ()
  end.

Definition server_counters (m : metrics_table) : metrics_table :=
  NewMetric METRIC_COUNTER "holding_writes_count" "number of holding writes processed"
    (NewMetric METRIC_COUNTER "coil_writes_count" "number of coil writes processed"
      (NewMetric METRIC_COUNTER "status_count" "number of status messages processed" m)).

Definition modbus_server_Run (pub pull : string) : go ModbusServer (option error) (option error) :=
  s ← get;
  b ← MustNewPusher (bus_endpoint (ModbusServer.pullEndpoint s) pull);
  _ ← modify (ModbusServer.set_pusher b);
  _ ← MustNewSubscriber (bus_endpoint (ModbusServer.pubEndpoint s) pub);
  _ ← modify (λ s, set_metrics (server_counters (metrics s)) s);
  _ ← listen_tcp (ModbusServer.endpoint s);
  match ModbusServer.serial s with
  | None => mret None
  | Some c =>
    match ListenRTU c with
    | Some e => return_ (Some (Wrapf "listening for RTU connections on %s: %w" e))
    | None => mret None
    end
  end.

Definition modbus_client_Run `{ModbusLib} (pub pull : string) : go ModbusClient (option error) (option error) :=
  s ← get;
  match getEndpoint s with
  | inr e => return_ (Some e)
  | inl _ =>
    b ← MustNewPusher (bus_endpoint (ModbusClient.pullEndpoint s) pull);
    _ ← modify (ModbusClient.set_pusher b);
    _ ← MustNewSubscriber (bus_endpoint (ModbusClient.pubEndpoint s) pub);
    _ ← ModbusClient.connect;
    mret None
  end.

Definition sunspec_server_Run (pub pull : string) : go SunSpecServer (option error) (option error) :=
  s ← get;
  b ← MustNewPusher (bus_endpoint (SunSpecServer.pullEndpoint s) pull);
  _ ← modify (SunSpecServer.set_pusher b);
  _ ← MustNewSubscriber (bus_endpoint (SunSpecServer.pubEndpoint s) pub);
  _ ← listen_tcp (SunSpecServer.endpoint s);
  mret None.

Definition sunspec_client_Run `{GoPlatform} `{ModbusLib} `{Schemas} (fuel : nat)
  (orders : nat → gmap string SunSpecRegister.Register → list (string * SunSpecRegister.Register))
  (pub pull : string) : go SunSpecClient (option error) (option error) :=
  s ← get;
  b ← MustNewPusher (bus_endpoint (SunSpecClient.pullEndpoint s) pull);
  _ ← modify (SunSpecClient.set_pusher b);
  _ ← MustNewSubscriber (bus_endpoint (SunSpecClient.pubEndpoint s) pub);
  SunSpecClient.Run fuel orders.

Definition logic_Run `{Expr} (pub pull : string) : go Logic (option error) (option error) :=
  s ← get;
  if bool_decide (program s = ∅) then return_ (Some (Errorf "no logic program to execute")) else
  b ← MustNewPusher (bus_endpoint (Logic.pullEndpoint s) pull);
  _ ← modify (Logic.set_pusher b);
  _ ← MustNewSubscriber (bus_endpoint (Logic.pubEndpoint s) pub);
  _ ← modify initEnv;
  mret None.

(** [telnet.ListenAndServe] is called in [Run] itself. *)
Definition telnet_Run (pub pull : string) : go Telnet (option error) (option error) :=
  b ← MustNewPusher pull;
  _ ← modify (Telnet.set_pusher b);
  _ ← MustNewSubscriber pub;                     (* internal *)
  _ ← MustNewSubscriber pub;
  s ← get;
  match ListenAndServe (Telnet.endpoint s) with
  | Some _ => panic_ PanicExplicit
  | None => nofuel                               (* serves for good *)
  end.

(** The check of the endpoints comes before the subscriber; [fuel] bounds the
    attempts to connect. *)
Definition mqtt_Run `{Std} (Connect : options → bool) (fuel : nat) (pub : string)
  : go MQTTClient (option error) (option error) :=
  s ← get;
  if (length (endpoints s) =? 0)%nat then return_ (Some (Errorf "no MQTT broker endpoints provided")) else
  _ ← MustNewSubscriber (bus_endpoint (Mqtt.pubEndpoint s) pub);
  start Connect fuel.

(** [order]: the map iteration of [Run].  An error of the API server is only
    logged, and the monitors are goroutines. *)
Definition cpu_Run `{TLS} (LookPath : string → bool) (order : gmap string module → list module)
  (ctx : context) (pub pull : string) : go CpuConfig.state (option error) (option error) :=
  s ← get;
  _ ← on_package (start_modules LookPath (Some ctx) (order (Cpu.modules (CpuConfig.package s))));
  b ← MustNewPusher (bus_endpoint (CpuConfig.pullEndpoint (CpuConfig.this s)) pull);
  _ ← modify (λ s, set_package (Cpu.set_pusher b (CpuConfig.package s)) s);
  _ ← call (start_api (CpuConfig.this s) pub pull);
  mret None.
End runs.
