(* ===== verification/Programs.v ===== *)
(** * The programs: factories, modules and main functions together

    The modules of all components behind the interface of the registry: the
    factories, one type of modules, the promise that configuring keeps ([OtSim]),
    and the eight programs under [cmd]. *)

From S2P Require Import Prelude GoFloat GoText Etree Json Msgbus ModbusSettings Daemon OtSim.
From S2P Require Import ModbusRegister ModbusServer ModbusServerConfig ModbusClient.
From S2P Require Import SunSpecRegister SunSpecServer SunSpecClient SunSpecLink.
From S2P Require Import Logic Telnet Mqtt Cpu CpuApi CpuConfig Sockets NodeRed Tailscale Settings Runs.
From S2P Require CpuServer.

(** [strings.ToLower], as far as a comparison with an ASCII word can tell: the only
    letters outside ASCII whose lower case is in ASCII are U+0130 and U+212A. *)
Definition utf8 (l : list Z) : string := string_of l.

Definition ToLower (s : string) : string :=
  lower_string (ReplaceAll (ReplaceAll s (utf8 [196; 176]) "i") (utf8 [226; 132; 170]) "k").

(** The rest of the machine: reading a document, the path search of the etree
    library, the executables, the broker that accepts a connection, the iterations
    over maps, the default payload template of an MQTT client, and the number of
    attempts and polls that are looked at. *)
Class Machine `{Etree} `{Std} := {
  ReadFromFile : string → result Element;
  FindElement : Element → string → option Element;
  find_executable : string → bool;
  Connect : options → bool;
  orders : nat → gmap string SunSpecRegister.Register → list (string * SunSpecRegister.Register);
  module_order : gmap string Cpu.module → list Cpu.module;
  must : Template;
  fuel : nat;
}.

Section programs.
Context `{GoPlatform} `{Etree} `{ModbusLib} `{Schemas} `{Expr} `{Std} `{Sockets} `{CpuServer.TLS}.
Context `{NodeRed.Host} `{Tailscale.Host} `{!Machine}.

(** A module with its state. *)
Inductive module :=
| MModbusServer (s : ModbusServer)
| MModbusClient (s : ModbusClient)
| MSunSpecServer (s : SunSpecServer)
| MSunSpecClient (s : SunSpecClient)
| MLogic (s : Logic)
| MTelnet (s : Telnet)
| MMQTT (s : MQTTClient)
| MCPU (s : CPU)
| MNodeRED (s : NodeRed.state)
| MTailscale (s : Tailscale.state).

(** The package variables of cpu: the modules and the output of the log. *)
Record world := mk_world { cpu_package : Cpu.cpu; cpu_log : option Logger }.

(** ** The factories *)

Definition mode (e : Element) : string := ToLower (SelectAttrValue e "mode" "server").

Definition modbus_factory (e : Element) : module + error :=
  if String.eqb (mode e) "server" then
    inl (MModbusServer (ModbusServerConfig.New (SelectAttrValue e "name" "modbus-server")))
  else if String.eqb (mode e) "client" then
    inl (MModbusClient (ModbusClient.New (SelectAttrValue e "name" "modbus-client")))
  else inr (Errorf "unknown mode '%s' provided for Modbus module").

Definition sunspec_factory (e : Element) : module + error :=
  if String.eqb (mode e) "server" then
    inl (MSunSpecServer (SunSpecServer.New (SelectAttrValue e "name" "sunspec-server")))
  else if String.eqb (mode e) "client" then
    inl (MSunSpecClient (SunSpecClient.New (SelectAttrValue e "name" "sunspec-client")))
  else inr (Errorf "unknown mode '%s' provided for SunSpec module").

(** The factory of the package of the server. *)
Definition sunspec_server_factory (e : Element) : module + error :=
  inl (MSunSpecServer (SunSpecServer.New (SelectAttrValue e "name" "sunspec"))).

Definition logic_factory (e : Element) : module + error :=
  inl (MLogic (Logic.New (SelectAttrValue e "name" "logic"))).
Definition telnet_factory (e : Element) : module + error :=
  inl (MTelnet (Telnet.New (SelectAttrValue e "name" "telnet"))).
Definition mqtt_factory (e : Element) : module + error :=
  inl (MMQTT (Mqtt.New must (SelectAttrValue e "name" "mqtt"))).
Definition cpu_factory (e : Element) : module + error :=
  inl (MCPU (CpuConfig.New (SelectAttrValue e "name" "cpu"))).
Definition nodered_factory (e : Element) : module + error :=
  inl (MNodeRED (NodeRed.mk_state (NodeRed.New (SelectAttrValue e "name" "node-red")) 0 ∅ None)).
Definition tailscale_factory (e : Element) : module + error :=
  inl (MTailscale (Tailscale.mk_state (Tailscale.New (SelectAttrValue e "name" "tailscale")) None false)).

(** ** Configure and Run *)

(** A method on the state of one kind of module. *)
Definition lifted {S} (mk : S → module) (m : go S (option error) (option error)) (s : S) (w : world)
  : module * world * outcome (option error) :=
  let '(s', o) := run m s in (mk s', w, o).

Definition cpu_state (c : CPU) (w : world) : CpuConfig.state :=
  CpuConfig.mk_state c (cpu_package w) (cpu_log w).

Definition lifted_cpu (m : go CpuConfig.state (option error) (option error)) (c : CPU) (w : world)
  : module * world * outcome (option error) :=
  let '(s', o) := run m (cpu_state c w) in
  (MCPU (CpuConfig.this s'), mk_world (CpuConfig.package s') (CpuConfig.log_output s'), o).

(** A method on the Tailscale module itself. *)
Definition lifted_tailscale (m : go Tailscale (option error) (option error)) (s : Tailscale.state) (w : world)
  : module * world * outcome (option error) :=
  let '(t, o) := run m (Tailscale.this s) in
  (MTailscale (Tailscale.mk_state t (Tailscale.goroutine s) (Tailscale.reporting s)), w, o).

Definition configure (e : Element) (m : module) (w : world) : module * world * outcome (option error) :=
  match m with
  | MModbusServer s => lifted MModbusServer (ModbusServerConfig.Configure e) s w
  | MModbusClient s => lifted MModbusClient (ModbusClient.Configure e) s w
  | MSunSpecServer s => lifted MSunSpecServer (SunSpecServer.Configure e) s w
  | MSunSpecClient s => lifted MSunSpecClient (SunSpecClient.Configure e) s w
  | MLogic s => lifted MLogic (Logic.Configure e) s w
  | MTelnet s => lifted MTelnet (Telnet.Configure e) s w
  | MMQTT s => lifted MMQTT (Mqtt.Configure e) s w
  | MCPU c => lifted_cpu (CpuConfig.Configure e) c w
  | MNodeRED s => lifted MNodeRED (NodeRed.Configure e) s w
  | MTailscale s => lifted_tailscale (Tailscale.Configure e) s w
  end.

(** [MustNewPusher] of the Tailscale module, which panics without a socket. *)
Definition tailscale_Run (pull : string) (s : Tailscale.state) (w : world)
  : module * world * outcome (option error) :=
  match NewPusher (if String.eqb (Tailscale.pullEndpoint (Tailscale.this s)) "" then pull
                   else Tailscale.pullEndpoint (Tailscale.this s)) with
  | inr _ => (MTailscale s, w, Panics PanicExplicit)
  | inl b => lifted MTailscale (Tailscale.Run fuel (λ _, b) pull) s w
  end.

Definition run_module (ctx : context) (pub pull : string) (m : module) (w : world)
  : module * world * outcome (option error) :=
  match m with
  | MModbusServer s => lifted MModbusServer (modbus_server_Run pub pull) s w
  | MModbusClient s => lifted MModbusClient (modbus_client_Run pub pull) s w
  | MSunSpecServer s => lifted MSunSpecServer (sunspec_server_Run pub pull) s w
  | MSunSpecClient s => lifted MSunSpecClient (sunspec_client_Run fuel orders pub pull) s w
  | MLogic s => lifted MLogic (logic_Run pub pull) s w
  | MTelnet s => lifted MTelnet (telnet_Run pub pull) s w
  | MMQTT s => lifted MMQTT (mqtt_Run Connect fuel pub) s w
  | MCPU c => lifted_cpu (cpu_Run find_executable module_order ctx pub pull) c w
  | MNodeRED s => lifted MNodeRED (NodeRed.Run pub pull) s w
  | MTailscale s => tailscale_Run pull s w
  end.

#[global] Instance ot_sim_modules : Modules := {|
  World := world;
  Module := module;
  OtSim.Configure := configure;
  Runner _ := true;
  OtSim.Run := run_module;
|}.

(** ** The programs *)

Definition empty_registry : registry :=
  mk_registry ∅ [] "" "" (mk_world empty_package None).

(** What the package initialisers of a program register. *)
Definition linked (fs : list (string * factory)) : registry :=
  foldr (λ f, AddModuleFactory f.1 f.2) empty_registry fs.

Definition plain (ctx : context) (path : string) : context := ctx.

Definition modbus_main (args : list string) : registry * ending :=
  main ReadFromFile FindElement plain args (linked [("modbus", modbus_factory)]).
(** Two packages register a factory for the tag; that of the server comes first. *)
Definition sunspec_main (args : list string) : registry * ending :=
  main ReadFromFile FindElement plain args
    (linked [("sunspec", sunspec_factory); ("sunspec", sunspec_server_factory)]).
Definition logic_main (args : list string) : registry * ending :=
  main ReadFromFile FindElement plain args (linked [("logic", logic_factory)]).
Definition telnet_main (args : list string) : registry * ending :=
  main ReadFromFile FindElement plain args (linked [("telnet", telnet_factory)]).
Definition mqtt_main (args : list string) : registry * ending :=
  main ReadFromFile FindElement plain args (linked [("mqtt", mqtt_factory)]).
Definition nodered_main (args : list string) : registry * ending :=
  main ReadFromFile FindElement plain args (linked [("node-red", nodered_factory)]).
Definition tailscale_main (args : list string) : registry * ending :=
  main ReadFromFile FindElement plain args (linked [("tailscale", tailscale_factory)]).
(** The CPU program puts the configuration file into the context. *)
Definition cpu_main (args : list string) : registry * ending :=
  main ReadFromFile FindElement SetConfigFile args (linked [("cpu", cpu_factory)]).
End programs.

(** ** What the modules promise *)

Section promise.
Context `{GoPlatform} `{Etree} `{ModbusLib} `{Schemas} `{Expr} `{Std} `{Sockets} `{CpuServer.TLS}.
Context `{NodeRed.Host} `{Tailscale.Host} `{!Machine}.

(** The factories of the modules, with their tags. *)
Definition all_factories : list (string * (Element → module + error)) := [
  ("modbus", modbus_factory); ("sunspec", sunspec_factory); ("logic", logic_factory);
  ("telnet", telnet_factory); ("mqtt", mqtt_factory); ("cpu", cpu_factory);
  ("node-red", nodered_factory); ("tailscale", tailscale_factory);
  ("sunspec", sunspec_server_factory)].

(** What a module is after its configuration: it has the settings of its element. *)
Definition as_configured (e : Element) (m : module) : Prop :=
  let nm := SelectAttrValue e "name" in
  match m with
  | MModbusServer s => modbus_server_settings e (nm "modbus-server") s
  | MModbusClient s => modbus_client_settings e (nm "modbus-client") s
  | MSunSpecServer s => ∃ d, In d ["sunspec-server"; "sunspec"] ∧ sunspec_server_settings e (nm d) s
  | MSunSpecClient s => s = sunspec_client_settings e (nm "sunspec-client")
  | MLogic s => logic_settings e (nm "logic") s
  | MTelnet s => s = telnet_settings e (nm "telnet")
  | MMQTT s => mqtt_settings must e (nm "mqtt") s
  | MCPU c => c = cpu_settings e (nm "cpu")
  | MNodeRED s => node_red_settings e (nm "node-red") (NodeRed.this s) ∧ logged s (logins "editor" e) (logins "ui" e)
  | MTailscale s => tailscale_settings e (nm "tailscale") (Tailscale.this s)
  end.

Lemma lifted_spec {S} (mk : S → module) m s w e :
  (∃ o, (run m s).2 = Returns o) ∧ ((run m s).2 = Returns None → as_configured e (mk (run m s).1)) →
  ∃ m' w' o, lifted mk m s w = (m', w', Returns o) ∧ (o = None → as_configured e m').
Proof.
  intros [[o Ho] Hp]. unfold lifted. destruct (run m s) as [s' r]. simpl in *. subst r.
  exists (mk s'), w, o. split; [done|]. by intros ->; apply Hp.
Qed.

(** The SunSpec server, whatever its default name. *)
Lemma sunspec_server_promise e d w :
  In d ["sunspec-server"; "sunspec"] →
  ∃ m' w' o, configure e (MSunSpecServer (SunSpecServer.New (SelectAttrValue e "name" d))) w = (m', w', Returns o) ∧
    (o = None → as_configured e m').
Proof.
  intros Hd. cbn [configure]. apply lifted_spec.
  destruct (sunspec_server_configured e (SelectAttrValue e "name" d)) as [Hr Hs].
  split; [exact Hr|]. intros Ho. exists d. split; [exact Hd|exact (Hs Ho)].
Qed.

(** Every module keeps its promise. *)
Lemma factory_promise tag f e m w :
  In (tag, f) all_factories → f e = inl m →
  ∃ m' w' o, configure e m w = (m', w', Returns o) ∧ (o = None → as_configured e m').
Proof.
  intros Hin Hm.
  repeat destruct Hin as [[= <- <-]|Hin]; [..|done].
  - unfold modbus_factory in Hm. destruct (String.eqb (mode e) "server");
      [|destruct (String.eqb (mode e) "client"); [|done]]; injection Hm as <-; apply lifted_spec;
      [apply modbus_server_configured|apply modbus_client_configured].
  - unfold sunspec_factory in Hm. destruct (String.eqb (mode e) "server");
      [|destruct (String.eqb (mode e) "client"); [|done]]; injection Hm as <-.
    + apply sunspec_server_promise. by left.
    + apply lifted_spec, sunspec_client_configured.
  - injection Hm as <-. apply lifted_spec, logic_configured.
  - injection Hm as <-. apply lifted_spec. rewrite telnet_configured. split; [by eexists|done].
  - injection Hm as <-. apply lifted_spec, mqtt_configured_settings.
  - injection Hm as <-. cbn [configure]. unfold lifted_cpu.
    set (s := cpu_state _ w). destruct (CpuConfig.Configure_returns e s) as (s' & o & Hr).
    pose proof (cpu_configured e (SelectAttrValue e "name" "cpu") s eq_refl) as Hs. rewrite Hr in *.
    eexists _, _, _. split; [reflexivity|]. intros ->. by apply Hs.
  - injection Hm as <-. pose proof (Configure_logs e (SelectAttrValue e "name" "node-red")) as Hl.
    pose proof (node_red_configured e (SelectAttrValue e "name" "node-red")) as Hs.
    cbn [configure]. unfold lifted. destruct (run _ _) as [s' [[err|]|p|]]; try done; [by eexists _, _, _|].
    eexists _, _, _. split; [reflexivity|]. intros _. split; [by apply Hs|exact Hl].
  - injection Hm as <-. destruct (tailscale_configured e (SelectAttrValue e "name" "tailscale")) as [[o Hr] Hk].
    cbn [configure]. unfold lifted_tailscale. cbn [Tailscale.this].
    destruct (run _ _) as [t r]. cbn [fst snd] in *. subst r. eexists _, _, _. split; [done|].
    intros ->. by apply Hk.
  - injection Hm as <-. apply sunspec_server_promise. right. by left.
Qed.

#[global] Instance ot_sim_promise : ConfiguredModules := {|
  OtSim.known tag f := In (tag, f) all_factories;
  OtSim.configured := as_configured;
  OtSim.configure_law tag f e m w Hk _ := factory_promise tag f e m w Hk;
|}.
End promise.

(** ** Theorems *)

(** What the supervisor of the CPU module does when the process of module [i] ends
    with a code. *)
Definition supervised (i : nat) (code : Z) (s : Cpu.cpu) : option Cpu.cpu :=
  s1 ← Cpu.sup_step i (Cpu.EvExit code) s; Cpu.sup_step i Cpu.EvWaitDone s1.

Section theorems.
Context `{GoPlatform} `{Etree} `{ModbusLib} `{Schemas} `{Expr} `{Std} `{Sockets} `{CpuServer.TLS}.
Context `{NodeRed.Host} `{Tailscale.Host} `{!Machine}.

Definition linked_all (fs : list (string * factory)) : Prop :=
  ∀ tag f, In (tag, f) fs → In (tag, f) all_factories.

Lemma linked_known fs : linked_all fs → all_known (linked fs).
Proof.
  intros Hin. induction fs as [|[tag f] fs IH]; [intros k g Hk; done|].
  intros k g. cbn. intros [[<- <-]|[_ Hk]]%lookup_insert_Some.
  - apply Hin. by left.
  - apply IH; [|done]. intros tag' f' Hf. apply Hin. by right.
Qed.

Lemma parses_complete fs l w ms w' : parses fs l w ms w' None → length ms = length l.
Proof.
  remember None as o. intros Hp. revert Heqo. induction Hp as [|? ? ? ? ? ? ? ? ? ? ? ? ? _ IH| |];
    intros Heq; try done. cbn. f_equal. by apply IH.
Qed.

(** The factory that is registered last counts: the SunSpec program makes clients, too. *)
Lemma sunspec_registered :
  linked [("sunspec", sunspec_factory); ("sunspec", sunspec_server_factory)] = linked [("sunspec", sunspec_factory)].
Proof. unfold linked, AddModuleFactory. cbn. by rewrite insert_insert_eq. Qed.

Lemma linked_runners fs : runners (linked fs) = [].
Proof. by induction fs as [|[tag f] fs IH]. Qed.

Lemma filter_runners (ms : list module) : List.filter Runner ms = ms.
Proof. induction ms as [|m ms IH]; [done|]. cbn in *. by rewrite IH. Qed.


(** C36: a module program whose configuration fails exits with 101, and the CPU
    module then gives it up: its goroutine returns and nothing starts the program
    again, while the module stays listed as enabled.  After any other code the
    program is started again. *)
Theorem misconfigured_stays_down fs setup prog path s err cpu i p c :
  run (ParseConfigFile ReadFromFile FindElement path) (linked fs) = (s, Returns (Some err)) →
  Cpu.supervisors cpu !! i = Some p → Cpu.sup_phase p = Cpu.Waiting c → Cpu.sup_proc p = Cpu.Running →
  main ReadFromFile FindElement setup [prog; path] (linked fs) = (s, OtSim.Exited 101) ∧
  ∀ code, ∃ cpu' q, supervised i code cpu = Some cpu' ∧ Cpu.supervisors cpu' !! i = Some q ∧
    Cpu.sup_phase q = (if code =? 101 then Cpu.Exited else Cpu.Launching) ∧
    Cpu.modules cpu' = Cpu.modules cpu ∧
    (code = 101 → ∀ ev, Cpu.sup_step i ev cpu' = None).
Proof.
  intros Hrun Hi Hph Hpr. split; [unfold main; by rewrite Hrun|]. intros code.
  assert (i < length (Cpu.supervisors cpu))%nat as Hlt by (by eapply lookup_lt_Some).
  unfold supervised, Cpu.sup_step at 2. rewrite Hi. cbn. unfold Cpu.sup_move. rewrite Hph, Hpr. cbn.
  unfold Cpu.sup_step at 1. cbn. rewrite list_lookup_insert_eq by done. cbn. unfold ExitNoRestart.
  destruct (Z.eqb_spec code 101) as [->|Hne]; eexists _, _;
    (split; [reflexivity|]); cbn; (split; [by rewrite list_lookup_insert_eq by (by rewrite length_insert)|]);
    split_and!; try done.
  intros _ ev. unfold Cpu.sup_step. cbn. by rewrite list_lookup_insert_eq by (by rewrite length_insert).
Qed.

(** The telnet program makes telnet modules only. *)
Lemma telnet_modules l w ms w' o :
  parses (factories (linked [("telnet", telnet_factory)])) l w ms w' o →
  Forall (λ m, ∃ t, m = MTelnet t) ms.
Proof.
  induction 1 as [|c l w f m m' w1 ms w2 o Hf Hm Hc _ IH| |]; constructor; [|done].
  cbn in Hf. apply lookup_insert_Some in Hf as [[_ <-]|[_ Hf]]; [|done]. injection Hm as <-.
  cbn in Hc. unfold lifted in Hc. destruct (run _ _) as [t r]. injection Hc as <- _ _. by exists t.
Qed.

(** [Run] of a telnet module never returns. *)
Lemma telnet_Run_blocks pub pull t :
  ∃ t', run (telnet_Run pub pull) t = (t', Loops) ∨ run (telnet_Run pub pull) t = (t', Panics PanicExplicit).
Proof.
  unfold run, telnet_Run, MustNewPusher, MustNewSubscriber. go_unfold.
  destruct (NewPusher pull) as [b|e]; [|by eexists; right].
  destruct (NewSubscriber pub) as [u|e]; [|by eexists; right]. cbn.
  destruct (ListenAndServe (Telnet.endpoint t)); eexists; [by right|by left].
Qed.

(** The telnet program never gets to the point where it waits for its context:
    [Run] of the first module serves in the call itself, so [main] hangs there (or
    crashes, if a socket cannot be made), no other module is ever started, and the
    end of the context on a [SIGTERM] is never noticed. *)
Theorem telnet_never_serves prog path doc root s :
  ReadFromFile path = inl doc → SelectElement doc "ot-sim" = Some root →
  run (ParseConfigFile ReadFromFile FindElement path) (linked [("telnet", telnet_factory)])
    = (s, Returns None) →
  runners s ≠ [] →
  ∃ s' e t t' rest, telnet_main [prog; path] = (s', e) ∧ (e = Hangs ∨ e = Crashed PanicExplicit) ∧
    runners s = MTelnet t :: rest ∧ runners s' = MTelnet t' :: rest ∧
    (∀ b, NewPusher (OtSim.pullEndpoint s) = inl b → NewSubscriber (OtSim.pubEndpoint s) = inl () →
       ListenAndServe (Telnet.endpoint t) = None → e = Hangs).
Proof.
  intros Hread Hroot Hrun Hne.
  destruct (ParseConfigFile_root ReadFromFile FindElement path doc root (linked [("telnet", telnet_factory)]))
    as (s1 & ms & o & Hrun' & [Hp _ Hr _ _ _]); [|exact Hread|exact Hroot|].
  { apply linked_known. intros tag f [[= <- <-]|[]]. do 3 right. by left. }
  rewrite Hrun in Hrun'. injection Hrun' as -> <-.
  rewrite linked_runners, filter_runners in Hr. cbn [app] in Hr.
  apply telnet_modules in Hp. destruct ms as [|m rest]; [by rewrite Hr in Hne|].
  apply Forall_cons in Hp as [[t ->] _].
  unfold telnet_main, main. rewrite Hrun. unfold run at 1, Start, mbind, go_bind. cbn [get].
  rewrite Hr. cbn [length Nat.eqb start_loop]. unfold mbind, go_bind, modify, get. cbn [OtSim.Run ot_sim_modules run_module].
  unfold lifted. destruct (telnet_Run_blocks (OtSim.pubEndpoint s1) (OtSim.pullEndpoint s1) t) as [t' [Ht|Ht]]; rewrite Ht;
    eexists _, _, t, t', rest; (split; [reflexivity|]); split_and!; try done; [by left|by right|].
  intros b Hb Hs Hl. unfold run, telnet_Run, MustNewPusher, MustNewSubscriber in Ht. go_unfold.
  rewrite Hb, Hs in Ht. cbn in Ht. by rewrite Hl in Ht.
Qed.
End theorems.

(** ** A machine for the examples

    Its one document has a message bus and a module of one kind. *)

Definition open_sockets : Sockets := {|
  NewPusher _ := inl (mk_bus [] 0 (λ _, true));
  NewSubscriber _ := inl ();
  ListenTCP _ := None;
  ListenRTU _ := None;
  ListenAndServe _ := None;
|}.

Definition example_machine (root : xml) : @Machine xml_etree Mqtt.example_std := {|
  ReadFromFile _ := inl (Elem "" [] "" [root] : @Element xml_etree);
  FindElement := @SelectElement xml_etree;
  find_executable _ := true;
  Connect _ := true;
  orders _ _ := [];
  module_order m := (map_to_list m).*2;
  must := (() : @Mqtt.Template Mqtt.example_std);
  fuel := 3;
|}.

#[local] Existing Instances amd64 ModbusClient.example_device Logic.example_expr Mqtt.example_std
  open_sockets CpuServer.example_tls NodeRed.example_host Tailscale.example_host.

Definition modbus_document : xml := Elem "ot-sim" [] "" [
  Elem "message-bus" [] "" [leaf "pub-endpoint" "tcp://a"; leaf "pull-endpoint" "tcp://b"];
  Elem "modbus" [("mode", "Server"); ("name", "plc")] "" [leaf "endpoint" ":502"]].

Definition client_document : xml := Elem "ot-sim" [] "" [Elem "modbus" [("mode", "slave")] "" []].

Definition telnet_document : xml := Elem "ot-sim" [] "" [Elem "telnet" [] "" []; Elem "telnet" [] "" []].


(** The registry of the example machine after reading a document. *)
Definition parsed_example (root : xml) (tag : string)
  (f : @Element xml_etree → module + error) :=
  run (@ParseConfigFile _ (@ot_sim_modules _ _ _ _ _ _ _ _ _ _ (example_machine root))
    (@ReadFromFile _ _ (example_machine root)) (@SelectElement xml_etree) "/etc/ot-sim.xml")
    (@linked _ _ _ _ _ _ _ _ _ _ (example_machine root) [(tag, f)]).

Lemma misconfigured_stays_down_witness :
  (∃ e, (parsed_example client_document "modbus" modbus_factory).2 = Returns (Some e)) ∧
  (∃ cpu' q, supervised 0 101 Cpu.busy_cpu = Some cpu' ∧ Cpu.supervisors cpu' !! 0%nat = Some q ∧
    Cpu.sup_phase q = Cpu.Exited ∧ Cpu.modules cpu' = Cpu.modules Cpu.busy_cpu) ∧
  ∃ cpu' q, supervised 0 1 Cpu.busy_cpu = Some cpu' ∧ Cpu.supervisors cpu' !! 0%nat = Some q ∧
    Cpu.sup_phase q = Cpu.Launching.
Proof.
  assert ((parsed_example client_document "modbus" modbus_factory).2 =
    Returns (Some (Wrapf "creating new module for %s: %w"
      (Errorf "unknown mode '%s' provided for Modbus module")))) as He by (vm_compute; reflexivity).
  split; [by eexists|].
  destruct (parsed_example client_document "modbus" modbus_factory) as [s r] eqn:Hrun.
  cbn [snd] in He. subst r.
  destruct (@misconfigured_stays_down _ _ _ _ _ _ _ _ _ _ (example_machine client_document)
    [("modbus", modbus_factory)] plain "ot-sim" "/etc/ot-sim.xml" s _ Cpu.busy_cpu 0 _ _
    Hrun eq_refl eq_refl eq_refl) as [_ Hsup].
  split.
  - destruct (Hsup 101) as (cpu' & q & Hs & Hq & Hp & Hm & _). by exists cpu', q.
  - destruct (Hsup 1) as (cpu' & q & Hs & Hq & Hp & _). by exists cpu', q.
Defined.

Lemma telnet_never_serves_witness :
  ∃ s' e, @telnet_main _ _ _ _ _ _ _ _ _ _ (example_machine telnet_document) ["ot-sim"; "/etc/ot-sim.xml"]
    = (s', e) ∧ e = Hangs.
Proof.
  assert ((parsed_example telnet_document "telnet" telnet_factory).2 = Returns None) as He
    by (vm_compute; reflexivity).
  assert (length (runners (parsed_example telnet_document "telnet" telnet_factory).1) = 2%nat) as Hlen
    by (vm_compute; reflexivity).
  destruct (parsed_example telnet_document "telnet" telnet_factory) as [s r] eqn:Hrun.
  cbn [fst snd] in He, Hlen. subst r.
  destruct (@telnet_never_serves _ _ _ _ _ _ _ _ _ _ (example_machine telnet_document)
    "ot-sim" "/etc/ot-sim.xml" (Elem "" [] "" [telnet_document]) telnet_document s eq_refl eq_refl Hrun)
    as (s' & e & t & t' & rest & Hm & _ & _ & _ & Hh).
  - intros Hnil. rewrite Hnil in Hlen. discriminate.
  - exists s', e. split; [exact Hm|]. by eapply Hh.
Defined.
