(* ===== verification/MessageBus.v ===== *)
(** * The program of the message bus

    [src/c/cmd/ot-sim-message-bus/main.c]: it reads its endpoints from the document
    that configures the modules, and then hands the proxy of the CZMQ library the
    commands that make it the bus of [Bus].  An undefined behaviour of C (a null
    pointer given to [atoi] or [strdup], an integer out of range) is [None].  The
    theorem compares it with [ParseConfigFile] of the Go programs. *)

From Stdlib Require Import Ascii.
From S2P Require Import Prelude GoFloat GoText Etree OtSim Sockets.
From S2P Require ModbusServer Runs.

(** The nodes of libxml2: elements, but also texts and comments, which have names
    of their own ("text", "comment").  [xmlNodeListGetString] is the text of the
    children of a node, and a null pointer if there is none. *)
Class LibXml := {
  Doc : Type;
  Node : Type;
  xmlParseFile : string → option Doc;
  xmlDocGetRootElement : Doc → option Node;
  node_name : Node → string;
  is_element : Node → bool;
  xmlChildrenNode : Node → list Node;
  xmlNodeListGetString : Node → option string;
}.

(** ** atoi *)

(** [isspace] *)
Definition isspace (c : ascii) : bool := (code c =? 32) || ((9 <=? code c) && (code c <=? 13)).

Fixpoint skip_space (s : string) : string :=
  match s with String c s' => if isspace c then skip_space s' else s | EmptyString => s end.

(** The digits at the front of a text. *)
Fixpoint leading (n : Z) (s : string) : Z :=
  match s with
  | String c s' => match digit c with Some d => leading (n * 10 + d) s' | None => n end
  | EmptyString => n
  end.

Definition atoi (s : string) : option Z :=
  let '(neg, body) := sign (skip_space s) in
  let v := if (neg : bool) then - leading 0 body else leading 0 body in
  if (int_min I32 <=? v) && (v <=? int_max I32) then Some v else None.

(** ** The program *)

Record config := mk_config {
  verbose : Z;
  pull : string;
  pub : string;
  debug : option string;     (* None: NULL *)
}.

Definition default_config : config :=
  mk_config 0 "tcp://127.0.0.1:1234" "tcp://127.0.0.1:5678" None.

(** How far the program gets: it ends with a code, [assert] aborts it, or the proxy
    runs with the commands it was sent. *)
Inductive ending := Exits (code : Z) | Aborts | Proxies (commands : list (list string)).

Section program.
Context `{LibXml}.

(** The body of the loop of [xml_handler]. *)
Definition handle_node (c : config) (node : Node) : option config :=
  let text := xmlNodeListGetString node in
  if String.eqb (node_name node) "verbose" then
    t ← text; v ← atoi t; Some (mk_config v (pull c) (pub c) (debug c))
  else if String.eqb (node_name node) "pull-endpoint" then
    t ← text; Some (mk_config (verbose c) t (pub c) (debug c))
  else if String.eqb (node_name node) "pub-endpoint" then
    t ← text; Some (mk_config (verbose c) (pull c) t (debug c))
  else if String.eqb (node_name node) "debug-endpoint" then
    t ← text; Some (mk_config (verbose c) (pull c) (pub c) (Some t))
  else Some c.

Fixpoint handle_nodes (c : config) (nodes : list Node) : option config :=
  match nodes with
  | [] => Some c
  | node :: nodes' => c' ← handle_node c node; handle_nodes c' nodes'
  end.

(** Functions return their code with the configuration they have changed. *)
Definition xml_handler (c : config) (node : Node) : option (Z * config) :=
  c' ← handle_nodes c (xmlChildrenNode node); Some (0, c').

(** The loop of [xml_parse]: the first node that is called message-bus. *)
Fixpoint find_bus (c : config) (nodes : list Node) : option (Z * config) :=
  match nodes with
  | [] => Some (0, c)
  | node :: nodes' =>
    if String.eqb (node_name node) "message-bus" then xml_handler c node else find_bus c nodes'
  end.

Definition xml_parse (path : string) (c : config) : option (Z * config) :=
  match xmlParseFile path with
  | None => Some (-1, c)
  | Some doc =>
    match xmlDocGetRootElement doc with
    | None => Some (-1, c)
    | Some node =>
      if negb (String.eqb (node_name node) "ot-sim") then Some (-1, c)
      else find_bus c (xmlChildrenNode node)
    end
  end.

(** The commands [main] sends to the proxy. *)
Definition commands (c : config) : list (list string) :=
  (if verbose c =? 0 then [] else [["VERBOSE"]]) ++
  [["FRONTEND"; "PULL"; pull c]] ++
  [["BACKEND"; "PUB"; pub c]] ++
  match debug c with Some d => [["CAPTURE"; d]] | None => [] end.

(** [main] up to its endless loop; [proxy] says whether the proxy could be made. *)
Definition main (proxy : bool) (argv : list string) : option ending :=
  parsed ← match argv with
           | [_; path] => xml_parse path default_config
           | _ => Some (0, default_config)
           end;
  let '(rc, c) := parsed in
  Some (if negb (rc =? 0) then Exits 1 else if proxy then Proxies (commands c) else Aborts).

(** The loop at the end, given what the calls of [sleep] return: a signal ends it. *)
Fixpoint main_loop (sleeps : list Z) : option Z :=
  match sleeps with
  | [] => None                        (* asleep *)
  | remaining :: sleeps' => if remaining =? 0 then main_loop sleeps' else Some 0
  end.
End program.

(** ** Specification vocabulary *)

Section agreement.
Context `{LibXml} `{Etree}.

(** Two readings of one document: the elements, their names and their texts are the
    same; the other nodes (texts, comments) are not called like a setting. *)
Definition setting_names : list string :=
  ["ot-sim"; "message-bus"; "verbose"; "pull-endpoint"; "pub-endpoint"; "debug-endpoint"].

Record reads_alike (R : Node → Element → Prop) : Prop := {
  alike_name n e : R n e → node_name n = ETag e;
  alike_text n e : R n e →
    xmlNodeListGetString n = if String.eqb (Text e) "" then None else Some (Text e);
  alike_children n e : R n e →
    Forall2 R (List.filter is_element (xmlChildrenNode n)) (ChildElements e);
  alike_others n e c : R n e → c ∈ xmlChildrenNode n → is_element c = false →
    node_name c ∉ setting_names;
}.

(** A setting the program cannot take: without text, or no [int]. *)
Definition bad_setting (e : Element) : bool :=
  (existsb (String.eqb (ETag e)) ["verbose"; "pull-endpoint"; "pub-endpoint"; "debug-endpoint"]
     && String.eqb (Text e) "")
  || (String.eqb (ETag e) "verbose" && negb (bool_decide (is_Some (atoi (Text e))))).

(** The settings of the message bus: the children of the first such element. *)
Definition bus_settings (root : Element) : list Element :=
  match List.find (λ c, String.eqb (ETag c) "message-bus") (ChildElements root) with
  | Some bus => ChildElements bus
  | None => []
  end.

Definition configured_bus (c : config) (l : list Element) : config :=
  mk_config (default (verbose c) (last_text "verbose" l ≫= atoi))
    (default (pull c) (last_text "pull-endpoint" l))
    (default (pub c) (last_text "pub-endpoint" l))
    (match last_text "debug-endpoint" l with Some d => Some d | None => debug c end).

(** The endpoint the bus uses where a Go program has [given]. *)
Definition or_default (dflt given : string) : string := if String.eqb given "" then dflt else given.

(** ** Lemmas *)

Lemma handle_element R n e c :
  reads_alike R → R n e →
  handle_node c n = if bad_setting e then None else Some (configured_bus c [e]).
Proof.
  intros Hal HR. unfold handle_node. rewrite (alike_name R Hal n e HR), (alike_text R Hal n e HR).
  assert (∀ tag, last_text tag [e] = if String.eqb (ETag e) tag then Some (Text e) else None) as Hlast
    by (intros tag; by rewrite last_text_cons).
  unfold configured_bus, bad_setting. rewrite !Hlast. clear Hlast.
  destruct (String.eqb_spec (ETag e) "verbose") as [Ht|H1].
  { rewrite Ht. cbn. destruct (String.eqb (Text e) ""); [done|]. cbn. by destruct (atoi (Text e)). }
  destruct (String.eqb_spec (ETag e) "pull-endpoint") as [Ht|H2].
  { rewrite Ht. cbn. by destruct (String.eqb (Text e) ""). }
  destruct (String.eqb_spec (ETag e) "pub-endpoint") as [Ht|H3].
  { rewrite Ht. cbn. by destruct (String.eqb (Text e) ""). }
  destruct (String.eqb_spec (ETag e) "debug-endpoint") as [Ht|H4].
  { rewrite Ht. cbn. by destruct (String.eqb (Text e) ""). }
  apply String.eqb_neq in H1, H2, H3, H4. cbn. rewrite H1, H2, H3, H4. by destruct c.
Qed.

Lemma handle_other c n : node_name n ∉ setting_names → handle_node c n = Some c.
Proof.
  intros Hn. unfold handle_node.
  repeat match goal with |- context [String.eqb (node_name n) ?t] =>
    destruct (String.eqb_spec (node_name n) t) as [Heq|_]; [destruct Hn; rewrite Heq; set_solver|] end.
  done.
Qed.

Lemma last_text_in tag l t : last_text tag l = Some t → ∃ e, e ∈ l ∧ ETag e = tag ∧ Text e = t.
Proof.
  induction l as [|e l IH]; [done|]. rewrite last_text_cons.
  destruct (last_text tag l) as [u|].
  - intros [= ->]. destruct IH as (e' & He & ? & ?); [done|]. exists e'. split; [by right|done].
  - destruct (String.eqb_spec (ETag e) tag); [|done]. intros [= <-]. exists e. split; [left|done].
Qed.

(** The last of the settings counts, if all of them are good. *)
Lemma verbose_good l t :
  existsb bad_setting l = false → last_text "verbose" l = Some t → is_Some (atoi t).
Proof.
  intros Hg (e & He & Ht & <-)%last_text_in. apply list_elem_of_In in He.
  destruct (atoi (Text e)) eqn:Ha; [by eexists|]. exfalso.
  assert (existsb bad_setting l = true); [|congruence]. apply existsb_exists. exists e. split; [done|].
  unfold bad_setting. rewrite Ht, Ha. cbn. by rewrite orb_true_r.
Qed.

Lemma configured_cons c e l :
  existsb bad_setting (e :: l) = false →
  configured_bus (configured_bus c [e]) l = configured_bus c (e :: l).
Proof.
  intros [_ Hl]%orb_false_iff. unfold configured_bus. cbn [verbose pull pub debug].
  rewrite !(last_text_cons _ e). cbn [last_text].
  destruct (last_text "verbose" l) as [v|] eqn:Hv.
  - destruct (verbose_good _ _ Hl Hv) as [z Hz]. cbn. rewrite Hz. cbn.
    by destruct (last_text "pull-endpoint" l), (last_text "pub-endpoint" l), (last_text "debug-endpoint" l).
  - by destruct (last_text "pull-endpoint" l), (last_text "pub-endpoint" l), (last_text "debug-endpoint" l).
Qed.

(** A setting that is there and good is not empty. *)
Lemma good_setting tag l t :
  existsb bad_setting l = false → tag ∈ ["pull-endpoint"; "pub-endpoint"] →
  last_text tag l = Some t → t ≠ "".
Proof.
  intros Hg Htag (e & He & Ht & <-)%last_text_in Hempty. apply list_elem_of_In in He.
  assert (existsb bad_setting l = true); [|congruence]. apply existsb_exists. exists e. split; [done|].
  unfold bad_setting. rewrite Ht, Hempty. clear -Htag.
  apply elem_of_cons in Htag as [->|Htag]; [done|]. by apply list_elem_of_singleton in Htag as ->.
Qed.

Lemma endpoint_default tag l dflt :
  existsb bad_setting l = false → tag ∈ ["pull-endpoint"; "pub-endpoint"] →
  default dflt (last_text tag l) = or_default dflt (default "" (last_text tag l)).
Proof.
  intros Hg Htag. unfold or_default. destruct (last_text tag l) as [t|] eqn:Hl; [|done].
  pose proof (good_setting tag l t Hg Htag Hl) as Hne. apply String.eqb_neq in Hne. cbn. by rewrite Hne.
Qed.

Lemma handle_nodes_spec R nodes els c :
  reads_alike R → Forall2 R (List.filter is_element nodes) els →
  (∀ n, n ∈ nodes → is_element n = false → node_name n ∉ setting_names) →
  handle_nodes c nodes = if existsb bad_setting els then None else Some (configured_bus c els).
Proof.
  intros Hal. revert c els. induction nodes as [|n nodes IH]; intros c els Hels Ho; cbn [handle_nodes].
  { apply Forall2_nil_inv_l in Hels as ->. by destruct c. }
  assert (∀ n0, n0 ∈ nodes → is_element n0 = false → node_name n0 ∉ setting_names) as Ho'
    by (intros n0 Hn0; apply Ho; by right).
  cbn [List.filter] in Hels. destruct (is_element n) eqn:Hn.
  - apply Forall2_cons_inv_l in Hels as (e & els' & HR & Hels & ->).
    rewrite (handle_element R n e c Hal HR). destruct (bad_setting e) eqn:He; cbn [mbind option_bind existsb].
    { by rewrite He. }
    rewrite (IH _ els') by done. rewrite He. cbn. destruct (existsb bad_setting els') eqn:Hb; [done|].
    f_equal. apply configured_cons. cbn. by rewrite He, Hb.
  - rewrite handle_other by (apply Ho; [left|done]). cbn. by apply IH.
Qed.

Lemma find_bus_spec R nodes els c :
  reads_alike R → Forall2 R (List.filter is_element nodes) els →
  (∀ n, n ∈ nodes → is_element n = false → node_name n ∉ setting_names) →
  find_bus c nodes =
    let l := match List.find (λ e, String.eqb (ETag e) "message-bus") els with
             | Some bus => ChildElements bus | None => [] end in
    if existsb bad_setting l then None else Some (0, configured_bus c l).
Proof.
  intros Hal. revert els. induction nodes as [|n nodes IH]; intros els Hels Ho; cbn [find_bus].
  { apply Forall2_nil_inv_l in Hels as ->. by destruct c. }
  assert (∀ n0, n0 ∈ nodes → is_element n0 = false → node_name n0 ∉ setting_names) as Ho'
    by (intros n0 Hn0; apply Ho; by right).
  cbn [List.filter] in Hels. destruct (is_element n) eqn:Hn.
  - apply Forall2_cons_inv_l in Hels as (e & els' & HR & Hels & ->). cbn [List.find].
    rewrite (alike_name R Hal n e HR). destruct (String.eqb (ETag e) "message-bus"); [|by apply IH].
    unfold xml_handler. rewrite (handle_nodes_spec R _ (ChildElements e) c Hal (alike_children R Hal n e HR)).
    + cbv zeta. by destruct (existsb _ _).
    + intros n0. by apply (alike_others R Hal n e).
  - destruct (String.eqb_spec (node_name n) "message-bus") as [Heq|_]; [|by apply IH].
    exfalso. apply (Ho n); [left|done|]. rewrite Heq. set_solver.
Qed.

(** What the program makes of a document both libraries read alike. *)
Lemma main_document R prog path d n e :
  reads_alike R → xmlParseFile path = Some d → xmlDocGetRootElement d = Some n → R n e →
  main true [prog; path] =
    if negb (String.eqb (ETag e) "ot-sim") then Some (Exits 1) else
    if existsb bad_setting (bus_settings e) then None else
    Some (Proxies (commands (configured_bus default_config (bus_settings e)))).
Proof.
  intros Hal Hd Hn HR. unfold main, xml_parse. rewrite Hd, Hn, (alike_name R Hal n e HR).
  destruct (String.eqb (ETag e) "ot-sim"); [cbn [negb]|done].
  rewrite (find_bus_spec R _ _ _ Hal (alike_children R Hal n e HR)).
  - unfold bus_settings. cbv zeta. by destruct (existsb _ _).
  - intros n0. by apply (alike_others R Hal n e).
Qed.
End agreement.

(** ** Theorem *)

(** C6: the bus and the modules meet.  Both read the same document, with different
    libraries; let these agree on it, and let no endpoint be set before.  If its root
    is not ot-sim, both programs end.  Otherwise the bus has undefined behaviour if
    and only if one of its settings is empty or the verbosity is no [int]; and else
    it serves the endpoints that the modules are given, except that where the
    document names none it uses its defaults and the modules get the empty text. *)
Theorem bus_meets_modules `{LibXml} `{ConfiguredModules} ReadFromFile FindElement R prog path d n doc e s :
  reads_alike R → R n e → xmlParseFile path = Some d → xmlDocGetRootElement d = Some n →
  ReadFromFile path = inl doc → ChildElements doc = [e] →
  (∀ e tag, SelectElement e tag = List.find (λ c, String.eqb (ETag c) tag) (ChildElements e)) →
  FindElement e "message-bus" = List.find (λ c, String.eqb (ETag c) "message-bus") (ChildElements e) →
  all_known s → pubEndpoint s = "" → pullEndpoint s = "" →
  let bus := main true [prog; path] in
  let l := bus_settings e in
  ∃ s' o, run (ParseConfigFile ReadFromFile FindElement path) s = (s', Returns o) ∧
  (ETag e ≠ "ot-sim" → bus = Some (Exits 1) ∧ o ≠ None) ∧
  (ETag e = "ot-sim" →
    (bus = None ↔ ∃ c, c ∈ l ∧ bad_setting c = true) ∧
    ∀ b, bus = Some b → b = Proxies (
      (if default 0 (last_text "verbose" l ≫= atoi) =? 0 then [] else [["VERBOSE"]]) ++
      [["FRONTEND"; "PULL"; or_default "tcp://127.0.0.1:1234" (pullEndpoint s')];
       ["BACKEND"; "PUB"; or_default "tcp://127.0.0.1:5678" (pubEndpoint s')]] ++
      match last_text "debug-endpoint" l with Some t => [["CAPTURE"; t]] | None => [] end)).
Proof.
  intros Hal HR Hd Hn Hread Hdoc Hsel Hfind Hk Hpub Hpull bus l.
  unfold bus. rewrite (main_document R prog path d n e Hal Hd Hn HR).
  pose proof (Hsel doc "ot-sim") as Hroot. rewrite Hdoc in Hroot. cbn [List.find] in Hroot.
  destruct (String.eqb_spec (ETag e) "ot-sim") as [Htag|Htag]; cbn [negb].
  2: { eexists s, _. split; [by unfold run, ParseConfigFile; rewrite Hread, Hroot|].
       by split; [split|]. }
  destruct (ParseConfigFile_root ReadFromFile FindElement path doc e s Hk Hread Hroot)
    as (s' & ms & o & Hrun & [_ _ _ _ Hp Hq]).
  exists s', o. split; [exact Hrun|]. split; [done|]. intros _.
  assert (∀ tag, bus_text FindElement tag e = last_text tag l) as Htext.
  { intros tag. unfold bus_text, l, bus_settings. rewrite Hfind. by destruct (List.find _ _). }
  rewrite Htext, Hpub in Hp. rewrite Htext, Hpull in Hq. rewrite Hp, Hq. fold l.
  destruct (existsb bad_setting l) eqn:Hb.
  - split; [|done]. split; [|done]. intros _. apply existsb_exists in Hb as (c & Hc & ?).
    exists c. split; [by apply list_elem_of_In|done].
  - split.
    { split; [done|]. intros (c & Hc & Hbad). exfalso. apply list_elem_of_In in Hc.
      assert (existsb bad_setting l = true); [|congruence]. apply existsb_exists. by exists c. }
    intros b [= <-]. f_equal. unfold commands, configured_bus. cbn [verbose pull pub debug default_config].
    rewrite <- (endpoint_default "pull-endpoint" l), <- (endpoint_default "pub-endpoint" l) by (done || set_solver).
    by destruct (last_text "debug-endpoint" l).
Qed.

(** Such a document serves the bus but brings a module down: without an endpoint on
    the message bus or of its own, a Modbus server connects its pusher to the empty
    endpoint, which ZeroMQ refuses. *)
Theorem unnamed_endpoint_panics `{Sockets} s pub e :
  ModbusServer.pullEndpoint s = "" → NewPusher "" = inr e →
  run (Runs.modbus_server_Run pub "") s = (s, Panics PanicExplicit).
Proof.
  intros Hs He. unfold run, Runs.modbus_server_Run, MustNewPusher. go_unfold.
  unfold ModbusClient.bus_endpoint. rewrite Hs. cbn. by rewrite He.
Qed.

(** A document type of both libraries, without texts between the elements. *)
#[local] Instance xml_lib (file : string → option xml) : LibXml := {|
  Doc := xml;
  Node := xml;
  xmlParseFile := file;
  xmlDocGetRootElement d := head (@ChildElements xml_etree d);
  node_name := xml_tag;
  is_element _ := true;
  xmlChildrenNode := @ChildElements xml_etree;
  xmlNodeListGetString n := if String.eqb (@Text xml_etree n) "" then None else Some (@Text xml_etree n);
|}.

Lemma xml_reads_alike file : @reads_alike (xml_lib file) xml_etree eq.
Proof.
  split; [by intros n e ->|by intros n e ->| |done].
  intros n e ->. cbn. assert (∀ l : list xml, List.filter (λ _, true) l = l) as ->
    by (induction l as [|x l IH]; cbn; congruence). by apply Forall_Forall2_diag, Forall_true.
Qed.

(** The document of a device whose settings are partly missing. *)
Definition example_settings : xml :=
  Elem "ot-sim" [] "" [
    Elem "io" [("name", "a")] "" [];
    Elem "message-bus" [] "" [leaf "verbose" " 1"; leaf "pull-endpoint" "tcp://10.0.0.1:1234"]].

Definition example_path (path : string) : result (@Element xml_etree) := inl (Elem "" [] "" [example_settings]).

#[local] Existing Instances named_modules named_promise.

Lemma bus_meets_modules_witness :
  main (H := xml_lib (λ _, Some (Elem "" [] "" [example_settings]))) true ["ot-sim-message-bus"; "ot-sim.xml"]
    = Some (Proxies [["VERBOSE"]; ["FRONTEND"; "PULL"; "tcp://10.0.0.1:1234"];
                     ["BACKEND"; "PUB"; "tcp://127.0.0.1:5678"]]) ∧
  ∃ s' o, run (ParseConfigFile example_path (@SelectElement xml_etree) "ot-sim.xml") named_registry
      = (s', Returns o) ∧
    ["FRONTEND"; "PULL"; or_default "tcp://127.0.0.1:1234" (pullEndpoint s')]
      = ["FRONTEND"; "PULL"; "tcp://10.0.0.1:1234"].
Proof.
  set (file := λ _ : string, Some (Elem "" [] "" [example_settings])).
  assert (all_known named_registry) as Hk.
  { intros k f. unfold named_registry. simpl. rewrite insert_empty. by intros [_ <-]%lookup_singleton_Some. }
  assert (main (H := xml_lib file) true ["ot-sim-message-bus"; "ot-sim.xml"]
    = Some (Proxies [["VERBOSE"]; ["FRONTEND"; "PULL"; "tcp://10.0.0.1:1234"];
                     ["BACKEND"; "PUB"; "tcp://127.0.0.1:5678"]])) as Hmain by (vm_compute; reflexivity).
  split; [exact Hmain|].
  destruct (@bus_meets_modules (xml_lib file) xml_etree named_modules named_promise
    example_path (@SelectElement xml_etree) eq "ot-sim-message-bus" "ot-sim.xml"
    (Elem "" [] "" [example_settings]) example_settings (Elem "" [] "" [example_settings])
    example_settings named_registry (xml_reads_alike file) eq_refl eq_refl eq_refl eq_refl eq_refl)
    as (s' & o & Hrun & _ & Hbus); [by intros [? ? ? ?] ?|reflexivity|exact Hk|reflexivity|reflexivity|].
  exists s', o. split; [exact Hrun|].
  destruct (Hbus eq_refl) as [_ Hb]. specialize (Hb _ Hmain). injection Hb as Hpull _.
  rewrite <- Hpull. reflexivity.
Defined.
